(* ===== verification/_CoqProject ===== *)
-Q . S2P
Prelude.v
RustStr.v
SafeArith.v
LruTimeCache.v
Float64.v
Score.v
External.v
RpcTypes.v
Wire.v
Codec.v
CodecProps.v
Client.v
Metrics.v
PeerInfo.v
Topics.v
PeerDB.v
PeerDBInv.v
PeerDBProps.v
Ranking.v
SubnetPruning.v
PeerManager.v
PeerManagerInv.v
PeerManagerProps.v
PeerMetrics.v
RateLimiter.v
RpcConfig.v
NetConfig.v
EnrRecords.v
Discovery.v
DiscoveryProps.v
SelfLimiter.v
DelayQueue.v
GossipCache.v
Handler.v
HandlerInv.v
Display.v
RpcBehaviour.v
Service.v
ServiceProps.v
SharedTypes.v
Keys.v
Bundler.v
IpText.v
Nat.v
UnusedPort.v
Router.v
TaskExecutor.v
Manager.v
ManagerProps.v
Cli.v
CliProps.v
Labels.v
