(* ===== verification/Prelude.v ===== *)
(** * Verification of the Voltaire peer-to-peer layer

    Voltaire is an ERC-4337 bundler. Its Rust half, under [src/voltaire_p2p],
    is a libp2p node: it discovers and scores peers, talks request/response RPC
    with them, gossips user operations, and hands both to the Python bundler.
    This library models the parts of it that decide something and proves what
    makes them correct. Paths below are relative to
    [src/voltaire_p2p/p2p_network/src] unless they name another crate.
    The crates [p2p_network], [network_manager] and the executable [src/main.rs]
    build on each other in this order, and so do the files below.

    ** Parts and files

    - [Prelude]: this file. Rust's [Result], panics ([outcome]), [Poll],
      integer types at their width with wrapping, checked and saturating
      operations, clocks in nanoseconds, the iteration order of hash maps as the
      classes [MapIter] and [SetIter] (any permutation), sums and counts over
      maps, tactics and the hint database [voltaire].
    - [RustStr]: the string functions the program uses.
    - [Float64]: [f64] and [f32] as IEEE 754 specification floats.
    - [External]: the types of libp2p, discv5 and SSZ as a class.
    - [SafeArith]: the crate [safe_arith] (checked arithmetic and sums).
    - [LruTimeCache]: the crate [lru_cache].
    - [RpcTypes]: [rpc/methods.rs], [rpc/protocol.rs], [rpc/outbound.rs].
    - [Wire], [Codec], [CodecProps]: the wire formats the codec is built on, as
      classes; [rpc/codec/mod.rs], [base.rs] and [ssz_snappy.rs]; what is read
      back from what was written.
    - [RateLimiter], [RpcConfig]: [rpc/rate_limiter.rs] and [rpc/config.rs].
    - [SelfLimiter]: [rpc/self_limiter.rs].
    - [DelayQueue], [Handler], [HandlerInv]: the interface of
      [tokio_util]'s delay queue, the connection handler [rpc/handler.rs], and
      its correctness.
    - [Display]: the textual forms of requests, responses and errors, and what
      the handler writes to the log when it drops a response.
    - [RpcBehaviour]: [rpc/mod.rs], which sits between the application, the
      limiters and the handlers.
    - [Score], [Client], [PeerInfo], [PeerDB], [PeerDBInv], [PeerDBProps]:
      [peer_manager/peerdb/score.rs], [client.rs], [peer_info.rs],
      [types/subnet.rs] and [peer_manager/peerdb.rs], the latter with its
      invariant and its histories.
    - [Ranking]: the listings of [peerdb.rs] that are sorted by score.
    - [SubnetPruning]: the part of [prune_excess_peers] in [peer_manager/mod.rs]
      that prunes by subnets.
    - [PeerManager], [PeerManagerInv], [PeerManagerProps]:
      [peer_manager/mod.rs], [network_behaviour.rs], [config.rs] and the peer
      counts of [types/globals.rs], on top of the database and the cache of
      [LruTimeCache]; the invariant of the manager, and its theorems.
    - [Topics], [GossipCache]: [types/topics.rs], [types/pubsub.rs], the topic
      whitelist of [service/utils.rs], and [service/gossip_cache.rs].
    - [NetConfig]: [config.rs] and [listen_addr.rs].
    - [EnrRecords], [Discovery], [DiscoveryProps]: [discovery/enr.rs],
      [enr_ext.rs] and [discovery/mod.rs]; the invariant of the query queue and
      its progress.
    - [Service], [ServiceProps]: [service/mod.rs], [api_types.rs],
      [behaviour.rs] and the metadata file of [utils.rs]: the network, which
      composes the gossip, RPC, discovery and peer manager models above; its
      theorems are about the composition.
    - [SharedTypes]: the crate [types], the parameters of
      [service/gossipsub_scoring_parameters.rs] and the file of the node key
      of [service/utils.rs].
    - [Keys]: the conversions between key formats, peer ids and node ids of
      [discovery/enr_ext.rs], and keys given as text in [service/utils.rs].
    - [UnusedPort], [TaskExecutor]: the crates [unused_port] and
      [task_executor], the latter with its gauges.
    - [Metrics], [PeerMetrics]: the crate [lighthouse_metrics], the metrics every
      crate declares in its [metrics.rs] with the functions that update them, and what
      the peer manager reports about peers, scores and connections.
    - [Labels]: the labels under which reports and errors are counted, the peer manager's
      counting of them, and the texts of logs and of dial errors.
    - [Bundler], [Nat], [Router], [Manager], [ManagerProps]: the crate
      [network_manager], that is [main_bundler.rs], [nat.rs], [router.rs] with
      [status.rs], and the loop of [service.rs], which composes them with the
      network of [Service].
    - [IpText], [Cli], [CliProps]: IP addresses as text; [src/cli_args.rs] and
      [src/main.rs].

    ** How the parts interact

    The network polls its behaviours one at a time and hands the event of one
    to the others: an RPC message becomes an event for the application or a
    call of the peer manager, a peer manager event becomes a discovery query, a
    ping, a goodbye or an entry of the block list, a discovery result a call of the
    peer manager. [Service.swarm_turn] is one such step and runs the models of
    [RpcBehaviour], [PeerManager] and [Discovery]. The peer database
    behind a lock of the code is the one the peer manager model holds, passed to the other parts
    for reading. The RPC behaviour drives one [Handler] per
    connection, which reads and writes through the [Codec]: a response is
    sent by polling a future that runs the encoder, so a panic of the encoder is a panic
    of the handler's poll. The encoder is [unreachable!] for metadata on another protocol;
    the network sends metadata only where a peer requested them.

    The network manager is a task that waits at once for the bundler's socket,
    its channel, events of the network and the UPnP task. A step of it
    ([Manager.manager_step]) completes one of these branches: an event of the
    network goes to the router, which answers with messages for the channel; a
    message of the channel becomes a call of the network or a message to the
    bundler, whose answer is awaited before anything else happens. The executable
    builds the configuration from the command line ([Cli.main_config]), with ports
    from [UnusedPort], and starts the manager on the [TaskExecutor], whose
    monitors ask for a shutdown when a task panics.

    ** How the code is represented

    A struct is a record with the same fields, an enum an inductive type with
    the same variants, a method a function from the state to the result and the
    new state. [Result] is [result]; code that can panic returns [outcome], and
    that it does not is a theorem. Unsigned and signed integers are [Z] with
    [wrap], [checked] and [saturate] at their width. [Instant] and [Duration]
    are nanoseconds; each reading of the clock is an argument. What becomes of an attempt
    to write a file ([WriteAttempt]: not created, emptied and written in part, written) and
    what the operating system says of the current directory are arguments too. A [HashMap] is a
    [gmap]; where the code iterates over one, the order is that of a [MapIter],
    about which nothing but that it is a permutation is known. Logging
    and wakers are left out. What an operation reports to the metrics is modelled beside it, by
    a version that takes the metrics as well ([established_metered], [handle_rpc_error_metered]), and
    changes nothing else. What streams, timers and other libraries
    report is an argument of the operation that asks for it, so theorems hold
    for whatever they report. A library whose results matter is a class
    with the functions the code calls and the documented behaviour it relies
    on, and has a concrete instance that the examples run on: the formats of
    [Wire] (varints, snappy frames, SSZ), raw snappy in [Topics], the delay queue, the node
    records ([EnrLib]), discv5 and its cache of records, gossipsub and the block list
    in [Service], key pairs ([Secp256k1]), their formats and identifiers ([KeyLib]),
    hexadecimal text ([HexLib]), the registry and the families of metrics ([Prometheus]) and powers of
    floats ([PowLib]), the serialisation of messages to the
    bundler ([Pickle]), the internet gateway ([IgdLib]), the text of peer ids and
    of addresses ([PeerIdText], [AddrText]) and of debug output ([DebugText]).
    The parsing of a command line by clap is a relation ([get_matches])
    between what was given and the matches, for the arguments [cli_app] declares.

    ** What is proved

    - Rate limiting ([RateLimiter], [RpcConfig], [SelfLimiter]): over any window
      of any run a key is granted at most its bucket plus what the window
      replenishes; a refusal names the exact time of acceptance; pruning is
      invisible; protocols are independent; configuration strings
      round-trip; delayed requests are neither lost nor duplicated and each
      delayed queue has exactly one timer.
    - RPC codec ([CodecProps]): requests and sequences of responses are read
      back as they were written, however the bytes are cut into reads; nothing
      a peer sends makes a decoder panic; a length outside the limits is
      refused before the payload is read.
    - Connection handler ([HandlerInv]): the states of a connection are those
      reachable by the step relation [conn_step]. In each of them every request is
      accounted for, at most eight dials and 32 inbound substreams exist, and
      shutdown only moves forward; where metadata are sent only on substreams
      on which they were requested ([conn_served]), polling does not panic. Two theorems
      show how retried dials leak slots and how a deactivated handler still
      stores a negotiated substream.
    - RPC behaviour ([RpcBehaviour]): what becomes of inbound and submitted
      requests, and the order in which actions leave.
    - Peer scores ([Score]): how many errors disconnect and ban, how long a ban
      lasts under any history, and that scores stay in range.
    - Peer database ([PeerDBInv], [PeerDBProps]): with scoring enabled counters
      are right in every reachable state, disconnecting prunes to the limits, what a
      report does, trusted peers are left alone, a fatal report bans other peers
      until twelve hours after the last update of their score, under any sequence of
      operations; and the two ways the counters drift.
    - Peer manager ([PeerManagerInv], [PeerManagerProps]): in every reachable
      state no operation panics, connections stay within their limit and every
      connected peer is pinged; pruning keeps the target numbers of
      peers and takes the worst first; a ban travels from the report to the swarm; discovery does not
      queue too many dials; what the limits computed in single precision are;
      and two cases in which the manager does less than its comments say.
    - Listings ([Ranking]): the best peers are listed from the highest score to
      the lowest, each once, and the best peer is the first of them.
    - Metrics ([Metrics], [PeerMetrics], [Labels]): every metric can be registered, in
      any order; the gauges of peers agree with the database after an update and the
      score distribution with the ranking; when the node counts as reachable; an RPC error is
      counted once, under labels that tell its kind; how connections are counted twice and
      the gauges of transports drift.
    - Gossip ([Topics], [GossipCache]): which topic strings are decoded, that
      every topic of the whitelist is, that messages round-trip and their size is
      bounded; the two indices of the cache agree in every reachable state,
      and the cache of the program stays empty.
    - Configuration ([NetConfig]): the tests for globally reachable addresses
      are membership in tables of address blocks; the settings of a listening
      address; every gossip preset is a valid configuration.
    - Discovery ([EnrRecords], [DiscoveryProps]): a record keeps its sequence number
      or takes the next one and survives a restart; in every reachable state one
      query for peers is active at most and every subnet is queued at most
      once; the queue loop ends; a completed query makes room for the next.
    - Network ([ServiceProps]): in every state reachable from the creation of
      the network every call and every poll returns, and the invariants of the
      parts hold; answers are neither invented nor duplicated between a
      connection and the application, and pings and metadata requests are answered; bans
      reach the block list and discovery in their order; a message is
      published once; the node listens on one address; the metadata
      survive a restart.
    - Network manager ([Bundler], [Nat], [ManagerProps]): from its start no step panics
      as long as the bundler serves it, and a step panics exactly when it does not;
      a peer's request reaches the bundler and its answer the peer, a request of
      the bundler reaches the peer and its response, unless it is a status, the bundler; which bytes of a
      message are read, for any order of arrival; when an accepted connection is lost;
      mappings reported as established are in the gateway's table.
    - Command line ([CliProps]): the listening addresses are those of a reference
      definition, but for the port after 65535; ports asked for with
      [--zero-ports] differ from each other; which flags have no effect; the
      addresses of the record; when the program starts at all.
    - Task executor ([TaskExecutor]): the gauges count the running tasks and what
      is lost; each panic of a monitored task becomes one shutdown request.
    - Keys, types and texts ([SharedTypes], [Keys], [Display], [Labels], [SubnetPruning]): the node
      keeps its key over restarts as long as it can read the file, and what happens when it cannot; its peer id, record and node id belong to one key, whichever way they are
      computed; names of presets and subnets can be read back;
      formatting a response panics in one case only; pruning by
      subnets ends and respects its minima.
    - Libraries ([SafeArith], [LruTimeCache]): checked operations agree with the
      machine's, the cache implements a map of insertion times,
      and ports that are asked for within its time to live are different.

    ** Bounds and fuel

    The loops of [shrink_to_fit] take the counters they decrease as fuel; the
    theorems show that the loop conditions are false at the end. The queue loop
    of the discovery takes the number of queued queries, and
    [process_queue_terminates] shows that it is enough. The display of a gossip
    kind calls itself without end in the code; its model takes fuel and is
    shown to return for no fuel ([kind_display_diverges]). Pruning by subnets takes one
    more than the number of entries of the subnets, which [subnet_pruning_ends]
    shows to be enough. A poll of the network or of the
    discovery recurs over the list of what the libraries report
    in it. The other loops are structural recursions over the collection the code iterates
    over. Counting theorems assume that fewer than [2^64 - 1] peers are
    stored and that at most 500 peers are configured as trusted; limiter theorems
    assume that times stay below [2^64] nanoseconds, which is 584 years.

    ** What is not modelled

    Counters that the service, discovery and the manager increment while they handle an event, since
    nothing reads them; the construction of the transport and of the
    runtime; what macros derive (serialisers, tree hashes) other than the names used as labels;
    the texts of floats; the function [dial_cached_enrs_in_subnet], which nothing calls and which selects
    no record; and code that is only compiled for tests. *)

From stdpp Require Export gmap list strings.
From Stdlib Require Export ZArith Lia Sorted.

#[global] Open Scope Z_scope.

(** ** Results, panics and the [?] operator *)

(** Rust's [Result<A, E>]. *)
Inductive result (A E : Type) : Type :=
| Ok (a : A)
| Err (e : E).
Arguments Ok {A E} a.
Arguments Err {A E} e.

(** The outcome of code that can call [panic!], [unreachable!], [todo!],
    [expect] or [unwrap] on a missing value. *)
Inductive outcome (A : Type) : Type :=
| Ret (a : A)
| Panic (msg : string).
Arguments Ret {A} a.
Arguments Panic {A} msg.

(** [Poll<A>] of [std::task]. *)
Inductive poll (A : Type) : Type :=
| Ready (a : A)
| Pending.
Arguments Ready {A} a.
Arguments Pending {A}.

Declare Scope rust_scope.
Delimit Scope rust_scope with rust.

Notation "x '<-?' e ';' k" :=
  (match e with Ok x => k | Err err => Err err end)
  (at level 100, e at next level, right associativity) : rust_scope.
Notation "x '<-!' e ';' k" :=
  (match e with Ret x => k | Panic msg => Panic msg end)
  (at level 100, e at next level, right associativity) : rust_scope.
#[global] Open Scope rust_scope.

Definition is_ok {A E} (r : result A E) : bool :=
  match r with Ok _ => true | Err _ => false end.

Definition is_ret {A} (o : outcome A) : bool :=
  match o with Ret _ => true | Panic _ => false end.

(** [Option::ok_or]. *)
Definition ok_or {A E} (o : option A) (e : E) : result A E :=
  match o with Some a => Ok a | None => Err e end.

(** [Result::map] and [Result::map_err]. *)
Definition result_map {A B E} (f : A -> B) (r : result A E) : result B E :=
  match r with Ok a => Ok (f a) | Err e => Err e end.
Definition result_map_err {A E F} (f : E -> F) (r : result A E) : result A F :=
  match r with Ok a => Ok a | Err e => Err (f e) end.

(** [Option::expect]. *)
Definition expect {A} (o : option A) (msg : string) : outcome A :=
  match o with Some a => Ret a | None => Panic msg end.

(** An attempt to write a file, [File::create(path).and_then(|f| f.write_all(data))]:
    [File::create] may fail, or it empties the file and [write_all] fails after some
    bytes, or all is written. *)
Inductive WriteAttempt : Type :=
| CreateFails
| WriteFails (written : nat)
| Written.

(** [Option::or]: the first value present. *)
Definition option_or {A} (o p : option A) : option A :=
  match o with Some _ => o | None => p end.

(** ** Machine integers

    A [w]-bit integer is a [Z] kept in the range of its type. The program is
    built with [cargo build --release], so [+], [-] and [*] wrap. *)

Record int_ty : Type := IntTy { signed : bool; bits : Z }.

Definition u8 : int_ty := IntTy false 8.
Definition u16 : int_ty := IntTy false 16.
Definition u32 : int_ty := IntTy false 32.
Definition u64 : int_ty := IntTy false 64.
Definition u128 : int_ty := IntTy false 128.
Definition usize : int_ty := IntTy false 64.
Definition i8 : int_ty := IntTy true 8.
Definition i16 : int_ty := IntTy true 16.
Definition i32 : int_ty := IntTy true 32.
Definition i64 : int_ty := IntTy true 64.
Definition isize : int_ty := IntTy true 64.

Definition int_min (t : int_ty) : Z :=
  if signed t then - 2 ^ (bits t - 1) else 0.
Definition int_max (t : int_ty) : Z :=
  if signed t then 2 ^ (bits t - 1) - 1 else 2 ^ bits t - 1.

Definition in_range (t : int_ty) (x : Z) : bool :=
  (int_min t <=? x) && (x <=? int_max t).

(** Two's-complement reduction of a value to the type. *)
Definition wrap (t : int_ty) (x : Z) : Z :=
  (x - int_min t) mod 2 ^ bits t + int_min t.

(** [checked_*]: the exact result when it is representable. *)
Definition checked (t : int_ty) (x : Z) : option Z :=
  if in_range t x then Some x else None.

(** [saturating_*]: the exact result clipped to the type. *)
Definition saturate (t : int_ty) (x : Z) : Z :=
  Z.max (int_min t) (Z.min (int_max t) x).

Definition valid_int (t : int_ty) : Prop := 1 <= bits t.

(** [saturating_sub] and [saturating_add] on [usize] and [u64]. *)
Definition saturating_sub (a b : Z) : Z := saturate u64 (a - b).
Definition saturating_add (a b : Z) : Z := saturate u64 (a + b).

(** ** Time

    [Instant] and [Duration] in nanoseconds. The clock readings a function
    makes are arguments of its model. *)

Abbreviation Instant := Z (only parsing).
Abbreviation Duration := Z (only parsing).
Definition from_secs (s : Z) : Duration := s * 1000000000.
Definition as_secs (d : Duration) : Z := d / 1000000000.
(** [Instant::checked_duration_since]. *)
Definition checked_duration_since (now earlier : Instant) : option Duration :=
  if earlier <=? now then Some (now - earlier) else None.

(** ** Iteration order of hash maps and hash sets

    The order in which [HashMap::iter] and [HashSet::iter] yield entries is
    unspecified. A model that iterates takes the order as an interface whose
    law is that every entry comes exactly once. *)

Class MapIter (K V : Type) `{Countable K} := {
  map_iter : gmap K V -> list (K * V);
  map_iter_perm : forall m, Permutation (map_iter m) (map_to_list m);
}.

Class SetIter (A : Type) `{Countable A} := {
  set_iter : gset A -> list A;
  set_iter_perm : forall s, Permutation (set_iter s) (elements s);
}.

Definition canonical_map_iter (K V : Type) `{Countable K} : MapIter K V :=
  {| map_iter := map_to_list; map_iter_perm := fun m => reflexivity _ |}.
Definition canonical_set_iter (A : Type) `{Countable A} : SetIter A :=
  {| set_iter := elements; set_iter_perm := fun s => reflexivity _ |}.

(** [Iterator::min_by_key]: the first of the smallest elements. *)
Fixpoint min_by_key {A} (key : A -> Z) (l : list A) : option A :=
  match l with
  | [] => None
  | a :: l' =>
      match min_by_key key l' with
      | None => Some a
      | Some b => if key a <=? key b then Some a else Some b
      end
  end.

(** [Iterator::position] and [VecDeque::remove] (which returns the element). *)
Fixpoint position {A} (f : A -> bool) (l : list A) : option nat :=
  match l with
  | [] => None
  | a :: l' => if f a then Some 0%nat else S <$> position f l'
  end.
Definition vec_remove {A} (i : nat) (l : list A) : option (A * list A) :=
  match l !! i with Some a => Some (a, delete i l) | None => None end.

(** ** Sums over the values of a map *)

Definition map_sum {K V} `{Countable K} (w : V -> Z) (m : gmap K V) : Z :=
  map_fold (fun _ v s => w v + s) 0 m.

(** The number of entries whose value satisfies a test. *)
Definition map_count {K V} `{Countable K} (f : V -> bool) (m : gmap K V) : Z :=
  map_sum (fun v => if f v then 1 else 0) m.

(** ** Tactics *)

Create HintDb voltaire.

(** Case analysis on the first [match] or [if] of the goal. *)
Ltac case_goal :=
  match goal with
  | |- context [match ?x with _ => _ end] => destruct x eqn:?
  end.

(** Saturating arithmetic. *)
Ltac sat_arith :=
  unfold saturating_sub, saturating_add, saturate, int_min, int_max in *;
  cbn [signed bits u64] in *; lia.

Ltac bool_hyps :=
  repeat match goal with
  | H : (_ && _) = true |- _ => apply andb_prop in H; destruct H
  | H : (_ || _) = false |- _ => apply orb_false_elim in H; destruct H
  | H : negb _ = true |- _ => apply negb_true_iff in H
  | H : negb _ = false |- _ => apply negb_false_iff in H
  | H : (_ <=? _) = true |- _ => apply Z.leb_le in H
  | H : (_ <=? _) = false |- _ => apply Z.leb_gt in H
  | H : (_ <? _) = true |- _ => apply Z.ltb_lt in H
  | H : (_ <? _) = false |- _ => apply Z.ltb_ge in H
  | H : (_ =? _) = true |- _ => apply Z.eqb_eq in H
  | H : (_ =? _) = false |- _ => apply Z.eqb_neq in H
  end.

(** ** Lemmas on machine integers *)

Lemma in_range_spec t x : in_range t x = true <-> int_min t <= x <= int_max t.
Proof. unfold in_range. rewrite andb_true_iff, !Z.leb_le. lia. Qed.

Lemma int_span t : valid_int t -> int_max t - int_min t + 1 = 2 ^ bits t.
Proof.
  unfold valid_int, int_max, int_min. intros Hb. destruct (signed t); [|lia].
  replace (bits t) with (Z.succ (bits t - 1)) at 3 by lia.
  rewrite Z.pow_succ_r by lia. lia.
Qed.

Lemma wrap_id t x : valid_int t -> in_range t x = true -> wrap t x = x.
Proof.
  intros Hv Hx. apply in_range_spec in Hx. pose proof (int_span t Hv).
  unfold wrap. rewrite Z.mod_small by lia. lia.
Qed.

Lemma wrap_in_range t x : valid_int t -> in_range t (wrap t x) = true.
Proof.
  intros Hv. apply in_range_spec. pose proof (int_span t Hv).
  assert (0 < 2 ^ bits t) by (unfold valid_int in Hv; apply Z.pow_pos_nonneg; lia).
  pose proof (Z.mod_pos_bound (x - int_min t) (2 ^ bits t)). unfold wrap. lia.
Qed.

Lemma saturating_sub_spec a b :
  0 <= a < 2 ^ 64 -> 0 <= b -> saturating_sub a b = Z.max 0 (a - b).
Proof. unfold saturating_sub, saturate, int_min, int_max; cbn [signed bits u64]. lia. Qed.

Lemma saturating_add_spec a b :
  0 <= a -> 0 <= b -> a + b < 2 ^ 64 -> saturating_add a b = a + b.
Proof. unfold saturating_add, saturate, int_min, int_max; cbn [signed bits u64]. lia. Qed.

(** ** Lemmas on sums over maps *)

Section map_sum.
Context {K V : Type} `{Countable K}.
Implicit Types (w : V -> Z) (m : gmap K V).

Lemma map_sum_empty w : map_sum w (∅ : gmap K V) = 0.
Proof. unfold map_sum. by rewrite map_fold_empty. Qed.

Lemma map_sum_insert_new w m k v :
  m !! k = None -> map_sum w (<[k := v]> m) = w v + map_sum w m.
Proof.
  intros Hk. unfold map_sum. rewrite map_fold_insert_L; [done| |done].
  intros. lia.
Qed.

Lemma map_sum_delete w m k v :
  m !! k = Some v -> map_sum w m = w v + map_sum w (delete k m).
Proof.
  intros Hk. rewrite <- (insert_delete_id m k v Hk) at 1.
  apply map_sum_insert_new. by rewrite lookup_delete_eq.
Qed.

Lemma map_sum_insert w m k v :
  map_sum w (<[k := v]> m) = map_sum w m + w v - from_option w 0 (m !! k).
Proof.
  destruct (m !! k) as [v0|] eqn:Hk; simpl.
  - rewrite <- insert_delete_eq.
    rewrite map_sum_insert_new by (by rewrite lookup_delete_eq).
    rewrite (map_sum_delete w m k v0 Hk). lia.
  - rewrite map_sum_insert_new by done. lia.
Qed.

Lemma map_sum_delete_eq w m k :
  map_sum w (delete k m) = map_sum w m - from_option w 0 (m !! k).
Proof.
  destruct (m !! k) as [v|] eqn:Hk; simpl.
  - rewrite (map_sum_delete w m k v Hk). lia.
  - rewrite delete_id by done. lia.
Qed.

Lemma map_sum_le w1 w2 m :
  (forall k v, m !! k = Some v -> w1 v <= w2 v) -> map_sum w1 m <= map_sum w2 m.
Proof.
  induction m as [|k v m Hk IH] using map_ind; intros Hle.
  - rewrite !map_sum_empty. lia.
  - rewrite !map_sum_insert_new by done.
    assert (w1 v <= w2 v) by (apply (Hle k); by rewrite lookup_insert_eq).
    assert (map_sum w1 m <= map_sum w2 m); [|lia].
    apply IH. intros k' v' Hk'. apply (Hle k').
    rewrite lookup_insert_ne; [done|congruence].
Qed.

Lemma map_sum_ext w1 w2 m :
  (forall k v, m !! k = Some v -> w1 v = w2 v) -> map_sum w1 m = map_sum w2 m.
Proof.
  intros He. apply Z.le_antisymm; apply map_sum_le; intros k v Hk;
    rewrite (He k v Hk); lia.
Qed.

Lemma map_sum_zero m : map_sum (fun _ => 0) m = 0.
Proof.
  induction m as [|k v m Hk IH] using map_ind; [apply map_sum_empty|].
  rewrite map_sum_insert_new by done. lia.
Qed.

Lemma map_sum_nonneg w m :
  (forall k v, m !! k = Some v -> 0 <= w v) -> 0 <= map_sum w m.
Proof. intros Hw. rewrite <- (map_sum_zero m). by apply map_sum_le. Qed.

Lemma map_sum_size m : map_sum (fun _ => 1) m = Z.of_nat (size m).
Proof.
  induction m as [|k v m Hk IH] using map_ind.
  - by rewrite map_sum_empty, map_size_empty.
  - rewrite map_sum_insert_new, map_size_insert_None by done. lia.
Qed.

Lemma map_count_bounds (f : V -> bool) m : 0 <= map_count f m <= Z.of_nat (size m).
Proof.
  split.
  - apply map_sum_nonneg. intros. case_match; lia.
  - rewrite <- map_sum_size. apply map_sum_le. intros. case_match; lia.
Qed.

(** A positive count has a witness. *)
Lemma map_count_pos (f : V -> bool) m :
  0 < map_count f m -> exists k v, m !! k = Some v /\ f v = true.
Proof.
  unfold map_count.
  induction m as [|k v m Hk IH] using map_ind; [rewrite map_sum_empty; lia|].
  rewrite map_sum_insert_new by done. destruct (f v) eqn:Hf; intros Hpos.
  - exists k, v. by rewrite lookup_insert_eq.
  - destruct IH as (k' & v' & Hk' & Hf'); [lia|]. exists k', v'.
    rewrite lookup_insert_ne; [done|congruence].
Qed.
End map_sum.

(** ** Lemmas on filtered lists and on maps *)

Lemma filter_all {A} (P : A -> Prop) `{!forall x, Decision (P x)} (l : list A) :
  Forall P l -> filter P l = l.
Proof. induction 1; [done|]. rewrite filter_cons_True by done. by f_equal. Qed.

Lemma filter_none {A} (P : A -> Prop) `{!forall x, Decision (P x)} (l : list A) :
  Forall (fun x => ¬ P x) l -> filter P l = [].
Proof. induction 1; [done|]. by rewrite filter_cons_False. Qed.

Lemma map_eq_Some {K V} `{Countable K} (m1 m2 : gmap K V) :
  (forall k v, m1 !! k = Some v <-> m2 !! k = Some v) -> m1 = m2.
Proof. intros Hm. apply map_eq. intros k. apply option_eq. auto. Qed.

Lemma StronglySorted_filter {A} (R : A -> A -> Prop) (P : A -> Prop)
    `{!forall x, Decision (P x)} (l : list A) :
  StronglySorted R l -> StronglySorted R (filter P l).
Proof.
  induction 1 as [|a l Hl IH Ha]; [constructor|]. rewrite filter_cons.
  case_decide; [|done]. constructor; [done|]. apply Forall_forall.
  intros x [_ Hx]%list_elem_of_filter. by rewrite Forall_forall in Ha; apply Ha.
Qed.

Lemma StronglySorted_snoc {A} (R : A -> A -> Prop) (l : list A) a :
  StronglySorted R l -> Forall (fun x => R x a) l -> StronglySorted R (l ++ [a]).
Proof.
  induction 1 as [|x l Hl IH Hx]; intros Ha; simpl; [repeat constructor|].
  inversion Ha; subst. constructor; [auto|]. apply Forall_app. auto.
Qed.

Lemma StronglySorted_remove {A} (R : A -> A -> Prop) (l1 l2 : list A) a :
  StronglySorted R (l1 ++ a :: l2) -> StronglySorted R (l1 ++ l2).
Proof.
  induction l1 as [|x l1 IH]; simpl; inversion 1; subst; [done|].
  constructor; [auto|]. rewrite Forall_app, Forall_cons in *. naive_solver.
Qed.

(** ** Lemmas on [position] and [vec_remove] *)

Lemma position_Some {A} (f : A -> bool) l i :
  position f l = Some i ->
  exists l1 a l2, l = l1 ++ a :: l2 /\ f a = true /\
    vec_remove i l = Some (a, l1 ++ l2).
Proof.
  revert i. induction l as [|x l IH]; simpl; intros i Hi; [done|].
  destruct (f x) eqn:Hf; simplify_eq.
  - exists [], x, l. done.
  - destruct (position f l) as [j|] eqn:Hj; simplify_eq/=.
    destruct (IH j eq_refl) as (l1 & a & l2 & -> & Ha & Hr).
    exists (x :: l1), a, l2. split_and!; [done|done|].
    unfold vec_remove in *. simpl. destruct ((l1 ++ a :: l2) !! j); [|done].
    injection Hr as -> <-. done.
Qed.

Lemma position_is_Some {A} (f : A -> bool) l a :
  a ∈ l -> f a = true -> is_Some (position f l).
Proof.
  induction l as [|x l IH]; intros Ha Hf; [inversion Ha|]. simpl.
  destruct (f x) eqn:Hx; [eauto|]. apply elem_of_cons in Ha as [->|Ha]; [congruence|].
  destruct (IH Ha Hf) as [j ->]. simpl. eauto.
Qed.

Lemma position_None {A} (f : A -> bool) l :
  position f l = None -> forall a, a ∈ l -> f a = false.
Proof.
  intros Hn a Ha. destruct (f a) eqn:Hf; [|done].
  destruct (position_is_Some f l a Ha Hf) as [i Hi]. congruence.
Qed.

(** ** Lemmas on [min_by_key] *)

Lemma min_by_key_None {A} (key : A -> Z) l : min_by_key key l = None <-> l = [].
Proof. destruct l; simpl; [done|]. repeat case_match; done. Qed.

Lemma min_by_key_Some {A} (key : A -> Z) l a :
  min_by_key key l = Some a -> a ∈ l /\ forall b, b ∈ l -> key a <= key b.
Proof.
  revert a. induction l as [|x l IH]; simpl; intros a Ha; [done|].
  destruct (min_by_key key l) as [b|] eqn:Hb.
  - destruct (IH b eq_refl) as [Hin Hmin].
    destruct (key x <=? key b) eqn:Hle; simplify_eq; bool_hyps.
    + split; [set_solver|]. intros c [->|Hc]%elem_of_cons; [lia|].
      specialize (Hmin c Hc). lia.
    + split; [set_solver|]. intros c [->|Hc]%elem_of_cons; [lia|auto].
  - apply min_by_key_None in Hb as ->. simplify_eq. split; [set_solver|].
    intros b Hb. set_unfold. naive_solver lia.
Qed.

(** ** Lemmas on iteration *)

Section iteration.
Context {K V : Type} `{Countable K} `{!MapIter K V}.
Implicit Types m : gmap K V.

Lemma map_iter_fst_NoDup m : NoDup (map fst (map_iter m)).
Proof. rewrite (map_iter_perm m : Permutation _ _). apply NoDup_fst_map_to_list. Qed.

Lemma elem_of_map_iter m k v : (k, v) ∈ map_iter m <-> m !! k = Some v.
Proof. rewrite (map_iter_perm m : Permutation _ _). apply elem_of_map_to_list. Qed.
End iteration.

(** More entries pass [f] than [g]: one passes [f] only. *)
Lemma map_count_lt {K V} `{Countable K} (f g : V -> bool) (m : gmap K V) :
  map_count g m < map_count f m ->
  exists k v, m !! k = Some v /\ f v = true /\ g v = false.
Proof.
  intros Hlt. destruct (decide (0 < map_count (fun v => f v && negb (g v)) m)) as [Hpos|Hpos].
  - apply map_count_pos in Hpos as (k & v & Hk & Hv). exists k, v. apply andb_prop in Hv as [? Hg].
    by apply negb_true_iff in Hg.
  - exfalso. assert (map_count f m <= map_count g m); [|lia]. apply map_sum_le. intros k v Hk.
    destruct (f v) eqn:Hf, (g v) eqn:Hg; try lia. exfalso. apply Hpos.
    unfold map_count. rewrite (map_sum_delete _ m k v Hk), Hf, Hg. simpl.
    pose proof (map_count_bounds (fun v => f v && negb (g v)) (delete k m)) as Hb.
    unfold map_count in Hb. lia.
Qed.

Lemma map_count_none {K V} `{Countable K} (f : V -> bool) (m : gmap K V) :
  (forall k v, m !! k = Some v -> f v = false) -> map_count f m = 0.
Proof.
  intros Hf. unfold map_count. rewrite (map_sum_ext _ (fun _ => 0)); [apply map_sum_zero|].
  intros k v Hk. by rewrite (Hf k v Hk).
Qed.

(** Maps with the same keys and alike values have the same counts. *)
Lemma map_count_pointwise {K V} `{Countable K} (f : V -> bool) (m m' : gmap K V) :
  dom m = dom m' ->
  (forall k v v', m' !! k = Some v -> m !! k = Some v' -> f v = f v') ->
  map_count f m = map_count f m'.
Proof.
  revert m. induction m' as [|k v m' Hk IH] using map_ind; intros m Hdom Hf.
  - rewrite dom_empty_L in Hdom. apply dom_empty_inv_L in Hdom as ->. done.
  - assert (Hin : k ∈ dom m) by (rewrite Hdom, dom_insert_L; set_solver).
    apply elem_of_dom in Hin as [v' Hv']. unfold map_count.
    rewrite (map_sum_delete _ m k v' Hv'), map_sum_insert_new by done.
    rewrite <- (Hf k v v') by (rewrite ?lookup_insert_eq; done). f_equal.
    apply (IH (delete k m)).
    + rewrite dom_delete_L, Hdom, dom_insert_L. apply not_elem_of_dom in Hk. set_solver.
    + intros j w w' Hw [Hne Hw']%lookup_delete_Some. apply (Hf j); [|done].
      by rewrite lookup_insert_ne.
Qed.

(** *** Unsigned 64-bit values *)
Lemma wrap_u64_id x : 0 <= x < 2 ^ 64 -> wrap u64 x = x.
Proof.
  intros Hx. apply wrap_id; [unfold valid_int; simpl; lia|].
  apply in_range_spec. unfold int_min, int_max; cbn [signed bits u64]. lia.
Qed.

(** Counting as a filter, and counts of maps with fewer hits. *)
Lemma map_count_size {K V} `{Countable K} (f : V -> bool) (m : gmap K V) :
  map_count f m = Z.of_nat (size (filter (fun e => f e.2 = true) m)).
Proof.
  induction m as [|k v m Hk IH] using map_ind; [done|].
  unfold map_count in *. rewrite map_sum_insert_new by done. rewrite IH.
  assert (Hf : filter (fun e : K * V => f e.2 = true) m !! k = None)
    by (rewrite map_lookup_filter, Hk; done).
  destruct (f v) eqn:Hv.
  - rewrite map_filter_insert_True by done. rewrite map_size_insert_None by done. lia.
  - rewrite map_filter_insert_False by (simpl; congruence). rewrite delete_id by done. lia.
Qed.

Lemma map_count_le_subset {K V} `{Countable K} (f : V -> bool) (m m' : gmap K V) :
  (forall k v', m' !! k = Some v' -> f v' = true -> exists v, m !! k = Some v /\ f v = true) ->
  map_count f m' <= map_count f m.
Proof.
  intros Hsub. rewrite !map_count_size, <- !size_dom. apply Nat2Z.inj_le, subseteq_size.
  intros k (v' & Hv)%elem_of_dom. apply map_lookup_filter_Some in Hv as [Hv Hf].
  destruct (Hsub k v' Hv Hf) as (v & Hk & Hfv). apply elem_of_dom. exists v.
  by apply map_lookup_filter_Some.
Qed.

Lemma length_filter_iter {K V} `{Countable K} `{!MapIter K V} (f : V -> bool) (m : gmap K V) :
  Z.of_nat (length (filter (fun e => f e.2 = true) (map_iter m))) = map_count f m.
Proof.
  rewrite (map_iter_perm m : Permutation _ _).
  induction m as [|k v m Hk IH] using map_ind; [done|].
  rewrite map_to_list_insert by done. unfold map_count in *. rewrite map_sum_insert_new by done.
  rewrite filter_cons. simpl. case_decide as Hd; [rewrite Hd; simpl; lia|].
  apply not_true_is_false in Hd. rewrite Hd. lia.
Qed.

#[export] Hint Resolve map_sum_nonneg min_by_key_Some : voltaire.
#[export] Hint Rewrite @map_sum_empty @map_sum_insert : voltaire.

Lemma elem_of_option_list {A} (o : option A) a : a ∈ option_list o <-> o = Some a.
Proof.
  destruct o as [b|]; cbn; [|split; [by intros []%not_elem_of_nil|done] ].
  rewrite list_elem_of_singleton. naive_solver.
Qed.
