(* ===== verification/RustStr.v ===== *)
(** * Strings of the standard library

    What the program uses of [str], [u64] and [Duration]: splitting, decimal
    printing and parsing, and the [Debug] form of a duration. A string is its
    list of UTF-8 bytes. *)

From Stdlib Require Import Ascii String.
From Stdlib.Init Require Import Byte.
From S2P Require Import Prelude.

(** [str::as_bytes]. *)
Definition as_bytes (s : string) : list Byte.byte := list_byte_of_string s.
(** The bytes of a valid UTF-8 sequence as a string. *)
Definition string_of_bytes (b : list Byte.byte) : string := string_of_list_byte b.

(** [str::split_once] with a character. *)
Fixpoint split_once (c : ascii) (s : string) : option (string * string) :=
  match s with
  | EmptyString => None
  | String a s' =>
      if Ascii.eqb a c then Some (EmptyString, s')
      else match split_once c s' with
           | Some (l, r) => Some (String a l, r)
           | None => None
           end
  end.

(** [str::split] with a character: always at least one part. *)
Fixpoint split (c : ascii) (s : string) : list string :=
  match s with
  | EmptyString => [EmptyString]
  | String a s' =>
      if Ascii.eqb a c then EmptyString :: split c s'
      else match split c s' with
           | p :: ps => String a p :: ps
           | [] => [String a EmptyString]
           end
  end.

(** [[String]::join]. *)
Fixpoint join (c : ascii) (ps : list string) : string :=
  match ps with
  | [] => EmptyString
  | [p] => p
  | p :: ps' => p +:+ String c (join c ps')
  end.

(** Decimal digits. *)
Definition digit_char (d : Z) : ascii := ascii_of_N (Z.to_N (48 + d)).
Definition char_digit (c : ascii) : option Z :=
  let n := Z.of_N (N_of_ascii c) in
  if (48 <=? n) && (n <=? 57) then Some (n - 48) else None.

Fixpoint dec_digits (fuel : nat) (n : Z) (acc : string) : string :=
  match fuel with
  | O => acc
  | S f =>
      let acc' := String (digit_char (n mod 10)) acc in
      if n / 10 =? 0 then acc' else dec_digits f (n / 10) acc'
  end.

(** [Display] of an unsigned integer; 40 digits hold every [u128]. *)
Definition dec (n : Z) : string := dec_digits 40 n "".

(** [str::parse] for an unsigned type with greatest value [max]: an optional
    [+], then at least one digit; [None] on overflow or any other character. *)
Fixpoint parse_digits (max : Z) (s : string) (acc : Z) : option Z :=
  match s with
  | EmptyString => Some acc
  | String c s' =>
      match char_digit c with
      | Some d => if acc * 10 + d <=? max then parse_digits max s' (acc * 10 + d) else None
      | None => None
      end
  end.
Definition parse_unsigned (max : Z) (s : string) : option Z :=
  match s with
  | EmptyString => None
  | String "+"%char EmptyString => None
  | String "+"%char s' => parse_digits max s' 0
  | _ => parse_digits max s 0
  end.
Definition parse_u64 : string -> option Z := parse_unsigned (int_max u64).

(** [Debug] of a [Duration]: the largest unit with a non-zero integral part,
    with the fraction's trailing zeros dropped. [frac n w] are the [w]
    digits of [n] after the point. *)
Fixpoint pad_digits (w : nat) (n : Z) (acc : string) : string :=
  match w with
  | O => acc
  | S w' => pad_digits w' (n / 10) (String (digit_char (n mod 10)) acc)
  end.
Fixpoint drop_zeros (w : nat) (n : Z) : nat * Z :=
  match w with
  | O => (O, n)
  | S w' => if n mod 10 =? 0 then drop_zeros w' (n / 10) else (w, n)
  end.
Definition frac (n : Z) (w : nat) : string :=
  let '(w', n') := drop_zeros w n in
  match w' with O => "" | _ => "." +:+ pad_digits w' n' "" end.

(** The micro sign takes the two bytes [C2 B5]. *)
Definition micro_sign : string := String (ascii_of_nat 194) (String (ascii_of_nat 181) "").

Definition duration_debug (d : Duration) : string :=
  let secs := d / 1000000000 in
  let nanos := d mod 1000000000 in
  if 0 <? secs then dec secs +:+ frac nanos 9 +:+ "s"
  else if 1000000 <=? nanos then dec (nanos / 1000000) +:+ frac (nanos mod 1000000) 6 +:+ "ms"
  else if 1000 <=? nanos then dec (nanos / 1000) +:+ frac (nanos mod 1000) 3 +:+ micro_sign +:+ "s"
  else dec nanos +:+ "ns".

Example duration_debug_demo :
  map duration_debug [0; 100; 1500; 2500000; 400000000; 1000000000; 12340000000] =
  ["0ns"; "100ns"; "1.5" +:+ micro_sign +:+ "s"; "2.5ms"; "400ms"; "1s"; "12.34s"].
Proof. vm_compute. reflexivity. Qed.

(** Whether a character occurs. *)
Fixpoint str_mem (c : ascii) (s : string) : bool :=
  match s with
  | EmptyString => false
  | String a s' => Ascii.eqb a c || str_mem c s'
  end.

(** ** Lemmas *)

Lemma str_app_assoc (a b c : string) : (a +:+ b) +:+ c = a +:+ (b +:+ c).
Proof.
  induction a as [|x a IH]; [done|].
  change (String x ((a +:+ b) +:+ c) = String x (a +:+ (b +:+ c))). by rewrite IH.
Qed.

Lemma str_mem_app c a b : str_mem c (a +:+ b) = str_mem c a || str_mem c b.
Proof. induction a as [|x a IH]; simpl; [done|]. by rewrite IH, orb_assoc. Qed.

Lemma split_once_app c a b :
  str_mem c a = false -> split_once c (a +:+ String c b) = Some (a, b).
Proof.
  induction a as [|x a IH]; simpl; intros Ha.
  - by rewrite Ascii.eqb_refl.
  - apply orb_false_elim in Ha as [-> Ha]. by rewrite IH.
Qed.

Lemma split_once_None c a : str_mem c a = false -> split_once c a = None.
Proof.
  induction a as [|x a IH]; simpl; intros Ha; [done|].
  apply orb_false_elim in Ha as [-> Ha]. by rewrite IH.
Qed.

(** [split_once] splits at the first separator. *)
Lemma split_once_Some c s l r :
  split_once c s = Some (l, r) <-> s = l +:+ String c r /\ str_mem c l = false.
Proof.
  split.
  - revert l r. induction s as [|a s IH]; simpl; intros l r Hs; [done|].
    destruct (Ascii.eqb a c) eqn:Ha.
    + simplify_eq. apply Ascii.eqb_eq in Ha as ->. done.
    + destruct (split_once c s) as [[l0 r0]|]; simplify_eq.
      destruct (IH l0 r eq_refl) as [-> Hl]. simpl. by rewrite Ha, Hl.
  - intros [-> Hl]. by apply split_once_app.
Qed.

Lemma split_none c a : str_mem c a = false -> split c a = [a].
Proof.
  induction a as [|x a IH]; simpl; intros Ha; [done|].
  apply orb_false_elim in Ha as [-> Ha]. by rewrite IH.
Qed.

Lemma split_app c a b : str_mem c a = false -> split c (a +:+ String c b) = a :: split c b.
Proof.
  induction a as [|x a IH]; simpl; intros Ha.
  - by rewrite Ascii.eqb_refl.
  - apply orb_false_elim in Ha as [-> Ha]. by rewrite IH.
Qed.

Lemma split_join c p ps :
  Forall (fun q => str_mem c q = false) (p :: ps) -> split c (join c (p :: ps)) = p :: ps.
Proof.
  revert p. induction ps as [|q ps IH]; intros p Hp.
  - simpl. apply split_none. by inversion Hp.
  - inversion Hp as [|? ? Hc Hps]; subst. change (join c (p :: q :: ps)) with (p +:+ String c (join c (q :: ps))).
    rewrite split_app by done. by rewrite IH.
Qed.

Lemma split_spec c s : s = join c (split c s) /\ Forall (fun p => str_mem c p = false) (split c s) /\
  split c s <> [].
Proof.
  induction s as [|a s (Hs & Hf & Hn)]; [repeat constructor; done|]. cbn [split].
  destruct (Ascii.eqb a c) eqn:Ha.
  - apply Ascii.eqb_eq in Ha as ->. split_and!; [|by constructor|done].
    destruct (split c s); [done|]. cbn [join] in *. by rewrite Hs at 1.
  - destruct (split c s) as [|p ps]; [done|]. inversion_clear Hf. split_and!; [| |done].
    + destruct ps; cbn [join] in *; by rewrite Hs at 1.
    + constructor; [cbn; by rewrite Ha|done].
Qed.

(** The parts of a string around a separator are those of its halves. *)
Lemma split_parts c a b : split c (a +:+ String c EmptyString +:+ b) = (split c a ++ split c b)%list.
Proof.
  change (String c EmptyString +:+ b) with (String c b). induction a as [|x a IH]; simpl.
  - by rewrite Ascii.eqb_refl.
  - destruct (Ascii.eqb x c) eqn:Hx; simpl; rewrite IH; [done|].
    destruct (split_spec c a) as (_ & _ & Hn). by destruct (split c a).
Qed.

Lemma char_digit_char d : 0 <= d < 10 -> char_digit (digit_char d) = Some d.
Proof.
  intros Hd. assert (d = 0 \/ d = 1 \/ d = 2 \/ d = 3 \/ d = 4 \/ d = 5 \/ d = 6 \/ d = 7 \/ d = 8 \/ d = 9) by lia.
  intuition subst; reflexivity.
Qed.

(** A string of digits only. *)
Fixpoint all_digits (s : string) : bool :=
  match s with
  | EmptyString => true
  | String c s' => match char_digit c with Some _ => all_digits s' | None => false end
  end.

Lemma all_digits_mem c s : char_digit c = None -> all_digits s = true -> str_mem c s = false.
Proof.
  intros Hc. induction s as [|a s IH]; simpl; intros Hs; [done|].
  destruct (Ascii.eqb a c) eqn:Ha; [apply Ascii.eqb_eq in Ha; subst; by rewrite Hc in Hs|].
  destruct (char_digit a); [by apply IH|done].
Qed.

Lemma dec_digits_all fuel n acc :
  0 <= n -> all_digits acc = true -> all_digits (dec_digits fuel n acc) = true.
Proof.
  revert n acc. induction fuel as [|f IH]; simpl; intros n acc Hn Hacc; [done|].
  assert (Hd : all_digits (String (digit_char (n mod 10)) acc) = true).
  { simpl. rewrite char_digit_char by (apply Z.mod_pos_bound; lia). done. }
  case_match; [done|]. apply IH; [apply Z.div_pos; lia|done].
Qed.

Lemma dec_digits_parse max fuel n acc :
  0 <= n < 10 ^ Z.of_nat fuel -> n <= max -> (0 < fuel)%nat ->
  parse_digits max (dec_digits fuel n acc) 0 = parse_digits max acc n.
Proof.
  revert n acc. induction fuel as [|f IH]; intros n acc Hn Hmax Hf; [lia|]. simpl.
  pose proof (Z.div_mod n 10 ltac:(lia)) as Hdm.
  pose proof (Z.mod_pos_bound n 10 ltac:(lia)) as Hm.
  assert (Hstep : forall a, a * 10 + n mod 10 = n ->
    parse_digits max (String (digit_char (n mod 10)) acc) a = parse_digits max acc n).
  { intros a Ha. cbn [parse_digits]. rewrite char_digit_char by lia. rewrite Ha.
    by assert (n <=? max = true) as -> by (apply Z.leb_le; lia). }
  destruct (n / 10 =? 0) eqn:Hz; bool_hyps.
  - apply Hstep. lia.
  - assert (Hf0 : (0 < f)%nat).
    { destruct f; [|lia]. simpl in Hn. rewrite Z.div_small in Hz; lia. }
    rewrite IH; [apply Hstep; lia| |lia|done].
    split; [apply Z.div_pos; lia|]. apply Z.div_lt_upper_bound; [lia|].
    rewrite Nat2Z.inj_succ, Z.pow_succ_r in Hn by lia. lia.
Qed.

Lemma dec_digits_nonempty fuel n acc : (0 < fuel)%nat -> 
  exists c s, dec_digits fuel n acc = String c s.
Proof.
  revert n acc. induction fuel as [|f IH]; simpl; intros n acc Hf; [lia|].
  case_match; [eauto|]. destruct f; [simpl; eauto|]. apply IH. lia.
Qed.

(** Printing and parsing an unsigned integer. *)
Lemma parse_dec max n : 0 <= n <= max -> n < 10 ^ 40 -> parse_unsigned max (dec n) = Some n.
Proof.
  intros Hn Hlt. unfold dec.
  pose proof (dec_digits_all 40 n "" ltac:(lia) eq_refl) as Hall.
  pose proof (dec_digits_parse max 40 n "" ltac:(split; [lia|exact Hlt]) ltac:(lia) ltac:(lia)) as Hp.
  destruct (dec_digits_nonempty 40 n "" ltac:(lia)) as (c & s & Hs). rewrite Hs in *.
  transitivity (parse_digits max (String c s) 0); [|done].
  simpl in Hall. destruct (char_digit c) eqn:Hc; [|done].
  destruct c as [[] [] [] [] [] [] [] []]; done.
Qed.

Lemma parse_u64_dec n : 0 <= n < 2 ^ 64 -> parse_u64 (dec n) = Some n.
Proof. intros Hn. apply parse_dec; [|lia]. unfold int_max; cbn [signed bits u64]. lia. Qed.

Lemma dec_no_char c n : 0 <= n -> char_digit c = None -> str_mem c (dec n) = false.
Proof. intros Hn Hc. apply all_digits_mem; [done|]. by apply dec_digits_all. Qed.

#[export] Hint Rewrite str_mem_app : voltaire.
#[export] Hint Resolve dec_no_char parse_u64_dec split_once_app : voltaire.
