(* ===== verification/SafeArith.v ===== *)
(** * [safe_arith]: integer arithmetic that reports overflow

    Models [p2p_network/safe_arith/src/lib.rs] (the [SafeArith] trait, its
    default assignment methods and the implementation macro for the ten
    integer types) and [iter.rs] ([SafeArithIter::safe_sum]). The trait is a
    type class; the macro is the instance [impl_safe_arith], one per integer
    type. *)

From S2P Require Import Prelude.

Inductive ArithError : Type := Overflow | DivisionByZero.

#[export] Instance ArithError_eq_dec : EqDecision ArithError.
Proof. solve_decision. Defined.

(** The trait. *)
Class SafeArith (T : Type) := {
  ZERO : T;
  ONE : T;
  safe_add : T -> T -> result T ArithError;
  safe_sub : T -> T -> result T ArithError;
  safe_mul : T -> T -> result T ArithError;
  safe_div : T -> T -> result T ArithError;
  safe_rem : T -> T -> result T ArithError;
  safe_shl : T -> Z -> result T ArithError;
  safe_shr : T -> Z -> result T ArithError;
}.

(** The macro [assign_method!]: [*self = self.op(other)?; Ok(())]. The model
    returns the new value of [self] beside the result. *)
Definition assign_method {T U : Type} (op : T -> U -> result T ArithError)
    (self : T) (other : U) : T * result unit ArithError :=
  match op self other with
  | Ok v => (v, Ok tt)
  | Err e => (self, Err e)
  end.

Section assign.
Context {T : Type} `{SafeArith T}.
Definition safe_add_assign : T -> T -> T * result unit ArithError := assign_method safe_add.
Definition safe_sub_assign : T -> T -> T * result unit ArithError := assign_method safe_sub.
Definition safe_mul_assign : T -> T -> T * result unit ArithError := assign_method safe_mul.
Definition safe_div_assign : T -> T -> T * result unit ArithError := assign_method safe_div.
Definition safe_rem_assign : T -> T -> T * result unit ArithError := assign_method safe_rem.
Definition safe_shl_assign : T -> Z -> T * result unit ArithError := assign_method safe_shl.
Definition safe_shr_assign : T -> Z -> T * result unit ArithError := assign_method safe_shr.

(** [iter.rs]: [self.try_fold(T::ZERO, |acc, x| acc.safe_add(x))]. *)
Fixpoint try_fold_add (acc : T) (l : list T) : result T ArithError :=
  match l with
  | [] => Ok acc
  | x :: l' => acc' <-? safe_add acc x; try_fold_add acc' l'
  end.

Definition safe_sum (l : list T) : result T ArithError := try_fold_add ZERO l.
End assign.

(** [checked_div] and [checked_rem] of the standard library: none for a zero
    divisor and for the one quotient that does not fit, [MIN / -1]. *)
Definition checked_div (t : int_ty) (a b : Z) : option Z :=
  if b =? 0 then None else checked t (Z.quot a b).
Definition checked_rem (t : int_ty) (a b : Z) : option Z :=
  if b =? 0 then None
  else match checked t (Z.quot a b) with Some _ => Some (Z.rem a b) | None => None end.

(** [checked_shl] and [checked_shr]: none when the shift is not smaller than
    the width; bits shifted out are lost. *)
Definition checked_shl (t : int_ty) (a s : Z) : option Z :=
  if s <? bits t then Some (wrap t (Z.shiftl a s)) else None.
Definition checked_shr (t : int_ty) (a s : Z) : option Z :=
  if s <? bits t then Some (Z.shiftr a s) else None.

(** The macro [impl_safe_arith!]. *)
Definition impl_safe_arith (t : int_ty) : SafeArith Z := {|
  ZERO := 0;
  ONE := 1;
  safe_add a b := ok_or (checked t (a + b)) Overflow;
  safe_sub a b := ok_or (checked t (a - b)) Overflow;
  safe_mul a b := ok_or (checked t (a * b)) Overflow;
  safe_div a b := ok_or (checked_div t a b) DivisionByZero;
  safe_rem a b := ok_or (checked_rem t a b) DivisionByZero;
  safe_shl a s := ok_or (checked_shl t a s) Overflow;
  safe_shr a s := ok_or (checked_shr t a s) Overflow;
|}.

(** The types the macro is applied to. *)
Definition safe_arith_types : list int_ty :=
  [u8; u16; u32; u64; usize; i8; i16; i32; i64; isize].

(** Mathematical sum of a list, the reference for [safe_sum]. *)
Definition list_sum_Z (l : list Z) : Z := foldr Z.add 0 l.

(** The partial sums of a list from a start value. *)
Fixpoint prefix_sums (acc : Z) (l : list Z) : list Z :=
  match l with
  | [] => []
  | x :: l' => (acc + x) :: prefix_sums (acc + x) l'
  end.

(** ** Theorems *)

Lemma safe_arith_types_valid t : t ∈ safe_arith_types -> valid_int t.
Proof. unfold safe_arith_types, valid_int. set_unfold. naive_solver lia. Qed.

Lemma ok_or_checked t x : valid_int t ->
  ok_or (checked t x) Overflow = if wrap t x =? x then Ok x else Err Overflow.
Proof.
  intros Hv. unfold checked, ok_or. pose proof (wrap_in_range t x Hv) as Hw.
  destruct (in_range t x) eqn:Hx.
  - rewrite (wrap_id t x Hv Hx), Z.eqb_refl. done.
  - destruct (wrap t x =? x) eqn:He; bool_hyps; congruence.
Qed.

(** [safe_add], [safe_sub] and [safe_mul] return the mathematical result
    exactly when the wrapping machine operation would have computed it, and
    [Overflow] otherwise. *)
Theorem safe_ops_agree_with_machine t a b :
  t ∈ safe_arith_types ->
  let I := impl_safe_arith t in
  safe_add a b = (if wrap t (a + b) =? a + b then Ok (a + b) else Err Overflow) /\
  safe_sub a b = (if wrap t (a - b) =? a - b then Ok (a - b) else Err Overflow) /\
  safe_mul a b = (if wrap t (a * b) =? a * b then Ok (a * b) else Err Overflow).
Proof.
  intros Ht%safe_arith_types_valid I. unfold I. cbn [safe_add safe_sub safe_mul impl_safe_arith].
  by rewrite !ok_or_checked.
Qed.

Lemma quot_in_range t a b :
  valid_int t -> in_range t a = true -> in_range t b = true -> b <> 0 ->
  in_range t (Z.quot a b) = false <-> (signed t = true /\ a = int_min t /\ b = -1).
Proof.
  intros Hv Ha Hb Hb0. apply in_range_spec in Ha, Hb.
  assert (Habs : Z.abs (Z.quot a b) <= Z.abs a).
  { rewrite <- Z.quot_abs by done. apply Z.quot_le_upper_bound; [lia|nia]. }
  assert (Hp : 0 < 2 ^ (bits t - 1)).
  { unfold valid_int in Hv. apply Z.pow_pos_nonneg; lia. }
  unfold in_range, int_min, int_max in *. destruct (signed t) eqn:Hs.
  - generalize dependent (2 ^ (bits t - 1)). intros P Ha Hb Hp. split.
    + intros Hr. rewrite andb_false_iff, !Z.leb_gt in Hr.
      assert (Hq : Z.quot a b = P) by (generalize dependent (Z.quot a b); lia).
      assert (Ha' : a = - P) by (rewrite Hq in Habs; lia). split; [done|split; [done|]].
      destruct (Z.eq_dec b (-1)) as [|Hb1]; [done|].
      destruct (Z.eq_dec b 1) as [->|Hb2]; [rewrite Z.quot_1_r in Hq; lia|].
      assert (Z.abs (Z.quot a b) < Z.abs a).
      { rewrite <- Z.quot_abs by done. apply Z.quot_lt; lia. }
      lia.
    + intros (_ & -> & ->). change (-1) with (Z.opp 1). rewrite Z.quot_opp_r, Z.quot_1_r by lia.
      rewrite andb_false_iff, !Z.leb_gt. lia.
  - split; [|naive_solver]. intros Hr. rewrite andb_false_iff, !Z.leb_gt in Hr.
    assert (0 <= Z.quot a b) by (apply Z.quot_pos; lia). lia.
Qed.

(** [safe_div] on in-range operands: the truncated quotient, and
    [DivisionByZero] for a zero divisor. The same error stands for the one
    overflowing signed division, [MIN / -1]. *)
Theorem safe_div_spec t a b :
  t ∈ safe_arith_types -> in_range t a = true -> in_range t b = true ->
  let I := impl_safe_arith t in
  safe_div a b =
    if (b =? 0) || (signed t && (a =? int_min t) && (b =? -1))
    then Err DivisionByZero else Ok (Z.quot a b).
Proof.
  intros Ht%safe_arith_types_valid Ha Hb I. unfold I.
  cbn [safe_div impl_safe_arith]. unfold checked_div, checked, ok_or.
  destruct (b =? 0) eqn:Hb0; [done|]. bool_hyps. simpl.
  pose proof (quot_in_range t a b Ht Ha Hb Hb0) as Hq.
  destruct (in_range t (Z.quot a b)) eqn:Hr.
  - destruct (signed t && (a =? int_min t) && (b =? -1)) eqn:Hc; [|done].
    bool_hyps. exfalso. assert (true = false) by (apply Hq; auto). done.
  - destruct Hq as [Hq _]. destruct (Hq eq_refl) as (-> & -> & ->).
    rewrite !Z.eqb_refl. done.
Qed.

Lemma safe_div_spec_witness :
  let I := impl_safe_arith i64 in
  safe_div (int_min i64) (-1) = Err DivisionByZero /\ safe_div (-7) 2 = Ok (-3).
Proof.
  split.
  - apply (safe_div_spec i64 (int_min i64) (-1)); [set_solver|done|done].
  - apply (safe_div_spec i64 (-7) 2); [set_solver|done|done].
Defined.

Lemma safe_ops_agree_with_machine_witness :
  let I := impl_safe_arith u8 in safe_add 250 10 = Err Overflow /\ safe_add 250 5 = Ok 255.
Proof.
  split.
  - apply (safe_ops_agree_with_machine u8 250 10). set_solver.
  - apply (safe_ops_agree_with_machine u8 250 5). set_solver.
Defined.

Lemma try_fold_add_spec t acc l :
  @try_fold_add Z (impl_safe_arith t) acc l =
  if forallb (in_range t) (prefix_sums acc l)
  then Ok (acc + list_sum_Z l) else Err Overflow.
Proof.
  revert acc. induction l as [|x l IH]; intros acc; cbn.
  - by rewrite Z.add_0_r.
  - unfold checked. destruct (in_range t (acc + x)) eqn:Hr; cbn; [|done].
    rewrite IH. case_match; [|done]. f_equal. unfold list_sum_Z. simpl. lia.
Qed.

(** [safe_sum] returns the mathematical sum when every partial sum fits the
    type, and [Overflow] when one does not. *)
Theorem safe_sum_prefixes t l :
  @safe_sum Z (impl_safe_arith t) l =
  if forallb (in_range t) (prefix_sums 0 l) then Ok (list_sum_Z l) else Err Overflow.
Proof. apply try_fold_add_spec. Qed.

Lemma prefix_sums_bounded hi acc l :
  0 <= acc -> Forall (fun x => 0 <= x) l ->
  (forall p, p ∈ prefix_sums acc l -> p <= hi) <-> (l = [] \/ acc + list_sum_Z l <= hi).
Proof.
  intros Hacc Hl. revert acc Hacc. induction Hl as [|x l Hx Hl IH]; intros acc Hacc.
  - split; [by left|]. intros _ p Hp. inversion Hp.
  - simpl prefix_sums. unfold list_sum_Z in *. simpl foldr.
    specialize (IH (acc + x) ltac:(lia)).
    assert (0 <= foldr Z.add 0 l) by (clear -Hl; induction Hl; simpl; lia).
    split.
    + intros Hp. right. assert (acc + x <= hi) by (apply Hp; set_solver).
      destruct IH as [IH _]. destruct IH as [->|]; [set_solver|simpl in *; lia|lia].
    + intros [?|Hs] p; [done|]. intros [->|Hp]%elem_of_cons; [lia|].
      destruct IH as [_ IH]. apply IH; [right; lia|done].
Qed.

(** On an unsigned type [safe_sum] succeeds exactly when the total fits: no
    order of the elements makes it fail early. *)
Theorem safe_sum_unsigned t l :
  signed t = false -> t ∈ safe_arith_types -> Forall (fun x => 0 <= x) l ->
  @safe_sum Z (impl_safe_arith t) l =
  if list_sum_Z l <=? int_max t then Ok (list_sum_Z l) else Err Overflow.
Proof.
  intros Hs Ht Hl. rewrite safe_sum_prefixes.
  assert (Hmax : 0 <= int_max t).
  { apply safe_arith_types_valid in Ht. pose proof (int_span t Ht) as Hsp.
    assert (0 < 2 ^ bits t) by (unfold valid_int in Ht; apply Z.pow_pos_nonneg; lia).
    unfold int_min in Hsp. rewrite Hs in Hsp. lia. }
  assert (Hpos : forall acc p, 0 <= acc -> p ∈ prefix_sums acc l -> 0 <= p).
  { clear -Hl. induction Hl as [|x l Hx Hl IH]; intros acc p Ha; simpl; [set_solver|].
    intros [->|Hp]%elem_of_cons; [lia|]. apply (IH (acc + x)); [lia|done]. }
  destruct (list_sum_Z l <=? int_max t) eqn:Hle; bool_hyps.
  - replace (forallb _ _) with true; [done|]. symmetry. apply forallb_forall.
    intros p Hp%list_elem_of_In. apply in_range_spec. unfold int_min. rewrite Hs.
    split; [by apply (Hpos 0)|].
    apply (prefix_sums_bounded (int_max t) 0 l); [lia|done|by right|done].
  - destruct (forallb _ _) eqn:Hf; [|done]. exfalso.
    rewrite forallb_forall in Hf.
    destruct (proj1 (prefix_sums_bounded (int_max t) 0 l ltac:(lia) Hl)) as [->|];
      [|simpl in Hle; lia|lia].
    intros p Hp%list_elem_of_In. apply Hf in Hp. apply in_range_spec in Hp. lia.
Qed.

Lemma safe_sum_unsigned_witness :
  @safe_sum Z (impl_safe_arith u8) [200; 55] = Ok 255 /\
  @safe_sum Z (impl_safe_arith u8) [200; 56] = Err Overflow.
Proof.
  split.
  - apply (safe_sum_unsigned u8 [200; 55]); [done|set_solver|repeat constructor; lia].
  - apply (safe_sum_unsigned u8 [200; 56]); [done|set_solver|repeat constructor; lia].
Defined.
