(* ===== verification/LruTimeCache.v ===== *)
(** * [lru_cache::LRUTimeCache]: a set of keys that expire

    Models [p2p_network/lru_cache/src/time.rs]: the hash set, the queue of
    keys by insertion time and every operation on them. A clock reading
    ([Instant::now()]) is an argument; [insert] makes two. The abstract
    specification is a map from each key to its last insertion time. *)

From S2P Require Import Prelude.

Section cache.
Context {Key : Type} `{Countable Key}.

Record Element : Type := mkElement { el_key : Key; el_inserted : Instant }.

Record LRUTimeCache : Type := mkLRUTimeCache {
  lru_map : gset Key;
  lru_list : list Element;
  lru_ttl : Duration;
}.

Definition lru_new (ttl : Duration) : LRUTimeCache := mkLRUTimeCache ∅ [] ttl.

(** The branches shared by [lru_raw_insert] and [insert]: a new key goes to the
    back of the queue, a known one is moved there with a new time. *)
Definition lru_raw_insert (now : Instant) (k : Key) (c : LRUTimeCache) : outcome (LRUTimeCache * bool) :=
  let is_new := negb (bool_decide (k ∈ lru_map c)) in
  let map' := lru_map c ∪ {[k]} in
  if is_new then
    Ret (mkLRUTimeCache map' (lru_list c ++ [mkElement k now]) (lru_ttl c), is_new)
  else
    pos <-! expect (position (fun e => bool_decide (el_key e = k)) (lru_list c)) "Key is not new";
    el <-! expect (vec_remove pos (lru_list c)) "Position is not occupied";
    let '(element, rest) := el in
    Ret (mkLRUTimeCache map' (rest ++ [mkElement (el_key element) now]) (lru_ttl c), is_new).

Definition lru_raw_remove (k : Key) (c : LRUTimeCache) : outcome (LRUTimeCache * bool) :=
  if bool_decide (k ∈ lru_map c) then
    pos <-! expect (position (fun e => bool_decide (el_key e = k)) (lru_list c)) "Key must exist";
    el <-! expect (vec_remove pos (lru_list c)) "Position is not occupied";
    Ret (mkLRUTimeCache (lru_map c ∖ {[k]}) (snd el) (lru_ttl c), true)
  else Ret (c, false).

(** The loop [while let Some(element) = self.list.pop_front()]: the element
    that has not expired is pushed back and ends it. *)
Fixpoint pop_expired (now : Instant) (ttl : Duration) (l : list Element)
    (m : gset Key) (removed : list Key) : list Element * gset Key * list Key :=
  match l with
  | [] => ([], m, removed)
  | e :: l' =>
      if now <? el_inserted e + ttl then (e :: l', m, removed)
      else pop_expired now ttl l' (m ∖ {[el_key e]}) (removed ++ [el_key e])
  end.

Definition lru_remove_expired (now : Instant) (c : LRUTimeCache) : LRUTimeCache * list Key :=
  match lru_list c with
  | [] => (c, [])
  | _ =>
      let '(l, m, removed) := pop_expired now (lru_ttl c) (lru_list c) (lru_map c) [] in
      (mkLRUTimeCache m l (lru_ttl c), removed)
  end.

Definition lru_update (now : Instant) (c : LRUTimeCache) : LRUTimeCache :=
  match lru_list c with
  | [] => c
  | _ =>
      let '(l, m, _) := pop_expired now (lru_ttl c) (lru_list c) (lru_map c) [] in
      mkLRUTimeCache m l (lru_ttl c)
  end.

Definition lru_insert (now now' : Instant) (k : Key) (c : LRUTimeCache) : outcome (LRUTimeCache * bool) :=
  lru_raw_insert now' k (lru_update now c).

Definition lru_contains (now : Instant) (k : Key) (c : LRUTimeCache) : LRUTimeCache * bool :=
  let c' := lru_update now c in (c', bool_decide (k ∈ lru_map c')).

(** Releases memory only. *)
Definition lru_shrink_to_fit (c : LRUTimeCache) : LRUTimeCache := c.

(** The assertions of the test build: the queue is sorted by insertion time
    and in sync with the set, without duplicates. *)
Fixpoint check_sorted (prev : option Instant) (m : gset Key) (l : list Element) : bool :=
  match l with
  | [] => true
  | e :: l' =>
      match prev with Some p => p <=? el_inserted e | None => true end
      && bool_decide (el_key e ∈ m) && check_sorted (Some (el_inserted e)) m l'
  end.

Definition lru_check_invariant (c : LRUTimeCache) : bool :=
  check_sorted None (lru_map c) (lru_list c)
  && forallb (fun k => match position (fun e => bool_decide (el_key e = k)) (lru_list c) with
                       | Some _ => true | None => false end) (elements (lru_map c))
  && (length (lru_list c) =? size (lru_map c))%nat.

(** ** Specification: the last insertion time of every key *)

Definition lru_abs (c : LRUTimeCache) : gmap Key Instant :=
  list_to_map ((fun e => (el_key e, el_inserted e)) <$> lru_list c).

Definition spec_purge (now : Instant) (ttl : Duration) (m : gmap Key Instant) : gmap Key Instant :=
  filter (fun kt => now < kt.2 + ttl) m.

(** Well-formed at clock value [now]. *)
Record lru_inv (now : Instant) (c : LRUTimeCache) : Prop := {
  inv_nodup : NoDup (el_key <$> lru_list c);
  inv_map : lru_map c = list_to_set (el_key <$> lru_list c);
  inv_sorted : StronglySorted (fun a b => el_inserted a <= el_inserted b) (lru_list c);
  inv_past : Forall (fun e => el_inserted e <= now) (lru_list c);
}.

(** The operations as steps of a cache with its clock; the clock never goes
    back. *)
Inductive lru_step : Instant * LRUTimeCache -> Instant * LRUTimeCache -> Prop :=
| step_raw_insert t now c k c' b :
    t <= now -> lru_raw_insert now k c = Ret (c', b) -> lru_step (t, c) (now, c')
| step_insert t now now' c k c' b :
    t <= now -> now <= now' -> lru_insert now now' k c = Ret (c', b) -> lru_step (t, c) (now', c')
| step_raw_remove t c k c' b :
    lru_raw_remove k c = Ret (c', b) -> lru_step (t, c) (t, c')
| step_remove_expired t now c :
    t <= now -> lru_step (t, c) (now, (lru_remove_expired now c).1)
| step_contains t now c k :
    t <= now -> lru_step (t, c) (now, (lru_contains now k c).1)
| step_shrink t c : lru_step (t, c) (t, lru_shrink_to_fit c).

Definition lru_reachable (d : Duration) (s : Instant * LRUTimeCache) : Prop :=
  exists t0, rtc lru_step (t0, lru_new d) s.
End cache.

Arguments Element : clear implicits.
Arguments LRUTimeCache Key {_ _} : assert.

(** ** Theorems *)

Section theory.
Context {Key : Type} `{Countable Key}.
Implicit Types (c : LRUTimeCache Key) (l : list (Element Key)) (k : Key).

Lemma pop_expired_spec now d l (m : gset Key) acc :
  StronglySorted (fun a b => el_inserted a <= el_inserted b) l ->
  pop_expired now d l m acc =
  (filter (fun e => now < el_inserted e + d) l,
   m ∖ list_to_set (el_key <$> filter (fun e => ¬ now < el_inserted e + d) l),
   acc ++ (el_key <$> filter (fun e => ¬ now < el_inserted e + d) l)).
Proof.
  intros Hs. revert m acc. induction Hs as [|e l Hs IH Hle]; intros m acc; simpl.
  - rewrite app_nil_r. do 2 f_equal. set_solver.
  - destruct (now <? el_inserted e + d) eqn:Hlt; bool_hyps.
    + assert (Hall : Forall (fun x => now < el_inserted x + d) (e :: l)).
      { constructor; [done|]. eapply Forall_impl; [exact Hle|]. simpl. lia. }
      rewrite (filter_all _ (e :: l) Hall).
      assert (Hnone : filter (fun x => ¬ now < el_inserted x + d) (e :: l) = []).
      { apply filter_none. eapply Forall_impl; [exact Hall|]. simpl. lia. }
      rewrite Hnone. simpl. rewrite app_nil_r. do 2 f_equal. set_solver.
    + rewrite IH. rewrite (filter_cons_False (fun x => now < el_inserted x + d)) by lia.
      rewrite (filter_cons_True (fun x => ¬ now < el_inserted x + d)) by lia.
      rewrite fmap_cons, <- app_assoc. simpl. do 2 f_equal. set_solver.
Qed.

Lemma lru_abs_lookup c k t :
  NoDup (el_key <$> lru_list c) ->
  lru_abs c !! k = Some t <-> mkElement k t ∈ lru_list c.
Proof.
  intros Hnd. unfold lru_abs. rewrite <- elem_of_list_to_map.
  - rewrite list_elem_of_fmap. split.
    + by intros ([k' t'] & [= -> ->] & He).
    + intros He. by exists (mkElement k t).
  - by rewrite <- list_fmap_compose.
Qed.

Lemma lru_abs_domain c now k :
  lru_inv now c -> k ∈ lru_map c <-> is_Some (lru_abs c !! k).
Proof.
  intros [Hnd Hm _ _]. rewrite Hm, elem_of_list_to_set, list_elem_of_fmap. split.
  - intros ([k' t] & -> & He). exists t. by apply lru_abs_lookup.
  - intros [t Ht%lru_abs_lookup]; [|done]. by exists (mkElement k t).
Qed.

Lemma lru_inv_later now now' c : lru_inv now c -> now <= now' -> lru_inv now' c.
Proof.
  intros [? ? ? Hp] Hle. split; try done. eapply Forall_impl; [exact Hp|]. simpl. lia.
Qed.

Lemma lru_update_shape now t c :
  lru_inv t c ->
  lru_remove_expired now c =
    (lru_update now c, el_key <$> filter (fun e => ¬ now < el_inserted e + lru_ttl c) (lru_list c)) /\
  lru_list (lru_update now c) = filter (fun e => now < el_inserted e + lru_ttl c) (lru_list c) /\
  lru_ttl (lru_update now c) = lru_ttl c /\
  lru_inv t (lru_update now c).
Proof.
  intros [Hnd Hm Hs Hp]. unfold lru_remove_expired, lru_update.
  destruct (lru_list c) as [|e l] eqn:Hl.
  { split_and!; rewrite ?Hl; try done. split; by rewrite ?Hl. }
  rewrite (pop_expired_spec now (lru_ttl c) (e :: l) (lru_map c) [] Hs). simpl app.
  split_and!; try done. split; cbn [lru_list lru_map].
  - eapply sublist_NoDup; [exact Hnd|]. apply fmap_sublist, sublist_filter.
  - rewrite Hm. apply set_eq. intros x.
    rewrite elem_of_difference, !elem_of_list_to_set, !list_elem_of_fmap. split.
    + intros [([k t'] & -> & He) Hx]. exists (mkElement k t'). split; [done|].
      apply list_elem_of_filter. split; [|done].
      destruct (decide (now < t' + lru_ttl c)) as [|Hn]; [done|]. exfalso. apply Hx.
      exists (mkElement k t'). by rewrite list_elem_of_filter.
    + intros (a & -> & [Ha Hin]%list_elem_of_filter). split; [by exists a|].
      intros (b & Hk & [Hb Hin']%list_elem_of_filter).
      enough (a = b) by congruence.
      apply list_elem_of_lookup in Hin as [i Hi], Hin' as [j Hj].
      assert (i = j); [|congruence].
      eapply NoDup_lookup; [exact Hnd| |]; rewrite list_lookup_fmap, ?Hi, ?Hj; simpl; by rewrite ?Hk.
  - by apply StronglySorted_filter.
  - apply Forall_forall. intros x [_ Hx]%list_elem_of_filter.
    by rewrite Forall_forall in Hp; apply Hp.
Qed.

(** The queue with one element taken out of the middle. *)
Lemma queue_remove (l1 l2 : list (Element Key)) e :
  NoDup (el_key <$> l1 ++ e :: l2) ->
  el_key e ∉ el_key <$> l1 ++ l2 /\ NoDup (el_key <$> l1 ++ l2) /\
  (list_to_map ((fun x => (el_key x, el_inserted x)) <$> l1 ++ e :: l2) : gmap Key Instant)
  = <[el_key e := el_inserted e]> (list_to_map ((fun x => (el_key x, el_inserted x)) <$> l1 ++ l2)).
Proof.
  intros Hnd. assert (Hp : l1 ++ e :: l2 ≡ₚ e :: l1 ++ l2) by (symmetry; apply Permutation_middle).
  pose proof Hnd as Hnd'. rewrite Hp, fmap_cons, NoDup_cons in Hnd. destruct Hnd as [Hf Hnd].
  split_and!; [done|done|]. change (?f e :: ?l) with (f e :: l).
  rewrite (list_to_map_proper _ ((fun x => (el_key x, el_inserted x)) <$> e :: l1 ++ l2)).
  - done.
  - rewrite <- list_fmap_compose. apply Hnd'.
  - by rewrite Hp.
Qed.

(** Pushing a key that is not in the queue. *)
Lemma queue_push now k (rest : list (Element Key)) d :
  NoDup (el_key <$> rest) -> k ∉ el_key <$> rest ->
  StronglySorted (fun a b => el_inserted a <= el_inserted b) rest ->
  Forall (fun e => el_inserted e <= now) rest ->
  let c' := mkLRUTimeCache (list_to_set (el_key <$> rest) ∪ {[k]}) (rest ++ [mkElement k now]) d in
  lru_inv now c' /\
  lru_abs c' = <[k := now]> (list_to_map ((fun x => (el_key x, el_inserted x)) <$> rest)).
Proof.
  intros Hnd Hk Hs Hp c'.
  assert (Hnd' : NoDup (el_key <$> rest ++ [mkElement k now])).
  { rewrite fmap_app. apply NoDup_app. split; [done|]. split; [set_solver|apply NoDup_singleton]. }
  split.
  - split; simpl; [done| | |].
    + rewrite fmap_app. simpl. set_solver.
    + by apply StronglySorted_snoc.
    + apply Forall_app. split; [done|]. constructor; simpl; [lia|constructor].
  - unfold lru_abs. simpl. pose proof (queue_remove rest [] (mkElement k now) Hnd') as (_ & _ & Hq).
    rewrite app_nil_r in Hq. exact Hq.
Qed.

(** Both insertion branches, from any well-formed cache: no panic, the
    abstract map gets the key's new time, and the result tells whether the
    key was absent. *)
Lemma lru_raw_insert_spec t now k c :
  lru_inv t c -> t <= now ->
  exists c', lru_raw_insert now k c = Ret (c', bool_decide (lru_abs c !! k = None)) /\
    lru_inv now c' /\ lru_abs c' = <[k := now]> (lru_abs c) /\ lru_ttl c' = lru_ttl c.
Proof.
  intros Hi Hle. pose proof (lru_abs_domain c t k Hi) as Hdom.
  apply (lru_inv_later t now) in Hi; [|done]. destruct Hi as [Hnd Hm Hs Hp].
  unfold lru_raw_insert. destruct (decide (k ∈ lru_map c)) as [Hin|Hnin].
  - rewrite (bool_decide_eq_true_2 (k ∈ lru_map c)) by done. simpl.
    apply Hdom in Hin as Habs. destruct Habs as [v Hv].
    rewrite (bool_decide_eq_false_2 (lru_abs c !! k = None)) by congruence.
    apply lru_abs_lookup in Hv; [|done].
    destruct (position_is_Some (fun e => bool_decide (el_key e = k)) _ _ Hv) as [i Hpos];
      [by apply bool_decide_eq_true_2|].
    rewrite Hpos. simpl. apply position_Some in Hpos as (l1 & e & l2 & Hl & He & ->). simpl.
    apply bool_decide_eq_true_1 in He. subst k. unfold lru_abs. rewrite Hm, Hl in *.
    destruct (queue_remove l1 l2 e Hnd) as (Hf & Hnd' & Habs). rewrite Habs.
    destruct (queue_push now (el_key e) (l1 ++ l2) (lru_ttl c) Hnd' Hf) as [Hinv Ha].
    { by eapply StronglySorted_remove. }
    { rewrite !Forall_app, Forall_cons in *. naive_solver. }
    eexists. split; [done|].
    replace (list_to_set (el_key <$> l1 ++ e :: l2) ∪ {[el_key e]} : gset Key)
      with (list_to_set (el_key <$> l1 ++ l2) ∪ {[el_key e]} : gset Key)
      by (rewrite !fmap_app, fmap_cons; set_solver).
    split_and!; [done| |done]. by rewrite insert_insert_eq.
  - rewrite (bool_decide_eq_false_2 (k ∈ lru_map c)) by done. simpl.
    rewrite (bool_decide_eq_true_2 (lru_abs c !! k = None))
      by (apply eq_None_not_Some; by rewrite <- Hdom).
    rewrite Hm in *. rewrite elem_of_list_to_set in Hnin.
    destruct (queue_push now k (lru_list c) (lru_ttl c) Hnd Hnin Hs Hp) as [Hinv Ha].
    eexists. split; [done|]. split_and!; done.
Qed.

Lemma lru_raw_remove_spec t k c :
  lru_inv t c ->
  exists c', lru_raw_remove k c = Ret (c', bool_decide (is_Some (lru_abs c !! k))) /\
    lru_inv t c' /\ lru_abs c' = delete k (lru_abs c) /\ lru_ttl c' = lru_ttl c.
Proof.
  intros Hi. pose proof (lru_abs_domain c t k Hi) as Hdom. pose proof Hi as [Hnd Hm Hs Hp].
  unfold lru_raw_remove. destruct (decide (k ∈ lru_map c)) as [Hin|Hnin].
  - rewrite (bool_decide_eq_true_2 (k ∈ lru_map c)) by done.
    apply Hdom in Hin as Habs. destruct Habs as [v Hv].
    rewrite (bool_decide_eq_true_2 (is_Some _)) by eauto.
    apply lru_abs_lookup in Hv; [|done].
    destruct (position_is_Some (fun e => bool_decide (el_key e = k)) _ _ Hv) as [i Hpos];
      [by apply bool_decide_eq_true_2|].
    rewrite Hpos. simpl. apply position_Some in Hpos as (l1 & e & l2 & Hl & He & ->). simpl.
    apply bool_decide_eq_true_1 in He. subst k. unfold lru_abs. rewrite Hl, Hm in *.
    destruct (queue_remove l1 l2 e Hnd) as (Hf & Hnd' & Habs). rewrite Habs.
    eexists. split; [done|]. split_and!; [split; simpl|simpl|done].
    + done.
    + rewrite !fmap_app, fmap_cons in *. set_solver.
    + by eapply StronglySorted_remove.
    + rewrite !Forall_app, Forall_cons in *. naive_solver.
    + rewrite delete_insert_eq, delete_id; [done|].
      apply not_elem_of_list_to_map_1. by rewrite <- list_fmap_compose.
  - rewrite (bool_decide_eq_false_2 (k ∈ lru_map c)) by done.
    rewrite (bool_decide_eq_false_2 (is_Some _)) by (by rewrite <- Hdom).
    exists c. split; [done|]. split_and!; [done| |done].
    rewrite delete_id; [done|]. apply eq_None_not_Some. by rewrite <- Hdom.
Qed.

Lemma lru_update_abs now t c :
  lru_inv t c -> lru_abs (lru_update now c) = spec_purge now (lru_ttl c) (lru_abs c).
Proof.
  intros Hi. destruct (lru_update_shape now t c Hi) as (_ & Hl & _ & Hi').
  apply map_eq_Some. intros k v. unfold spec_purge.
  rewrite map_lookup_filter_Some, !lru_abs_lookup by (apply Hi || apply Hi').
  rewrite Hl, list_elem_of_filter. simpl. tauto.
Qed.

Lemma check_sorted_true prev (m : gset Key) l :
  (forall e, e ∈ l -> el_key e ∈ m) ->
  StronglySorted (fun a b => el_inserted a <= el_inserted b) l ->
  (forall p e, prev = Some p -> e ∈ l -> p <= el_inserted e) ->
  check_sorted prev m l = true.
Proof.
  intros Hm Hs. revert prev. induction Hs as [|e l Hs IH Hle]; intros prev Hp; simpl; [done|].
  rewrite !andb_true_iff. split_and!.
  - destruct prev; [|done]. apply Z.leb_le. apply (Hp _ e); [done|set_solver].
  - apply bool_decide_eq_true_2, Hm. set_solver.
  - apply IH; [set_solver|]. intros p x [= <-] Hx. by rewrite Forall_forall in Hle; apply Hle.
Qed.

Lemma lru_inv_check t c : lru_inv t c -> lru_check_invariant c = true.
Proof.
  intros Hi. pose proof Hi as [Hnd Hm Hs Hp]. unfold lru_check_invariant.
  rewrite !andb_true_iff. split_and!.
  - apply check_sorted_true; [|done|done]. intros e He. rewrite Hm, elem_of_list_to_set.
    by apply list_elem_of_fmap_2.
  - apply forallb_forall. intros k Hk%list_elem_of_In%elem_of_elements.
    apply (lru_abs_domain c t k Hi) in Hk as [v Hv%lru_abs_lookup]; [|done].
    destruct (position_is_Some (fun e => bool_decide (el_key e = k)) _ _ Hv) as [i ->]; [|done].
    by apply bool_decide_eq_true_2.
  - apply Nat.eqb_eq. rewrite Hm, size_list_to_set by done. by rewrite length_fmap.
Qed.

Lemma lru_step_inv (s s' : Instant * LRUTimeCache Key) : lru_step s s' -> lru_inv s.1 s.2 -> lru_inv s'.1 s'.2.
Proof.
  destruct 1 as [t now c k c' b Hle Hr|t now now' c k c' b Hle Hle' Hr|t c k c' b Hr
    |t now c Hle|t now c k Hle|t c]; simpl; intros Hi.
  - destruct (lru_raw_insert_spec t now k c Hi Hle) as (c2 & Hr2 & ? & _). congruence.
  - destruct (lru_update_shape now t c Hi) as (_ & _ & _ & Hi').
    destruct (lru_raw_insert_spec t now' k _ Hi' ltac:(lia)) as (c2 & Hr2 & ? & _).
    unfold lru_insert in Hr. congruence.
  - destruct (lru_raw_remove_spec t k c Hi) as (c2 & Hr2 & ? & _). congruence.
  - destruct (lru_update_shape now t c Hi) as (-> & _ & _ & Hi'). simpl.
    by apply (lru_inv_later t).
  - destruct (lru_update_shape now t c Hi) as (_ & _ & _ & Hi').
    by apply (lru_inv_later t).
  - done.
Qed.

Lemma lru_reachable_inv d (s : Instant * LRUTimeCache Key) : lru_reachable d s -> lru_inv s.1 s.2.
Proof.
  intros [t0 Hr]. remember (t0, lru_new d) as s0 eqn:Hs0.
  assert (H0 : lru_inv s0.1 s0.2) by (subst; repeat constructor).
  clear Hs0. induction Hr as [s|s1 s2 s3 Hs _ IH]; [done|]. by apply IH, (lru_step_inv s1).
Qed.

(** Every sequence of operations under a clock that never goes back keeps the
    queue sorted, free of duplicates and in sync with the set: the
    assertions of [check_invariant] hold in every reachable cache. *)
Theorem lru_reachable_invariant d t c :
  lru_reachable d (t, c) -> lru_inv t c /\ lru_check_invariant c = true.
Proof. intros Hr%lru_reachable_inv. split; [done|]. by eapply lru_inv_check. Qed.

(** C39: In every reachable cache no [expect] fails and the operations implement a
    map from keys to their last insertion time: [insert] purges what has
    expired, records the key and reports whether it was absent or expired;
    [raw_remove] deletes; [contains] holds exactly for the keys inserted less
    than [ttl] ago; [remove_expired] returns exactly the other keys. *)
Theorem lru_operations_refine d t c now now' k :
  lru_reachable d (t, c) -> t <= now -> now <= now' ->
  let purged := spec_purge now (lru_ttl c) (lru_abs c) in
  (exists c', lru_insert now now' k c = Ret (c', bool_decide (purged !! k = None)) /\
     lru_abs c' = <[k := now']> purged) /\
  (exists c', lru_raw_insert now k c = Ret (c', bool_decide (lru_abs c !! k = None)) /\
     lru_abs c' = <[k := now]> (lru_abs c)) /\
  (exists c', lru_raw_remove k c = Ret (c', bool_decide (is_Some (lru_abs c !! k))) /\
     lru_abs c' = delete k (lru_abs c)) /\
  (lru_contains now k c).2 = bool_decide (is_Some (purged !! k)) /\
  lru_abs (lru_contains now k c).1 = purged /\
  lru_abs (lru_remove_expired now c).1 = purged /\
  (forall k', k' ∈ (lru_remove_expired now c).2 <->
     exists v, lru_abs c !! k' = Some v /\ v + lru_ttl c <= now).
Proof.
  intros Hi%lru_reachable_inv Hle Hle'. simpl in Hi.
  destruct (lru_update_shape now t c Hi) as (Hrm & Hl & Httl & Hi').
  pose proof (lru_update_abs now t c Hi) as Habs. cbv zeta. rewrite <- Habs.
  split_and!.
  - destruct (lru_raw_insert_spec t now' k _ Hi' ltac:(lia)) as (c' & ? & _ & ? & _). by exists c'.
  - destruct (lru_raw_insert_spec t now k c Hi Hle) as (c' & ? & _ & ? & _). by exists c'.
  - destruct (lru_raw_remove_spec t k c Hi) as (c' & ? & _ & ? & _). by exists c'.
  - simpl. apply bool_decide_ext. by apply (lru_abs_domain _ t).
  - done.
  - by rewrite Hrm.
  - intros k'. rewrite Hrm. simpl. rewrite list_elem_of_fmap. split.
    + intros ([k0 v] & -> & [Hv Hin]%list_elem_of_filter). simpl in *. exists v.
      rewrite lru_abs_lookup by apply Hi. split; [done|lia].
    + intros (v & Hv%lru_abs_lookup & Hle2); [|apply Hi]. exists (mkElement k' v).
      rewrite list_elem_of_filter. simpl. split_and!; [done|lia|done].
Qed.
End theory.

(** A concrete run: insert 1 and 2, re-insert 1, look both up. *)
Definition lru_demo : LRUTimeCache positive :=
  mkLRUTimeCache {[2; 1]}%positive [mkElement 2%positive 0; mkElement 1%positive 20] 100.

Lemma lru_demo_reachable : lru_reachable 100 (20, lru_demo).
Proof.
  exists 0. eapply rtc_l; [eapply (step_raw_insert 0 0 _ 1%positive); [lia|reflexivity]|].
  eapply rtc_l; [eapply (step_raw_insert 0 0 _ 2%positive); [lia|reflexivity]|].
  eapply rtc_l; [eapply (step_raw_insert 0 20 _ 1%positive); [lia|reflexivity]|].
  apply rtc_refl.
Defined.

Lemma lru_reachable_invariant_witness : lru_check_invariant lru_demo = true.
Proof. apply (lru_reachable_invariant 100 20 lru_demo), lru_demo_reachable. Defined.

Lemma lru_operations_refine_witness :
  (lru_contains 105 1%positive lru_demo).2 = true /\
  (lru_contains 105 2%positive lru_demo).2 = false.
Proof.
  split.
  - apply (lru_operations_refine 100 20 lru_demo 105 105 1%positive); [apply lru_demo_reachable|lia|lia].
  - apply (lru_operations_refine 100 20 lru_demo 105 105 2%positive); [apply lru_demo_reachable|lia|lia].
Defined.
