(* ===== verification/Float64.v ===== *)
(** * Binary floating point

    [f64] and [f32] as IEEE 754 numbers: the specification floats of the
    standard library with 53 and 24 bits of precision, which compute the
    correctly rounded results Rust's operators give. [exp] and [ln] are
    implemented outside the language and are the class [Libm]. *)

From Stdlib Require Import Floats.SpecFloat.
From S2P Require Import Prelude.

Abbreviation f64 := spec_float.
Abbreviation f32 := spec_float.

Definition f64_of_Z (n : Z) : f64 := binary_normalize 53 1024 n 0 false.
Definition f64_add : f64 -> f64 -> f64 := SFadd 53 1024.
Definition f64_mul : f64 -> f64 -> f64 := SFmul 53 1024.
Definition f64_div : f64 -> f64 -> f64 := SFdiv 53 1024.
Definition f64_neg : f64 -> f64 := SFopp.
Definition f64_le (a b : f64) : bool := SFleb a b.
Definition f64_lt (a b : f64) : bool := SFltb a b.
Definition f64_infinity : f64 := S754_infinity false.
(** [f64::clamp] for bounds that are numbers. *)
Definition f64_clamp (lo hi x : f64) : f64 :=
  let x := if f64_lt x lo then lo else x in
  if f64_lt hi x then hi else x.
(** [f64::partial_cmp]. *)
Definition f64_partial_cmp (a b : f64) : option comparison := SFcompare a b.

Definition is_nan (x : f64) : bool := match x with S754_nan => true | _ => false end.

Definition f32_of_Z (n : Z) : f32 := binary_normalize 24 128 n 0 false.
Definition f32_add : f32 -> f32 -> f32 := SFadd 24 128.
Definition f32_sub : f32 -> f32 -> f32 := SFsub 24 128.
Definition f32_mul : f32 -> f32 -> f32 := SFmul 24 128.
Definition f32_div : f32 -> f32 -> f32 := SFdiv 24 128.
(** [x.ceil() as usize]: not-a-number is 0, the rest is clipped to the type. *)
Definition f32_ceil_usize (x : f32) : Z :=
  match x with
  | S754_finite s m e =>
      let v := if s then Z.neg m else Z.pos m in
      saturate usize (if 0 <=? e then v * 2 ^ e else - ((- v) / 2 ^ (- e)))
  | S754_infinity false => int_max usize
  | _ => 0
  end.

(** [x as i64]: the fraction is cut off, not-a-number is 0, the rest is clipped to the type. *)
Definition f64_as_i64 (x : f64) : Z :=
  match x with
  | S754_finite s m e =>
      let v := if 0 <=? e then Z.pos m * 2 ^ e else Z.pos m / 2 ^ (- e) in saturate i64 (if s then - v else v)
  | S754_infinity s => if s then int_min i64 else int_max i64
  | _ => 0
  end.

(** [f64::exp] and [f64::ln]. *)
Class Libm := { f64_exp : f64 -> f64; f64_ln : f64 -> f64 }.
(** A crude instance, for evaluation: no decay at all. *)
Definition demo_libm : Libm := {| f64_exp := fun _ => f64_of_Z 1; f64_ln := fun x => x |}.

(** ** Lemmas *)

Lemma f64_le_refl x : is_nan x = false -> f64_le x x = true.
Proof.
  unfold f64_le, SFleb, SFcompare. destruct x as [|[]| |[] m e]; try done; intros _;
    by rewrite Z.compare_refl, Pos.compare_cont_refl.
Qed.

Lemma f64_compare_nan a b :
  SFcompare a b = None <-> is_nan a = true \/ is_nan b = true.
Proof.
  destruct a as [|[]| |[]], b as [|[]| |[]]; simpl; try naive_solver;
    repeat case_match; naive_solver.
Qed.

Lemma Pos_compare_cont_antisym p q :
  Pos.compare_cont Eq q p = CompOpp (Pos.compare_cont Eq p q).
Proof. apply (Pos.compare_antisym p q). Qed.

Lemma f64_compare_antisym a b :
  SFcompare b a = CompOpp <$> SFcompare a b.
Proof.
  destruct a as [[]|[]| |[] m1 e1], b as [[]|[]| |[] m2 e2]; simpl; try done;
    rewrite (Z.compare_antisym e1 e2), (Pos_compare_cont_antisym m1 m2);
    destruct (e1 ?= e2) eqn:?; simpl; try done.
Qed.

(** On numbers the order is total. *)
Lemma f64_lt_false_le a b :
  is_nan a = false -> is_nan b = false -> f64_lt a b = false -> f64_le b a = true.
Proof.
  intros Ha Hb. unfold f64_lt, f64_le, SFltb, SFleb. rewrite (f64_compare_antisym a b).
  destruct (SFcompare a b) as [[]|] eqn:Hc; simpl; try done.
  apply f64_compare_nan in Hc. destruct Hc; congruence.
Qed.

Lemma f64_lt_le a b : f64_lt a b = true -> f64_le a b = true.
Proof. unfold f64_lt, f64_le, SFltb, SFleb. by destruct (SFcompare a b) as [[]|]. Qed.

(** A clamped number is within the bounds. *)
Lemma f64_clamp_range lo hi x :
  is_nan lo = false -> is_nan hi = false -> is_nan x = false -> f64_le lo hi = true ->
  is_nan (f64_clamp lo hi x) = false /\
  f64_le lo (f64_clamp lo hi x) = true /\ f64_le (f64_clamp lo hi x) hi = true.
Proof.
  intros Hlo Hhi Hx Hle. unfold f64_clamp. destruct (f64_lt x lo) eqn:Hxl.
  - destruct (f64_lt hi lo) eqn:Hhl; [by rewrite !f64_le_refl|]. by rewrite f64_le_refl.
  - destruct (f64_lt hi x) eqn:Hhx; [by rewrite f64_le_refl|].
    by rewrite !f64_lt_false_le.
Qed.

(** *** Rounding never produces a NaN *)

Lemma SpecFloat_iter_pos {A} (f : A -> A) p x : SpecFloat.iter_pos f p x = Nat.iter (Pos.to_nat p) f x.
Proof.
  revert x. induction p as [p IH|p IH|]; intros x; cbn [SpecFloat.iter_pos]; [| |done].
  - rewrite !IH, Pos2Nat.inj_xI, Nat.iter_succ_r, <- Nat.iter_add. f_equal; lia.
  - rewrite !IH, Pos2Nat.inj_xO, <- Nat.iter_add. f_equal; lia.
Qed.

Lemma shr_1_nonneg r : 0 <= shr_m r -> 0 <= shr_m (shr_1 r).
Proof. destruct r as [[|[]|] ? ?]; simpl; lia. Qed.

Lemma shr_nonneg r e n : 0 <= shr_m r -> 0 <= shr_m (shr r e n).1.
Proof.
  intros Hr. unfold shr. destruct n as [|p|p]; simpl; try done.
  rewrite SpecFloat_iter_pos. induction (Pos.to_nat p) as [|k IH]; simpl; [done|].
  by apply shr_1_nonneg.
Qed.

Lemma shr_fexp_nonneg prec emax m e l : 0 <= m -> 0 <= shr_m (shr_fexp prec emax m e l).1.
Proof. intros Hm. unfold shr_fexp. apply shr_nonneg. by destruct l as [|[]]. Qed.

Lemma binary_round_aux_nan prec emax s m e l :
  0 <= m -> is_nan (binary_round_aux prec emax s m e l) = false.
Proof.
  intros Hm. unfold binary_round_aux.
  pose proof (shr_fexp_nonneg prec emax m e l Hm) as H1.
  destruct (shr_fexp prec emax m e l) as [r1 e1]; simpl in H1.
  assert (Hc : 0 <= round_nearest_even (shr_m r1) (loc_of_shr_record r1)).
  { unfold round_nearest_even. repeat case_match; lia. }
  pose proof (shr_fexp_nonneg prec emax _ e1 loc_Exact Hc) as H2.
  destruct (shr_fexp prec emax _ e1 loc_Exact) as [r2 e2]; simpl in H2.
  destruct (shr_m r2); [done|by case_match|lia].
Qed.

Lemma binary_normalize_nan prec emax m e szero :
  is_nan (binary_normalize prec emax m e szero) = false.
Proof.
  unfold binary_normalize, binary_round. destruct m as [|p|p]; [done| |];
    destruct (shl_align p e _); by apply binary_round_aux_nan.
Qed.

(** The sum of two numbers that are not infinite is a number. *)
Definition is_finite (x : f64) : bool :=
  match x with S754_zero _ | S754_finite _ _ _ => true | _ => false end.

Lemma f64_add_nan x y :
  is_finite x = true -> is_finite y = true -> is_nan (f64_add x y) = false.
Proof.
  intros Hx Hy. unfold f64_add, SFadd.
  destruct x as [sx| | |sx mx ex]; try done; destruct y as [sy| | |sy my ey]; try done.
  - by destruct sx, sy.
  - apply binary_normalize_nan.
Qed.

#[export] Hint Resolve f64_le_refl f64_lt_le : voltaire.
