(* ===== verification/Score.v ===== *)
(** * Peer scores

    Models [src/peer_manager/peerdb/score.rs]: the real score of a peer with its
    decay, the ban time, and the score states. The clock is an argument.
    The theorems: how many errors disconnect and ban a peer, that a fatal action
    bans a peer for twelve hours whatever happens meanwhile, that actions keep
    the score within its limits, and that a maximal score is untouchable. *)

From S2P Require Import Prelude Float64.

Definition DEFAULT_SCORE : f64 := f64_of_Z 0.
Definition MIN_SCORE_BEFORE_DISCONNECT : f64 := f64_of_Z (-20).
Definition MIN_SCORE_BEFORE_BAN : f64 := f64_of_Z (-50).
Definition MIN_VOLTAIRE_SCORE_BEFORE_BAN : f64 := f64_of_Z (-60).
Definition MAX_SCORE : f64 := f64_of_Z 100.
Definition MIN_SCORE : f64 := f64_of_Z (-100).
Definition SCORE_HALFLIFE : f64 := f64_of_Z 600.
Definition BANNED_BEFORE_DECAY : Duration := from_secs (12 * 3600).
(** [gossipsub_scoring_parameters.rs]. *)
Definition GREYLIST_THRESHOLD : f64 := f64_of_Z (-16000).
Definition GOSSIPSUB_NEGATIVE_SCORE_WEIGHT : f64 :=
  f64_div (f64_add MIN_SCORE_BEFORE_DISCONNECT (f64_of_Z 1)) GREYLIST_THRESHOLD.
Definition GOSSIPSUB_POSITIVE_SCORE_WEIGHT : f64 := GOSSIPSUB_NEGATIVE_SCORE_WEIGHT.

Inductive PeerAction : Type :=
| Fatal | LowToleranceError | MidToleranceError | HighToleranceError.

Inductive ReportSource : Type :=
| SrcGossipsub | SrcRPC | SrcProcessor | SrcSyncService | SrcPeerManager.

Inductive ScoreState : Type := StHealthy | StDisconnected | StBanned.

#[export] Instance ScoreState_eq_dec : EqDecision ScoreState.
Proof. solve_decision. Defined.

Record RealScore : Type := mkRealScore {
  voltaire_score : f64;
  gossipsub_score : f64;
  ignore_negative_gossipsub_score : bool;
  rs_score : f64;
  last_updated : Instant;
}.

Definition RealScore_default (now : Instant) : RealScore :=
  mkRealScore DEFAULT_SCORE DEFAULT_SCORE false DEFAULT_SCORE now.

(** The value [recompute_score] gives. *)
Definition recomputed (voltaire gossipsub : f64) (ignore : bool) : f64 :=
  if f64_le voltaire MIN_VOLTAIRE_SCORE_BEFORE_BAN then voltaire
  else if f64_le (f64_of_Z 0) gossipsub then
    f64_add voltaire (f64_mul gossipsub GOSSIPSUB_POSITIVE_SCORE_WEIGHT)
  else if negb ignore then
    f64_add voltaire (f64_mul gossipsub GOSSIPSUB_NEGATIVE_SCORE_WEIGHT)
  else voltaire.

Definition recompute_score (s : RealScore) : RealScore :=
  mkRealScore (voltaire_score s) (gossipsub_score s) (ignore_negative_gossipsub_score s)
    (recomputed (voltaire_score s) (gossipsub_score s) (ignore_negative_gossipsub_score s))
    (last_updated s).

Definition update_state (s : RealScore) : RealScore :=
  let was_not_banned := f64_lt MIN_SCORE_BEFORE_BAN (rs_score s) in
  let s1 := recompute_score s in
  if was_not_banned && f64_le (rs_score s1) MIN_SCORE_BEFORE_BAN then
    mkRealScore (voltaire_score s1) (gossipsub_score s1) (ignore_negative_gossipsub_score s1)
      (rs_score s1) (last_updated s1 + BANNED_BEFORE_DECAY)
  else s1.

Definition set_voltaire_score (new_score : f64) (s : RealScore) : RealScore :=
  update_state (mkRealScore new_score (gossipsub_score s) (ignore_negative_gossipsub_score s)
    (rs_score s) (last_updated s)).

Definition score_add (score : f64) (s : RealScore) : RealScore :=
  set_voltaire_score (f64_clamp MIN_SCORE MAX_SCORE (f64_add (voltaire_score s) score)) s.

Definition apply_peer_action (a : PeerAction) (s : RealScore) : RealScore :=
  match a with
  | Fatal => set_voltaire_score MIN_SCORE s
  | LowToleranceError => score_add (f64_of_Z (-10)) s
  | MidToleranceError => score_add (f64_of_Z (-5)) s
  | HighToleranceError => score_add (f64_of_Z (-1)) s
  end.

Section decay.
Context `{Libm}.

Definition HALFLIFE_DECAY : f64 := f64_div (f64_neg (f64_ln (f64_of_Z 2))) SCORE_HALFLIFE.

Definition update_at (now : Instant) (s : RealScore) : RealScore :=
  match as_secs <$> checked_duration_since now (last_updated s) with
  | Some secs_since_update =>
      let decay_factor := f64_exp (f64_mul HALFLIFE_DECAY (f64_of_Z secs_since_update)) in
      update_state (mkRealScore (f64_mul (voltaire_score s) decay_factor) (gossipsub_score s)
        (ignore_negative_gossipsub_score s) (rs_score s) now)
  | None => s
  end.
End decay.

Definition update_gossipsub_score (now : Instant) (new_score : f64) (ignore : bool) (s : RealScore)
  : RealScore :=
  if last_updated s <=? now then
    update_state (mkRealScore (voltaire_score s) new_score ignore (rs_score s) (last_updated s))
  else s.

Inductive Score : Type := ScoreMax | ScoreReal (s : RealScore).

Definition Score_default (now : Instant) : Score := ScoreReal (RealScore_default now).

(** The macro [apply!]: a method of [RealScore] lifted to [Score]. *)
Definition score_apply (f : RealScore -> RealScore) (s : Score) : Score :=
  match s with ScoreMax => ScoreMax | ScoreReal r => ScoreReal (f r) end.

Definition Score_score (s : Score) : f64 :=
  match s with ScoreMax => f64_infinity | ScoreReal r => rs_score r end.

Definition Score_state (s : Score) : ScoreState :=
  if f64_le (Score_score s) MIN_SCORE_BEFORE_BAN then StBanned
  else if f64_le (Score_score s) MIN_SCORE_BEFORE_DISCONNECT then StDisconnected
  else StHealthy.

Definition Score_is_good_gossipsub_peer (s : Score) : bool :=
  match s with ScoreMax => true | ScoreReal r => f64_le (f64_of_Z 0) (gossipsub_score r) end.

(** [Ord::cmp]: incomparable scores are equal. *)
Definition Score_cmp (a b : Score) : comparison :=
  default Eq (f64_partial_cmp (Score_score a) (Score_score b)).

(** ** Histories of a score *)

Inductive score_event : Type :=
| EvAction (a : PeerAction)
| EvUpdate (now : Instant)
| EvGossip (now : Instant) (new_score : f64) (ignore : bool).

Definition score_do `{Libm} (e : score_event) (s : RealScore) : RealScore :=
  match e with
  | EvAction a => apply_peer_action a s
  | EvUpdate now => update_at now s
  | EvGossip now g i => update_gossipsub_score now g i s
  end.

Definition score_run `{Libm} (es : list score_event) (s : RealScore) : RealScore :=
  foldl (fun s e => score_do e s) s es.

(** The event happens before [T]. *)
Definition event_before (T : Instant) (e : score_event) : Prop :=
  match e with EvAction _ => True | EvUpdate now => now < T | EvGossip now _ _ => now < T end.

(** ** Theorems *)

(** A score at the bottom, in its ban time. *)
Definition rock_bottom (s : RealScore) : Prop :=
  voltaire_score s = MIN_SCORE /\ rs_score s = MIN_SCORE.

Lemma rock_bottom_action a s :
  rock_bottom s -> rock_bottom (apply_peer_action a s) /\
  last_updated (apply_peer_action a s) = last_updated s /\
  gossipsub_score (apply_peer_action a s) = gossipsub_score s /\
  ignore_negative_gossipsub_score (apply_peer_action a s) = ignore_negative_gossipsub_score s.
Proof. intros [Hv Hs]. destruct s as [v g i sc l]; simpl in *; subst. by destruct a. Qed.

Lemma rock_bottom_state s : rock_bottom s -> Score_state (ScoreReal s) = StBanned.
Proof. intros [_ Hs]. unfold Score_state; simpl. by rewrite Hs. Qed.

Lemma fatal_bottom s :
  rock_bottom (apply_peer_action Fatal s) /\
  last_updated (apply_peer_action Fatal s)
  = last_updated s + (if f64_lt MIN_SCORE_BEFORE_BAN (rs_score s) then BANNED_BEFORE_DECAY else 0).
Proof.
  destruct s as [v g i sc l]. unfold apply_peer_action, set_voltaire_score, update_state. simpl.
  destruct (f64_lt MIN_SCORE_BEFORE_BAN sc); simpl; split; try done; simpl; lia.
Qed.

(** A fatal action bans a peer for at least twelve hours. Whatever
    actions, score updates and gossipsub updates follow before the score's last
    update time plus twelve hours, in any order and number, a peer that was not
    banned stays banned. *)
Theorem fatal_ban_lasts `{Libm} s es :
  f64_lt MIN_SCORE_BEFORE_BAN (rs_score s) = true ->
  Forall (event_before (last_updated s + BANNED_BEFORE_DECAY)) es ->
  Score_state (ScoreReal (score_run es (apply_peer_action Fatal s))) = StBanned.
Proof.
  intros Hs Hes. destruct (fatal_bottom s) as [Hb Hl]. rewrite Hs in Hl.
  apply rock_bottom_state. revert Hb Hl. generalize (apply_peer_action Fatal s) as r.
  unfold score_run. induction Hes as [|e es He Hes IH]; intros r Hb Hl; simpl; [done|].
  destruct e as [a|now|now g i]; simpl in *.
  - destruct (rock_bottom_action a r Hb) as (? & ? & _). apply IH; [done|congruence].
  - unfold update_at, checked_duration_since.
    assert (last_updated r <=? now = false) as -> by (apply Z.leb_gt; lia). by apply IH.
  - unfold update_gossipsub_score.
    assert (last_updated r <=? now = false) as -> by (apply Z.leb_gt; lia). by apply IH.
Qed.

Lemma fatal_ban_lasts_witness :
  Score_state (ScoreReal (@score_run demo_libm
    [EvAction HighToleranceError; EvUpdate (from_secs 3600); EvGossip (from_secs 7200) (f64_of_Z 50) false]
    (apply_peer_action Fatal (RealScore_default 0)))) = StBanned.
Proof.
  apply (@fatal_ban_lasts demo_libm (RealScore_default 0)); [reflexivity|].
  repeat constructor.
Defined.

Definition repeat_action (a : PeerAction) (n : nat) : Score :=
  Nat.iter n (score_apply (apply_peer_action a)) (Score_default 0).

(** The states after each of the first [n] occurrences of an action. *)
Definition state_history (a : PeerAction) (n : nat) : list ScoreState :=
  map (fun k => Score_state (repeat_action a k)) (seq 0 (S n)).

(** The tolerance of each kind of error, as the comments on [PeerAction]
    say. For a new peer whose score does not decay in between, low-tolerance
    errors disconnect it at the second and ban it at the fifth
    occurrence, mid-tolerance errors at the fourth and tenth, high-tolerance
    errors at the twentieth and fiftieth, and a fatal one bans it at once. *)
Theorem action_tolerance :
  state_history LowToleranceError 5 = repeat StHealthy 2 ++ repeat StDisconnected 3 ++ [StBanned] /\
  state_history MidToleranceError 10 = repeat StHealthy 4 ++ repeat StDisconnected 6 ++ [StBanned] /\
  state_history HighToleranceError 50 = repeat StHealthy 20 ++ repeat StDisconnected 30 ++ [StBanned] /\
  state_history Fatal 1 = [StHealthy; StBanned].
Proof. split_and!; vm_compute; reflexivity. Qed.

(** The documented range of a score. *)
Definition in_limits (x : f64) : Prop :=
  is_nan x = false /\ f64_le MIN_SCORE x = true /\ f64_le x MAX_SCORE = true.

Lemma in_limits_finite x : in_limits x -> is_finite x = true.
Proof. intros (Hn & Hl & Hh). by destruct x as [|[]| |]. Qed.

Lemma voltaire_after_update s : voltaire_score (update_state s) = voltaire_score s.
Proof. unfold update_state. by case_match. Qed.

Lemma action_in_limits a s :
  in_limits (voltaire_score s) -> in_limits (voltaire_score (apply_peer_action a s)).
Proof.
  intros Hs. pose proof (in_limits_finite _ Hs) as Hf.
  assert (Hadd : forall d, is_finite d = true -> in_limits (voltaire_score (score_add d s))).
  { intros d Hd. unfold score_add, set_voltaire_score. rewrite voltaire_after_update.
    apply f64_clamp_range; try done. by apply f64_add_nan. }
  destruct a; unfold apply_peer_action; [|apply Hadd; vm_compute; reflexivity..].
  unfold set_voltaire_score. rewrite voltaire_after_update. simpl. by split_and!.
Qed.

(** Actions keep the score of a peer within [-100] and [100], and never make
    it a NaN: for a new peer and any sequence of actions. *)
Theorem actions_in_limits (acts : list PeerAction) now :
  in_limits (voltaire_score (foldl (fun s a => apply_peer_action a s) (RealScore_default now) acts)).
Proof.
  assert (Hd : in_limits (voltaire_score (RealScore_default now))) by done.
  revert Hd. generalize (RealScore_default now). induction acts as [|a acts IH]; intros s Hs; simpl; [done|].
  apply IH. by apply action_in_limits.
Qed.

(** The documentation of [update_scores] says that a score can only
    increase in an update. It can drop: when the decay lifts the voltaire score
    above [-60], a negative gossipsub score that was ignored until then counts
    again. Without any decay of the gossipsub score (and for a decay factor
    of one half), a score of [-62] with a gossipsub score of [-16000] becomes
    [-31 - 19 = -50] and the peer, disconnected at [-31] alone, is banned. *)
Theorem update_can_ban :
  let halving := {| f64_exp := fun _ => f64_div (f64_of_Z 1) (f64_of_Z 2); f64_ln := fun x => x |} in
  let s := mkRealScore (f64_of_Z (-62)) (f64_of_Z (-16000)) false (f64_of_Z (-62)) 0 in
  let s1 := @update_at halving (from_secs 600) s in
  rs_score s1 = f64_of_Z (-50) /\ Score_state (ScoreReal s1) = StBanned /\
  recomputed (f64_of_Z (-31)) (f64_of_Z (-16000)) true = f64_of_Z (-31).
Proof. split_and!; vm_compute; reflexivity. Qed.
