(* ===== verification/External.v ===== *)
(** * Interfaces to code outside the repository

    The types and functions of [libp2p], [discv5] and [ethereum_ssz] the
    program uses are the fields of the class [External]; the development is
    parametric in it. [demo_external] is a small concrete instance used to
    evaluate the model. IP addresses are those of the standard library. *)

From Stdlib.Init Require Import Byte.
From S2P Require Import Prelude RustStr.

(** [std::net::IpAddr]. *)
Inductive IpAddr : Type := V4 (a : Z) | V6 (a : Z).

#[export] Instance IpAddr_eq_dec : EqDecision IpAddr.
Proof. solve_decision. Defined.
#[export] Instance IpAddr_countable : Countable IpAddr.
Proof.
  refine (inj_countable' (fun i => match i with V4 a => inl a | V6 a => inr a end)
    (fun s => match s with inl a => V4 a | inr a => V6 a end) _).
  by intros [].
Defined.

(** The components of a [libp2p::Multiaddr] the program looks at. *)
Inductive MaProtocol : Type :=
| Ip4 (a : Z)
| Ip6 (a : Z)
| Tcp (port : Z)
| Udp (port : Z)
| QuicV1
| OtherProtocol (code : Z).

Class External := {
  (** [libp2p::PeerId]. *)
  PeerId : Type;
  #[global] PeerId_eq_dec :: EqDecision PeerId;
  #[global] PeerId_countable :: Countable PeerId;
  (** [libp2p::Multiaddr] and its iterator over components. *)
  Multiaddr : Type;
  #[global] Multiaddr_eq_dec :: EqDecision Multiaddr;
  #[global] Multiaddr_countable :: Countable Multiaddr;
  multiaddr_iter : Multiaddr -> list MaProtocol;
  (** [discv5::Enr] and the peer id of its public key. *)
  Enr : Type;
  #[global] Enr_eq_dec :: EqDecision Enr;
  enr_peer_id : Enr -> PeerId;
  (** [ssz::DecodeError]. *)
  DecodeError : Type;
  #[global] DecodeError_eq_dec :: EqDecision DecodeError;
  (** [ssz_types]: a vector as a [VariableList] of at most 256 bytes. *)
  variable_list_256 : list Byte.byte -> list Byte.byte;
  variable_list_256_len : forall b, (length (variable_list_256 b) <= 256)%nat;
  variable_list_256_short : forall b, (length b <= 256)%nat -> variable_list_256 b = b;
  (** [regex]: the bytes without control characters, as lossy UTF-8. *)
  printable_utf8 : list Byte.byte -> string;
}.

(** Peers are numbers, an address is an IP and a port. *)
#[refine] Definition demo_external : External := {|
  PeerId := positive;
  Multiaddr := Z * Z;
  multiaddr_iter := fun a => [Ip4 a.1; Tcp a.2];
  Enr := positive;
  enr_peer_id := fun e => e;
  DecodeError := unit;
  variable_list_256 := fun b => take 256 b;
  printable_utf8 := string_of_bytes;
|}.
Proof.
  - intros b. rewrite length_take. lia.
  - intros b Hb. by apply take_ge.
Defined.

Definition demo_peer : @PeerId demo_external := 1%positive.
Definition demo_peer2 : @PeerId demo_external := 2%positive.
