(* ===== verification/RpcTypes.v ===== *)
(** * RPC messages and protocols

    Models the data of [src/rpc/methods.rs], [protocol.rs], [outbound.rs]
    and [mod.rs]: protocols and their ids, size limits, requests, responses,
    error codes, goodbye reasons and the functions on them. SSZ containers are
    records; their byte encodings belong to the codec. *)

From Stdlib.Init Require Import Byte.
From S2P Require Import Prelude RustStr External.

Abbreviation bytes := (list Byte.byte).

(** ** [protocol.rs]: protocols *)

Inductive Protocol : Type :=
| Status | Goodbye | PingProtocol | MetaDataProtocol | PooledUserOpHashesProtocol
| PooledUserOpsByHashProtocol.

#[export] Instance Protocol_eq_dec : EqDecision Protocol.
Proof. solve_decision. Defined.
#[export] Instance Protocol_countable : Countable Protocol.
Proof.
  refine (inj_countable'
    (fun p => match p with Status => 0 | Goodbye => 1 | PingProtocol => 2 | MetaDataProtocol => 3
     | PooledUserOpHashesProtocol => 4 | PooledUserOpsByHashProtocol => 5 end)
    (fun n => match n with 0 => Status | 1 => Goodbye | 2 => PingProtocol | 3 => MetaDataProtocol
     | 4 => PooledUserOpHashesProtocol | _ => PooledUserOpsByHashProtocol end) _).
  by intros [].
Defined.

(** [AsRefStr] and [Display] of [Protocol] ([serialize_all = "snake_case"]
    and the [serialize] attributes). *)
Definition Protocol_as_ref (p : Protocol) : string :=
  match p with
  | Status => "status"
  | Goodbye => "goodbye"
  | PingProtocol => "ping"
  | MetaDataProtocol => "metadata"
  | PooledUserOpHashesProtocol => "pooled_user_op_hashes"
  | PooledUserOpsByHashProtocol => "pooled_user_ops_by_hash"
  end.

(** [EnumString] of [Protocol]. *)
Definition Protocol_from_str (s : string) : option Protocol :=
  if String.eqb s "status" then Some Status
  else if String.eqb s "goodbye" then Some Goodbye
  else if String.eqb s "ping" then Some PingProtocol
  else if String.eqb s "metadata" then Some MetaDataProtocol
  else if String.eqb s "pooled_user_op_hashes" then Some PooledUserOpHashesProtocol
  else if String.eqb s "pooled_user_ops_by_hash" then Some PooledUserOpsByHashProtocol
  else None.

Inductive Encoding : Type := SSZSnappy.

Definition Encoding_display (e : Encoding) : string :=
  match e with SSZSnappy => "ssz_snappy" end.

Inductive SupportedProtocol : Type :=
| StatusV1 | GoodbyeV1 | PingV1 | MetaDataV1 | PooledUserOpHashesV1 | PooledUserOpsByHashV1.

#[export] Instance SupportedProtocol_eq_dec : EqDecision SupportedProtocol.
Proof. solve_decision. Defined.

Definition version_string (p : SupportedProtocol) : string :=
  match p with
  | StatusV1 => "1"
  | GoodbyeV1 => "1"
  | PingV1 => "1"
  | MetaDataV1 => "1"
  | PooledUserOpHashesV1 => "1"
  | PooledUserOpsByHashV1 => "1"
  end.

Definition SupportedProtocol_protocol (p : SupportedProtocol) : Protocol :=
  match p with
  | StatusV1 => Status
  | GoodbyeV1 => Goodbye
  | PingV1 => PingProtocol
  | MetaDataV1 => MetaDataProtocol
  | PooledUserOpHashesV1 => PooledUserOpHashesProtocol
  | PooledUserOpsByHashV1 => PooledUserOpsByHashProtocol
  end.

Definition PROTOCOL_PREFIX : string := "/account_abstraction/req".
Definition REQUEST_TIMEOUT : Z := 15.

Definition max_rpc_size (max_chunk_size : Z) : Z := max_chunk_size.

Record ProtocolId : Type := mkProtocolId {
  versioned_protocol : SupportedProtocol;
  encoding : Encoding;
  protocol_id : string;
}.

Definition ProtocolId_new (p : SupportedProtocol) (e : Encoding) : ProtocolId := {|
  versioned_protocol := p;
  encoding := e;
  protocol_id := PROTOCOL_PREFIX +:+ "/" +:+ Protocol_as_ref (SupportedProtocol_protocol p)
    +:+ "/" +:+ version_string p +:+ "/" +:+ Encoding_display e;
|}.

Definition currently_supported : list ProtocolId := [
  ProtocolId_new StatusV1 SSZSnappy;
  ProtocolId_new GoodbyeV1 SSZSnappy;
  ProtocolId_new PingV1 SSZSnappy;
  ProtocolId_new MetaDataV1 SSZSnappy;
  ProtocolId_new PooledUserOpHashesV1 SSZSnappy;
  ProtocolId_new PooledUserOpsByHashV1 SSZSnappy].

Record RPCProtocol : Type := mkRPCProtocol { rpc_max_rpc_size : Z; ttfb_timeout : Duration }.

(** [UpgradeInfo::protocol_info] of the listening side. *)
Definition RPCProtocol_protocol_info (p : RPCProtocol) : list ProtocolId := currently_supported.

Record RpcLimits : Type := mkRpcLimits { lim_min : Z; lim_max : Z }.

Definition is_out_of_bounds (l : RpcLimits) (length max_rpc_size : Z) : bool :=
  (Z.min (lim_max l) max_rpc_size <? length) || (length <? lim_min l).

(** The SSZ length of a [u64], which [Ping] and [GoodbyeReason] encode to. *)
Definition u64_ssz_fixed_len : Z := 8.

Definition rpc_request_limits (p : ProtocolId) : RpcLimits :=
  match SupportedProtocol_protocol (versioned_protocol p) with
  | Status => mkRpcLimits 0 1048576
  | Goodbye => mkRpcLimits u64_ssz_fixed_len u64_ssz_fixed_len
  | PingProtocol => mkRpcLimits u64_ssz_fixed_len u64_ssz_fixed_len
  | MetaDataProtocol => mkRpcLimits 0 1048576
  | PooledUserOpHashesProtocol => mkRpcLimits 0 10485761048576
  | PooledUserOpsByHashProtocol => mkRpcLimits 0 10485761048576
  end.

Definition rpc_response_limits (p : ProtocolId) : RpcLimits :=
  match SupportedProtocol_protocol (versioned_protocol p) with
  | Status => mkRpcLimits 0 1048576
  | Goodbye => mkRpcLimits 0 0
  | PingProtocol => mkRpcLimits u64_ssz_fixed_len u64_ssz_fixed_len
  | MetaDataProtocol => mkRpcLimits 0 1048576
  | PooledUserOpHashesProtocol => mkRpcLimits 0 1048576
  | PooledUserOpsByHashProtocol => mkRpcLimits 0 1048576
  end.

Definition has_context_bytes (p : ProtocolId) : bool :=
  match versioned_protocol p with
  | PooledUserOpHashesV1 | PooledUserOpsByHashV1 | StatusV1 | PingV1 | MetaDataV1 | GoodbyeV1 => false
  end.

(** ** [methods.rs]: messages *)

Definition MAX_REQUEST_BLOCKS : Z := 1024.
Definition MAX_OPS_PER_REQUEST : Z := 4096.
Definition MAX_ERROR_LEN : Z := 256.

Record StatusMessage : Type := mkStatusMessage { chain_id : Z; block_hash : Z; block_number : Z }.
Record Ping : Type := mkPing { ping_data : Z }.
Record MetaData : Type := mkMetaData { seq_number : Z; supported_mempools : list bytes }.

Definition MetaData_metadata (m : MetaData) : MetaData := m.

Inductive GoodbyeReason : Type :=
| ClientShutdown | IrrelevantNetwork | Fault | UnableToVerifyNetwork | TooManyPeers
| BadScore | GoodbyeBanned | BannedIP | GoodbyeUnknown.

#[export] Instance GoodbyeReason_eq_dec : EqDecision GoodbyeReason.
Proof. solve_decision. Defined.

(** [From<u64> for GoodbyeReason]. *)
Definition GoodbyeReason_from_u64 (id : Z) : GoodbyeReason :=
  match id with
  | 1 => ClientShutdown
  | 2 => IrrelevantNetwork
  | 3 => Fault
  | 128 => UnableToVerifyNetwork
  | 129 => TooManyPeers
  | 250 => BadScore
  | 251 => GoodbyeBanned
  | 252 => BannedIP
  | _ => GoodbyeUnknown
  end.

(** [From<GoodbyeReason> for u64]: the discriminant. *)
Definition GoodbyeReason_to_u64 (r : GoodbyeReason) : Z :=
  match r with
  | ClientShutdown => 1
  | IrrelevantNetwork => 2
  | Fault => 3
  | UnableToVerifyNetwork => 128
  | TooManyPeers => 129
  | BadScore => 250
  | GoodbyeBanned => 251
  | BannedIP => 252
  | GoodbyeUnknown => 0
  end.

Record UserOperation : Type := mkUserOperation {
  sender : Z; nonce : Z; initCode : bytes; callData : bytes; callGasLimit : Z;
  verificationGasLimit : Z; preVerificationGas : Z; maxFeePerGas : Z;
  maxPriorityFeePerGas : Z; paymasterAndData : bytes; signature : bytes;
}.

Record VerifiedUserOperation : Type := mkVerifiedUserOperation {
  user_operation : UserOperation; entry_point_contract : Z; verified_at_block_hash : Z;
}.

Record PooledUserOpHashes : Type := mkPooledUserOpHashes { next_cursor : bytes; hashes : list bytes }.
Record PooledUserOpHashesRequest : Type := mkPooledUserOpHashesRequest { cursor : bytes }.
Record PooledUserOpsByHash : Type := mkPooledUserOpsByHash { ops_list : list UserOperation }.
Record PooledUserOpsByHashRequest : Type := mkPooledUserOpsByHashRequest { req_hashes : list bytes }.

Inductive RPCResponse : Type :=
| RStatus (s : StatusMessage)
| RPooledUserOpHashes (r : PooledUserOpHashes)
| RPooledUserOpsByHash (r : PooledUserOpsByHash)
| RPong (p : Ping)
| RMetaData (m : MetaData).

Inductive ResponseTermination : Type := TermPooledUserOpHashes | TermPooledUserOpsByHash.

Inductive RPCResponseErrorCode : Type :=
| RateLimited | InvalidRequest | ServerError | ResourceUnavailable | UnknownCode.

#[export] Instance RPCResponseErrorCode_eq_dec : EqDecision RPCResponseErrorCode.
Proof. solve_decision. Defined.

(** [ErrorType]: the error message as bytes. *)
Record ErrorType : Type := mkErrorType { error_bytes : bytes }.

Inductive RPCCodedResponse : Type :=
| Success (r : RPCResponse)
| CodedError (code : RPCResponseErrorCode) (err : ErrorType)
| StreamTermination (t : ResponseTermination).

Definition RPCResponseErrorCode_as_u8 (c : RPCResponseErrorCode) : Z :=
  match c with
  | InvalidRequest => 1
  | ServerError => 2
  | ResourceUnavailable => 3
  | UnknownCode => 255
  | RateLimited => 139
  end.

Definition RPCCodedResponse_as_u8 (r : RPCCodedResponse) : option Z :=
  match r with
  | Success _ => Some 0
  | CodedError code _ => Some (RPCResponseErrorCode_as_u8 code)
  | StreamTermination _ => None
  end.

Definition is_response (response_code : Z) : bool := response_code =? 0.

Definition from_error (response_code : Z) (err : ErrorType) : RPCCodedResponse :=
  let code := match response_code with
    | 1 => InvalidRequest
    | 2 => ServerError
    | 3 => ResourceUnavailable
    | 139 => RateLimited
    | _ => UnknownCode
    end in
  CodedError code err.

Definition multiple_responses (r : RPCCodedResponse) : bool :=
  match r with
  | Success resp =>
      match resp with
      | RStatus _ => false
      | RPooledUserOpHashes _ => false
      | RPooledUserOpsByHash _ => false
      | RPong _ => false
      | RMetaData _ => false
      end
  | CodedError _ _ => true
  | StreamTermination _ => true
  end.

Definition close_after (r : RPCCodedResponse) : bool :=
  match r with Success _ => false | _ => true end.

Definition RPCResponse_protocol (r : RPCResponse) : Protocol :=
  match r with
  | RStatus _ => Status
  | RPooledUserOpHashes _ => PooledUserOpHashesProtocol
  | RPooledUserOpsByHash _ => PooledUserOpsByHashProtocol
  | RPong _ => PingProtocol
  | RMetaData _ => MetaDataProtocol
  end.

(** ** Requests *)

Inductive InboundRequest : Type :=
| InStatus (s : StatusMessage)
| InGoodbye (r : GoodbyeReason)
| InPing (p : Ping)
| InMetaData
| InPooledUserOpHashes (r : PooledUserOpHashesRequest)
| InPooledUserOpsByHash (r : PooledUserOpsByHashRequest).

Definition Inbound_expected_responses (r : InboundRequest) : Z :=
  match r with
  | InStatus _ => 1
  | InGoodbye _ => 0
  | InPing _ => 1
  | InMetaData => 1
  | InPooledUserOpHashes _ => 10
  | InPooledUserOpsByHash _ => 1
  end.

Definition Inbound_versioned_protocol (r : InboundRequest) : SupportedProtocol :=
  match r with
  | InStatus _ => StatusV1
  | InGoodbye _ => GoodbyeV1
  | InPing _ => PingV1
  | InMetaData => MetaDataV1
  | InPooledUserOpHashes _ => PooledUserOpHashesV1
  | InPooledUserOpsByHash _ => PooledUserOpsByHashV1
  end.

Definition Inbound_stream_termination (r : InboundRequest) : outcome ResponseTermination :=
  match r with
  | InStatus _ => Panic "unreachable"
  | InGoodbye _ => Panic "unreachable"
  | InPing _ => Panic "unreachable"
  | InMetaData => Panic "unreachable"
  | InPooledUserOpHashes _ => Panic "unreachable"
  | InPooledUserOpsByHash _ => Panic "unreachable"
  end.

Inductive OutboundRequest : Type :=
| OutStatus (s : StatusMessage)
| OutGoodbye (r : GoodbyeReason)
| OutPooledUserOpHashes (r : PooledUserOpHashesRequest)
| OutPooledUserOpsByHash (r : PooledUserOpsByHashRequest)
| OutPing (p : Ping)
| OutMetaData.

Definition Outbound_supported_protocols (r : OutboundRequest) : list ProtocolId :=
  match r with
  | OutStatus _ => [ProtocolId_new StatusV1 SSZSnappy]
  | OutGoodbye _ => [ProtocolId_new GoodbyeV1 SSZSnappy]
  | OutPooledUserOpHashes _ => [ProtocolId_new PooledUserOpHashesV1 SSZSnappy]
  | OutPooledUserOpsByHash _ => [ProtocolId_new PooledUserOpsByHashV1 SSZSnappy]
  | OutPing _ => [ProtocolId_new PingV1 SSZSnappy]
  | OutMetaData => [ProtocolId_new MetaDataV1 SSZSnappy]
  end.

Definition Outbound_expected_responses (r : OutboundRequest) : Z :=
  match r with
  | OutStatus _ => 1
  | OutGoodbye _ => 0
  | OutPooledUserOpHashes _ => 10
  | OutPooledUserOpsByHash _ => 10
  | OutPing _ => 1
  | OutMetaData => 1
  end.

Definition Outbound_versioned_protocol (r : OutboundRequest) : SupportedProtocol :=
  match r with
  | OutStatus _ => StatusV1
  | OutGoodbye _ => GoodbyeV1
  | OutPooledUserOpHashes _ => PooledUserOpHashesV1
  | OutPooledUserOpsByHash _ => PooledUserOpsByHashV1
  | OutPing _ => PingV1
  | OutMetaData => MetaDataV1
  end.

Definition Outbound_stream_termination (r : OutboundRequest) : outcome ResponseTermination :=
  match r with
  | OutPooledUserOpHashes _ => Ret TermPooledUserOpHashes
  | OutPooledUserOpsByHash _ => Ret TermPooledUserOpsByHash
  | OutStatus _ => Panic "unreachable"
  | OutGoodbye _ => Panic "unreachable"
  | OutPing _ => Panic "unreachable"
  | OutMetaData => Panic "unreachable"
  end.

(** ** Errors *)

Section errors.
Context `{External}.

(** [From<String>] and [From<&str>] for [ErrorType], and its [ToString]. *)
Definition ErrorType_from (s : string) : ErrorType := mkErrorType (variable_list_256 (as_bytes s)).
Definition ErrorType_to_string (e : ErrorType) : string := printable_utf8 (error_bytes e).

Inductive RPCError : Type :=
| SSZDecodeError (e : DecodeError)
| IoError (e : string)
| ErrorResponse (code : RPCResponseErrorCode) (msg : string)
| StreamTimeout
| UnsupportedProtocol
| IncompleteStream
| InvalidData (e : string)
| InternalError (e : string)
| NegotiationTimeout
| HandlerRejected
| Disconnected_.
End errors.

(** ** Events between the RPC behaviour and its connection handlers *)

Section events.
Context {Id : Type}.

(** [mod.rs]: what the behaviour sends to a handler. *)
Inductive RPCSend : Type :=
| SendRequest (id : Id) (req : OutboundRequest)
| SendResponse (id : Z) (resp : RPCCodedResponse)
| SendShutdown (id : Id) (reason : GoodbyeReason).

(** What a handler received. *)
Inductive RPCReceived : Type :=
| RecvRequest (id : Z) (req : InboundRequest)
| RecvResponse (id : Id) (resp : RPCResponse)
| EndOfStream (id : Id) (t : ResponseTermination).

(** [handler.rs]: errors a handler reports, and what it sends up. *)
Context `{External}.

Inductive HandlerErr : Type :=
| ErrInbound (id : Z) (proto : Protocol) (error : RPCError)
| ErrOutbound (id : Id) (proto : Protocol) (error : RPCError).

Definition HandlerEvent : Type := result RPCReceived HandlerErr.

(** [mod.rs]: a handler's event with its origin. A [ConnectionId] of [libp2p]
    is a number. *)
Record RPCMessage : Type := mkRPCMessage {
  msg_peer_id : PeerId; msg_conn_id : Z; msg_event : HandlerEvent }.

(** [NotifyHandler] and the variants of [ToSwarm] the behaviour emits. *)
Inductive NotifyHandler : Type := NotifyOne (conn : Z) | NotifyAny.

Inductive BehaviourAction : Type :=
| ActNotifyHandler (peer_id : PeerId) (handler : NotifyHandler) (event : RPCSend)
| ActGenerateEvent (msg : RPCMessage).
End events.
Arguments RPCSend : clear implicits.
Arguments RPCReceived : clear implicits.
Arguments HandlerErr Id {_}.
Arguments HandlerEvent Id {_}.
Arguments RPCMessage Id {_}.
Arguments BehaviourAction Id {_}.

(** ** Theorems *)

Lemma outbound_termination_ret r :
  1 < Outbound_expected_responses r -> is_ret (Outbound_stream_termination r) = true.
Proof. destruct r; simpl; (done || lia). Qed.

Lemma Protocol_from_as_ref p : Protocol_from_str (Protocol_as_ref p) = Some p.
Proof. by destruct p. Qed.

Lemma GoodbyeReason_from_to r : GoodbyeReason_from_u64 (GoodbyeReason_to_u64 r) = r.
Proof. by destruct r. Qed.

(** A goodbye reason survives its encoding as a number; a number survives the
    decoding exactly when it is one of the known codes, and every other one
    becomes 0. *)
Theorem goodbye_reason_codes r n :
  GoodbyeReason_from_u64 (GoodbyeReason_to_u64 r) = r /\
  (GoodbyeReason_to_u64 (GoodbyeReason_from_u64 n) = n \/
   (GoodbyeReason_to_u64 (GoodbyeReason_from_u64 n) = 0 /\
    n ∉ [1; 2; 3; 128; 129; 250; 251; 252])).
Proof.
  split; [apply GoodbyeReason_from_to|].
  destruct (decide (n ∈ [0; 1; 2; 3; 128; 129; 250; 251; 252])) as [Hin|Hnin].
  - left. set_unfold. naive_solver.
  - right. split; [|set_solver].
    assert (GoodbyeReason_from_u64 n = GoodbyeUnknown) as ->; [|done].
    unfold GoodbyeReason_from_u64. repeat case_match; try done; subst; set_solver.
Qed.

(** The response code byte determines the kind of the chunk: an error chunk
    never carries the success code, and decoding its code gives it back. *)
Theorem response_code_roundtrip c err :
  RPCCodedResponse_as_u8 (CodedError c err) = Some (RPCResponseErrorCode_as_u8 c) /\
  is_response (RPCResponseErrorCode_as_u8 c) = false /\
  from_error (RPCResponseErrorCode_as_u8 c) err = CodedError c err /\
  0 <= RPCResponseErrorCode_as_u8 c < 256.
Proof. by destruct c. Qed.
