(* ===== verification/Wire.v ===== *)
(** * Interfaces of the wire formats

    The codec uses three libraries: [unsigned_varint] for length prefixes,
    [snap] for the snappy frame format and [ethereum_ssz] for the containers.
    Each is a class with the functions the codec calls and the documented
    behaviour it relies on. Concrete instances are given at the end: LEB128 for
    the varints, frames that store the data as it is, and containers encoded
    through an enumeration. *)

From Stdlib.Init Require Import Byte.
From Stdlib Require Strings.Byte.
From coqutil Require Import Byte Word.LittleEndianList.
From S2P Require Import Prelude RustStr External RpcTypes.

Abbreviation blen l := (Z.of_nat (length l)).

(** [std::io::Error]: the kind the codec tells apart, and a message. *)
Inductive IoErr : Type := UnexpectedEof | OtherIo (msg : string).
Definition IoErr_to_string (e : IoErr) : string :=
  match e with UnexpectedEof => "failed to fill whole buffer" | OtherIo msg => msg end.

(** [unsigned_varint::codec::Uvi<usize>]. Decoding gives the number with
    the bytes it takes, or asks for more bytes. *)
Class Varint := {
  uvi_encode : Z -> bytes;
  uvi_decode : bytes -> result (option (Z * nat)) IoErr;
  uvi_nonempty : forall n, uvi_encode n <> [];
  uvi_roundtrip : forall n rest, 0 <= n < 2 ^ 64 ->
    uvi_decode (uvi_encode n ++ rest) = Ok (Some (n, length (uvi_encode n)));
  uvi_partial : forall n s t, 0 <= n < 2 ^ 64 -> uvi_encode n = s ++ t -> t <> [] ->
    uvi_decode s = Ok None;
}.

(** [snap]: compression into frames; [read_exact] of a number of bytes
    from a frame decoder, with the position it reaches in its input. *)
Class Snappy := {
  max_compress_len : Z -> Z;
  frame_compress : bytes -> bytes;
  frame_read_exact : bytes -> Z -> result bytes IoErr * Z;
  snappy_bound : forall d, blen d < 2 ^ 32 -> blen (frame_compress d) <= max_compress_len (blen d);
  snappy_empty : frame_compress [] = [];
  snappy_position : forall input n, 0 <= (frame_read_exact input n).2 <= blen input;
  snappy_header : forall d, d <> [] -> 10 <= blen (frame_compress d);
  snappy_complete : forall d rest,
    frame_read_exact (frame_compress d ++ rest) (blen d) = (Ok d, blen (frame_compress d));
  snappy_partial : forall d s t, frame_compress d = s ++ t -> t <> [] ->
    exists pos, frame_read_exact s (blen d) = (Err UnexpectedEof, pos) /\ pos <= blen s;
}.

(** [snap::raw]: the block format, in which gossip messages are compressed. *)
Class RawSnappy := {
  raw_compress : bytes -> result bytes IoErr;
  raw_decompress_len : bytes -> result Z IoErr;
  raw_decompress : bytes -> result bytes IoErr;
  raw_roundtrip : forall d, blen d < 2 ^ 32 -> exists c, raw_compress d = Ok c /\
    raw_decompress_len c = Ok (blen d) /\ raw_decompress c = Ok d;
  raw_len : forall c d, raw_decompress c = Ok d -> raw_decompress_len c = Ok (blen d);
}.

(** ** SSZ *)

(** The values of the Rust types: what their integer widths and the bounds of
    [FixedVector] and [VariableList] allow. *)
Definition is_u64 (n : Z) : Prop := 0 <= n < 2 ^ 64.
Definition is_u256 (n : Z) : Prop := 0 <= n < 2 ^ 256.
Definition is_vec32 (b : bytes) : Prop := length b = 32%nat.
Definition is_call_data (b : bytes) : Prop := blen b <= 1000000.

Definition StatusMessage_wf (s : StatusMessage) : Prop :=
  is_u64 (chain_id s) /\ is_u256 (block_hash s) /\ is_u64 (block_number s).
Definition MetaData_wf (m : MetaData) : Prop :=
  is_u64 (seq_number m) /\ blen (supported_mempools m) <= MAX_OPS_PER_REQUEST /\
  Forall is_vec32 (supported_mempools m).
Definition UserOperation_wf (u : UserOperation) : Prop :=
  0 <= sender u < 2 ^ 160 /\ is_u256 (nonce u) /\ is_call_data (initCode u) /\
  is_call_data (callData u) /\ is_u256 (callGasLimit u) /\ is_u256 (verificationGasLimit u) /\
  is_u256 (preVerificationGas u) /\ is_u256 (maxFeePerGas u) /\
  is_u256 (maxPriorityFeePerGas u) /\ is_call_data (paymasterAndData u) /\
  is_call_data (signature u).
Definition VerifiedUserOperation_wf (u : VerifiedUserOperation) : Prop :=
  UserOperation_wf (user_operation u) /\ 0 <= entry_point_contract u < 2 ^ 160 /\
  is_u256 (verified_at_block_hash u).
Definition PooledUserOpHashes_wf (r : PooledUserOpHashes) : Prop :=
  is_vec32 (next_cursor r) /\ blen (hashes r) <= MAX_OPS_PER_REQUEST /\ Forall is_vec32 (hashes r).
Definition PooledUserOpHashesRequest_wf (r : PooledUserOpHashesRequest) : Prop :=
  is_vec32 (cursor r).
Definition PooledUserOpsByHash_wf (r : PooledUserOpsByHash) : Prop :=
  blen (ops_list r) <= MAX_OPS_PER_REQUEST /\ Forall UserOperation_wf (ops_list r).
Definition PooledUserOpsByHashRequest_wf (r : PooledUserOpsByHashRequest) : Prop :=
  blen (req_hashes r) <= MAX_OPS_PER_REQUEST /\ Forall is_vec32 (req_hashes r).
Definition ErrorType_wf (e : ErrorType) : Prop := blen (error_bytes e) <= MAX_ERROR_LEN.

(** The encoding of one type, and that decoding inverts it on its values. *)
Class Ssz `{External} (A : Type) (wf : A -> Prop) := {
  as_ssz_bytes : A -> bytes;
  from_ssz_bytes : bytes -> result A DecodeError;
  ssz_roundtrip : forall a, wf a -> from_ssz_bytes (as_ssz_bytes a) = Ok a;
}.

(** [ethereum_ssz] and its derived encodings of the message types. *)
Class SszTypes `{External} := {
  #[global] ssz_u64 :: Ssz Z is_u64;
  #[global] ssz_status :: Ssz StatusMessage StatusMessage_wf;
  #[global] ssz_ping :: Ssz Ping (fun p => is_u64 (ping_data p));
  #[global] ssz_metadata :: Ssz MetaData MetaData_wf;
  #[global] ssz_hashes :: Ssz PooledUserOpHashes PooledUserOpHashes_wf;
  #[global] ssz_hashes_request :: Ssz PooledUserOpHashesRequest PooledUserOpHashesRequest_wf;
  #[global] ssz_ops :: Ssz PooledUserOpsByHash PooledUserOpsByHash_wf;
  #[global] ssz_ops_request :: Ssz PooledUserOpsByHashRequest PooledUserOpsByHashRequest_wf;
  #[global] ssz_error :: Ssz ErrorType ErrorType_wf;
  #[global] ssz_verified :: Ssz VerifiedUserOperation VerifiedUserOperation_wf;
  (** A [u64] takes eight bytes; a container of one is encoded as that one;
      a list of bytes is encoded as these bytes. *)
  ssz_u64_length : forall n : Z, length (as_ssz_bytes n) = 8%nat;
  ssz_ping_u64 : forall p : Ping, as_ssz_bytes p = as_ssz_bytes (ping_data p);
  ssz_error_bytes : forall e : ErrorType, as_ssz_bytes e = error_bytes e;
}.

(** ** Concrete instances *)

Fixpoint leb_encode (fuel : nat) (n : Z) : bytes :=
  match fuel with
  | O => [byte.of_Z n]
  | S fuel' => if n <? 128 then [byte.of_Z n]
               else byte.of_Z (n mod 128 + 128) :: leb_encode fuel' (n / 128)
  end.

Fixpoint leb_decode (fuel : nat) (b : bytes) : result (option (Z * nat)) IoErr :=
  match fuel, b with
  | O, _ => Err (OtherIo "varint overflow")
  | S _, [] => Ok None
  | S fuel', x :: b' =>
      if byte.unsigned x <? 128 then Ok (Some (byte.unsigned x, 1%nat))
      else match leb_decode fuel' b' with
           | Ok (Some (n, k)) => Ok (Some (byte.unsigned x - 128 + 128 * n, S k))
           | r => r
           end
  end.

Lemma byte_of_Z_small n : 0 <= n < 256 -> byte.unsigned (byte.of_Z n) = n.
Proof. intros Hn. rewrite byte.unsigned_of_Z. apply Z.mod_small. done. Qed.

Lemma leb_roundtrip fuel n rest : 0 <= n < 128 ^ Z.of_nat (S fuel) ->
  leb_decode (S fuel) (leb_encode fuel n ++ rest) = Ok (Some (n, length (leb_encode fuel n))).
Proof.
  revert n. induction fuel as [|fuel IH]; intros n Hn.
  - change (128 ^ Z.of_nat 1) with 128 in Hn. cbn. rewrite byte_of_Z_small by lia.
    destruct (n <? 128) eqn:Hlt; [done|]. apply Z.ltb_ge in Hlt. lia.
  - rewrite Nat2Z.inj_succ, Z.pow_succ_r in Hn by lia. cbn [leb_encode].
    destruct (n <? 128) eqn:Hlt.
    + cbn. apply Z.ltb_lt in Hlt as Hlt'. rewrite byte_of_Z_small by lia. by rewrite Hlt.
    + apply Z.ltb_ge in Hlt. pose proof (Z.mod_pos_bound n 128 ltac:(lia)) as Hm.
      change (leb_decode (S (S fuel)) ?l) with (match l with
        | [] => Ok None
        | x :: b' => if byte.unsigned x <? 128 then Ok (Some (byte.unsigned x, 1%nat))
          else match leb_decode (S fuel) b' with
               | Ok (Some (n, k)) => Ok (Some (byte.unsigned x - 128 + 128 * n, S k))
               | r => r end end).
      cbn [app]. rewrite byte_of_Z_small by lia.
      destruct (n mod 128 + 128 <? 128) eqn:Hx; [apply Z.ltb_lt in Hx; lia|].
      rewrite IH by (split; [apply Z.div_pos; lia|apply Z.div_lt_upper_bound; lia]).
      cbn [length]. do 3 f_equal. pose proof (Z.div_mod n 128 ltac:(lia)). lia.
Qed.

Lemma leb_partial fuel n s t : 0 <= n < 128 ^ Z.of_nat (S fuel) ->
  leb_encode fuel n = s ++ t -> t <> [] -> leb_decode (S fuel) s = Ok None.
Proof.
  revert n s. induction fuel as [|fuel IH]; intros n s Hn He Ht; cbn [leb_encode] in He.
  - destruct s as [|x s]; [done|]. destruct s, t; by simplify_eq/=.
  - rewrite Nat2Z.inj_succ, Z.pow_succ_r in Hn by lia. destruct s as [|x s]; [done|].
    destruct (n <? 128) eqn:Hlt; [destruct s, t; by simplify_eq/=|].
    cbn [app] in He. injection He as <- He. apply Z.ltb_ge in Hlt.
    pose proof (Z.mod_pos_bound n 128 ltac:(lia)) as Hm.
    apply IH in He; [|split; [apply Z.div_pos; lia|apply Z.div_lt_upper_bound; lia]|done].
    cbn [leb_decode] in *. rewrite byte_of_Z_small by lia.
    destruct (n mod 128 + 128 <? 128) eqn:Hx; [apply Z.ltb_lt in Hx; lia|]. by rewrite He.
Qed.

#[refine] Definition demo_varint : Varint := {|
  uvi_encode := leb_encode 9;
  uvi_decode := leb_decode 10;
|}.
Proof.
  - intros n. cbn [leb_encode]. by case_match.
  - intros n rest Hn. apply leb_roundtrip.
    assert (2 ^ 64 <= 128 ^ Z.of_nat 10) by (vm_compute; discriminate). lia.
  - intros n s t Hn. apply leb_partial.
    assert (2 ^ 64 <= 128 ^ Z.of_nat 10) by (vm_compute; discriminate). lia.
Defined.

Definition stored_header : bytes := repeat x00 10.

(** Ten bytes of header, then the data; nothing for no data. *)
#[refine] Definition demo_snappy : Snappy := {|
  max_compress_len := fun n => 32 + n + n / 6;
  frame_compress := fun d => match d with [] => [] | _ => stored_header ++ d end;
  frame_read_exact := fun input n =>
    if n <=? 0 then (Ok [], 0)
    else if blen input <? 10 + n then (Err UnexpectedEof, blen input)
    else (Ok (take (Z.to_nat n) (drop 10 input)), 10 + n);
|}.
Proof.
  - intros d Hd. assert (0 <= blen d / 6) by (apply Z.div_pos; lia).
    destruct d; [vm_compute; discriminate|]. rewrite length_app. change (length stored_header) with 10%nat. lia.
  - done.
  - intros input n. destruct (n <=? 0) eqn:H0; [simpl; lia|]. apply Z.leb_gt in H0.
    destruct (_ <? _) eqn:Hlt; simpl; [lia|]. apply Z.ltb_ge in Hlt. lia.
  - intros d Hd. destruct d; [done|]. rewrite length_app. change (length stored_header) with 10%nat. lia.
  - intros d rest. destruct d as [|x d]; [done|]. rewrite length_app.
    change (length stored_header) with 10%nat.
    destruct (blen (x :: d) <=? 0) eqn:H0; [apply Z.leb_le in H0; simpl in H0; lia|].
    rewrite !length_app. change (length stored_header) with 10%nat.
    destruct (_ <? _) eqn:Hlt; [apply Z.ltb_lt in Hlt; simpl in *; lia|].
    rewrite Nat2Z.id, <- app_assoc, drop_app_length' by done. rewrite take_app_length. f_equal. lia.
  - intros d s t Hd Ht. destruct d as [|x d]; [symmetry in Hd; by apply app_eq_nil in Hd as [_ ->]|].
    apply (f_equal length) in Hd. rewrite !length_app in Hd. change (length stored_header) with 10%nat in Hd.
    destruct (blen (x :: d) <=? 0) eqn:H0; [apply Z.leb_le in H0; simpl in H0; lia|].
    assert (length t <> 0%nat) by by destruct t.
    destruct (_ <? _) eqn:Hlt; [|apply Z.ltb_ge in Hlt; simpl in *; lia].
    eexists. split; [reflexivity|lia].
Defined.

(** Blocks that store the data as it is. *)
#[refine] Definition demo_raw_snappy : RawSnappy := {|
  raw_compress := fun d => Ok d;
  raw_decompress_len := fun c => Ok (blen c);
  raw_decompress := fun c => Ok c;
|}.
Proof.
  - intros d _. by exists d.
  - by intros c d [= ->].
Defined.

(** Containers through the enumeration of their type, one byte per binary digit. *)
Fixpoint pos_bytes (p : positive) : bytes :=
  match p with xH => [] | xO p => x00 :: pos_bytes p | xI p => x01 :: pos_bytes p end.
Fixpoint bytes_pos (b : bytes) : positive :=
  match b with [] => xH | x00 :: b => xO (bytes_pos b) | _ :: b => xI (bytes_pos b) end.
Lemma bytes_pos_bytes p : bytes_pos (pos_bytes p) = p.
Proof. induction p as [p IH|p IH|]; simpl; by rewrite ?IH. Qed.

#[export] Instance byte_eq_dec : EqDecision Byte.byte := Strings.Byte.byte_eq_dec.
#[export] Instance byte_countable : Countable Byte.byte.
Proof.
  refine (inj_countable Byte.to_N Byte.of_N _). intros b. apply Byte.of_to_N.
Defined.

#[local] Instance demo_ext : External := demo_external.

#[refine, local] Definition counted_ssz (A : Type) (wf : A -> Prop) `{Countable A} : Ssz A wf := {|
  as_ssz_bytes := fun a => pos_bytes (encode a);
  from_ssz_bytes := fun b => match decode (bytes_pos b) with Some a => Ok a | None => Err tt end;
|}.
Proof. intros a _. by rewrite bytes_pos_bytes, decode_encode. Defined.

(** An encoding through another type. *)
#[refine, local] Definition mapped_ssz {A B : Type} (wf : A -> Prop) (wf' : B -> Prop) (s : Ssz A wf)
    (f : B -> A) (g : A -> B) (Hwf : forall b, wf' b -> wf (f b)) (Hg : forall b, g (f b) = b)
  : Ssz B wf' := {|
  as_ssz_bytes := fun b => as_ssz_bytes (f b);
  from_ssz_bytes := fun x => match from_ssz_bytes x with Ok a => Ok (g a) | Err e => Err e end;
|}.
Proof. intros b Hb. rewrite ssz_roundtrip by auto. by rewrite Hg. Defined.

#[refine] Definition demo_u64 : Ssz Z is_u64 := {|
  as_ssz_bytes := le_split 8;
  from_ssz_bytes := fun b => if (length b =? 8)%nat then Ok (le_combine b) else Err tt;
|}.
Proof.
  intros n Hn. rewrite length_le_split, le_combine_split. simpl. f_equal. by apply Z.mod_small.
Defined.

#[refine] Definition demo_error : Ssz ErrorType ErrorType_wf := {|
  as_ssz_bytes := error_bytes;
  from_ssz_bytes := fun b => if blen b <=? MAX_ERROR_LEN then Ok (mkErrorType b) else Err tt;
|}.
Proof. intros [b] Hb. unfold ErrorType_wf in Hb. simpl in *. by apply Z.leb_le in Hb as ->. Defined.

Definition op_tuple (u : UserOperation) :=
  (sender u, nonce u, initCode u, callData u, callGasLimit u, verificationGasLimit u,
   preVerificationGas u, maxFeePerGas u, maxPriorityFeePerGas u, paymasterAndData u, signature u).
Definition tuple_op (t : Z * Z * bytes * bytes * Z * Z * Z * Z * Z * bytes * bytes) : UserOperation :=
  let '(a, b, c, d, e, f, g, h, i, j, k) := t in mkUserOperation a b c d e f g h i j k.

#[refine] Definition demo_ssz : SszTypes := {|
  ssz_u64 := demo_u64;
  ssz_status := mapped_ssz (fun _ => True) _ (counted_ssz (Z * Z * Z) _)
    (fun s => (chain_id s, block_hash s, block_number s)) (fun t => mkStatusMessage t.1.1 t.1.2 t.2) _ _;
  ssz_ping := mapped_ssz is_u64 _ demo_u64 ping_data mkPing _ _;
  ssz_metadata := mapped_ssz (fun _ => True) _ (counted_ssz (Z * list bytes) _)
    (fun m => (seq_number m, supported_mempools m)) (fun t => mkMetaData t.1 t.2) _ _;
  ssz_hashes := mapped_ssz (fun _ => True) _ (counted_ssz (bytes * list bytes) _)
    (fun r => (next_cursor r, hashes r)) (fun t => mkPooledUserOpHashes t.1 t.2) _ _;
  ssz_hashes_request := mapped_ssz (fun _ => True) _ (counted_ssz bytes _)
    cursor mkPooledUserOpHashesRequest _ _;
  ssz_ops := mapped_ssz (fun _ => True) _
    (counted_ssz (list (Z * Z * bytes * bytes * Z * Z * Z * Z * Z * bytes * bytes)) _)
    (fun r => map op_tuple (ops_list r)) (fun t => mkPooledUserOpsByHash (map tuple_op t)) _ _;
  ssz_ops_request := mapped_ssz (fun _ => True) _ (counted_ssz (list bytes) _)
    req_hashes mkPooledUserOpsByHashRequest _ _;
  ssz_error := demo_error;
  ssz_verified := mapped_ssz (fun _ => True) _
    (counted_ssz (Z * Z * bytes * bytes * Z * Z * Z * Z * Z * bytes * bytes * Z * Z) _)
    (fun u => (op_tuple (user_operation u), entry_point_contract u, verified_at_block_hash u))
    (fun t => mkVerifiedUserOperation (tuple_op t.1.1) t.1.2 t.2) _ _;
|}.
Proof.
  all: try done; try (by intros []); try (by intros [[]]).
  - intros [l]. simpl. f_equal. induction l as [|[] l IH]; [done|]. simpl. by f_equal.
Defined.
