(* ===== verification/Codec.v ===== *)
(** * The RPC codec

    Models [src/rpc/codec/mod.rs], [base.rs] and [ssz_snappy.rs]: how requests
    and responses are written to a substream and read back from the bytes that
    have arrived so far. A chunk is an optional response code, the length of
    the SSZ bytes as a varint, and these bytes as snappy frames. A decoder is
    called with all the bytes not yet consumed; it returns the value, asks for
    more bytes or fails, and leaves its state and the bytes it did not consume.
    The upgrades of [protocol.rs] and [outbound.rs], which create the codecs,
    are at the end. *)

From Stdlib.Init Require Import Byte.
From coqutil Require Import Byte.
From S2P Require Import Prelude RustStr External RpcTypes Wire.

Definition CONTEXT_BYTES_LEN : Z := 4.
Definition ERROR_TYPE_MAX : Z := 100000.
Definition ERROR_TYPE_MIN : Z := 1.

(** [BytesMut::split_to]: the bytes before and after a position. *)
Definition split_to (src : bytes) (n : Z) : outcome (bytes * bytes) :=
  if (0 <=? n) && (n <=? blen src) then Ret (take (Z.to_nat n) src, drop (Z.to_nat n) src)
  else Panic "split_to out of bounds".

Section codec.
Context `{External} `{Varint} `{Snappy} `{!SszTypes}.

(** [From<io::Error>] and [From<ssz::DecodeError>] for [RPCError]. *)
Definition RPCError_from_io (e : IoErr) : RPCError := IoError (IoErr_to_string e).
Definition RPCError_from_ssz (e : DecodeError) : RPCError := SSZDecodeError e.

(** The SSZ encoding of [GoodbyeReason]: that of its [u64]. *)
Definition Goodbye_as_ssz_bytes (r : GoodbyeReason) : bytes := as_ssz_bytes (GoodbyeReason_to_u64 r).
Definition Goodbye_from_ssz_bytes (b : bytes) : result GoodbyeReason DecodeError :=
  result_map GoodbyeReason_from_u64 (from_ssz_bytes b).

(** ** [ssz_snappy.rs] *)

Record SSZSnappyInboundCodec : Type := mkSSZSnappyInboundCodec {
  in_protocol : ProtocolId;
  in_len : option Z;
  in_max_packet_size : Z;
}.

Definition SSZSnappyInboundCodec_new (protocol : ProtocolId) (max_packet_size : Z)
  : SSZSnappyInboundCodec := mkSSZSnappyInboundCodec protocol None max_packet_size.

Record SSZSnappyOutboundCodec : Type := mkSSZSnappyOutboundCodec {
  out_len : option Z;
  out_protocol : ProtocolId;
  out_max_packet_size : Z;
}.

Definition SSZSnappyOutboundCodec_new (protocol : ProtocolId) (max_packet_size : Z)
  : SSZSnappyOutboundCodec := mkSSZSnappyOutboundCodec None protocol max_packet_size.

(** The second half of both [encode] functions: the size check, the length prefix
    and the compressed bytes, appended to [dst]. *)
Definition encode_bytes (max_packet_size : Z) (b dst : bytes) : result bytes RPCError :=
  if max_packet_size <? blen b
  then Err (InternalError "attempting to encode data > max_packet_size")
  else Ok (dst ++ uvi_encode (blen b) ++ frame_compress b).

(** The SSZ bytes of a response. *)
Definition response_bytes (protocol : SupportedProtocol) (item : RPCCodedResponse) : outcome bytes :=
  match item with
  | Success resp =>
      match resp with
      | RStatus res => Ret (as_ssz_bytes res)
      | RPooledUserOpHashes res => Ret (as_ssz_bytes res)
      | RPooledUserOpsByHash res => Ret (as_ssz_bytes res)
      | RPong res => Ret (as_ssz_bytes (ping_data res))
      | RMetaData res =>
          match protocol with
          | MetaDataV1 => Ret (as_ssz_bytes (MetaData_metadata res))
          | _ => Panic "We only send metadata responses on negotiating metadata requests"
          end
      end
  | CodedError _ err => Ret (as_ssz_bytes err)
  | StreamTermination _ => Panic "Code error - attempting to encode a stream termination"
  end.

Definition Inbound_encode (c : SSZSnappyInboundCodec) (item : RPCCodedResponse) (dst : bytes)
  : outcome (result bytes RPCError) :=
  b <-! response_bytes (versioned_protocol (in_protocol c)) item;
  Ret (encode_bytes (in_max_packet_size c) b dst).

Definition handle_error {T} (err : IoErr) (num_bytes max_compressed_len : Z)
  : result (option T) RPCError :=
  match err with
  | UnexpectedEof =>
      if max_compressed_len <=? num_bytes
      then Err (InvalidData ("Received malicious snappy message, num_bytes " +:+ dec num_bytes
                 +:+ ", max_compressed_len " +:+ dec max_compressed_len))
      else Ok None
  | _ => Err (RPCError_from_io err)
  end.

(** Returns the new [len] and the bytes after the prefix too. *)
Definition handle_length (len : option Z) (src : bytes)
  : result (option Z) RPCError * option Z * bytes :=
  match len with
  | Some length => (Ok (Some length), len, src)
  | None =>
      match uvi_decode src with
      | Err e => (Err (RPCError_from_io e), None, src)
      | Ok (Some (length, n)) => (Ok (Some length), Some length, drop n src)
      | Ok None => (Ok None, None, src)
      end
  end.

Definition ssz {A} (r : result A DecodeError) : result A RPCError :=
  match r with Ok a => Ok a | Err e => Err (RPCError_from_ssz e) end.

Definition handle_rpc_request (versioned_protocol : SupportedProtocol) (decoded_buffer : bytes)
  : result (option InboundRequest) RPCError :=
  match versioned_protocol with
  | StatusV1 => m <-? ssz (from_ssz_bytes decoded_buffer); Ok (Some (InStatus m))
  | GoodbyeV1 => m <-? ssz (Goodbye_from_ssz_bytes decoded_buffer); Ok (Some (InGoodbye m))
  | PooledUserOpHashesV1 =>
      m <-? ssz (from_ssz_bytes decoded_buffer); Ok (Some (InPooledUserOpHashes m))
  | PooledUserOpsByHashV1 =>
      m <-? ssz (from_ssz_bytes decoded_buffer); Ok (Some (InPooledUserOpsByHash m))
  | PingV1 => n <-? ssz (from_ssz_bytes decoded_buffer); Ok (Some (InPing (mkPing n)))
  | MetaDataV1 =>
      match decoded_buffer with
      | [] => Ok (Some InMetaData)
      | _ => Err (InvalidData "Metadata request")
      end
  end.

Definition handle_rpc_response (versioned_protocol : SupportedProtocol) (decoded_buffer : bytes)
  : result (option RPCResponse) RPCError :=
  match versioned_protocol with
  | StatusV1 => m <-? ssz (from_ssz_bytes decoded_buffer); Ok (Some (RStatus m))
  | GoodbyeV1 => Err (InvalidData "Goodbye RPC message has no valid response")
  | PingV1 => n <-? ssz (from_ssz_bytes decoded_buffer); Ok (Some (RPong (mkPing n)))
  | MetaDataV1 => m <-? ssz (from_ssz_bytes decoded_buffer); Ok (Some (RMetaData m))
  | PooledUserOpHashesV1 =>
      m <-? ssz (from_ssz_bytes decoded_buffer); Ok (Some (RPooledUserOpHashes m))
  | PooledUserOpsByHashV1 =>
      m <-? ssz (from_ssz_bytes decoded_buffer); Ok (Some (RPooledUserOpsByHash m))
  end.

(** The end of the three [decode] functions: fill a buffer of [length] bytes from
    the frames of [src], of which at most [max_compressed_len] bytes are read. *)
Definition read_payload {T} (length : Z) (src : bytes) (handle : bytes -> result (option T) RPCError)
  : outcome (result (option T) RPCError * option Z * bytes) :=
  let max_compressed_len := max_compress_len length in
  match frame_read_exact (take (Z.to_nat max_compressed_len) src) length with
  | (Ok decoded_buffer, n) =>
      s <-! split_to src n;
      Ret (handle decoded_buffer, None, snd s)
  | (Err e, position) => Ret (handle_error e position max_compressed_len, Some length, src)
  end.

Definition SupportedProtocol_debug (p : SupportedProtocol) : string :=
  match p with
  | StatusV1 => "StatusV1" | GoodbyeV1 => "GoodbyeV1" | PingV1 => "PingV1"
  | MetaDataV1 => "MetaDataV1" | PooledUserOpHashesV1 => "PooledUserOpHashesV1"
  | PooledUserOpsByHashV1 => "PooledUserOpsByHashV1"
  end.

Definition Inbound_decode (c : SSZSnappyInboundCodec) (src : bytes)
  : outcome (result (option InboundRequest) RPCError * SSZSnappyInboundCodec * bytes) :=
  let with_len len := mkSSZSnappyInboundCodec (in_protocol c) len (in_max_packet_size c) in
  if decide (versioned_protocol (in_protocol c) = MetaDataV1) then Ret (Ok (Some InMetaData), c, src)
  else
    match handle_length (in_len c) src with
    | (Err e, len, src) => Ret (Err e, with_len len, src)
    | (Ok None, len, src) => Ret (Ok None, with_len len, src)
    | (Ok (Some length), len, src) =>
        let ssz_limits := rpc_request_limits (in_protocol c) in
        if is_out_of_bounds ssz_limits length (in_max_packet_size c)
        then Ret (Err (InvalidData ("RPC request length for protocol "
               +:+ SupportedProtocol_debug (versioned_protocol (in_protocol c))
               +:+ " is out of bounds, length " +:+ dec length)), with_len len, src)
        else
          r <-! read_payload length src (handle_rpc_request (versioned_protocol (in_protocol c)));
          let '(result, len, src) := r in Ret (result, with_len len, src)
    end.

Definition Outbound_encode (c : SSZSnappyOutboundCodec) (item : OutboundRequest) (dst : bytes)
  : result bytes RPCError :=
  let finish b := encode_bytes (out_max_packet_size c) b dst in
  match item with
  | OutStatus req => finish (as_ssz_bytes req)
  | OutGoodbye req => finish (Goodbye_as_ssz_bytes req)
  | OutPooledUserOpHashes req => finish (as_ssz_bytes req)
  | OutPooledUserOpsByHash req => finish (as_ssz_bytes req)
  | OutPing req => finish (as_ssz_bytes req)
  | OutMetaData => Ok dst
  end.

Definition Outbound_decode (c : SSZSnappyOutboundCodec) (src : bytes)
  : outcome (result (option RPCResponse) RPCError * SSZSnappyOutboundCodec * bytes) :=
  let with_len len := mkSSZSnappyOutboundCodec len (out_protocol c) (out_max_packet_size c) in
  if has_context_bytes (out_protocol c) && (blen src <? CONTEXT_BYTES_LEN)
  then Ret (Ok None, c, src)
  else
    let src := if has_context_bytes (out_protocol c)
               then drop (Z.to_nat CONTEXT_BYTES_LEN) src else src in
    match handle_length (out_len c) src with
    | (Err e, len, src) => Ret (Err e, with_len len, src)
    | (Ok None, len, src) => Ret (Ok None, with_len len, src)
    | (Ok (Some length), len, src) =>
        let ssz_limits := rpc_response_limits (out_protocol c) in
        if is_out_of_bounds ssz_limits length (out_max_packet_size c)
        then Ret (Err (InvalidData ("RPC response length is out of bounds, length "
                                    +:+ dec length)), with_len len, src)
        else
          r <-! read_payload length src (handle_rpc_response (versioned_protocol (out_protocol c)));
          let '(result, len, src) := r in Ret (result, with_len len, src)
    end.

Definition Outbound_decode_error (c : SSZSnappyOutboundCodec) (src : bytes)
  : outcome (result (option ErrorType) RPCError * SSZSnappyOutboundCodec * bytes) :=
  let with_len len := mkSSZSnappyOutboundCodec len (out_protocol c) (out_max_packet_size c) in
  match handle_length (out_len c) src with
  | (Err e, len, src) => Ret (Err e, with_len len, src)
  | (Ok None, len, src) => Ret (Ok None, with_len len, src)
  | (Ok (Some length), len, src) =>
      if (out_max_packet_size c <? length) || (ERROR_TYPE_MAX <? length) || (length <? ERROR_TYPE_MIN)
      then Ret (Err (InvalidData ("RPC Error length is out of bounds, length " +:+ dec length)),
                with_len len, src)
      else
        r <-! read_payload length src (fun b => e <-? ssz (from_ssz_bytes b); Ok (Some e));
        let '(result, len, src) := r in Ret (result, with_len len, src)
  end.

(** ** [base.rs] *)

Record BaseInboundCodec : Type := mkBaseInboundCodec { bi_inner : SSZSnappyInboundCodec }.
Definition BaseInboundCodec_new := mkBaseInboundCodec.

Record BaseOutboundCodec : Type := mkBaseOutboundCodec {
  bo_inner : SSZSnappyOutboundCodec;
  current_response_code : option Byte.byte;
}.
Definition BaseOutboundCodec_new (codec : SSZSnappyOutboundCodec) : BaseOutboundCodec :=
  mkBaseOutboundCodec codec None.

Definition BaseInbound_encode (c : BaseInboundCodec) (item : RPCCodedResponse) (dst : bytes)
  : outcome (result bytes RPCError) :=
  let dst := [] in
  code <-! expect (RPCCodedResponse_as_u8 item) "Should never encode a stream termination";
  let dst := dst ++ [byte.of_Z code] in
  Inbound_encode (bi_inner c) item dst.

Definition BaseInbound_decode (c : BaseInboundCodec) (src : bytes)
  : outcome (result (option InboundRequest) RPCError * BaseInboundCodec * bytes) :=
  r <-! Inbound_decode (bi_inner c) src;
  let '(result, inner, src) := r in Ret (result, mkBaseInboundCodec inner, src).

Definition BaseOutbound_encode (c : BaseOutboundCodec) (item : OutboundRequest) (dst : bytes)
  : result bytes RPCError := Outbound_encode (bo_inner c) item dst.

Definition BaseOutbound_decode (c : BaseOutboundCodec) (src : bytes)
  : outcome (result (option RPCCodedResponse) RPCError * BaseOutboundCodec * bytes) :=
  if blen src <=? 1 then Ret (Ok None, c, src)
  else
    code <-! match current_response_code c with
             | Some resp_code => Ret (resp_code, src)
             | None =>
                 s <-! split_to src 1;
                 resp_code <-! expect (head (fst s)) "index out of bounds";
                 Ret (resp_code, snd s)
             end;
    let '(response_code, src) := code in
    inner <-!
      (if is_response (byte.unsigned response_code)
       then r <-! Outbound_decode (bo_inner c) src;
            let '(result, inner, src) := r in
            Ret (result_map (option_map Success) result, inner, src)
       else r <-! Outbound_decode_error (bo_inner c) src;
            let '(result, inner, src) := r in
            Ret (result_map (option_map (from_error (byte.unsigned response_code))) result, inner, src));
    let '(inner_result, inner, src) := inner in
    Ret (inner_result,
         mkBaseOutboundCodec inner
           match inner_result with Ok (Some _) => None | _ => Some response_code end,
         src).

(** ** [mod.rs]: the codecs of the known encodings *)

Inductive InboundCodec : Type := InboundSSZSnappy (codec : BaseInboundCodec).
Inductive OutboundCodec : Type := OutboundSSZSnappy (codec : BaseOutboundCodec).

Definition InboundCodec_encode (c : InboundCodec) item dst :=
  match c with InboundSSZSnappy codec => BaseInbound_encode codec item dst end.
Definition InboundCodec_decode (c : InboundCodec) (src : bytes)
  : outcome (result (option InboundRequest) RPCError * InboundCodec * bytes) :=
  match c with
  | InboundSSZSnappy codec =>
      r <-! BaseInbound_decode codec src;
      let '(result, codec, src) := r in Ret (result, InboundSSZSnappy codec, src)
  end.
Definition OutboundCodec_encode (c : OutboundCodec) item dst :=
  match c with OutboundSSZSnappy codec => BaseOutbound_encode codec item dst end.
Definition OutboundCodec_decode (c : OutboundCodec) (src : bytes)
  : outcome (result (option RPCCodedResponse) RPCError * OutboundCodec * bytes) :=
  match c with
  | OutboundSSZSnappy codec =>
      r <-! BaseOutbound_decode codec src;
      let '(result, codec, src) := r in Ret (result, OutboundSSZSnappy codec, src)
  end.

(** ** The upgrades of [protocol.rs] and [outbound.rs] *)

(** What awaiting the first item of the framed socket gives: [None] when
    [REQUEST_TIMEOUT] elapses first, otherwise the item, if the stream has one. *)
Abbreviation first_item := (option (option (result InboundRequest RPCError))).

Definition upgrade_codec (p : RPCProtocol) (protocol : ProtocolId) : InboundCodec :=
  match encoding protocol with
  | SSZSnappy =>
      InboundSSZSnappy (BaseInboundCodec_new (SSZSnappyInboundCodec_new protocol (rpc_max_rpc_size p)))
  end.

(** The timeout set on reads of the socket, the codec, and the result. *)
Definition upgrade_inbound (p : RPCProtocol) (protocol : ProtocolId) (next : InboundCodec -> first_item)
  : Duration * InboundCodec * result InboundRequest RPCError :=
  let codec := upgrade_codec p protocol in
  (ttfb_timeout p, codec,
   match versioned_protocol protocol with
   | MetaDataV1 => Ok InMetaData
   | _ =>
       match next codec with
       | None => Err StreamTimeout
       | Some (Some (Ok request)) => Ok request
       | Some (Some (Err e)) => Err e
       | Some None => Err IncompleteStream
       end
   end).

(** [OutboundRequestContainer]: the request is encoded into an empty write
    buffer, which [send] flushes; then the write side is closed. *)
Definition upgrade_outbound (max_rpc_size : Z) (req : OutboundRequest) (protocol : ProtocolId)
    (flush : bytes -> result unit IoErr) (close : result unit IoErr)
  : result OutboundCodec RPCError :=
  let codec := match encoding protocol with
    | SSZSnappy => OutboundSSZSnappy (BaseOutboundCodec_new (SSZSnappyOutboundCodec_new protocol max_rpc_size))
    end in
  written <-? OutboundCodec_encode codec req [];
  _ <-? result_map_err RPCError_from_io (flush written);
  _ <-? result_map_err RPCError_from_io close;
  Ok codec.
End codec.
