(* ===== verification/CodecProps.v ===== *)
(** * Properties of the RPC codec

    A value that is encoded by one side is decoded by the other, however the
    bytes are cut into reads: strict prefixes make the decoder wait, and the
    state it keeps meanwhile (response code, announced length) stands for the
    bytes it has consumed. Nothing a peer sends makes a decoder panic, and a
    length outside the limits is refused before a buffer of that length is made. *)

From Stdlib.Init Require Import Byte.
From coqutil Require Import Byte Word.LittleEndianList.
From S2P Require Import Prelude RustStr External RpcTypes Wire Codec.

(** ** Reading a stream with a decoder *)

Section framed.
Context {A C E : Type} (decode : C -> bytes -> outcome (result (option A) E * C * bytes)).

(** Decode until more bytes are needed, as a framed stream does after a read. *)
Fixpoint drain (fuel : nat) (c : C) (buf : bytes) : outcome (list A * result unit E * C * bytes) :=
  match fuel with
  | O => Panic "out of fuel"
  | S fuel =>
      r <-! decode c buf;
      match r with
      | (Ok (Some a), c, buf) =>
          r <-! drain fuel c buf;
          let '(items, e, c, buf) := r in Ret (a :: items, e, c, buf)
      | (Ok None, c, buf) => Ret ([], Ok tt, c, buf)
      | (Err e, c, buf) => Ret ([], Err e, c, buf)
      end
  end.

(** The items decoded from a sequence of reads. *)
Fixpoint framed (c : C) (buf : bytes) (reads : list bytes)
  : outcome (list A * result unit E * C * bytes) :=
  match reads with
  | [] => Ret ([], Ok tt, c, buf)
  | read :: reads =>
      let buf := buf ++ read in
      r <-! drain (S (length buf)) c buf;
      match r with
      | (items, Ok tt, c, buf) =>
          r <-! framed c buf reads;
          let '(items', e, c, buf) := r in Ret (items ++ items', e, c, buf)
      | r => Ret r
      end
  end.

(** A decoder that is correct for one item encoded as [e]: from states that stand
    for a part [s] of a stream, it waits on strict prefixes of [e] and gives
    the item on [e ++ rest], back in the initial state. *)
Context (c0 : C) (rep : C -> bytes -> bytes -> Prop).

Record decodes (a : A) (e : bytes) : Prop := {
  dec_wait : forall c buf s t, rep c buf s -> e = s ++ t -> t <> [] ->
    exists c' buf', decode c buf = Ret (Ok None, c', buf') /\ rep c' buf' s;
  dec_item : forall c buf s t read rest, rep c buf s -> e = s ++ t -> t <> [] -> read <> [] ->
    s ++ read = e ++ rest -> decode c (buf ++ read) = Ret (Ok (Some a), c0, rest);
  dec_nonempty : e <> [];
}.

Hypothesis rep_init : forall s, rep c0 s s.
Hypothesis rep_read : forall c buf s read, rep c buf s -> rep c (buf ++ read) (s ++ read).
Hypothesis rep_nil : forall c buf, rep c buf [] -> c = c0 /\ buf = [].
Hypothesis wait_nil : decode c0 [] = Ret (Ok None, c0, []).

(** [s] has begun the first of the encodings [es] and not finished it. *)
Definition pending (s : bytes) (es : list bytes) : Prop :=
  match es with [] => s = [] | e :: _ => exists t, e = s ++ t /\ t <> [] end.

Lemma pending_nil a es : Forall2 decodes a es -> pending [] es.
Proof. intros [|? e ? ? [] _]; simpl; [done|]. by exists e. Qed.

Lemma drain_stream items es : Forall2 decodes items es -> forall fuel c buf s read future,
  rep c buf s -> pending s es -> read <> [] -> s ++ read ++ future = concat es ->
  (length read < fuel)%nat ->
  exists done items' es' c' buf' s', items = done ++ items' /\
    drain fuel c (buf ++ read) = Ret (done, Ok tt, c', buf') /\ rep c' buf' s' /\
    Forall2 decodes items' es' /\ pending s' es' /\ s' ++ future = concat es'.
Proof.
  induction 1 as [|a e items es Ha Hes IH]; intros fuel c buf s read future Hrep Hs Hread Heq Hfuel.
  { cbn in Hs, Heq. subst s. by destruct read. }
  destruct Hs as (t & He & Ht). destruct fuel as [|fuel]; [lia|]. cbn [drain].
  cbn [concat] in Heq. rewrite app_assoc in Heq.
  apply app_eq_inv in Heq as [(k & Hk & Heq)|(k & Hk & Heq)].
  - (* the item is complete *)
    rewrite (dec_item _ _ Ha c buf s t read k) by done.
    assert (read = t ++ k) as ->. { rewrite He, <- app_assoc in Hk. by apply app_inv_head in Hk. }
    rewrite length_app in Hfuel. assert (length t <> 0%nat) by by destruct t.
    destruct k as [|x k].
    + destruct fuel as [|fuel]; [lia|]. cbn [drain]. rewrite wait_nil.
      exists [a], items, es, c0, [], []. split_and!; eauto using pending_nil.
    + destruct (IH fuel c0 [] [] (x :: k) future) as (d & items' & es' & c' & buf' & s' & -> & Hd & Hrest);
        eauto using pending_nil; [lia|].
      cbn [app] in Hd. rewrite Hd. exists (a :: d), items', es', c', buf', s'. split_and!; by try apply Hrest.
  - destruct k as [|x k].
    + (* the item ends with this read *)
      rewrite app_nil_r in Hk. rewrite (dec_item _ _ Ha c buf s t read []) by (done || by rewrite app_nil_r).
      destruct fuel as [|fuel]; [destruct read; [done|cbn in Hfuel; lia]|]. cbn [drain]. rewrite wait_nil.
      exists [a], items, es, c0, [], []. split_and!; eauto using pending_nil.
    + destruct (dec_wait _ _ Ha c (buf ++ read) (s ++ read) (x :: k)) as (c' & buf' & Hd & Hrep'); auto.
      rewrite Hd. exists [], (a :: items), (e :: es), c', buf', (s ++ read). split_and!; auto.
      * by exists (x :: k).
      * cbn. by rewrite Hk, Heq, <- !app_assoc.
Qed.

Lemma framed_stream_aux reads : forall items es c buf s,
  Forall2 decodes items es -> rep c buf s -> pending s es ->
  Forall (fun read => read <> []) reads -> s ++ concat reads = concat es ->
  framed c buf reads = Ret (items, Ok tt, c0, []).
Proof.
  induction reads as [|read reads IH]; intros items es c buf s Hes Hrep Hs Hreads Heq.
  - cbn in *. rewrite app_nil_r in Heq. destruct Hes as [|a e items es Ha Hes].
    + cbn in Hs. subst s. by apply rep_nil in Hrep as [-> ->].
    + destruct Hs as (t & -> & Ht). cbn in Heq. apply (f_equal length) in Heq.
      rewrite !length_app in Heq. destruct t; [done|]. cbn in Heq. lia.
  - inversion_clear Hreads. cbn [framed]. cbn [concat] in Heq.
    destruct (drain_stream items es Hes (S (length (buf ++ read))) c buf s read (concat reads))
      as (d & items' & es' & c' & buf' & s' & -> & Hd & ? & ? & ? & ?); auto.
    { rewrite length_app. lia. }
    rewrite Hd. by rewrite (IH items' es' c' buf' s').
Qed.

(** Every stream of encodings is decoded to its items, for every way of cutting it
    into reads. *)
Lemma framed_stream items es reads :
  Forall2 decodes items es -> Forall (fun read => read <> []) reads -> concat reads = concat es ->
  framed c0 [] reads = Ret (items, Ok tt, c0, []).
Proof. intros. eapply framed_stream_aux; eauto using pending_nil. Qed.
End framed.

(** ** One chunk: length prefix and payload *)

Section codec.
Context `{External} `{Varint} `{Snappy} `{!SszTypes}.

Lemma uvi_inj n m a b : 0 <= n < 2 ^ 64 -> 0 <= m < 2 ^ 64 ->
  uvi_encode n ++ a = uvi_encode m ++ b -> n = m /\ a = b.
Proof.
  intros Hn Hm Heq. pose proof (uvi_roundtrip n a Hn) as Hr1. rewrite Heq, uvi_roundtrip in Hr1 by done.
  injection Hr1 as -> _. split; [done|]. by apply app_inv_head in Heq.
Qed.

Lemma split_to_ret src n : 0 <= n <= blen src ->
  split_to src n = Ret (take (Z.to_nat n) src, drop (Z.to_nat n) src).
Proof.
  intros Hn. unfold split_to. replace (0 <=? n) with true by (symmetry; apply Z.leb_le; lia).
  by replace (n <=? blen src) with true by (symmetry; apply Z.leb_le; lia).
Qed.

Lemma payload_partial {T} d s t (handle : bytes -> result (option T) RPCError) :
  blen d < 2 ^ 32 -> frame_compress d = s ++ t -> t <> [] ->
  read_payload (blen d) s handle = Ret (Ok None, Some (blen d), s).
Proof.
  intros Hd Hc Ht. unfold read_payload. pose proof (snappy_bound d Hd) as Hb.
  assert (blen s < blen (frame_compress d)) as Hlt.
  { rewrite Hc, length_app. assert (length t <> 0%nat) by by destruct t. lia. }
  rewrite take_ge by lia. destruct (snappy_partial d s t Hc Ht) as (pos & -> & Hpos). cbn.
  destruct (_ <=? _) eqn:Hle; [apply Z.leb_le in Hle; lia|done].
Qed.

Lemma payload_complete {T} d rest (handle : bytes -> result (option T) RPCError) :
  blen d < 2 ^ 32 ->
  read_payload (blen d) (frame_compress d ++ rest) handle = Ret (handle d, None, rest).
Proof.
  intros Hd. unfold read_payload. pose proof (snappy_bound d Hd) as Hb.
  rewrite take_app_ge by lia. rewrite snappy_complete, split_to_ret by (rewrite length_app; lia).
  cbn. by rewrite Nat2Z.id, drop_app_length.
Qed.

Lemma read_payload_ret {T} n src (handle : bytes -> result (option T) RPCError) :
  exists r len src', read_payload n src handle = Ret (r, len, src').
Proof.
  unfold read_payload.
  pose proof (snappy_position (take (Z.to_nat (max_compress_len n)) src) n) as Hp.
  destruct (frame_read_exact _ n) as [[d|e] pos]; [|eauto].
  cbn in Hp. rewrite length_take in Hp. rewrite split_to_ret by lia. eauto.
Qed.

(** The common shape of the three decoders: [refuse] is their check of the length. *)
Definition decode_chunk {T} (len : option Z) (refuse : Z -> option RPCError)
    (handle : bytes -> result (option T) RPCError) (src : bytes)
  : outcome (result (option T) RPCError * option Z * bytes) :=
  match handle_length len src with
  | (Err e, len, src) => Ret (Err e, len, src)
  | (Ok None, len, src) => Ret (Ok None, len, src)
  | (Ok (Some length), len, src) =>
      match refuse length with
      | Some e => Ret (Err e, len, src)
      | None => read_payload length src handle
      end
  end.

Lemma decode_chunk_ret {T} len refuse (handle : bytes -> result (option T) RPCError) src :
  exists r len' src', decode_chunk len refuse handle src = Ret (r, len', src').
Proof.
  unfold decode_chunk. destruct (handle_length len src) as [[[[n|]|e] len'] src']; eauto.
  destruct (refuse n); eauto using read_payload_ret.
Qed.

(** The length read so far and the buffer stand for the stream [s]. *)
Definition chunk_state (len : option Z) (buf s : bytes) : Prop :=
  match len with
  | None => buf = s
  | Some n => 0 <= n < 2 ^ 64 /\ s = uvi_encode n ++ buf
  end.

Definition chunk (d : bytes) : bytes := uvi_encode (blen d) ++ frame_compress d.

Lemma chunk_partial {T} d len buf s t refuse (handle : bytes -> result (option T) RPCError) :
  blen d < 2 ^ 32 -> refuse (blen d) = None ->
  chunk_state len buf s -> chunk d = s ++ t -> t <> [] ->
  exists len' buf', decode_chunk len refuse handle buf = Ret (Ok None, len', buf') /\
    chunk_state len' buf' s /\ (len' = None -> len = None /\ buf' = buf).
Proof.
  intros Hd Hr Hs Hc Ht. unfold decode_chunk, chunk in *. assert (0 <= blen d < 2 ^ 64) by lia.
  destruct len as [n|]; cbn in Hs |- *.
  - destruct Hs as [Hn ->]. rewrite <- app_assoc in Hc. apply uvi_inj in Hc as [<- Hc]; [|done..].
    rewrite Hr, (payload_partial d buf t) by done. eexists _, _. split_and!; [done|done|done].
  - subst buf. apply app_eq_inv in Hc as [(k & Hk & Hc)|(k & Hk & Hc)].
    + destruct k as [|x k].
      * rewrite app_nil_r in Hk. subst s. rewrite <- (app_nil_r (uvi_encode _)), uvi_roundtrip by done.
        rewrite app_nil_r, drop_all, Hr, (payload_partial d [] t) by done.
        eexists _, _. split_and!; [done| |done]. cbn. by rewrite app_nil_r.
      * rewrite (uvi_partial (blen d) s (x :: k)) by done. eexists _, _. split_and!; done.
    + subst s. rewrite uvi_roundtrip by done. rewrite drop_app_length, Hr, (payload_partial d k t) by done.
      eexists _, _. split_and!; [done|done|done].
Qed.

Lemma chunk_complete {T} d len buf rest refuse (handle : bytes -> result (option T) RPCError) :
  blen d < 2 ^ 32 -> refuse (blen d) = None -> chunk_state len buf (chunk d ++ rest) ->
  decode_chunk len refuse handle buf = Ret (handle d, None, rest).
Proof.
  intros Hd Hr Hs. unfold decode_chunk, chunk in *. assert (0 <= blen d < 2 ^ 64) by lia.
  rewrite <- app_assoc in Hs. destruct len as [n|]; cbn in Hs |- *.
  - destruct Hs as [Hn Hs]. apply uvi_inj in Hs as [<- <-]; [|done..]. rewrite Hr. by apply payload_complete.
  - subst buf. rewrite uvi_roundtrip, drop_app_length, Hr by done. by apply payload_complete.
Qed.

(** A length that is refused, before anything of the payload is read. *)
Lemma chunk_refused {T} n e rest refuse (handle : bytes -> result (option T) RPCError) :
  0 <= n < 2 ^ 64 -> refuse n = Some e ->
  decode_chunk None refuse handle (uvi_encode n ++ rest) = Ret (Err e, Some n, rest).
Proof.
  intros Hn Hr. unfold decode_chunk. cbn. by rewrite uvi_roundtrip, drop_app_length, Hr.
Qed.

(** The decoders as instances. *)
Definition request_refused (c : SSZSnappyInboundCodec) (n : Z) : option RPCError :=
  if is_out_of_bounds (rpc_request_limits (in_protocol c)) n (in_max_packet_size c)
  then Some (InvalidData ("RPC request length for protocol "
               +:+ SupportedProtocol_debug (versioned_protocol (in_protocol c))
               +:+ " is out of bounds, length " +:+ dec n)) else None.
Definition response_refused (c : SSZSnappyOutboundCodec) (n : Z) : option RPCError :=
  if is_out_of_bounds (rpc_response_limits (out_protocol c)) n (out_max_packet_size c)
  then Some (InvalidData ("RPC response length is out of bounds, length " +:+ dec n)) else None.
Definition error_refused (c : SSZSnappyOutboundCodec) (n : Z) : option RPCError :=
  if (out_max_packet_size c <? n) || (ERROR_TYPE_MAX <? n) || (n <? ERROR_TYPE_MIN)
  then Some (InvalidData ("RPC Error length is out of bounds, length " +:+ dec n)) else None.

Lemma Inbound_decode_chunk c src : versioned_protocol (in_protocol c) <> MetaDataV1 ->
  Inbound_decode c src =
    (r <-! decode_chunk (in_len c) (request_refused c)
             (handle_rpc_request (versioned_protocol (in_protocol c))) src;
     let '(r, len, src) := r in
     Ret (r, mkSSZSnappyInboundCodec (in_protocol c) len (in_max_packet_size c), src)).
Proof.
  intros Hm. unfold Inbound_decode, decode_chunk, request_refused. rewrite decide_False by done.
  destruct (handle_length _ src) as [[[[n|]|e] len'] src']; [|done..].
  by destruct (is_out_of_bounds _ _ _).
Qed.

Lemma InboundCodec_decode_chunk c src : versioned_protocol (in_protocol c) <> MetaDataV1 ->
  InboundCodec_decode (InboundSSZSnappy (mkBaseInboundCodec c)) src =
    (r <-! decode_chunk (in_len c) (request_refused c)
             (handle_rpc_request (versioned_protocol (in_protocol c))) src;
     let '(r, len, src) := r in
     Ret (r, InboundSSZSnappy (mkBaseInboundCodec
               (mkSSZSnappyInboundCodec (in_protocol c) len (in_max_packet_size c))), src)).
Proof.
  intros Hm. unfold InboundCodec_decode, BaseInbound_decode. cbn [bi_inner].
  rewrite Inbound_decode_chunk by done. by destruct (decode_chunk _ _ _ _) as [[[]]|].
Qed.

Lemma Outbound_decode_chunk c src :
  Outbound_decode c src =
    (r <-! decode_chunk (out_len c) (response_refused c)
             (handle_rpc_response (versioned_protocol (out_protocol c))) src;
     let '(r, len, src) := r in
     Ret (r, mkSSZSnappyOutboundCodec len (out_protocol c) (out_max_packet_size c), src)).
Proof.
  unfold Outbound_decode, decode_chunk, response_refused.
  replace (has_context_bytes (out_protocol c)) with false
    by (unfold has_context_bytes; by destruct (versioned_protocol _)).
  cbn [andb]. destruct (handle_length _ src) as [[[[n|]|e] len'] src']; [|done..].
  by destruct (is_out_of_bounds _ _ _).
Qed.

Definition handle_error_type (b : bytes) : result (option ErrorType) RPCError :=
  e <-? ssz (from_ssz_bytes b); Ok (Some e).

Lemma Outbound_decode_error_chunk c src :
  Outbound_decode_error c src =
    (r <-! decode_chunk (out_len c) (error_refused c) handle_error_type src;
     let '(r, len, src) := r in
     Ret (r, mkSSZSnappyOutboundCodec len (out_protocol c) (out_max_packet_size c), src)).
Proof.
  unfold Outbound_decode_error, decode_chunk, error_refused.
  destruct (handle_length _ src) as [[[[n|]|e] len'] src']; [|done..].
  by destruct (_ || _ || _).
Qed.

(** ** Responses *)

Lemma decode_chunk_map {T U} (f : T -> U) len refuse (handle : bytes -> result (option T) RPCError) src :
  decode_chunk len refuse (fun b => result_map (option_map f) (handle b)) src =
    (r <-! decode_chunk len refuse handle src;
     let '(r, len, src) := r in Ret (result_map (option_map f) r, len, src)).
Proof.
  unfold decode_chunk, read_payload. destruct (handle_length len src) as [[[[n|]|e] len'] src']; [|done..].
  destruct (refuse n); [done|]. destruct (frame_read_exact _ n) as [[d|[]] pos]; cbn.
  - by destruct (split_to src' pos).
  - by destruct (_ <=? _).
  - done.
Qed.

(** Which check and which decoding a response code selects. *)
Definition coded_refused (c : SSZSnappyOutboundCodec) (code n : Z) : option RPCError :=
  if is_response code then response_refused c n else error_refused c n.
Definition handle_coded (p : SupportedProtocol) (code : Z) (b : bytes)
  : result (option RPCCodedResponse) RPCError :=
  if is_response code then result_map (option_map Success) (handle_rpc_response p b)
  else result_map (option_map (from_error code)) (handle_error_type b).

(** Decoding a chunk after its response code. *)
Definition decode_coded (c : SSZSnappyOutboundCodec) (code : Byte.byte) (src : bytes)
  : outcome (result (option RPCCodedResponse) RPCError * BaseOutboundCodec * bytes) :=
  r <-! decode_chunk (out_len c) (coded_refused c (byte.unsigned code))
          (handle_coded (versioned_protocol (out_protocol c)) (byte.unsigned code)) src;
  let '(r, len, src) := r in
  Ret (r, mkBaseOutboundCodec
            (mkSSZSnappyOutboundCodec len (out_protocol c) (out_max_packet_size c))
            match r with Ok (Some _) => None | _ => Some code end, src).

Lemma base_inner c code src :
  (inner <-! (if is_response (byte.unsigned code)
     then r <-! Outbound_decode c src;
          let '(result, inner, src) := r in
          Ret (result_map (option_map Success) result, inner, src)
     else r <-! Outbound_decode_error c src;
          let '(result, inner, src) := r in
          Ret (result_map (option_map (from_error (byte.unsigned code))) result, inner, src));
   let '(inner_result, inner, src) := inner in
   Ret (inner_result,
        mkBaseOutboundCodec inner match inner_result with Ok (Some _) => None | _ => Some code end,
        src)) = decode_coded c code src.
Proof.
  unfold decode_coded, coded_refused, handle_coded. destruct (is_response _).
  - rewrite Outbound_decode_chunk, (decode_chunk_map Success).
    by destruct (decode_chunk _ _ _ src) as [[[]]|].
  - rewrite Outbound_decode_error_chunk, decode_chunk_map. by destruct (decode_chunk _ _ _ src) as [[[]]|].
Qed.

Lemma base_decode_code c code src : current_response_code c = Some code -> 1 < blen src ->
  BaseOutbound_decode c src = decode_coded (bo_inner c) code src.
Proof.
  intros Hc Hl. unfold BaseOutbound_decode. destruct (_ <=? 1) eqn:Hle; [apply Z.leb_le in Hle; lia|].
  rewrite Hc. apply base_inner.
Qed.

Lemma base_decode_fresh c code src : current_response_code c = None -> src <> [] ->
  BaseOutbound_decode c (code :: src) = decode_coded (bo_inner c) code src.
Proof.
  intros Hc Hl. unfold BaseOutbound_decode.
  destruct (_ <=? 1) eqn:Hle; [apply Z.leb_le in Hle; destruct src; [done|cbn in Hle; lia]|].
  rewrite Hc, split_to_ret by (cbn; lia). apply base_inner.
Qed.

Lemma base_decode_short c src : blen src <= 1 -> BaseOutbound_decode c src = Ret (Ok None, c, src).
Proof. intros Hl. unfold BaseOutbound_decode. by apply Z.leb_le in Hl as ->. Qed.

(** A codec for [pid] that has consumed the bytes of [s] not in [buf]. *)
Definition base_state (pid : ProtocolId) (max : Z) (c : BaseOutboundCodec) (buf s : bytes) : Prop :=
  out_protocol (bo_inner c) = pid /\ out_max_packet_size (bo_inner c) = max /\
  match current_response_code c with
  | None => out_len (bo_inner c) = None /\ buf = s
  | Some code => exists s', s = code :: s' /\ chunk_state (out_len (bo_inner c)) buf s' /\
                   (out_len (bo_inner c) = None -> buf <> [])
  end.

Definition fresh (pid : ProtocolId) (max : Z) : BaseOutboundCodec :=
  BaseOutboundCodec_new (SSZSnappyOutboundCodec_new pid max).

Lemma decode_coded_wait pid max c code d buf s t :
  out_protocol c = pid -> out_max_packet_size c = max ->
  blen d < 2 ^ 32 -> coded_refused c (byte.unsigned code) (blen d) = None ->
  chunk_state (out_len c) buf s -> buf <> [] -> chunk d = s ++ t -> t <> [] ->
  exists c' buf', decode_coded c code buf = Ret (Ok None, c', buf') /\
    base_state pid max c' buf' (code :: s).
Proof.
  intros <- <- Hd Hr Hs Hb Hc Ht.
  destruct (chunk_partial d (out_len c) buf s t (coded_refused c (byte.unsigned code))
    (handle_coded (versioned_protocol (out_protocol c)) (byte.unsigned code)))
    as (len' & buf' & Hdec & Hs' & Hn); [done..|].
  unfold decode_coded. rewrite Hdec. eexists _, _. split; [done|]. split_and!; [done..|].
  exists s. split_and!; [done..|]. intros Hl. cbn in Hl. by apply Hn in Hl as [_ ->].
Qed.

Lemma response_decodes pid max code d r :
  blen d < 2 ^ 32 ->
  coded_refused (SSZSnappyOutboundCodec_new pid max) (byte.unsigned code) (blen d) = None ->
  handle_coded (versioned_protocol pid) (byte.unsigned code) d = Ok (Some r) ->
  decodes BaseOutbound_decode (fresh pid max) (base_state pid max) r (code :: chunk d).
Proof.
  intros Hd Hr Hh. split; [| |done].
  - intros [[len p m] cur] buf s t (Hp & Hm & Hst) He Ht. cbn in Hp, Hm, Hst. subst p m.
    destruct cur as [code'|].
    + destruct Hst as (s' & -> & Hst & Hb). injection He as <- He.
      destruct (decide (blen buf <= 1)) as [Hl|Hl].
      * rewrite base_decode_short by done. eexists _, _. split; [done|]. split_and!; [done..|]. by exists s'.
      * rewrite (base_decode_code _ code) by (done || lia).
        apply (decode_coded_wait pid max _ code d buf s' t); try done. destruct buf; [cbn in Hl; lia|done].
    + destruct Hst as [-> <-]. destruct (decide (blen buf <= 1)) as [Hl|Hl].
      * rewrite base_decode_short by done. eexists _, _. split; [done|]. by split_and!.
      * destruct buf as [|x buf]; [cbn in Hl; lia|]. injection He as <- He.
        assert (buf <> []) by (destruct buf; [cbn in Hl; lia|done]).
        rewrite base_decode_fresh by done.
        by apply (decode_coded_wait pid max _ code d buf buf t).
  - intros [[len p m] cur] buf s t read rest (Hp & Hm & Hst) He Ht Hread Heq.
    cbn in Hp, Hm, Hst. subst p m.
    assert (forall len buf, chunk_state len buf (chunk d ++ rest) ->
      decode_coded (mkSSZSnappyOutboundCodec len pid max) code buf =
        Ret (Ok (Some r), fresh pid max, rest)) as Hgo.
    { intros len' buf' Hst'. unfold decode_coded. cbn.
      rewrite (chunk_complete d len' buf' rest) by done. by rewrite Hh. }
    destruct cur as [code'|].
    + destruct Hst as (s' & -> & Hst & Hb). injection He as <- He. injection Heq as Heq.
      assert (chunk_state len (buf ++ read) (chunk d ++ rest)) as Hst'.
      { rewrite <- Heq. destruct len as [n|]; cbn in Hst |- *; [|by subst].
        destruct Hst as [? ->]. by rewrite app_assoc. }
      rewrite (base_decode_code _ code); [by apply Hgo|done|].
      assert (length read <> 0%nat) by by destruct read. rewrite length_app.
      destruct (decide (buf = [])) as [->|Hne].
      * destruct len as [n|]; [|by destruct Hb]. destruct Hst as [Hn ->]. rewrite app_nil_r in He.
        unfold chunk in He. apply uvi_inj in He as [<- Hc]; [|lia|done].
        destruct Hst' as [_ Hst']. cbn [app] in Hst'. unfold chunk in Hst'. rewrite <- app_assoc in Hst'.
        apply app_inv_head in Hst' as <-. rewrite length_app.
        destruct (decide (d = [])) as [->|Hd0]; [by rewrite snappy_empty in Hc; subst t|].
        pose proof (snappy_header d Hd0). cbn. lia.
      * destruct buf; [done|]. cbn. lia.
    + destruct Hst as [-> <-]. rewrite Heq. cbn [app].
      rewrite base_decode_fresh; [by apply Hgo|done|].
      unfold chunk. pose proof (uvi_nonempty (blen d)). by destruct (uvi_encode (blen d)).
Qed.

Definition outbound_state (pid : ProtocolId) (max : Z) (c : OutboundCodec) : bytes -> bytes -> Prop :=
  match c with OutboundSSZSnappy c => base_state pid max c end.

Lemma outbound_decodes pid max r e :
  decodes BaseOutbound_decode (fresh pid max) (base_state pid max) r e ->
  decodes OutboundCodec_decode (OutboundSSZSnappy (fresh pid max)) (outbound_state pid max) r e.
Proof.
  intros [Hw Hi Hn]. split; [| |done].
  - intros [c] buf s t Hrep He Ht. destruct (Hw c buf s t) as (c' & buf' & Hd & Hrep'); [done..|].
    exists (OutboundSSZSnappy c'), buf'. cbn. by rewrite Hd.
  - intros [c] buf s t read rest Hrep He Ht Hread Heq. cbn. by rewrite (Hi c buf s t read rest).
Qed.

Lemma outbound_framed pid max rs es reads :
  Forall2 (decodes BaseOutbound_decode (fresh pid max) (base_state pid max)) rs es ->
  Forall (fun read => read <> []) reads -> concat reads = concat es ->
  framed OutboundCodec_decode (OutboundSSZSnappy (fresh pid max)) [] reads =
    Ret (rs, Ok tt, OutboundSSZSnappy (fresh pid max), []).
Proof.
  intros Hes. apply (framed_stream OutboundCodec_decode _ (outbound_state pid max)).
  - by intros s.
  - intros [c] buf s read (Hp & Hm & Hst). split_and!; [done..|].
    destruct (current_response_code c); [|destruct Hst as [? ->]; done].
    destruct Hst as (s' & -> & Hst & Hb). exists (s' ++ read). split_and!; [done| |].
    + destruct (out_len _); cbn in *; [destruct Hst as [? ->]; by rewrite app_assoc|by subst].
    + intros Hl. apply Hb in Hl. by destruct buf.
  - intros [[[len p m] cur]] buf (Hp & Hm & Hst). cbn in *. destruct cur.
    + by destruct Hst as (s' & ? & _).
    + destruct Hst as [-> ->]. by subst.
  - done.
  - eapply Forall2_impl; [done|]. intros. by apply outbound_decodes.
Qed.

(** The values that can be sent as a response on a protocol: well-formed
    ones of the protocol's type within its limit, and errors with a message. *)
Definition RPCResponse_wf (r : RPCResponse) : Prop :=
  match r with
  | RStatus s => StatusMessage_wf s
  | RPooledUserOpHashes r => PooledUserOpHashes_wf r
  | RPooledUserOpsByHash r => PooledUserOpsByHash_wf r
  | RPong p => is_u64 (ping_data p)
  | RMetaData m => MetaData_wf m
  end.

Definition sendable (pid : ProtocolId) (max : Z) (r : RPCCodedResponse) : Prop :=
  match r with
  | Success resp =>
      RPCResponse_wf resp /\
      RPCResponse_protocol resp = SupportedProtocol_protocol (versioned_protocol pid) /\
      exists b, response_bytes (versioned_protocol pid) r = Ret b /\
        blen b <= Z.min (lim_max (rpc_response_limits pid)) max
  | CodedError _ e => error_bytes e <> [] /\ ErrorType_wf e /\ blen (error_bytes e) <= max
  | StreamTermination _ => False
  end.

(** The inbound codec of the other side of such a substream. *)
Definition responder (pid : ProtocolId) (max : Z) : InboundCodec :=
  InboundSSZSnappy (BaseInboundCodec_new (SSZSnappyInboundCodec_new pid max)).

Lemma response_limits_u32 pid n max :
  n <= Z.min (lim_max (rpc_response_limits pid)) max -> n < 2 ^ 32.
Proof. unfold rpc_response_limits, u64_ssz_fixed_len. destruct (SupportedProtocol_protocol _); cbn; lia. Qed.

Lemma handle_response_roundtrip pid resp b :
  RPCResponse_wf resp ->
  RPCResponse_protocol resp = SupportedProtocol_protocol (versioned_protocol pid) ->
  response_bytes (versioned_protocol pid) (Success resp) = Ret b ->
  handle_rpc_response (versioned_protocol pid) b = Ok (Some resp) /\
  lim_min (rpc_response_limits pid) <= blen b.
Proof.
  destruct pid as [p enc name]. unfold rpc_response_limits. cbn.
  destruct resp as [x|x|x|[x]|x], p; cbn; intros Hwf Hp Hb; try discriminate Hp; injection Hb as <-;
    rewrite ?ssz_roundtrip by done; split; try done; try lia. by rewrite ssz_u64_length.
Qed.

Lemma error_code_byte code err :
  is_response (byte.unsigned (byte.of_Z (RPCResponseErrorCode_as_u8 code))) = false /\
  from_error (byte.unsigned (byte.of_Z (RPCResponseErrorCode_as_u8 code))) err = CodedError code err.
Proof. by destruct code. Qed.

Lemma encode_bytes_ok max b dst : blen b <= max -> encode_bytes max b dst = Ok (dst ++ chunk b).
Proof.
  intros Hb. unfold encode_bytes. destruct (_ <? _) eqn:Hlt; [apply Z.ltb_lt in Hlt; lia|done].
Qed.

Lemma sendable_encoding pid max r : sendable pid max r ->
  exists e, (forall dst, InboundCodec_encode (responder pid max) r dst = Ret (Ok e)) /\
    decodes BaseOutbound_decode (fresh pid max) (base_state pid max) r e.
Proof.
  destruct r as [resp|code err|]; [| |done].
  - intros (Hwf & Hp & b & Hb & Hlen). exists (byte.of_Z 0 :: chunk b). split.
    + intros dst. unfold responder, InboundCodec_encode, BaseInbound_encode.
      cbn [RPCCodedResponse_as_u8 expect bi_inner BaseInboundCodec_new app]. unfold Inbound_encode.
      cbn [in_protocol SSZSnappyInboundCodec_new in_max_packet_size]. rewrite Hb.
      by rewrite encode_bytes_ok by lia.
    + destruct (handle_response_roundtrip pid resp b) as [Hh Hmin]; [done..|].
      apply response_decodes; [by eapply response_limits_u32| |].
      * unfold coded_refused, response_refused, is_out_of_bounds. cbn.
        replace (_ <? blen b) with false by (symmetry; apply Z.ltb_ge; lia).
        by replace (blen b <? _) with false by (symmetry; apply Z.ltb_ge; lia).
      * unfold handle_coded. cbn. by rewrite Hh.
  - intros (Hne & Hwf & Hlen). exists (byte.of_Z (RPCResponseErrorCode_as_u8 code) :: chunk (error_bytes err)).
    assert (1 <= blen (error_bytes err)) by (destruct (error_bytes err); [done|cbn; lia]).
    unfold ErrorType_wf, MAX_ERROR_LEN in Hwf. split.
    + intros dst. unfold responder, InboundCodec_encode, BaseInbound_encode.
      cbn [RPCCodedResponse_as_u8 expect bi_inner BaseInboundCodec_new app]. unfold Inbound_encode.
      cbn [in_protocol SSZSnappyInboundCodec_new in_max_packet_size response_bytes].
      by rewrite ssz_error_bytes, encode_bytes_ok by lia.
    + destruct (error_code_byte code err) as [Hr Hf]. apply response_decodes; [lia| |].
      * unfold coded_refused, error_refused. rewrite Hr. cbn. unfold ERROR_TYPE_MAX, ERROR_TYPE_MIN.
        replace (max <? _) with false by (symmetry; apply Z.ltb_ge; lia).
        replace (100000 <? _) with false by (symmetry; apply Z.ltb_ge; lia).
        by replace (_ <? 1) with false by (symmetry; apply Z.ltb_ge; lia).
      * unfold handle_coded. rewrite Hr. unfold handle_error_type.
        rewrite <- ssz_error_bytes, ssz_roundtrip by done. cbn. by rewrite Hf.
Qed.

(** C6: A stream of responses and errors written by one side, one encoding after the
    other, is decoded by the other side to the same responses in the same order,
    however the bytes are cut into reads, and leaves the decoder as new with
    nothing buffered. *)
Theorem response_stream_roundtrip pid max rs : Forall (sendable pid max) rs ->
  exists es,
    Forall2 (fun r e => forall dst, InboundCodec_encode (responder pid max) r dst = Ret (Ok e)) rs es /\
    forall reads, Forall (fun read => read <> []) reads -> concat reads = concat es ->
      framed OutboundCodec_decode (OutboundSSZSnappy (fresh pid max)) [] reads =
        Ret (rs, Ok tt, OutboundSSZSnappy (fresh pid max), []).
Proof.
  intros Hrs. eapply Forall_impl in Hrs; [|apply sendable_encoding].
  apply Forall_exists_Forall2_l in Hrs as [es Hes]. exists es. split.
  - eapply Forall2_impl; [done|]. by intros ? ? [? _].
  - intros reads Hreads Hcat. apply (outbound_framed pid max rs es); [|done..].
    eapply Forall2_impl; [done|]. by intros ? ? [_ ?].
Qed.

(** ** Requests *)

(** What the listening side should see of a request. *)
Definition received (r : OutboundRequest) : InboundRequest :=
  match r with
  | OutStatus s => InStatus s
  | OutGoodbye g => InGoodbye g
  | OutPooledUserOpHashes q => InPooledUserOpHashes q
  | OutPooledUserOpsByHash q => InPooledUserOpsByHash q
  | OutPing p => InPing p
  | OutMetaData => InMetaData
  end.

Definition OutboundRequest_wf (r : OutboundRequest) : Prop :=
  match r with
  | OutStatus s => StatusMessage_wf s
  | OutGoodbye _ | OutMetaData => True
  | OutPooledUserOpHashes q => PooledUserOpHashesRequest_wf q
  | OutPooledUserOpsByHash q => PooledUserOpsByHashRequest_wf q
  | OutPing p => is_u64 (ping_data p)
  end.

(** The SSZ bytes of a request. *)
Definition request_bytes (r : OutboundRequest) : bytes :=
  match r with
  | OutStatus s => as_ssz_bytes s
  | OutGoodbye g => Goodbye_as_ssz_bytes g
  | OutPooledUserOpHashes q => as_ssz_bytes q
  | OutPooledUserOpsByHash q => as_ssz_bytes q
  | OutPing p => as_ssz_bytes p
  | OutMetaData => []
  end.

Definition inbound_state (pid : ProtocolId) (max : Z) (c : InboundCodec) (buf s : bytes) : Prop :=
  match c with
  | InboundSSZSnappy (mkBaseInboundCodec c) =>
      in_protocol c = pid /\ in_max_packet_size c = max /\ chunk_state (in_len c) buf s /\
      (s = [] -> in_len c = None)
  end.

Lemma request_decodes pid max d r :
  versioned_protocol pid <> MetaDataV1 -> blen d < 2 ^ 32 ->
  is_out_of_bounds (rpc_request_limits pid) (blen d) max = false ->
  handle_rpc_request (versioned_protocol pid) d = Ok (Some r) ->
  decodes InboundCodec_decode (responder pid max) (inbound_state pid max) r (chunk d).
Proof.
  intros Hm Hd Hb Hh. split.
  - intros [[[p len m]]] buf s t (Hp & Hmax & Hst & Hnil) He Ht. cbn in Hp, Hmax, Hst, Hnil. subst p m.
    destruct (chunk_partial d len buf s t (request_refused (mkSSZSnappyInboundCodec pid len max))
      (handle_rpc_request (versioned_protocol pid))) as (len' & buf' & Hdec & Hst' & Hn); [done| |done..|].
    { unfold request_refused. cbn. by rewrite Hb. }
    exists (InboundSSZSnappy (mkBaseInboundCodec (mkSSZSnappyInboundCodec pid len' max))), buf'.
    rewrite InboundCodec_decode_chunk by done. cbn [in_len in_protocol in_max_packet_size].
    rewrite Hdec. split; [done|]. split_and!; [done|done|done|].
    intros ->. destruct len' as [n|]; [|done]. destruct Hst' as [_ Hst'].
    symmetry in Hst'. apply app_eq_nil in Hst' as [Hst' _]. by apply uvi_nonempty in Hst'.
  - intros [[[p len m]]] buf s t read rest (Hp & Hmax & Hst & Hnil) He Ht Hread Heq.
    cbn in Hp, Hmax, Hst. subst p m. rewrite InboundCodec_decode_chunk by done. cbn [in_len in_protocol in_max_packet_size].
    rewrite (chunk_complete d len (buf ++ read) rest); [by rewrite Hh|done| |].
    { unfold request_refused. cbn. by rewrite Hb. }
    rewrite <- Heq. destruct len as [n|]; cbn in *; [destruct Hst as [? ->]; by rewrite app_assoc|by subst].
  - unfold chunk. pose proof (uvi_nonempty (blen d)). by destruct (uvi_encode (blen d)).
Qed.

Lemma request_bounds r pid :
  versioned_protocol pid = Outbound_versioned_protocol r ->
  lim_min (rpc_request_limits pid) <= blen (request_bytes r).
Proof.
  destruct pid as [p enc name]. cbn. intros ->. unfold rpc_request_limits.
  destruct r; cbn; try lia; unfold Goodbye_as_ssz_bytes; by rewrite ?ssz_ping_u64, ssz_u64_length.
Qed.

Lemma handle_request_roundtrip r : OutboundRequest_wf r ->
  handle_rpc_request (Outbound_versioned_protocol r) (request_bytes r) = Ok (Some (received r)).
Proof.
  destruct r as [x|x|x|x|[x]|]; cbn; intros Hwf; rewrite ?ssz_roundtrip by done; try done.
  - unfold Goodbye_from_ssz_bytes, Goodbye_as_ssz_bytes. rewrite ssz_roundtrip by by destruct x.
    cbn. by rewrite GoodbyeReason_from_to.
  - rewrite ssz_ping_u64. by rewrite ssz_roundtrip.
Qed.

Lemma inbound_framed pid max rs es reads :
  versioned_protocol pid <> MetaDataV1 ->
  Forall2 (decodes InboundCodec_decode (responder pid max) (inbound_state pid max)) rs es ->
  Forall (fun read => read <> []) reads -> concat reads = concat es ->
  framed InboundCodec_decode (responder pid max) [] reads = Ret (rs, Ok tt, responder pid max, []).
Proof.
  intros Hm Hes. apply (framed_stream InboundCodec_decode _ (inbound_state pid max)); [| | | |done].
  - by intros s.
  - intros [[c]] buf s read (Hp & Hmax & Hst & Hn). split_and!; [done..| |].
    + destruct (in_len c); cbn in *; [destruct Hst as [? ->]; by rewrite app_assoc|by subst].
    + intros Hs. apply app_eq_nil in Hs as [Hs _]. auto.
  - intros [[[p len m]]] buf (Hp & Hmax & Hst & Hn). cbn in *. rewrite Hn in * by done. by subst.
  - unfold responder, BaseInboundCodec_new. rewrite InboundCodec_decode_chunk by done.
    unfold decode_chunk. cbn.
    by rewrite (uvi_partial 0 [] (uvi_encode 0)) by (done || apply uvi_nonempty).
Qed.

Lemma request_encoding pid max req : req <> OutMetaData -> blen (request_bytes req) <= max ->
  OutboundCodec_encode (OutboundSSZSnappy (fresh pid max)) req [] = Ok (chunk (request_bytes req)).
Proof. intros Hm Hlen. destruct req; try done; exact (encode_bytes_ok max _ [] Hlen). Qed.

(** C7: A request is encoded by the side that opens the substream, and the codec of
    the listening side decodes exactly that request, however the bytes are cut
    into reads, when the encoding is within the protocol's limit. A metadata request
    takes no bytes and is recognised from the protocol. *)
Theorem request_roundtrip pid max req :
  OutboundRequest_wf req -> versioned_protocol pid = Outbound_versioned_protocol req ->
  blen (request_bytes req) <= Z.min (lim_max (rpc_request_limits pid)) max ->
  max < 2 ^ 32 ->
  exists e, OutboundCodec_encode (OutboundSSZSnappy (fresh pid max)) req [] = Ok e /\
    match req with
    | OutMetaData => e = [] /\
        InboundCodec_decode (responder pid max) e = Ret (Ok (Some InMetaData), responder pid max, [])
    | _ => forall reads, Forall (fun read => read <> []) reads -> concat reads = e ->
        framed InboundCodec_decode (responder pid max) [] reads =
          Ret ([received req], Ok tt, responder pid max, [])
    end.
Proof.
  intros Hwf Hp Hlen Hmax.
  assert (req <> OutMetaData -> decodes InboundCodec_decode (responder pid max) (inbound_state pid max)
    (received req) (chunk (request_bytes req))) as Hdec.
  { intros Hm. pose proof (request_bounds req pid Hp). apply request_decodes; [|lia| |].
    - rewrite Hp. by destruct req.
    - unfold is_out_of_bounds. replace (_ <? blen _) with false by (symmetry; apply Z.ltb_ge; lia).
      by replace (blen _ <? _) with false by (symmetry; apply Z.ltb_ge; lia).
    - rewrite Hp. by apply handle_request_roundtrip. }
  assert (req <> OutMetaData -> exists e,
    OutboundCodec_encode (OutboundSSZSnappy (fresh pid max)) req [] = Ok e /\
    forall reads, Forall (fun read => read <> []) reads -> concat reads = e ->
      framed InboundCodec_decode (responder pid max) [] reads =
        Ret ([received req], Ok tt, responder pid max, [])) as Hgo.
  { intros Hm. exists (chunk (request_bytes req)). split; [apply request_encoding; [done|lia]|].
    intros reads Hreads Hcat. apply (inbound_framed pid max _ [chunk (request_bytes req)]); auto.
    - rewrite Hp. by destruct req.
    - rewrite Hcat. cbn. by rewrite app_nil_r. }
  destruct req; try by apply Hgo. exists []. destruct pid as [p enc name]. cbn in Hp. by subst p.
Qed.

(** ** Whatever a peer sends *)

(** C10: No bytes a peer can send make a decoder of either side panic, from any state it
    can be in. *)
Theorem decoders_never_panic (ci : InboundCodec) (co : OutboundCodec) src :
  is_ret (InboundCodec_decode ci src) = true /\ is_ret (OutboundCodec_decode co src) = true.
Proof.
  split.
  - destruct ci as [[c]]. destruct (decide (versioned_protocol (in_protocol c) = MetaDataV1)) as [Hm|Hm].
    + unfold InboundCodec_decode, BaseInbound_decode, Inbound_decode. cbn [bi_inner]. by rewrite decide_True.
    + rewrite InboundCodec_decode_chunk by done.
      by destruct (decode_chunk_ret (in_len c) (request_refused c)
        (handle_rpc_request (versioned_protocol (in_protocol c))) src) as (r & len & src' & ->).
  - destruct co as [c]. unfold OutboundCodec_decode.
    assert (forall code src, exists r c' src', decode_coded (bo_inner c) code src = Ret (r, c', src')) as Hd.
    { intros code src'. unfold decode_coded.
      destruct (decode_chunk_ret (out_len (bo_inner c)) (coded_refused (bo_inner c) (byte.unsigned code))
        (handle_coded (versioned_protocol (out_protocol (bo_inner c))) (byte.unsigned code)) src')
        as (r & len & src'' & ->). eauto. }
    destruct (decide (blen src <= 1)) as [Hl|Hl]; [by rewrite base_decode_short|].
    destruct (current_response_code c) as [code|] eqn:Hc.
    + rewrite (base_decode_code c code) by (done || lia). by destruct (Hd code src) as (? & ? & ? & ->).
    + destruct src as [|code [|x src]]; [cbn in Hl; lia..|].
      rewrite base_decode_fresh by done. by destruct (Hd code (x :: src)) as (? & ? & ? & ->).
Qed.

(** C26: A length prefix outside the limits of the protocol or above the packet size is
    refused as invalid data by each of the three decoders, whatever follows it:
    the payload is not read and no buffer of that length is made. *)
Theorem bad_length_refused pid max n rest :
  0 <= n < 2 ^ 64 ->
  (versioned_protocol pid <> MetaDataV1 ->
   is_out_of_bounds (rpc_request_limits pid) n max = true ->
   exists msg c', InboundCodec_decode (responder pid max) (uvi_encode n ++ rest) =
     Ret (Err (InvalidData msg), c', rest)) /\
  (is_out_of_bounds (rpc_response_limits pid) n max = true ->
   exists msg c', OutboundCodec_decode (OutboundSSZSnappy (fresh pid max))
     (x00 :: uvi_encode n ++ rest) = Ret (Err (InvalidData msg), c', rest)) /\
  (forall code, code <> x00 -> (max < n \/ ERROR_TYPE_MAX < n \/ n < ERROR_TYPE_MIN) ->
   exists msg c', OutboundCodec_decode (OutboundSSZSnappy (fresh pid max))
     (code :: uvi_encode n ++ rest) = Ret (Err (InvalidData msg), c', rest)).
Proof.
  intros Hn. assert (uvi_encode n ++ rest <> []) as Hne.
  { pose proof (uvi_nonempty n). by destruct (uvi_encode n). }
  split_and!.
  - intros Hm Hb. unfold responder, BaseInboundCodec_new. rewrite InboundCodec_decode_chunk by done.
    cbn [SSZSnappyInboundCodec_new in_len in_protocol in_max_packet_size].
    erewrite chunk_refused; [by eexists _, _|done|]. unfold request_refused. cbn. by rewrite Hb.
  - intros Hb. unfold OutboundCodec_decode. rewrite base_decode_fresh by done.
    unfold decode_coded. cbn [fresh BaseOutboundCodec_new SSZSnappyOutboundCodec_new bo_inner out_len].
    erewrite chunk_refused; [by eexists _, _|done|]. unfold coded_refused, response_refused. cbn. by rewrite Hb.
  - intros code Hcode Hb. unfold OutboundCodec_decode. rewrite base_decode_fresh by done.
    unfold decode_coded. cbn [fresh BaseOutboundCodec_new SSZSnappyOutboundCodec_new bo_inner out_len].
    erewrite chunk_refused; [by eexists _, _|done|]. unfold coded_refused.
    replace (is_response (byte.unsigned code)) with false by by destruct code.
    unfold error_refused. cbn. replace (_ || _ || _) with true; [done|].
    symmetry. apply orb_true_iff. rewrite orb_true_iff, !Z.ltb_lt. tauto.
Qed.

(** What is too large to send is refused by the sender as an internal error and
    nothing is written, for requests and for responses. *)
Theorem oversize_not_sent pid max req r b :
  max < blen b ->
  (request_bytes req = b -> req <> OutMetaData ->
   OutboundCodec_encode (OutboundSSZSnappy (fresh pid max)) req [] =
     Err (InternalError "attempting to encode data > max_packet_size")) /\
  (response_bytes (versioned_protocol pid) r = Ret b ->
   forall dst, InboundCodec_encode (responder pid max) r dst =
     Ret (Err (InternalError "attempting to encode data > max_packet_size"))).
Proof.
  intros Hlt. assert (forall dst, encode_bytes max b dst =
    Err (InternalError "attempting to encode data > max_packet_size")) as He.
  { intros dst. unfold encode_bytes. by apply Z.ltb_lt in Hlt as ->. }
  split.
  - intros <- Hm. destruct req; try done; apply He.
  - intros Hb dst. destruct r as [resp|code err|]; [| |done];
      unfold responder, InboundCodec_encode, BaseInbound_encode; cbn [RPCCodedResponse_as_u8 expect];
      unfold Inbound_encode; cbn [bi_inner BaseInboundCodec_new in_protocol SSZSnappyInboundCodec_new];
      rewrite Hb; f_equal; apply He.
Qed.

(** An error response with an empty message is encoded, and the requester
    refuses it as invalid data: the shortest message the decoder admits has one byte. *)
Theorem empty_error_refused pid max code : 0 <= max ->
  exists e, (forall dst,
    InboundCodec_encode (responder pid max) (CodedError code (mkErrorType [])) dst = Ret (Ok e)) /\
  exists c', OutboundCodec_decode (OutboundSSZSnappy (fresh pid max)) e =
    Ret (Err (InvalidData "RPC Error length is out of bounds, length 0"), c', []).
Proof.
  intros Hmax. exists (byte.of_Z (RPCResponseErrorCode_as_u8 code) :: chunk []). split.
  - intros dst. unfold responder, InboundCodec_encode, BaseInbound_encode.
    cbn [RPCCodedResponse_as_u8 expect bi_inner BaseInboundCodec_new app]. unfold Inbound_encode.
    cbn [in_protocol SSZSnappyInboundCodec_new in_max_packet_size response_bytes].
    by rewrite ssz_error_bytes, encode_bytes_ok.
  - unfold OutboundCodec_decode. rewrite base_decode_fresh; [|done|].
    + unfold decode_coded, chunk. cbn [fresh BaseOutboundCodec_new SSZSnappyOutboundCodec_new bo_inner out_len].
      rewrite snappy_empty. erewrite chunk_refused; [by eexists|done|]. unfold coded_refused.
      destruct (error_code_byte code (mkErrorType [])) as [-> _]. unfold error_refused. cbn.
      by rewrite orb_true_r.
    + unfold chunk. intros Hnil. apply app_eq_nil in Hnil as [Hnil _]. by apply uvi_nonempty in Hnil.
Qed.
End codec.

(** ** Witnesses *)

Definition demo_ping : ProtocolId := ProtocolId_new PingV1 SSZSnappy.
Definition demo_responses : list RPCCodedResponse :=
  [Success (RPong (mkPing 7)); CodedError RateLimited (mkErrorType [x57; x61; x69; x74])].

Lemma response_stream_roundtrip_witness :
  exists es,
    Forall2 (fun r e => forall dst, @InboundCodec_encode demo_external demo_varint demo_snappy demo_ssz
      (responder demo_ping 1048576) r dst = Ret (Ok e)) demo_responses es /\
    forall reads, Forall (fun read => read <> []) reads -> concat reads = concat es ->
      framed (@OutboundCodec_decode demo_external demo_varint demo_snappy demo_ssz)
        (OutboundSSZSnappy (fresh demo_ping 1048576)) [] reads =
        Ret (demo_responses, Ok tt, OutboundSSZSnappy (fresh demo_ping 1048576), []).
Proof.
  apply (@response_stream_roundtrip demo_external demo_varint demo_snappy demo_ssz demo_ping 1048576).
  repeat constructor; try (cbn; lia); try (vm_compute; discriminate).
  exists (le_split 8 7). split; [done|]. vm_compute. discriminate.
Defined.

Lemma request_roundtrip_witness :
  exists e, @OutboundCodec_encode demo_external demo_varint demo_snappy demo_ssz
    (OutboundSSZSnappy (fresh demo_ping 1048576)) (OutPing (mkPing 7)) [] = Ok e /\
    forall reads, Forall (fun read => read <> []) reads -> concat reads = e ->
      framed (@InboundCodec_decode demo_external demo_varint demo_snappy demo_ssz)
        (responder demo_ping 1048576) [] reads =
        Ret ([InPing (mkPing 7)], Ok tt, responder demo_ping 1048576, []).
Proof.
  apply (@request_roundtrip demo_external demo_varint demo_snappy demo_ssz demo_ping 1048576
    (OutPing (mkPing 7))); [cbn; unfold is_u64; lia|done|vm_compute; discriminate|lia].
Defined.

Lemma bad_length_refused_witness :
  exists msg c', @InboundCodec_decode demo_external demo_varint demo_snappy demo_ssz
    (responder demo_ping 1048576) (leb_encode 9 9 ++ [x01]) = Ret (Err (InvalidData msg), c', [x01]).
Proof.
  apply (@bad_length_refused demo_external demo_varint demo_snappy demo_ssz demo_ping 1048576 9 [x01]);
    [lia|done|done].
Defined.

Lemma oversize_not_sent_witness :
  @OutboundCodec_encode demo_external demo_varint demo_snappy demo_ssz
    (OutboundSSZSnappy (fresh demo_ping 7)) (OutPing (mkPing 7)) [] =
    Err (InternalError "attempting to encode data > max_packet_size").
Proof.
  apply (@oversize_not_sent demo_external demo_varint demo_snappy demo_ssz demo_ping 7
    (OutPing (mkPing 7)) (Success (RPong (mkPing 7))) (le_split 8 7)); [by vm_compute|done|done].
Defined.

Lemma empty_error_refused_witness :
  exists e, (forall dst, @InboundCodec_encode demo_external demo_varint demo_snappy demo_ssz
    (responder demo_ping 1048576) (CodedError ServerError (mkErrorType [])) dst = Ret (Ok e)) /\
  exists c', @OutboundCodec_decode demo_external demo_varint demo_snappy demo_ssz
    (OutboundSSZSnappy (fresh demo_ping 1048576)) e =
    Ret (Err (InvalidData "RPC Error length is out of bounds, length 0"), c', []).
Proof.
  apply (@empty_error_refused demo_external demo_varint demo_snappy demo_ssz demo_ping 1048576
    ServerError). lia.
Defined.
