(* ===== verification/Client.v ===== *)
(** * Client fingerprints

    Models [src/peer_manager/peerdb/client.rs]: the identification of a peer's
    client from its agent string. The theorem describes the result on an agent
    string assembled from parts. *)

From Stdlib Require Import Ascii String.
From S2P Require Import Prelude RustStr.

Inductive ClientKind : Type :=
| Voltaire | Nimbus | Skandha | Prysm | Lodestar | UnknownClient.

#[export] Instance ClientKind_eq_dec : EqDecision ClientKind.
Proof. solve_decision. Defined.

Record Client : Type := mkClient {
  kind : ClientKind;
  version : string;
  os_version : string;
  protocol_version : string;
  agent_string : option string;
}.

Definition Client_default : Client :=
  mkClient UnknownClient "unknown" "unknown" "unknown" None.

Definition ClientKind_as_ref (k : ClientKind) : string :=
  match k with
  | Voltaire => "Voltaire"
  | Nimbus => "Nimbus"
  | Skandha => "Skandha"
  | Prysm => "Prysm"
  | Lodestar => "Lodestar"
  | UnknownClient => "Unknown"
  end.

Definition Client_display (c : Client) : string :=
  match kind c with
  | Voltaire => "Voltaire: version: " +:+ version c +:+ ", os_version: " +:+ os_version c
  | Skandha => "Skandha: version: " +:+ version c +:+ ", os_version: " +:+ os_version c
  | Nimbus => "Nimbus: version: " +:+ version c +:+ ", os_version: " +:+ os_version c
  | Prysm => "Prysm: version: " +:+ version c +:+ ", os_version: " +:+ os_version c
  | Lodestar => "Lodestar: version: " +:+ version c
  | UnknownClient =>
      match agent_string c with
      | Some a => "Unknown: " +:+ a
      | None => "Unknown"
      end
  end.

(** The version and OS version from the parts that follow, for the two shapes
    of agent strings: [name/version/os] and [name/x/version/os]. *)
Definition versions_direct (parts : list string) : string * string :=
  match parts with
  | v :: os :: _ => (v, os)
  | [v] => (v, "unknown")
  | [] => ("unknown", "unknown")
  end.
Definition versions_skip (parts : list string) : string * string :=
  match parts with
  | _ :: rest => versions_direct rest
  | [] => ("unknown", "unknown")
  end.

Definition client_from_agent_version (agent_version : string) : ClientKind * string * string :=
  let with_versions k (vs : string * string) := (k, vs.1, vs.2) in
  match split "/"%char agent_version with
  | name :: rest =>
      if String.eqb name "Voltaire" then with_versions Voltaire (versions_direct rest)
      else if String.eqb name "Skandha" then with_versions Skandha (versions_skip rest)
      else if String.eqb name "github.com" then (Prysm, "unknown", "unknown")
      else if String.eqb name "Prysm" then with_versions Prysm (versions_skip rest)
      else if String.eqb name "nimbus" then with_versions Nimbus (versions_skip rest)
      else if String.eqb name "nim-libp2p" then with_versions Nimbus (versions_direct rest)
      else if String.eqb name "js-libp2p" || String.eqb name "lodestar"
      then with_versions Lodestar (versions_direct rest)
      else (UnknownClient, "unknown", "unknown")
  | [] => (UnknownClient, "unknown", "unknown")
  end.

(** [IdentifyInfo] of [libp2p]: the fields the program reads. *)
Record IdentifyInfo : Type := mkIdentifyInfo {
  info_agent_version : string;
  info_protocol_version : string;
}.

Definition Client_from_identify_info (info : IdentifyInfo) : Client :=
  let '(k, v, os) := client_from_agent_version (info_agent_version info) in
  mkClient k v os (info_protocol_version info) (Some (info_agent_version info)).

(** Our own agent string [Voltaire/version/os] is recognised: the version
    and the OS version come back, whatever follows; a missing part is
    "unknown", and the agent string itself is kept. *)
Theorem voltaire_agent_recognised v os rest proto :
  str_mem "/"%char v = false -> str_mem "/"%char os = false ->
  let agent := "Voltaire/" +:+ v +:+ "/" +:+ os in
  let c s := Client_from_identify_info (mkIdentifyInfo s proto) in
  c agent = mkClient Voltaire v os proto (Some agent) /\
  c (agent +:+ "/" +:+ rest) = mkClient Voltaire v os proto (Some (agent +:+ "/" +:+ rest)) /\
  c ("Voltaire/" +:+ v) = mkClient Voltaire v "unknown" proto (Some ("Voltaire/" +:+ v)) /\
  c "Voltaire" = mkClient Voltaire "unknown" "unknown" proto (Some "Voltaire").
Proof.
  intros Hv Hos. cbv zeta.
  assert (H1 : split "/"%char ("Voltaire/" +:+ v +:+ "/" +:+ os) = ["Voltaire"; v; os]).
  { change ("Voltaire/" +:+ ?x) with ("Voltaire" +:+ String "/"%char x).
    rewrite split_app by done. change ("/" +:+ ?x) with (String "/"%char x).
    rewrite split_app by done. by rewrite split_none. }
  assert (H2 : split "/"%char (("Voltaire/" +:+ v +:+ "/" +:+ os) +:+ "/" +:+ rest)
    = "Voltaire" :: v :: os :: split "/"%char rest).
  { rewrite !str_app_assoc. change ("Voltaire/" +:+ ?x) with ("Voltaire" +:+ String "/"%char x).
    rewrite split_app by done. change ("/" +:+ ?x) with (String "/"%char x).
    rewrite split_app by done. change ("/" +:+ rest) with (String "/"%char rest).
    by rewrite split_app. }
  assert (H3 : split "/"%char ("Voltaire/" +:+ v) = ["Voltaire"; v]).
  { change ("Voltaire/" +:+ ?x) with ("Voltaire" +:+ String "/"%char x).
    rewrite split_app by done. by rewrite split_none. }
  unfold Client_from_identify_info, client_from_agent_version. cbn [info_agent_version info_protocol_version].
  rewrite H1, H2, H3. done.
Qed.

Lemma voltaire_agent_recognised_witness :
  Client_from_identify_info (mkIdentifyInfo "Voltaire/v0.1.0/linux" "p2p/1")
  = mkClient Voltaire "v0.1.0" "linux" "p2p/1" (Some "Voltaire/v0.1.0/linux").
Proof. apply (voltaire_agent_recognised "v0.1.0" "linux" "" "p2p/1"); reflexivity. Defined.
