(* ===== verification/Metrics.v ===== *)
(** * Metrics

    Models the crate [lighthouse_metrics], the metrics declared in [p2p_network/src/metrics.rs],
    [network_manager/src/metrics.rs] and [task_executor/src/metrics.rs], and what the first two do with them.
    [prometheus] is the class [Prometheus]: a registry that refuses a name that is taken, and families of
    metrics with one value for each tuple of label values. A metric is the result of its registration;
    if that failed every operation on it does nothing. Histograms are the list of what
    they observed. Gauges count far less than [2^63]. *)

From Stdlib Require Import Ascii String.
From stdpp Require Import functions.
From S2P Require Import Prelude RustStr Float64 Client.

(** ** The library *)

Inductive MetricKind : Type :=
| KIntCounter | KIntGauge | KGauge
| KIntCounterVec (label_names : list string) | KIntGaugeVec (label_names : list string) | KGaugeVec (label_names : list string)
| KHistogram (buckets : result (list f64) string)
| KHistogramVec (buckets : result (list f64) string) (label_names : list string).

(** What a metric is created from: [Opts] or [HistogramOpts]. *)
Record MetricDecl : Type := mkDecl { metric_name : string; help : string; metric_kind : MetricKind }.

Definition label_names (k : MetricKind) : list string :=
  match k with
  | KIntCounterVec ls | KIntGaugeVec ls | KGaugeVec ls | KHistogramVec _ ls => ls
  | _ => []
  end.
Definition decl_buckets (k : MetricKind) : result (list f64) string :=
  match k with KHistogram b | KHistogramVec b _ => b | _ => Ok [] end.

(** What [prometheus] accepts: a name of letters, digits, underscores and colons that starts with no digit, a help text,
    label names of the same form without colons, and buckets that increase. *)
Definition name_char (colon : bool) (c : ascii) : bool :=
  let n := Z.of_nat (nat_of_ascii c) in
  ((97 <=? n) && (n <=? 122)) || ((65 <=? n) && (n <=? 90)) || (n =? 95) || (colon && (n =? 58)).
Definition name_digit (c : ascii) : bool := let n := Z.of_nat (nat_of_ascii c) in (48 <=? n) && (n <=? 57).
Definition valid_name (colon : bool) (s : string) : bool :=
  match list_ascii_of_string s with
  | [] => false
  | c :: cs => name_char colon c && forallb (fun c => name_char colon c || name_digit c) cs
  end.
Fixpoint increasing (l : list f64) : bool :=
  match l with a :: ((b :: _) as l') => f64_lt a b && increasing l' | _ => true end.
Definition valid_decl (d : MetricDecl) : bool :=
  valid_name true (metric_name d) && negb (String.eqb (help d) "")
  && forallb (valid_name false) (label_names (metric_kind d)) && bool_decide (NoDup (label_names (metric_kind d)))
  && match decl_buckets (metric_kind d) with Ok b => increasing b | Err _ => false end.

Class Prometheus := {
  DEFAULT_BUCKETS : list f64;
  DEFAULT_BUCKETS_increasing : increasing DEFAULT_BUCKETS = true;

  Registry : Type;
  new_registry : Registry;
  registered : Registry -> gset string;
  with_opts : MetricDecl -> result unit string;
  register : MetricDecl -> Registry -> result Registry string;
  new_registered : registered new_registry = ∅;
  with_opts_valid : forall d, valid_decl d = true -> with_opts d = Ok tt;
  register_spec : forall d r,
    match register d r with
    | Ok r' => metric_name d ∉ registered r /\ registered r' = {[metric_name d]} ∪ registered r
    | Err _ => metric_name d ∈ registered r
    end;

  Family : Type -> Type;
  family_new : forall {A}, list string -> A -> Family A;
  (** [get_metric_with_label_values]: the metric is created when it is asked for, with the value zero. *)
  family_get : forall {A}, Family A -> list string -> option A;
  family_set : forall {A}, list string -> A -> Family A -> Family A;
  family_zero : forall {A}, Family A -> A;
  family_reset : forall {A}, Family A -> Family A;
  family_new_get : forall A ls (zero : A) vs,
    family_get (family_new ls zero) vs = if (length vs =? length ls)%nat then Some zero else None;
  family_new_zero : forall A ls (zero : A), family_zero (family_new ls zero) = zero;
  family_set_get : forall A (f : Family A) vs a vs', is_Some (family_get f vs) ->
    family_get (family_set vs a f) vs' = if decide (vs = vs') then Some a else family_get f vs';
  family_set_zero : forall A (f : Family A) vs a, family_zero (family_set vs a f) = family_zero f;
  family_reset_get : forall A (f : Family A) vs,
    family_get (family_reset f) vs = option_map (fun _ => family_zero f) (family_get f vs);
  family_reset_zero : forall A (f : Family A), family_zero (family_reset f) = family_zero f;
}.

(** [f64::powi], whose precision the language leaves open. *)
Class PowLib := { f64_powi : f64 -> Z -> f64 }.

(** ** Creating metrics *)

Definition f64_decimal (n d : Z) : f64 := f64_div (f64_of_Z n) (f64_of_Z d).

Section create.
Context `{Prometheus} `{PowLib}.

Definition Registration : Type := Registry -> result Registry string.

(** A signed number as text. *)
Definition dec_int (n : Z) : string := if n <? 0 then "-" +:+ dec (- n) else dec n.

(** The common part: buckets, options, and the registry. *)
Definition try_create (d : MetricDecl) : Registration := fun r =>
  _ <-? decl_buckets (metric_kind d); _ <-? with_opts d; register d r.

Definition int_counter name help := mkDecl name help KIntCounter.
Definition int_gauge name help := mkDecl name help KIntGauge.
Definition float_gauge name help := mkDecl name help KGauge.
Definition int_counter_vec name help label_names := mkDecl name help (KIntCounterVec label_names).
Definition int_gauge_vec name help label_names := mkDecl name help (KIntGaugeVec label_names).
Definition float_gauge_vec name help label_names := mkDecl name help (KGaugeVec label_names).
Definition histogram_with_buckets name help buckets := mkDecl name help (KHistogram buckets).
Definition histogram name help := histogram_with_buckets name help (Ok DEFAULT_BUCKETS).
Definition histogram_vec_with_buckets name help buckets label_names := mkDecl name help (KHistogramVec buckets label_names).
Definition histogram_vec name help label_names := histogram_vec_with_buckets name help (Ok DEFAULT_BUCKETS) label_names.

Definition try_create_int_counter name help : Registration := try_create (int_counter name help).
Definition try_create_int_gauge name help : Registration := try_create (int_gauge name help).
Definition try_create_float_gauge name help : Registration := try_create (float_gauge name help).
Definition try_create_histogram_with_buckets name help buckets : Registration :=
  try_create (histogram_with_buckets name help buckets).
Definition try_create_histogram name help : Registration :=
  try_create_histogram_with_buckets name help (Ok DEFAULT_BUCKETS).
Definition try_create_histogram_vec_with_buckets name help buckets label_names : Registration :=
  try_create (histogram_vec_with_buckets name help buckets label_names).
Definition try_create_histogram_vec name help label_names : Registration :=
  try_create_histogram_vec_with_buckets name help (Ok DEFAULT_BUCKETS) label_names.
Definition try_create_int_gauge_vec name help label_names : Registration := try_create (int_gauge_vec name help label_names).
Definition try_create_float_gauge_vec name help label_names : Registration := try_create (float_gauge_vec name help label_names).
Definition try_create_int_counter_vec name help label_names : Registration := try_create (int_counter_vec name help label_names).

Definition decimal_buckets (min_power max_power : Z) : result (list f64) string :=
  if max_power <? min_power then
    Err ("decimal_buckets min_power needs to be <= max_power, given " +:+ dec_int min_power +:+ " and " +:+ dec_int max_power)
  else
    Ok (concat (map (fun n => map (fun m => f64_mul (f64_of_Z m) (f64_powi (f64_of_Z 10) n)) [1; 2; 5])
          (seqZ min_power (max_power - min_power + 1)))).

(** *** The metrics of the program *)

Definition task_metrics : list MetricDecl :=
  [int_gauge_vec "async_tasks_count" "Total number of async tasks spawned using spawn" ["async_task_count"];
   int_gauge_vec "blocking_tasks_count" "Total number of async tasks spawned using spawn_blocking" ["blocking_task_count"];
   histogram_vec "blocking_tasks_histogram" "Time taken by blocking tasks" ["blocking_task_hist"];
   int_gauge_vec "block_on_tasks_count" "Total number of block_on_dangerous tasks spawned" ["name"];
   histogram_vec "block_on_tasks_histogram" "Time taken by block_on_dangerous tasks" ["name"];
   histogram_vec "async_tasks_time_histogram" "Time taken by async tasks" ["async_task_hist"]].

Definition network_metrics : list MetricDecl :=
  [int_counter "nat_open" "An estimate indicating if the local node is exposed to the internet.";
   int_counter "libp2p_address_update_total" "Count of libp2p socked updated events (when our view of our IP address has changed)";
   int_gauge "libp2p_peers" "Count of libp2p peers currently connected";
   int_gauge "libp2p_tcp_peers" "Count of libp2p peers currently connected via TCP";
   int_gauge "libp2p_quic_peers" "Count of libp2p peers currently connected via QUIC";
   int_counter "libp2p_peer_connect_event_total" "Count of libp2p peer connect events (not the current number of connected peers)";
   int_counter "libp2p_peer_disconnect_event_total" "Count of libp2p peer disconnect events";
   int_gauge "discovery_sent_bytes" "The number of bytes sent in discovery";
   int_gauge "discovery_recv_bytes" "The number of bytes received in discovery";
   int_gauge "discovery_queue_size" "The number of discovery queries awaiting execution";
   float_gauge "discovery_requests" "The number of unsolicited discovery requests per second";
   int_gauge "discovery_sessions" "The number of active discovery sessions with peers";
   int_gauge_vec "libp2p_peers_per_client" "The connected peers via client implementation" ["Client"];
   int_gauge_vec "gossipsub_failed_attestation_publishes_per_subnet" "Failed attestation publishes per subnet" ["subnet"];
   int_gauge_vec "gossipsub_failed_publishes_per_main_topic" "Failed gossip publishes" ["topic_hash"];
   int_counter_vec "libp2p_rpc_errors_per_client" "RPC errors per client" ["client"; "rpc_error"; "direction"];
   int_counter_vec "libp2p_rpc_requests_total" "RPC requests total" ["type"];
   int_counter_vec "libp2p_peer_actions_per_client" "Score reports per client" ["client"; "action"; "source"];
   int_counter_vec "gossipsub_unaccepted_messages_per_client" "Gossipsub messages that we did not accept, per client" ["client"; "validation_result"];
   int_counter_vec "gossipsub_late_publish_per_topic_kind" "Messages published late to gossipsub per topic kind." ["topic_kind"];
   int_counter_vec "gossipsub_expired_late_publish_per_topic_kind" "Messages that expired waiting to be published on retry to gossipsub per topic kind." ["topic_kind"];
   int_counter_vec "gossipsub_failed_late_publish_per_topic_kind" "Messages that failed to be published on retry to gossipsub per topic kind." ["topic_kind"];
   int_gauge_vec "peer_score_distribution" "The distribution of connected peer scores" ["position"];
   float_gauge_vec "peer_score_per_client" "Average score per client" ["client"];
   int_counter_vec "discovery_query_peers_found" "Total number of peers found in attestation subnets and sync subnets" ["type"];
   int_counter_vec "discovery_total_queries" "Total number of discovery subnet queries" ["type"];
   int_gauge "network_inbound_peers" "The number of peers that are currently connected that have dialed us.";
   int_gauge "network_outbound_peers" "The number of peers that are currently connected that we dialed.";
   int_counter_vec "libp2p_report_peer_msgs_total" "Number of peer reports per msg" ["msg"]].

Definition processor_metrics : list MetricDecl :=
  [int_gauge_vec "block_mesh_peers_per_client" "Number of mesh peers for BeaconBlock topic per client" ["Client"];
   int_gauge_vec "beacon_aggregate_and_proof_mesh_peers_per_client" "Number of mesh peers for BeaconAggregateAndProof topic per client" ["Client"];
   int_counter "validator_attestation_subnet_subscriptions_total" "Count of validator attestation subscription requests.";
   int_counter "validator_subnet_subscriptions_aggregator_total" "Count of validator subscription requests where the subscriber is an aggregator.";
   int_counter "validator_sync_committee_subnet_subscriptions_total" "Count of validator sync committee subscription requests.";
   int_counter "beacon_processor_gossip_block_verified_total" "Total number of gossip blocks verified for propagation.";
   int_counter "beacon_processor_gossip_block_imported_total" "Total number of gossip blocks imported to fork choice, etc.";
   int_counter "beacon_processor_gossip_block_requeued_total" "Total number of gossip blocks that arrived early and were re-queued for later processing.";
   histogram "beacon_processor_gossip_block_early_seconds" "Whenever a gossip block is received early this metrics is set to how early that block was.";
   int_counter "beacon_processor_exit_verified_total" "Total number of voluntary exits verified for propagation.";
   int_counter "beacon_processor_exit_imported_total" "Total number of voluntary exits imported to the op pool.";
   int_counter "beacon_processor_proposer_slashing_verified_total" "Total number of proposer slashings verified for propagation.";
   int_counter "beacon_processor_proposer_slashing_imported_total" "Total number of proposer slashings imported to the op pool.";
   int_counter "beacon_processor_attester_slashing_verified_total" "Total number of attester slashings verified for propagation.";
   int_counter "beacon_processor_attester_slashing_imported_total" "Total number of attester slashings imported to the op pool.";
   int_counter "beacon_processor_bls_to_execution_change_verified_total" "Total number of address changes verified for propagation.";
   int_counter "beacon_processor_bls_to_execution_change_imported_total" "Total number of address changes imported to the op pool.";
   int_counter "beacon_processor_rpc_block_imported_total" "Total number of gossip blocks imported to fork choice, etc.";
   int_counter "beacon_processor_chain_segment_success_total" "Total number of chain segments successfully processed.";
   int_counter "beacon_processor_backfill_chain_segment_success_total" "Total number of chain segments successfully processed.";
   int_counter "beacon_processor_chain_segment_failed_total" "Total number of chain segments that failed processing.";
   int_counter "beacon_processor_backfill_chain_segment_failed_total" "Total number of backfill chain segments that failed processing.";
   int_counter "beacon_processor_unaggregated_attestation_verified_total" "Total number of unaggregated attestations verified for gossip.";
   int_counter "beacon_processor_unaggregated_attestation_imported_total" "Total number of unaggregated attestations imported to fork choice, etc.";
   int_counter "beacon_processor_unaggregated_attestation_requeued_total" "Total number of unaggregated attestations that referenced an unknown block and were re-queued.";
   int_counter "beacon_processor_aggregated_attestation_verified_total" "Total number of aggregated attestations verified for gossip.";
   int_counter "beacon_processor_aggregated_attestation_imported_total" "Total number of aggregated attestations imported to fork choice, etc.";
   int_counter "beacon_processor_aggregated_attestation_requeued_total" "Total number of aggregated attestations that referenced an unknown block and were re-queued."].

Definition queue_metrics : list MetricDecl :=
  [int_counter "beacon_processor_sync_message_verified_total" "Total number of sync committee messages verified for gossip.";
   int_counter "beacon_processor_sync_message_imported_total" "Total number of sync committee messages imported to fork choice, etc.";
   int_counter "beacon_processor_sync_contribution_verified_total" "Total number of sync committee contributions verified for gossip.";
   int_counter "beacon_processor_sync_contribution_imported_total" "Total number of sync committee contributions imported to fork choice, etc.";
   int_counter_vec "gossipsub_attestation_errors_per_type" "Gossipsub attestation errors per error type" ["type"];
   int_counter_vec "gossipsub_sync_committee_errors_per_type" "Gossipsub sync_committee errors per error type" ["type"];
   int_counter_vec "gossipsub_light_client_finality_update_errors_per_type" "Gossipsub light_client_finality_update errors per error type" ["type"];
   int_counter_vec "gossipsub_light_client_optimistic_update_errors_per_type" "Gossipsub light_client_optimistic_update errors per error type" ["type"];
   int_counter_vec "network_receive_events" "Count of events received by the channel to the network service" ["type"];
   histogram_vec "network_receive_times" "Time taken for network to handle an event sent to the network service." ["type"]].

Definition manager_metrics : list MetricDecl :=
  [int_gauge "libp2p_inbound_bytes" "The inbound bandwidth over libp2p";
   int_gauge "libp2p_outbound_bytes" "The outbound bandwidth over libp2p";
   int_gauge "libp2p_total_bandwidth" "The total inbound/outbound bandwidth over libp2p";
   int_gauge_vec "sync_peers_per_status" "Number of connected peers per sync status type" ["sync_status"];
   int_gauge_vec "sync_range_chains" "Number of Syncing chains in range, per range type" ["range_type"];
   int_gauge "sync_single_block_lookups" "Number of single block lookups underway";
   int_gauge "sync_parent_block_lookups" "Number of parent block lookups underway";
   histogram_with_buckets "beacon_block_gossip_propagation_verification_delay_time" "Duration between when the block is received and when it is verified for propagation." (decimal_buckets (-3) (-1));
   histogram_with_buckets "beacon_block_gossip_slot_start_delay_time" "Duration between when the block is received and the start of the slot it belongs to." (Ok [f64_decimal 1 10; f64_decimal 2 10; f64_decimal 3 10; f64_decimal 4 10; f64_decimal 5 10; f64_decimal 75 100; f64_decimal 10 10; f64_decimal 125 100; f64_decimal 15 10; f64_decimal 175 100; f64_decimal 20 10; f64_decimal 25 10; f64_decimal 30 10; f64_decimal 35 10; f64_decimal 40 10; f64_decimal 50 10; f64_decimal 60 10; f64_decimal 70 10; f64_decimal 80 10; f64_decimal 90 10; f64_decimal 100 10; f64_decimal 150 10; f64_decimal 200 10]);
   int_gauge "beacon_block_last_delay" "Keeps track of the last block's delay from the start of the slot";
   int_counter "beacon_block_gossip_arrived_late_total" "Count of times when a gossip block arrived from the network later than the attestation deadline.";
   int_counter "beacon_processor_reprocessing_queue_sent_optimistic_updates" "Number of queued light client optimistic updates where as matching block has been imported."].

Definition all_metrics : list MetricDecl :=
  task_metrics ++ network_metrics ++ processor_metrics ++ queue_metrics ++ manager_metrics.

(** Statics are created when they are first used, in whichever order that is. *)
Fixpoint create_all (l : list MetricDecl) : Registration := fun r =>
  match l with [] => Ok r | d :: l' => r <-? try_create d r; create_all l' r end.
End create.

(** ** Using metrics *)

(** [Result<IntCounter>], [Result<IntGauge>] and [Result<Gauge>], with their values. *)
Definition IntMetric : Type := result Z string.
Definition FloatMetric : Type := result f64 string.

(** [Result::map(|v| v.get()).unwrap_or(0)]. *)
Definition int_value (m : IntMetric) : Z := match m with Ok v => v | Err _ => 0 end.

Definition inc_counter (m : IntMetric) : IntMetric := result_map (fun v => wrap u64 (v + 1)) m.
Definition inc_counter_by (value : Z) (m : IntMetric) : IntMetric := result_map (fun v => wrap u64 (v + value)) m.
Definition set_gauge (value : Z) (m : IntMetric) : IntMetric := result_map (fun _ => value) m.
Definition set_float_gauge (value : f64) (m : FloatMetric) : FloatMetric := result_map (fun _ => value) m.
Definition inc_gauge (m : IntMetric) : IntMetric := result_map (fun v => v + 1) m.
Definition dec_gauge (m : IntMetric) : IntMetric := result_map (fun v => v - 1) m.
Definition maybe_set_gauge (value_opt : option Z) (m : IntMetric) : IntMetric :=
  match value_opt with Some value => set_gauge value m | None => m end.
Definition maybe_set_float_gauge (value_opt : option f64) (m : FloatMetric) : FloatMetric :=
  match value_opt with Some value => set_float_gauge value m | None => m end.

Definition duration_to_f64 (d : Duration) : f64 :=
  let nanos := f64_div (f64_of_Z (d mod 10 ^ 9)) (f64_of_Z (10 ^ 9)) in
  f64_add (f64_of_Z (d / 10 ^ 9)) nanos.

(** [Result<Histogram>], with what it observed. *)
Definition Histogram : Type := result (list f64) string.
Definition observe (value : f64) (h : Histogram) : Histogram := result_map (fun l => l ++ [value]) h.
Definition observe_duration (d : Duration) (h : Histogram) : Histogram := observe (duration_to_f64 d) h.
(** A timer is the time at which it was started; it observes when it is stopped. *)
Definition start_timer (now : Instant) (h : Histogram) : option Instant :=
  match h with Ok _ => Some now | Err _ => None end.
Definition stop_timer (now : Instant) (timer : option Instant) (h : Histogram) : Histogram :=
  match timer with Some start => observe (duration_to_f64 (now - start)) h | None => h end.

Section families.
Context `{Prometheus}.

(** [Result<IntGaugeVec>] and the other families. *)
Definition MetricVec (A : Type) : Type := result (Family A) string.

(** [get_int_gauge], [get_gauge], [get_int_counter] and [get_histogram]: the metric, here its value. *)
Definition get_metric {A} (v : MetricVec A) (name : list string) : option A :=
  match v with Ok f => family_get f name | Err _ => None end.
(** A change of the metric that was found. *)
Definition update_metric {A} (g : A -> A) (v : MetricVec A) (name : list string) : MetricVec A :=
  result_map (fun f => match family_get f name with Some a => family_set name (g a) f | None => f end) v.

Definition get_int_gauge : MetricVec Z -> list string -> option Z := get_metric.
Definition get_gauge {A} : MetricVec A -> list string -> option A := get_metric.
Definition get_int_counter : MetricVec Z -> list string -> option Z := get_metric.
Definition get_histogram : MetricVec (list f64) -> list string -> option (list f64) := get_metric.

Definition set_gauge_entry {A} (v : MetricVec A) (name : list string) (value : A) : MetricVec A :=
  update_metric (fun _ => value) v name.
Definition set_int_gauge (v : MetricVec Z) (name : list string) (value : Z) : MetricVec Z * bool :=
  match v with
  | Ok f => match family_get f name with Some _ => (Ok (family_set name value f), true) | None => (v, false) end
  | Err _ => (v, false)
  end.
Definition set_gauge_vec (v : MetricVec Z) (name : list string) (value : Z) : MetricVec Z :=
  update_metric (fun _ => value) v name.
Definition set_float_gauge_vec (v : MetricVec f64) (name : list string) (value : f64) : MetricVec f64 :=
  update_metric (fun _ => value) v name.
Definition inc_counter_vec (v : MetricVec Z) (name : list string) : MetricVec Z :=
  update_metric (fun n => wrap u64 (n + 1)) v name.
Definition inc_counter_vec_by (v : MetricVec Z) (name : list string) (amount : Z) : MetricVec Z :=
  update_metric (fun n => wrap u64 (n + amount)) v name.
Definition inc_gauge_vec (v : MetricVec Z) (name : list string) : MetricVec Z := update_metric (fun n => n + 1) v name.
Definition dec_gauge_vec (v : MetricVec Z) (name : list string) : MetricVec Z := update_metric (fun n => n - 1) v name.
Definition start_timer_vec (now : Instant) (v : MetricVec (list f64)) (name : list string) : option Instant :=
  option_map (fun _ => now) (get_histogram v name).
Definition observe_timer_vec (v : MetricVec (list f64)) (name : list string) (d : Duration) : MetricVec (list f64) :=
  update_metric (fun l => l ++ [duration_to_f64 d]) v name.
(** [reset] of a family. *)
Definition reset_vec {A} (v : MetricVec A) : MetricVec A := result_map family_reset v.

Lemma get_update {A} (g : A -> A) v name name' :
  get_metric (update_metric g v name) name' = if decide (name = name') then g <$> get_metric v name else get_metric v name'.
Proof.
  destruct v as [f|]; cbn; [|by case_decide]. destruct (family_get f name) as [a|] eqn:E.
  - rewrite family_set_get by (rewrite E; eauto). done.
  - case_decide; [by subst|done].
Qed.
Lemma get_set_gauge_vec v name value name' : is_Some (get_metric v name) ->
  get_metric (set_gauge_vec v name value) name' = if decide (name = name') then Some value else get_metric v name'.
Proof. intros [a Ha]. unfold set_gauge_vec. rewrite get_update, Ha. done. Qed.
Lemma get_reset {A} (f : Family A) name : get_metric (reset_vec (Ok f)) name = option_map (fun _ => family_zero f) (family_get f name).
Proof. apply family_reset_get. Qed.
End families.

(** ** Registration *)

Section registration.
Context `{Prometheus} `{PowLib}.

(** Everything about a declaration but its buckets. *)
Definition valid_opts (d : MetricDecl) : bool :=
  valid_name true (metric_name d) && negb (String.eqb (help d) "")
  && forallb (valid_name false) (label_names (metric_kind d)) && bool_decide (NoDup (label_names (metric_kind d))).

Lemma all_opts_valid : forallb valid_opts all_metrics = true.
Proof. vm_compute. reflexivity. Qed.
Lemma all_names_distinct : NoDup (map metric_name all_metrics).
Proof. apply (bool_decide_unpack _). vm_compute. exact I. Qed.

Lemma all_buckets_valid : match decimal_buckets (-3) (-1) with Ok b => increasing b | Err _ => false end = true ->
  Forall (fun d => match decl_buckets (metric_kind d) with Ok b => increasing b | Err _ => false end = true) all_metrics.
Proof.
  intros Hb. unfold all_metrics. repeat apply Forall_app_2.
  all: unfold task_metrics, network_metrics, processor_metrics, queue_metrics, manager_metrics.
  all: repeat (apply Forall_cons; split; [first [reflexivity|apply DEFAULT_BUCKETS_increasing|exact Hb]|]); constructor.
Qed.

Lemma create_all_ok l : forall r, Forall (fun d => valid_decl d = true) l -> NoDup (map metric_name l) ->
  (forall d, d ∈ l -> metric_name d ∉ registered r) ->
  exists r', create_all l r = Ok r' /\ registered r' = list_to_set (map metric_name l) ∪ registered r.
Proof.
  induction l as [|d l IH]; intros r Hv Hnd Hr; cbn [create_all].
  { exists r. split; [done|]. cbn. set_solver. }
  apply Forall_cons in Hv as [Hd Hv]. apply NoDup_cons in Hnd as [Hn Hnd].
  assert (try_create d r = register d r) as ->.
  { unfold try_create. rewrite with_opts_valid by done. unfold valid_decl in Hd.
    destruct (decl_buckets (metric_kind d)); [done|]. by rewrite !andb_false_r in Hd. }
  pose proof (register_spec d r) as Hs. destruct (register d r) as [r1|e]; [|by destruct (Hr d (list_elem_of_here _ _))].
  destruct Hs as [_ Hs]. destruct (IH r1 Hv Hnd) as (r2 & Hr2 & Hreg).
  - intros d' Hd'. rewrite Hs, elem_of_union, elem_of_singleton. intros [He|Hin].
    + apply Hn. rewrite <- He. by apply list_elem_of_fmap_2.
    + by apply (Hr d'); [right|].
  - exists r2. cbn. rewrite Hr2. split; [done|]. rewrite Hreg, Hs. cbn. set_solver.
Qed.

(** The metrics of the program never get in each other's way: in whichever order its statics are first used, every one of them
    is created and registered, provided the buckets computed with the library's power function increase. *)
Theorem metrics_registered l : match decimal_buckets (-3) (-1) with Ok b => increasing b | Err _ => false end = true ->
  NoDup l -> (forall d, d ∈ l -> d ∈ all_metrics) ->
  exists r, create_all l new_registry = Ok r /\ registered r = list_to_set (map metric_name l).
Proof.
  intros Hb Hnd Hl. destruct (create_all_ok l new_registry) as (r & Hr & Hreg).
  - apply Forall_forall. intros d Hd%Hl. pose proof (proj1 (forallb_forall _ _) all_opts_valid d) as Ho.
    pose proof (all_buckets_valid Hb) as Hk. rewrite Forall_forall in Hk. specialize (Hk d Hd).
    unfold valid_decl. rewrite Hk. fold (valid_opts d). rewrite Ho; [done|]. by apply list_elem_of_In.
  - apply NoDup_fmap_2_strong; [|done]. intros x y Hx%Hl Hy%Hl He. pose proof all_names_distinct as Ha.
    apply list_elem_of_lookup in Hx as [i Hi], Hy as [j Hj]. assert (i = j) as ->; [|congruence].
    eapply (NoDup_lookup _ i j (metric_name x) Ha); rewrite list_lookup_fmap, ?Hi, ?Hj; cbn; by rewrite ?He.
  - intros d _. rewrite new_registered. apply not_elem_of_empty.
  - exists r. split; [done|]. by rewrite Hreg, new_registered, (right_id_L ∅ (∪)).
Qed.
End registration.

(** ** The network's metrics *)

(** The counters and gauges without labels of [p2p_network/src/metrics.rs] and the bandwidth of the manager. *)
Inductive IntName : Type :=
| NAT_OPEN | ADDRESS_UPDATE_COUNT | PEERS_CONNECTED | TCP_PEERS_CONNECTED | QUIC_PEERS_CONNECTED
| PEER_CONNECT_EVENT_COUNT | PEER_DISCONNECT_EVENT_COUNT | DISCOVERY_SENT_BYTES | DISCOVERY_RECV_BYTES | DISCOVERY_QUEUE
| DISCOVERY_SESSIONS | NETWORK_INBOUND_PEERS | NETWORK_OUTBOUND_PEERS
| INBOUND_LIBP2P_BYTES | OUTBOUND_LIBP2P_BYTES | TOTAL_LIBP2P_BANDWIDTH.

#[export] Instance IntName_eq_dec : EqDecision IntName.
Proof. solve_decision. Defined.

Section network.
Context `{Prometheus}.

Record NetMetrics : Type := mkNetMetrics {
  ints : IntName -> IntMetric;
  DISCOVERY_REQS : FloatMetric;
  PEERS_PER_CLIENT : MetricVec Z;
  PEER_SCORE_DISTRIBUTION : MetricVec Z;
  PEER_SCORE_PER_CLIENT : MetricVec f64;
  BEACON_BLOCK_MESH_PEERS_PER_CLIENT : MetricVec Z;
  BEACON_AGGREGATE_AND_PROOF_MESH_PEERS_PER_CLIENT : MetricVec Z;
}.

Definition on_int (k : IntName) (g : IntMetric -> IntMetric) (x : NetMetrics) : NetMetrics :=
  let 'mkNetMetrics i d c s p b a := x in mkNetMetrics (<[k := g (i k)]> i) d c s p b a.
Definition with_reqs (g : FloatMetric -> FloatMetric) (x : NetMetrics) : NetMetrics :=
  let 'mkNetMetrics i d c s p b a := x in mkNetMetrics i (g d) c s p b a.
Definition with_clients (v : MetricVec Z) (x : NetMetrics) : NetMetrics :=
  let 'mkNetMetrics i d c s p b a := x in mkNetMetrics i d v s p b a.
Definition with_distribution (v : MetricVec Z) (x : NetMetrics) : NetMetrics :=
  let 'mkNetMetrics i d c s p b a := x in mkNetMetrics i d c v p b a.
Definition with_score_per_client (v : MetricVec f64) (x : NetMetrics) : NetMetrics :=
  let 'mkNetMetrics i d c s p b a := x in mkNetMetrics i d c s v b a.
Definition with_mesh (v w : MetricVec Z) (x : NetMetrics) : NetMetrics :=
  let 'mkNetMetrics i d c s p b a := x in mkNetMetrics i d c s p v w.

(** Everything registered, with the value zero. *)
Definition fresh_metrics : NetMetrics :=
  mkNetMetrics (fun _ => Ok 0) (Ok (f64_of_Z 0)) (Ok (family_new ["Client"] 0)) (Ok (family_new ["position"] 0))
    (Ok (family_new ["client"] (f64_of_Z 0))) (Ok (family_new ["Client"] 0)) (Ok (family_new ["Client"] 0)).

Definition value_of_int (k : IntName) (x : NetMetrics) : Z := int_value (ints x k).

Lemma ints_on_int k g x k' : ints (on_int k g x) k' = if decide (k = k') then g (ints x k') else ints x k'.
Proof.
  destruct x. cbn. case_decide as E; [subst; apply fn_lookup_insert|by apply fn_lookup_insert_ne].
Qed.

Definition check_nat (x : NetMetrics) : NetMetrics :=
  if negb (value_of_int NAT_OPEN x =? 0) then x
  else if negb (value_of_int ADDRESS_UPDATE_COUNT x =? 0) || negb (value_of_int NETWORK_INBOUND_PEERS x =? 0)
  then on_int NAT_OPEN inc_counter x
  else x.

(** The counters of discv5. *)
Record Discv5Metrics : Type := mkDiscv5Metrics {
  unsolicited_requests_per_second : f64; active_sessions : Z; bytes_sent : Z; bytes_recv : Z;
}.
(** [as i64] of an unsigned number. *)
Definition as_i64 (n : Z) : Z := wrap i64 n.
Definition scrape_discovery_metrics (d : Discv5Metrics) (x : NetMetrics) : NetMetrics :=
  let x := with_reqs (set_float_gauge (unsolicited_requests_per_second d)) x in
  let x := on_int DISCOVERY_SESSIONS (set_gauge (as_i64 (active_sessions d))) x in
  let x := on_int DISCOVERY_SENT_BYTES (set_gauge (as_i64 (bytes_sent d))) x in
  on_int DISCOVERY_RECV_BYTES (set_gauge (as_i64 (bytes_recv d))) x.

Definition update_bandwidth_metrics (total_inbound total_outbound : Z) (x : NetMetrics) : NetMetrics :=
  let x := on_int INBOUND_LIBP2P_BYTES (set_gauge (as_i64 total_inbound)) x in
  let x := on_int OUTBOUND_LIBP2P_BYTES (set_gauge (as_i64 total_outbound)) x in
  on_int TOTAL_LIBP2P_BANDWIDTH (set_gauge (as_i64 (wrap u64 (total_inbound + total_outbound)))) x.

(** [ClientKind::iter]. *)
Definition ClientKind_iter : list ClientKind := [Voltaire; Nimbus; Skandha; Prysm; Lodestar; UnknownClient].

Definition update_gossip_metrics (x : NetMetrics) : NetMetrics :=
  foldl (fun x k =>
    with_mesh (set_gauge_vec (BEACON_BLOCK_MESH_PEERS_PER_CLIENT x) [ClientKind_as_ref k] 0)
      (set_gauge_vec (BEACON_AGGREGATE_AND_PROOF_MESH_PEERS_PER_CLIENT x) [ClientKind_as_ref k] 0) x) x ClientKind_iter.

(** What changes the metrics that tell whether the node can be reached. *)
Inductive NatEvent : Type := SocketUpdate | InboundPeers (n : Z) | NatCheck.
Definition nat_step (x : NetMetrics) (e : NatEvent) : NetMetrics :=
  match e with
  | SocketUpdate => check_nat (on_int ADDRESS_UPDATE_COUNT inc_counter x)
  | InboundPeers n => on_int NETWORK_INBOUND_PEERS (set_gauge n) x
  | NatCheck => check_nat x
  end.

(** Whether a check sees an update of the address, or inbound peers. *)
Fixpoint nat_seen (inbound : Z) (evs : list NatEvent) : bool :=
  match evs with
  | [] => false
  | SocketUpdate :: _ => true
  | InboundPeers n :: evs' => nat_seen n evs'
  | NatCheck :: evs' => negb (inbound =? 0) || nat_seen inbound evs'
  end.

Lemma value_on_int k g x k' : value_of_int k' (on_int k g x) = if decide (k = k') then int_value (g (ints x k')) else value_of_int k' x.
Proof. unfold value_of_int. rewrite ints_on_int. by case_decide. Qed.

Lemma nat_stays_open evs : forall x, value_of_int NAT_OPEN x = 1 -> value_of_int NAT_OPEN (foldl nat_step x evs) = 1.
Proof.
  assert (forall x, value_of_int NAT_OPEN x = 1 -> check_nat x = x) as Hc by (intros x Hx; unfold check_nat; by rewrite Hx).
  induction evs as [|e evs IH]; intros x Hx; [done|]. cbn [foldl]. apply IH. destruct e; cbn [nat_step].
  - rewrite Hc; by rewrite value_on_int.
  - by rewrite value_on_int.
  - by rewrite Hc.
Qed.

(** The metric for an open NAT is 0 or 1: it becomes 1 as soon as a check sees an update of our address
    or inbound peers, and stays so whatever happens to the number of inbound peers afterwards. *)
Theorem nat_open_run evs :
  value_of_int NAT_OPEN (foldl nat_step fresh_metrics evs) = if nat_seen 0 evs then 1 else 0.
Proof.
  assert (forall x n, ints x NAT_OPEN = Ok 0 -> ints x ADDRESS_UPDATE_COUNT = Ok 0 -> ints x NETWORK_INBOUND_PEERS = Ok n ->
    value_of_int NAT_OPEN (foldl nat_step x evs) = if nat_seen n evs then 1 else 0) as Hrun; [|by apply (Hrun _ 0)].
  induction evs as [|e evs IH]; intros x n H1 H2 H3; [cbn [foldl]; by unfold value_of_int; rewrite H1|].
  destruct e as [|n'|]; cbn [foldl nat_step nat_seen].
  - apply nat_stays_open. set (y := on_int ADDRESS_UPDATE_COUNT inc_counter x).
    assert (ints y NAT_OPEN = Ok 0 /\ ints y ADDRESS_UPDATE_COUNT = Ok 1) as [E1 E2] by (unfold y; by rewrite !ints_on_int, H2).
    unfold check_nat, value_of_int. rewrite E1, E2. cbn [int_value Z.eqb negb orb]. by rewrite ints_on_int, E1.
  - apply IH; rewrite ints_on_int; cbn; by rewrite ?H3.
  - assert (check_nat x = if negb (n =? 0) then on_int NAT_OPEN inc_counter x else x) as ->
      by (unfold check_nat, value_of_int; by rewrite H1, H2, H3).
    destruct (n =? 0) eqn:E; cbn [negb orb]; [by apply IH|]. apply nat_stays_open. by rewrite value_on_int, H1.
Qed.
End network.

(** ** A library that evaluates *)

#[refine] Definition demo_prometheus : Prometheus := {|
  DEFAULT_BUCKETS := [f64_decimal 5 1000; f64_decimal 1 100; f64_decimal 1 10; f64_of_Z 1; f64_of_Z 10];
  Registry := gset string; new_registry := ∅; registered := id;
  with_opts d := if valid_decl d then Ok tt else Err "invalid";
  register d r := if decide (metric_name d ∈ r) then Err "already registered" else Ok ({[metric_name d]} ∪ r);
  Family A := (nat * A * gmap (list string) A)%type;
  family_new A ls zero := (length ls, zero, ∅);
  family_get A f vs := if (length vs =? f.1.1)%nat then Some (default f.1.2 (f.2 !! vs)) else None;
  family_set A vs a f := (f.1, <[vs := a]> f.2);
  family_zero A f := f.1.2;
  family_reset A f := (f.1, ∅);
|}.
Proof.
  - vm_compute. reflexivity.
  - done.
  - intros d Hd. by rewrite Hd.
  - intros d r. by case_decide.
  - intros A ls zero vs. cbn. case_match; by rewrite ?lookup_empty.
  - done.
  - intros A [ [n z] m] vs a vs' Hs. cbn in *. destruct (length vs =? n)%nat eqn:E; [|by destruct Hs].
    case_decide as Hd; [subst; by rewrite E, lookup_insert_eq|by rewrite lookup_insert_ne].
  - done.
  - intros A [ [n z] m] vs. cbn. case_match; cbn; by rewrite ?lookup_empty.
  - done.
Defined.

Fixpoint pow_nat (a : f64) (n : nat) : f64 := match n with O => f64_of_Z 1 | S n => f64_mul a (pow_nat a n) end.
Definition demo_pow : PowLib := {| f64_powi a n :=
  if 0 <=? n then pow_nat a (Z.to_nat n) else f64_div (f64_of_Z 1) (pow_nat a (Z.to_nat (- n))) |}.

Section demo.
#[local] Existing Instance demo_prometheus.
#[local] Existing Instance demo_pow.

(** The examples of the documentation. *)
Example decimal_buckets_documented :
  decimal_buckets (-1) 1 = Ok (map (fun n => f64_decimal n 10) [1; 2; 5; 10; 20; 50; 100; 200; 500]) /\
  decimal_buckets 0 2 = Ok (map f64_of_Z [1; 2; 5; 10; 20; 50; 100; 200; 500]).
Proof. vm_compute. by split. Qed.

Lemma metrics_registered_witness : exists r, create_all all_metrics new_registry = Ok r /\ registered r = list_to_set (map metric_name all_metrics).
Proof.
  apply metrics_registered; [|apply (NoDup_fmap_1 metric_name), all_names_distinct|done].
  vm_compute. reflexivity.
Defined.
End demo.
