(* ===== verification/PeerInfo.v ===== *)
(** * What is known of a peer

    Models [src/peer_manager/peerdb/peer_info.rs] and [src/types/subnet.rs]:
    the record of a peer, its connection status and the operations on
    both. The number of connections is kept in 8 bits. *)

From S2P Require Import Prelude Float64 Score External RpcTypes Client.

(** [types/subnet.rs]. *)
Inductive Subnet : Type := Mempool (id : string).

#[export] Instance Subnet_eq_dec : EqDecision Subnet.
Proof. solve_decision. Defined.
#[export] Instance Subnet_countable : Countable Subnet.
Proof.
  refine (inj_countable' (fun s => match s with Mempool i => i end) Mempool _). by intros [].
Defined.

Inductive ConnectionDirection : Type := Incoming | Outgoing.

Inductive PeerConnectionStatus : Type :=
| Connected (n_in n_out : Z)
| Disconnecting (to_ban : bool)
| Disconnected (since : Instant)
| Banned (since : Instant)
| Dialing (since : Instant)
| Unknown.

Section peer_info.
Context `{External}.

Record PeerInfo : Type := mkPeerInfo {
  score : Score;
  client : Client;
  connection_status : PeerConnectionStatus;
  listening_addresses : list Multiaddr;
  seen_multiaddrs : gset Multiaddr;
  meta_data : option MetaData;
  subnets : gset Subnet;
  min_ttl : option Instant;
  is_trusted : bool;
  connection_direction : option ConnectionDirection;
  enr : option Enr;
}.

Definition PeerInfo_default (now : Instant) : PeerInfo :=
  mkPeerInfo (Score_default now) Client_default Unknown [] ∅ None ∅ None false None None.

Definition trusted_peer_info : PeerInfo :=
  mkPeerInfo ScoreMax Client_default Unknown [] ∅ None ∅ None true None None.

(** Field updates. *)
Definition set_score (x : Score) (i : PeerInfo) : PeerInfo :=
  let 'mkPeerInfo s c st la sm md sn mt tr cd en := i in mkPeerInfo x c st la sm md sn mt tr cd en.
Definition set_client (x : Client) (i : PeerInfo) : PeerInfo :=
  let 'mkPeerInfo s c st la sm md sn mt tr cd en := i in mkPeerInfo s x st la sm md sn mt tr cd en.
Definition set_connection_status (x : PeerConnectionStatus) (i : PeerInfo) : PeerInfo :=
  let 'mkPeerInfo s c st la sm md sn mt tr cd en := i in mkPeerInfo s c x la sm md sn mt tr cd en.
Definition set_listening_addresses (x : list Multiaddr) (i : PeerInfo) : list Multiaddr * PeerInfo :=
  let 'mkPeerInfo s c st la sm md sn mt tr cd en := i in
  (la, mkPeerInfo s c st x sm md sn mt tr cd en).
Definition set_seen (x : gset Multiaddr) (i : PeerInfo) : PeerInfo :=
  let 'mkPeerInfo s c st la sm md sn mt tr cd en := i in mkPeerInfo s c st la x md sn mt tr cd en.
Definition set_meta_data (x : MetaData) (i : PeerInfo) : PeerInfo :=
  let 'mkPeerInfo s c st la sm md sn mt tr cd en := i in
  mkPeerInfo s c st la sm (Some x) sn mt tr cd en.
Definition clear_subnets (i : PeerInfo) : PeerInfo :=
  let 'mkPeerInfo s c st la sm md sn mt tr cd en := i in mkPeerInfo s c st la sm md ∅ mt tr cd en.
Definition set_min_ttl (x : Instant) (i : PeerInfo) : PeerInfo :=
  let 'mkPeerInfo s c st la sm md sn mt tr cd en := i in
  mkPeerInfo s c st la sm md sn (Some x) tr cd en.
Definition set_direction (x : ConnectionDirection) (i : PeerInfo) : PeerInfo :=
  let 'mkPeerInfo s c st la sm md sn mt tr cd en := i in
  mkPeerInfo s c st la sm md sn mt tr (Some x) en.
Definition set_enr (x : Enr) (i : PeerInfo) : PeerInfo :=
  let 'mkPeerInfo s c st la sm md sn mt tr cd en := i in
  mkPeerInfo s c st la sm md sn mt tr cd (Some x).

(** The first IP address of a multiaddress. *)
Definition multiaddr_ip (a : Multiaddr) : option IpAddr :=
  head (omap (fun p => match p with Ip4 x => Some (V4 x) | Ip6 x => Some (V6 x) | _ => None end)
    (multiaddr_iter a)).

Definition seen_ip_addresses `{!SetIter Multiaddr} (i : PeerInfo) : list IpAddr :=
  omap multiaddr_ip (set_iter (seen_multiaddrs i)).

Definition score_state (i : PeerInfo) : ScoreState := Score_state (score i).
Definition is_good_gossipsub_peer (i : PeerInfo) : bool := Score_is_good_gossipsub_peer (score i).

Definition is_connected (i : PeerInfo) : bool :=
  match connection_status i with Connected _ _ => true | _ => false end.
Definition is_dialing (i : PeerInfo) : bool :=
  match connection_status i with Dialing _ => true | _ => false end.
Definition is_connected_or_dialing (i : PeerInfo) : bool := is_connected i || is_dialing i.
Definition is_banned (i : PeerInfo) : bool :=
  match connection_status i with Banned _ => true | _ => false end.
Definition score_is_banned (i : PeerInfo) : bool :=
  match Score_state (score i) with StBanned => true | _ => false end.
Definition is_disconnected (i : PeerInfo) : bool :=
  match connection_status i with Disconnected _ => true | _ => false end.
Definition is_outbound_only (i : PeerInfo) : bool :=
  match connection_status i with Connected n_in n_out => (n_in =? 0) && (0 <? n_out) | _ => false end.
Definition connections (i : PeerInfo) : Z * Z :=
  match connection_status i with Connected n_in n_out => (n_in, n_out) | _ => (0, 0) end.

Definition apply_peer_action_to_score (a : PeerAction) (i : PeerInfo) : PeerInfo :=
  if negb (is_trusted i) then set_score (score_apply (apply_peer_action a) (score i)) i else i.

Definition score_update `{Libm} (now : Instant) (i : PeerInfo) : PeerInfo :=
  if negb (is_trusted i) then set_score (score_apply (update_at now) (score i)) i else i.

Definition info_update_gossipsub_score (now : Instant) (new_score : f64) (ignore : bool)
    (i : PeerInfo) : PeerInfo :=
  set_score (score_apply (update_gossipsub_score now new_score ignore) (score i)) i.

Definition set_dialing_peer (now : Instant) (i : PeerInfo) : result PeerInfo string :=
  match connection_status i with
  | Connected _ _ => Err "Dialing connected peer"
  | Dialing _ => Err "Dialing an already dialing peer"
  | Disconnecting _ => Err "Dialing a disconnecting peer"
  | Disconnected _ | Banned _ | Unknown => Ok (set_connection_status (Dialing now) i)
  end.

Definition connect_ingoing (seen_multiaddr : option Multiaddr) (i : PeerInfo) : PeerInfo :=
  let i1 := match connection_status i with
    | Connected n_in n_out => set_connection_status (Connected (wrap u8 (n_in + 1)) n_out) i
    | Disconnected _ | Banned _ | Dialing _ | Disconnecting _ | Unknown =>
        set_direction Incoming (set_connection_status (Connected 1 0) i)
    end in
  match seen_multiaddr with
  | Some a => set_seen ({[a]} ∪ seen_multiaddrs i1) i1
  | None => i1
  end.

Definition connect_outgoing (seen_multiaddr : option Multiaddr) (i : PeerInfo) : PeerInfo :=
  let i1 := match connection_status i with
    | Connected n_in n_out => set_connection_status (Connected n_in (wrap u8 (n_out + 1))) i
    | Disconnected _ | Banned _ | Dialing _ | Disconnecting _ | Unknown =>
        set_direction Outgoing (set_connection_status (Connected 0 1) i)
    end in
  match seen_multiaddr with
  | Some a => set_seen ({[a]} ∪ seen_multiaddrs i1) i1
  | None => i1
  end.
End peer_info.
