(* ===== verification/Topics.v ===== *)
(** * Gossipsub topics and messages

    Models [src/types/topics.rs], [src/types/pubsub.rs] and the whitelist of
    [src/service/utils.rs]: the names of topics and how they are read back,
    the messages sent on them, and the compression applied to every message.
    The hash of an identity topic is its string. *)

From Stdlib.Init Require Import Byte.
From Stdlib Require Import Ascii String.
From S2P Require Import Prelude RustStr External RpcTypes Wire PeerInfo.

(** ** [topics.rs] *)

Definition TOPIC_PREFIX : string := "account_abstraction".
Definition SSZ_SNAPPY_ENCODING_POSTFIX : string := "ssz_snappy".
Definition USER_OPS_WITH_ENTRY_POINT : string := "user_operations".

Inductive GossipKind : Type := VerifiedUserOperationKind.
Inductive GossipEncoding : Type := GossipSSZSnappy.

#[export] Instance GossipKind_eq_dec : EqDecision GossipKind.
Proof. solve_decision. Defined.
#[export] Instance GossipEncoding_eq_dec : EqDecision GossipEncoding.
Proof. solve_decision. Defined.

Definition BASE_CORE_TOPICS : list GossipKind := [VerifiedUserOperationKind].

Definition GossipEncoding_default : GossipEncoding := GossipSSZSnappy.

(** [AsRefStr] of [GossipKind]. *)
Definition GossipKind_as_ref (k : GossipKind) : string :=
  match k with VerifiedUserOperationKind => "verified_user_operation" end.

(** [Display] of [GossipKind]: its one pattern is a variable, so it formats the
    value itself again; the fuel bounds the nesting. *)
Fixpoint GossipKind_display (fuel : nat) (k : GossipKind) : option string :=
  match fuel with
  | O => None
  | S fuel =>
      match GossipKind_display fuel k with
      | Some s => Some ("user_operation_with_entrypoint" +:+ s)
      | None => None
      end
  end.

Record GossipTopic : Type := mkGossipTopic {
  gt_encoding : GossipEncoding;
  mempool_id : string;
  gt_kind : GossipKind;
}.

#[export] Instance GossipTopic_eq_dec : EqDecision GossipTopic.
Proof. solve_decision. Defined.
#[export] Instance GossipTopic_countable : Countable GossipTopic.
Proof.
  refine (inj_countable' mempool_id (fun m => mkGossipTopic GossipSSZSnappy m VerifiedUserOperationKind) _).
  by intros [[] m []].
Defined.

Definition GossipTopic_new (kind : GossipKind) (encoding : GossipEncoding) (mempool_id : string)
  : GossipTopic := mkGossipTopic encoding mempool_id kind.

(** [Display] of [GossipTopic], and the conversions to [String] and to an identity topic. *)
Definition GossipTopic_to_string (t : GossipTopic) : string :=
  let encoding := match gt_encoding t with GossipSSZSnappy => SSZ_SNAPPY_ENCODING_POSTFIX end in
  let kind := match gt_kind t with VerifiedUserOperationKind => USER_OPS_WITH_ENTRY_POINT end in
  "/" +:+ TOPIC_PREFIX +:+ "/" +:+ mempool_id t +:+ "/" +:+ kind +:+ "/" +:+ encoding.

Definition GossipTopic_decode (topic : string) : outcome (result GossipTopic string) :=
  match split "/"%char topic with
  | [_; part1; part2; part3; part4] =>
      if String.eqb part1 TOPIC_PREFIX then
        if String.eqb part4 SSZ_SNAPPY_ENCODING_POSTFIX then
          if String.eqb part3 USER_OPS_WITH_ENTRY_POINT
          then Ret (Ok (mkGossipTopic GossipSSZSnappy part2 VerifiedUserOperationKind))
          else Panic "not yet implemented"
        else Ret (Err ("Unknown encoding: " +:+ topic))
      else Ret (Err ("Unknown topic: " +:+ topic))
  | _ => Ret (Err ("Unknown topic: " +:+ topic))
  end.

Definition GossipTopic_subnet_id (t : GossipTopic) : option Subnet :=
  match gt_kind t with VerifiedUserOperationKind => Some (Mempool (mempool_id t)) end.

Definition GossipKind_from_subnet (s : Subnet) : GossipKind :=
  match s with Mempool _ => VerifiedUserOperationKind end.

Definition subnet_from_topic_hash (topic_hash : string) : outcome (option Subnet) :=
  r <-! GossipTopic_decode topic_hash;
  Ret match r with Ok t => GossipTopic_subnet_id t | Err _ => None end.

(** ** The whitelist of [service/utils.rs] *)

Definition create_whitelist_filter (possible_mempools : list string) : gset string :=
  fold_left (fun hashes id =>
    {[GossipTopic_to_string (GossipTopic_new VerifiedUserOperationKind GossipSSZSnappy id)]} ∪ hashes)
    possible_mempools ∅.

(** ** [pubsub.rs] *)

Inductive PubsubMessage : Type := PubsubVerifiedUserOperation (op : VerifiedUserOperation).

Definition PubsubMessage_kind (m : PubsubMessage) : GossipKind :=
  match m with PubsubVerifiedUserOperation _ => VerifiedUserOperationKind end.

Definition PubsubMessage_topics (m : PubsubMessage) (encoding : GossipEncoding) (mempool_id : string)
  : list GossipTopic := [GossipTopic_new (PubsubMessage_kind m) encoding mempool_id].

Section pubsub.
Context `{External} `{!SszTypes} `{RawSnappy}.

(** The [Debug] output of a decoding error and of a topic hash. *)
Context (decode_error_debug : DecodeError -> string) (topic_debug : string -> string).

Definition PubsubMessage_decode (topic : string) (data : bytes)
  : outcome (result PubsubMessage string) :=
  r <-! GossipTopic_decode topic;
  match r with
  | Err _ => Ret (Err ("Unknown gossipsub topic: " +:+ topic_debug topic))
  | Ok gossip_topic =>
      match gt_kind gossip_topic with
      | VerifiedUserOperationKind =>
          Ret match from_ssz_bytes data with
              | Ok op => Ok (PubsubVerifiedUserOperation op)
              | Err e => Err (decode_error_debug e)
              end
      end
  end.

Definition PubsubMessage_encode (m : PubsubMessage) (encoding : GossipEncoding) : bytes :=
  match m with PubsubVerifiedUserOperation data => as_ssz_bytes data end.

(** [gossipsub::RawMessage] and [gossipsub::Message], as far as the transform uses them. *)
Record RawMessage : Type := mkRawMessage {
  source : option PeerId; data : bytes; sequence_number : option Z; topic : string;
}.

Record SnappyTransform : Type := mkSnappyTransform { max_size_per_message : Z }.

Definition inbound_transform (t : SnappyTransform) (raw_message : RawMessage)
  : result RawMessage IoErr :=
  len <-? raw_decompress_len (data raw_message);
  if max_size_per_message t <? len
  then Err (OtherIo "ssz_snappy decoded data > GOSSIP_MAX_SIZE")
  else
    decompressed_data <-? raw_decompress (data raw_message);
    Ok (mkRawMessage (source raw_message) decompressed_data (sequence_number raw_message)
          (topic raw_message)).

Definition outbound_transform (t : SnappyTransform) (_topic : string) (data : bytes)
  : result bytes IoErr :=
  if max_size_per_message t <? blen data
  then Err (OtherIo "ssz_snappy Encoded data > GOSSIP_MAX_SIZE")
  else raw_compress data.
End pubsub.

(** ** Reading topics back *)

Lemma topic_parts t : split "/"%char (GossipTopic_to_string t) =
  ("" :: TOPIC_PREFIX :: split "/"%char (mempool_id t) ++
    [USER_OPS_WITH_ENTRY_POINT; SSZ_SNAPPY_ENCODING_POSTFIX])%list.
Proof.
  destruct t as [[] m []]. unfold GossipTopic_to_string. cbn [mempool_id gt_encoding gt_kind].
  change (split "/"%char ("/" +:+ ?x)) with (EmptyString :: split "/"%char x). by rewrite !split_parts.
Qed.

Lemma topic_decode_encoded t : str_mem "/"%char (mempool_id t) = false ->
  GossipTopic_decode (GossipTopic_to_string t) = Ret (Ok t).
Proof.
  intros Hm. unfold GossipTopic_decode. rewrite topic_parts, split_none by done. by destruct t as [[] m []].
Qed.

(** C40: Decoding accepts exactly the strings that end in the name of the topic, after a
    first part that is ignored, for mempool ids without a slash: a topic is
    read back from its own name, and nothing else is taken for it but the name
    with another first part. *)
Theorem topic_decode_exact s t :
  GossipTopic_decode s = Ret (Ok t) <->
  exists first, str_mem "/"%char first = false /\ str_mem "/"%char (mempool_id t) = false /\
    s = first +:+ GossipTopic_to_string t.
Proof.
  split.
  - unfold GossipTopic_decode. destruct (split_spec "/"%char s) as (Hs & Hf & _).
    destruct (split _ s) as [|p0 [|p1 [|p2 [|p3 [|p4 [|? ?]]]]]]; try done.
    destruct (String.eqb_spec p1 TOPIC_PREFIX); [|done].
    destruct (String.eqb_spec p4 SSZ_SNAPPY_ENCODING_POSTFIX); [|done].
    destruct (String.eqb_spec p3 USER_OPS_WITH_ENTRY_POINT); [|done].
    intros [= <-]. exists p0. subst p1 p3 p4. rewrite !Forall_cons in Hf.
    split_and!; [apply Hf..|]. rewrite Hs. done.
  - intros (p0 & Hp & Hm & ->). unfold GossipTopic_decode.
    assert (split "/"%char (p0 +:+ GossipTopic_to_string t) =
      [p0; TOPIC_PREFIX; mempool_id t; USER_OPS_WITH_ENTRY_POINT; SSZ_SNAPPY_ENCODING_POSTFIX]) as ->.
    { destruct t as [[] m []]. unfold GossipTopic_to_string. cbn [mempool_id gt_encoding gt_kind] in Hm |- *.
      by rewrite !split_parts, (split_none _ p0), (split_none _ m) by done. }
    by destruct t as [[] m []].
Qed.

Lemma elem_of_whitelist_fold ids (acc : gset string) topic :
  topic ∈ fold_left (fun hashes id =>
    {[GossipTopic_to_string (GossipTopic_new VerifiedUserOperationKind GossipSSZSnappy id)]} ∪ hashes)
    ids acc <->
  topic ∈ acc \/ exists id, id ∈ ids /\
    topic = GossipTopic_to_string (GossipTopic_new VerifiedUserOperationKind GossipSSZSnappy id).
Proof.
  revert acc. induction ids as [|id ids IH]; intros acc; cbn [fold_left].
  - set_solver.
  - rewrite IH. set_solver.
Qed.

Lemma elem_of_whitelist ids topic : topic ∈ create_whitelist_filter ids <-> exists id, id ∈ ids /\
  topic = GossipTopic_to_string (GossipTopic_new VerifiedUserOperationKind GossipSSZSnappy id).
Proof. unfold create_whitelist_filter. rewrite elem_of_whitelist_fold. set_solver. Qed.

Lemma whitelist_decode_ret ids topic : topic ∈ create_whitelist_filter ids ->
  is_ret (GossipTopic_decode topic) = true.
Proof.
  rewrite elem_of_whitelist. intros (id & Hid & ->).
  unfold GossipTopic_decode. rewrite topic_parts. cbn [mempool_id GossipTopic_new].
  destruct (split_spec "/"%char id) as (_ & _ & Hn).
  destruct (split _ id) as [|p [|q [|r [|? ps]]]]; done.
Qed.

(** The subscription filter lets through the topics of the configured mempools and
    no others, and decoding a topic it lets through does not panic; it succeeds when
    the mempool id has no slash. *)
Theorem whitelist_decodes ids topic :
  (topic ∈ create_whitelist_filter ids <-> exists id, id ∈ ids /\
     topic = GossipTopic_to_string (GossipTopic_new VerifiedUserOperationKind GossipSSZSnappy id)) /\
  (topic ∈ create_whitelist_filter ids ->
     is_ret (GossipTopic_decode topic) = true /\
     (forall id, id ∈ ids -> str_mem "/"%char id = false ->
        topic = GossipTopic_to_string (GossipTopic_new VerifiedUserOperationKind GossipSSZSnappy id) ->
        subnet_from_topic_hash topic = Ret (Some (Mempool id)))).
Proof.
  split; [apply elem_of_whitelist|]. intros Ht. split; [by eapply whitelist_decode_ret|].
  intros id' _ Hm ->. unfold subnet_from_topic_hash. by rewrite topic_decode_encoded.
Qed.

(** A topic with the right prefix and encoding and an unknown kind panics. *)
Lemma unknown_kind_panics id kind :
  str_mem "/"%char id = false -> str_mem "/"%char kind = false -> kind <> USER_OPS_WITH_ENTRY_POINT ->
  GossipTopic_decode ("/" +:+ TOPIC_PREFIX +:+ "/" +:+ id +:+ "/" +:+ kind +:+ "/" +:+
    SSZ_SNAPPY_ENCODING_POSTFIX) = Panic "not yet implemented".
Proof.
  intros Hid Hk Hne. unfold GossipTopic_decode.
  change (split "/"%char ("/" +:+ ?x)) with (EmptyString :: split "/"%char x).
  rewrite !split_parts, (split_none _ id), (split_none _ kind) by done. cbn.
  by destruct (String.eqb_spec kind USER_OPS_WITH_ENTRY_POINT).
Qed.

(** Displaying a kind never finishes. *)
Lemma kind_display_diverges fuel k : GossipKind_display fuel k = None.
Proof. induction fuel as [|fuel IH]; cbn; [done|by rewrite IH]. Qed.

(** ** Messages *)

Section messages.
Context `{External} `{!SszTypes} `{RawSnappy} (decode_error_debug : DecodeError -> string)
  (topic_debug : string -> string).

(** What reaches the application of a message sent on a topic by a peer. *)
Definition transmitted (t : SnappyTransform) (raw : RawMessage)
  : outcome (result PubsubMessage string) :=
  match inbound_transform t raw with
  | Err e => Ret (Err (IoErr_to_string e))
  | Ok msg => PubsubMessage_decode decode_error_debug topic_debug (Topics.topic msg) (data msg)
  end.

(** C21: A message within the size limit, compressed for one of its topics and received
    by a peer with the same limit, is decoded to the same message; one above the
    limit is not sent; and whatever is received is not larger than the limit. *)
Theorem gossip_message_roundtrip t op id from seq :
  max_size_per_message t < 2 ^ 32 -> VerifiedUserOperation_wf op -> str_mem "/"%char id = false ->
  let m := PubsubVerifiedUserOperation op in
  let bytes := PubsubMessage_encode m GossipEncoding_default in
  forall topic, topic ∈ PubsubMessage_topics m GossipEncoding_default id ->
  match outbound_transform t (GossipTopic_to_string topic) bytes with
  | Ok c => blen bytes <= max_size_per_message t /\
      transmitted t (mkRawMessage from c seq (GossipTopic_to_string topic)) = Ret (Ok m)
  | Err _ => max_size_per_message t < blen bytes
  end.
Proof.
  intros Hmax Hop Hid m bytes topic Htopic. apply list_elem_of_singleton in Htopic as ->.
  unfold outbound_transform. destruct (Z.ltb_spec (max_size_per_message t) (blen bytes)) as [Hlt|Hle]; [done|].
  destruct (raw_roundtrip bytes) as (c & -> & Hl & Hd); [lia|]. split; [done|].
  unfold transmitted, inbound_transform. cbn [data source sequence_number Topics.topic]. rewrite Hl.
  destruct (Z.ltb_spec (max_size_per_message t) (blen bytes)); [lia|]. rewrite Hd.
  unfold PubsubMessage_decode. cbn [Topics.topic data]. rewrite topic_decode_encoded by done. cbn.
  unfold bytes, PubsubMessage_encode, m. by rewrite ssz_roundtrip.
Qed.

(** Decompressing a gossip message never gives more bytes than the limit, and keeps
    its source, sequence number and topic; a larger announced size is refused. *)
Theorem inbound_transform_bounded t raw :
  match inbound_transform t raw with
  | Ok msg => blen (data msg) <= max_size_per_message t /\ source msg = source raw /\
      sequence_number msg = sequence_number raw /\ Topics.topic msg = Topics.topic raw
  | Err e => (exists n, raw_decompress_len (data raw) = Ok n /\ max_size_per_message t < n) \/
      raw_decompress_len (data raw) = Err e \/ raw_decompress (data raw) = Err e
  end.
Proof.
  unfold inbound_transform. destruct (raw_decompress_len (data raw)) as [n|e] eqn:Hl; [|auto].
  destruct (Z.ltb_spec (max_size_per_message t) n); [eauto|].
  destruct (raw_decompress (data raw)) as [d|e] eqn:Hd; [|auto].
  apply raw_len in Hd. rewrite Hl in Hd. injection Hd as ->. by split_and!.
Qed.
End messages.

(** ** Witnesses *)

Definition demo_op : VerifiedUserOperation :=
  mkVerifiedUserOperation (mkUserOperation 1 2 [] [x01] 3 4 5 6 7 [] [x02]) 8 9.

Definition demo_topic : GossipTopic := GossipTopic_new VerifiedUserOperationKind GossipSSZSnappy "main".

Lemma demo_op_wf : VerifiedUserOperation_wf demo_op.
Proof. repeat split; try (cbn; lia); vm_compute; discriminate. Qed.

Lemma gossip_message_roundtrip_witness :
  let m := PubsubVerifiedUserOperation demo_op in
  let bytes := @PubsubMessage_encode demo_external demo_ssz m GossipEncoding_default in
  demo_topic ∈ PubsubMessage_topics m GossipEncoding_default "main" /\
  match @outbound_transform demo_raw_snappy (mkSnappyTransform 10485760)
      (GossipTopic_to_string demo_topic) bytes with
  | Ok c => blen bytes <= 10485760 /\
      @transmitted demo_external demo_ssz demo_raw_snappy (fun _ => "error") (fun t => t)
        (mkSnappyTransform 10485760)
        (@mkRawMessage demo_external (Some demo_peer) c None (GossipTopic_to_string demo_topic))
      = Ret (Ok m)
  | Err _ => 10485760 < blen bytes
  end.
Proof.
  assert (Ht : demo_topic ∈ PubsubMessage_topics (PubsubVerifiedUserOperation demo_op)
    GossipEncoding_default "main") by by apply list_elem_of_singleton.
  split; [exact Ht|].
  exact (@gossip_message_roundtrip demo_external demo_ssz demo_raw_snappy (fun _ => "error") (fun t => t)
    (mkSnappyTransform 10485760) demo_op "main" (Some demo_peer) None
    ltac:(cbn; lia) demo_op_wf eq_refl demo_topic Ht).
Defined.

Example demo_unknown_kind :
  GossipTopic_decode "/account_abstraction/main/blocks/ssz_snappy" = Panic "not yet implemented".
Proof. reflexivity. Qed.
