(* ===== verification/PeerDB.v ===== *)
(** * The peer database

    Models [src/peer_manager/peerdb.rs]: the known peers, the counters of
    disconnected and banned peers, the connection state machine
    [update_connection_state] with every branch, score transitions, reports,
    periodic score updates and the pruning of old peers. Loops that run until a
    counter is within its limit take the counter as fuel. The order of
    hash-map iterations is [MapIter] and [SetIter]; the clock, the scores of
    gossipsub and its sorted order are arguments. *)

From S2P Require Import Prelude Float64 Score External RpcTypes Client PeerInfo.

Definition MAX_DC_PEERS : Z := 500.
Definition MAX_BANNED_PEERS : Z := 1000.
Definition BANNED_PEERS_PER_IP_THRESHOLD : Z := 5.
(** The [f32] nearest to 0.1. *)
Definition ALLOWED_NEGATIVE_GOSSIPSUB_FACTOR : f32 := f32_div (f32_of_Z 1) (f32_of_Z 10).
Definition DIAL_TIMEOUT : Z := 15.

(** ** Counts of banned peers *)

Record BannedPeersCount : Type := mkBannedPeersCount {
  banned_peers : Z;
  banned_peers_per_ip : gmap IpAddr Z;
}.

Definition BannedPeersCount_default : BannedPeersCount := mkBannedPeersCount 0 ∅.

Definition remove_banned_peer (ips : list IpAddr) (b : BannedPeersCount) : BannedPeersCount :=
  mkBannedPeersCount (saturating_sub (banned_peers b) 1)
    (foldl (fun m ip => match m !! ip with
       | Some count => <[ip := saturating_sub count 1]> m
       | None => m
       end) (banned_peers_per_ip b) ips).

Definition add_banned_peer (ips : list IpAddr) (b : BannedPeersCount) : BannedPeersCount :=
  mkBannedPeersCount (saturating_add (banned_peers b) 1)
    (foldl (fun m ip => <[ip := wrap usize (default 0 (m !! ip) + 1)]> m)
       (banned_peers_per_ip b) ips).

Definition ip_is_banned (b : BannedPeersCount) (ip : IpAddr) : bool :=
  match banned_peers_per_ip b !! ip with
  | Some count => BANNED_PEERS_PER_IP_THRESHOLD <? count
  | None => false
  end.

Definition banned_ips (b : BannedPeersCount) : gset IpAddr :=
  dom (filter (fun e => BANNED_PEERS_PER_IP_THRESHOLD < e.2) (banned_peers_per_ip b)).

(** The two ways the code asks whether an address is banned agree. *)
Lemma elem_of_banned_ips b ip : ip ∈ banned_ips b <-> ip_is_banned b ip = true.
Proof.
  unfold banned_ips, ip_is_banned. rewrite elem_of_dom. unfold is_Some.
  setoid_rewrite map_lookup_filter_Some. simpl. split.
  - intros (n & -> & Hn). by apply Z.ltb_lt.
  - destruct (banned_peers_per_ip b !! ip) as [n|]; [|done]. intros Hn%Z.ltb_lt. by exists n.
Qed.

(** ** The database *)

Inductive BanOperation : Type :=
| TemporaryBan
| DisconnectThePeer
| ReadyToBan (ips : list IpAddr)
| PeerDisconnecting.

Inductive BanResult : Type := BanBadScore | BannedIp (ip : IpAddr) | NotBanned.

Inductive ScoreTransitionResult : Type := TrDisconnected | TrBanned | TrUnbanned | TrNoAction.

Inductive ScoreUpdateResult : Type :=
| UpdBan (op : BanOperation)
| UpdDisconnect
| UpdUnbanned (ips : list IpAddr)
| UpdNoAction.

(** [From<Option<BanOperation>> for ScoreUpdateResult]. *)
Definition ScoreUpdateResult_from (o : option BanOperation) : ScoreUpdateResult :=
  match o with None => UpdNoAction | Some bo => UpdBan bo end.

Section peerdb.
Context `{External} `{Libm} `{!SetIter Multiaddr}.

Record PeerDB : Type := mkPeerDB {
  peers : gmap PeerId PeerInfo;
  disconnected_peers : Z;
  banned_peers_count : BannedPeersCount;
  disable_peer_scoring : bool;
}.

Inductive NewConnectionState : Type :=
| NewConnected (e : option Enr) (seen_address : Multiaddr) (direction : ConnectionDirection)
| NewDisconnecting (to_ban : bool)
| NewDialing (e : option Enr)
| NewDisconnected
| NewBanned
| NewUnbanned.

Definition PeerDB_new (trusted_peers : list PeerId) (disable : bool) : PeerDB :=
  mkPeerDB (list_to_map ((fun p => (p, trusted_peer_info)) <$> trusted_peers)) 0
    BannedPeersCount_default disable.

Definition peerdb_score (now : Instant) (db : PeerDB) (p : PeerId) : f64 :=
  Score_score (match peers db !! p with Some i => score i | None => Score_default now end).

Definition db_connection_status (db : PeerDB) (p : PeerId) : option PeerConnectionStatus :=
  connection_status <$> peers db !! p.

Definition db_is_connected (db : PeerDB) (p : PeerId) : bool :=
  match db_connection_status db p with Some (Connected _ _) => true | _ => false end.
Definition db_is_connected_or_dialing (db : PeerDB) (p : PeerId) : bool :=
  match db_connection_status db p with
  | Some (Connected _ _) | Some (Dialing _) => true | _ => false end.
Definition db_is_connected_or_disconnecting (db : PeerDB) (p : PeerId) : bool :=
  match db_connection_status db p with
  | Some (Connected _ _) | Some (Disconnecting _) => true | _ => false end.

(** [ip_is_banned(&self, peer)]: the first banned address of a peer. *)
Definition peer_ip_is_banned (db : PeerDB) (i : PeerInfo) : option IpAddr :=
  head (filter (fun ip => ip_is_banned (banned_peers_count db) ip = true) (seen_ip_addresses i)).

Definition is_ip_banned (db : PeerDB) (ip : IpAddr) : bool := ip_is_banned (banned_peers_count db) ip.

Definition score_state_banned_or_disconnected (db : PeerDB) (p : PeerId) : bool :=
  match peers db !! p with
  | Some i =>
      match score_state i with
      | StBanned | StDisconnected => true
      | _ => bool_decide (is_Some (peer_ip_is_banned db i))
      end
  | None => false
  end.

Definition should_dial (db : PeerDB) (p : PeerId) : bool :=
  match db_connection_status db p with
  | Some (Disconnected _) | Some Unknown | None => true
  | _ => false
  end && negb (score_state_banned_or_disconnected db p).

Definition ban_status (db : PeerDB) (p : PeerId) : BanResult :=
  match peers db !! p with
  | Some i =>
      match score_state i with
      | StBanned => BanBadScore
      | _ => match peer_ip_is_banned db i with Some ip => BannedIp ip | None => NotBanned end
      end
  | None => NotBanned
  end.

(** ** Iterators over the peers *)

Section iterators.
Context `{!MapIter PeerId PeerInfo}.

Definition peers_with (f : PeerInfo -> bool) (db : PeerDB) : list PeerId :=
  map fst (filter (fun e => f e.2 = true) (map_iter (peers db))).

Definition connected_peer_ids : PeerDB -> list PeerId := peers_with is_connected.
Definition connected_or_dialing_peers : PeerDB -> list PeerId := peers_with is_connected_or_dialing.
Definition connected_outbound_only_peers : PeerDB -> list PeerId := peers_with is_outbound_only.
Definition synced_peers : PeerDB -> list PeerId := peers_with (fun _ => false).
Definition advanced_peers : PeerDB -> list PeerId := peers_with (fun _ => false).
Definition good_peers_on_subnet : PeerDB -> list PeerId :=
  peers_with (fun i => is_connected i && is_good_gossipsub_peer i).
Definition disconnected_peer_ids : PeerDB -> list PeerId := peers_with is_disconnected.
Definition banned_peer_ids : PeerDB -> list PeerId := peers_with is_banned.
Definition banned_peers_by_score : PeerDB -> list PeerId := peers_with score_is_banned.
End iterators.

(** ** The connection state machine *)

Definition set_peer (p : PeerId) (i : PeerInfo) (db : PeerDB) : PeerDB :=
  mkPeerDB (<[p := i]> (peers db)) (disconnected_peers db) (banned_peers_count db)
    (disable_peer_scoring db).
Definition set_disconnected (n : Z) (db : PeerDB) : PeerDB :=
  mkPeerDB (peers db) n (banned_peers_count db) (disable_peer_scoring db).
Definition set_banned_count (b : BannedPeersCount) (db : PeerDB) : PeerDB :=
  mkPeerDB (peers db) (disconnected_peers db) b (disable_peer_scoring db).

Definition set_enr_opt (e : option Enr) (i : PeerInfo) : PeerInfo :=
  match e with Some e => set_enr e i | None => i end.

(** The addresses of a peer that are banned now. *)
Definition known_banned (b : BannedPeersCount) (i : PeerInfo) : list IpAddr :=
  filter (fun ip => ip ∈ banned_ips b) (seen_ip_addresses i).

(** [entry(peer_id).or_insert_with(..)]. *)
Definition entry_or_insert (now : Instant) (db : PeerDB) (p : PeerId) : PeerInfo :=
  match peers db !! p with
  | Some i => i
  | None => if disable_peer_scoring db then trusted_peer_info else PeerInfo_default now
  end.

(** A peer that is to be banned gets the worst score. *)
Definition ensure_banned_score (i : PeerInfo) : PeerInfo :=
  match score_state i with StBanned => i | _ => apply_peer_action_to_score Fatal i end.

Definition update_connection_state (now : Instant) (p : PeerId) (new_state : NewConnectionState)
    (db : PeerDB) : option BanOperation * PeerDB :=
  let i0 := entry_or_insert now db p in
  let i := match new_state with NewBanned => ensure_banned_score i0 | _ => i0 end in
  match new_state with
  | NewConnected e seen_address direction =>
      let i1 := set_enr_opt e i in
      let db1 := match connection_status i with
        | Disconnected _ => set_disconnected (saturating_sub (disconnected_peers db) 1) db
        | Banned _ =>
            set_banned_count (remove_banned_peer (seen_ip_addresses i1) (banned_peers_count db)) db
        | _ => db
        end in
      let i2 := match direction with
        | Incoming => connect_ingoing (Some seen_address) i1
        | Outgoing => connect_outgoing (Some seen_address) i1
        end in
      (None, set_peer p i2 db1)
  | NewDialing e =>
      let db1 := match connection_status i with
        | Banned _ =>
            set_banned_count (remove_banned_peer (seen_ip_addresses i) (banned_peers_count db)) db
        | Disconnected _ => set_disconnected (saturating_sub (disconnected_peers db) 1) db
        | _ => db
        end in
      let i1 := set_enr_opt e i in
      let i2 := match set_dialing_peer now i1 with Ok i' => i' | Err _ => i1 end in
      (None, set_peer p i2 db1)
  | NewDisconnected =>
      let i1 := clear_subnets i in
      match connection_status i with
      | Banned _ | Disconnected _ => (None, set_peer p i1 db)
      | Disconnecting true =>
          let i2 := set_connection_status (Banned now) i1 in
          let b := add_banned_peer (seen_ip_addresses i2) (banned_peers_count db) in
          (Some (ReadyToBan (known_banned b i2)), set_peer p i2 (set_banned_count b db))
      | Disconnecting false =>
          (Some TemporaryBan,
           set_peer p (set_connection_status (Disconnected now) i1)
             (set_disconnected (wrap usize (disconnected_peers db + 1)) db))
      | Unknown | Connected _ _ | Dialing _ =>
          (None,
           set_peer p (set_connection_status (Disconnected now) i1)
             (set_disconnected (wrap usize (disconnected_peers db + 1)) db))
      end
  | NewDisconnecting to_ban =>
      let db1 := match connection_status i with
        | Disconnected _ => set_disconnected (saturating_sub (disconnected_peers db) 1) db
        | _ => db
        end in
      (None, set_peer p (set_connection_status (Disconnecting to_ban) i) db1)
  | NewBanned =>
      match connection_status i with
      | Disconnected _ =>
          let i1 := set_connection_status (Banned now) i in
          let b := add_banned_peer (seen_ip_addresses i1) (banned_peers_count db) in
          (Some (ReadyToBan (known_banned b i1)),
           set_peer p i1 (set_disconnected (saturating_sub (disconnected_peers db) 1)
             (set_banned_count b db)))
      | Disconnecting _ =>
          (Some PeerDisconnecting, set_peer p (set_connection_status (Disconnecting true) i) db)
      | Banned _ =>
          (Some (ReadyToBan (known_banned (banned_peers_count db) i)), set_peer p i db)
      | Connected _ _ | Dialing _ =>
          (Some DisconnectThePeer, set_peer p (set_connection_status (Disconnecting true) i) db)
      | Unknown =>
          let b := add_banned_peer (seen_ip_addresses i) (banned_peers_count db) in
          let i1 := set_connection_status (Banned now) i in
          (Some (ReadyToBan (known_banned b i1)), set_peer p i1 (set_banned_count b db))
      end
  | NewUnbanned =>
      match connection_status i with
      | Banned since =>
          let i1 := set_connection_status (Disconnected since) i in
          (None,
           set_peer p i1
             (set_disconnected (saturating_add (disconnected_peers db) 1)
               (set_banned_count
                 (remove_banned_peer (seen_ip_addresses i1) (banned_peers_count db)) db)))
      | _ => (None, set_peer p i db)
      end
  end.

(** ** Dialing, connecting and disconnecting *)

Definition dialing_peer (now : Instant) (p : PeerId) (e : option Enr) (db : PeerDB) : PeerDB :=
  (update_connection_state now p (NewDialing e) db).2.
Definition db_connect_ingoing (now : Instant) (p : PeerId) (seen : Multiaddr) (e : option Enr)
    (db : PeerDB) : PeerDB :=
  (update_connection_state now p (NewConnected e seen Incoming) db).2.
Definition db_connect_outgoing (now : Instant) (p : PeerId) (seen : Multiaddr) (e : option Enr)
    (db : PeerDB) : PeerDB :=
  (update_connection_state now p (NewConnected e seen Outgoing) db).2.
Definition notify_disconnecting (now : Instant) (p : PeerId) (to_ban : bool) (db : PeerDB) : PeerDB :=
  (update_connection_state now p (NewDisconnecting to_ban) db).2.

Definition update_min_ttl (now : Instant) (p : PeerId) (ttl : Instant) (db : PeerDB) : PeerDB :=
  let i := default (PeerInfo_default now) (peers db !! p) in
  let i1 := match min_ttl i with
    | None => set_min_ttl ttl i
    | Some old => if old <? ttl then set_min_ttl ttl i else i
    end in
  set_peer p i1 db.

(** ** Scores *)

Definition handle_score_transition (previous_state : ScoreState) (i : PeerInfo)
  : ScoreTransitionResult :=
  match score_state i, previous_state with
  | StBanned, StHealthy | StBanned, StDisconnected => TrBanned
  | StDisconnected, StBanned | StDisconnected, StHealthy =>
      if is_connected_or_dialing i then TrDisconnected
      else match previous_state with StBanned => TrUnbanned | _ => TrNoAction end
  | StHealthy, StDisconnected => TrNoAction
  | StHealthy, StBanned => TrUnbanned
  | StHealthy, StHealthy => TrNoAction
  | StDisconnected, StDisconnected => TrNoAction
  | StBanned, StBanned => TrNoAction
  end.

(** The addresses of a peer that are not banned. *)
Definition unbanned_addresses (db : PeerDB) (p : PeerId) : list IpAddr :=
  match peers db !! p with
  | Some i => filter (fun ip => is_ip_banned db ip = false) (seen_ip_addresses i)
  | None => []
  end.

Definition report_peer (now : Instant) (p : PeerId) (action : PeerAction) (db : PeerDB)
  : ScoreUpdateResult * PeerDB :=
  match peers db !! p with
  | Some i =>
      let previous_state := score_state i in
      let i1 := apply_peer_action_to_score action i in
      let db1 := set_peer p i1 db in
      match handle_score_transition previous_state i1 with
      | TrBanned =>
          let '(op, db2) := update_connection_state now p NewBanned db1 in
          (ScoreUpdateResult_from op, db2)
      | TrDisconnected =>
          (UpdDisconnect, (update_connection_state now p (NewDisconnecting false) db1).2)
      | TrNoAction => (UpdNoAction, db1)
      | TrUnbanned => (UpdNoAction, db1)
      end
  | None => (UpdNoAction, db)
  end.

(** The second loop of [update_scores]. *)
Fixpoint unban_all (now : Instant) (to_unban : list PeerId) (db : PeerDB)
  : list (PeerId * ScoreUpdateResult) * PeerDB :=
  match to_unban with
  | [] => ([], db)
  | p :: ps =>
      let db1 := (update_connection_state now p NewUnbanned db).2 in
      let '(rest, db2) := unban_all now ps db1 in
      ((p, UpdUnbanned (unbanned_addresses db1 p)) :: rest, db2)
  end.

Section updates.
Context `{!MapIter PeerId PeerInfo}.

(** [clock p] is the clock reading when the score of [p] is updated. *)
Definition update_scores (clock : PeerId -> Instant) (now : Instant) (db : PeerDB)
  : list (PeerId * ScoreUpdateResult) * PeerDB :=
  let peers_to_unban := omap (fun e =>
    match handle_score_transition (score_state e.2) (score_update (clock e.1) e.2) with
    | TrUnbanned => Some e.1
    | _ => None
    end) (map_iter (peers db)) in
  let db1 := mkPeerDB (map_imap (fun p i => Some (score_update (clock p) i)) (peers db))
    (disconnected_peers db) (banned_peers_count db) (disable_peer_scoring db) in
  unban_all now peers_to_unban db1.

(** The loop over the connected peers with a gossipsub score, best first. *)
Fixpoint gossip_pass (now : Instant) (entries : list (PeerId * f64)) (to_ignore : Z)
    (ps : gmap PeerId PeerInfo) : list (PeerId * ScoreTransitionResult) * gmap PeerId PeerInfo :=
  match entries with
  | [] => ([], ps)
  | (p, s) :: entries' =>
      match ps !! p with
      | Some i =>
          let previous_state := score_state i in
          let ignore := f64_lt s (f64_of_Z 0) && (0 <? to_ignore) in
          let i1 := info_update_gossipsub_score now s ignore i in
          let '(acts, ps') :=
            gossip_pass now entries' (if ignore then to_ignore - 1 else to_ignore)
              (<[p := i1]> ps) in
          ((p, handle_score_transition previous_state i1) :: acts, ps')
      | None => gossip_pass now entries' to_ignore ps
      end
  end.

(** The loop over the resulting actions. *)
Fixpoint gossip_actions (now : Instant) (actions : list (PeerId * ScoreTransitionResult))
    (db : PeerDB) : list (PeerId * ScoreUpdateResult) * PeerDB :=
  match actions with
  | [] => ([], db)
  | (p, action) :: actions' =>
      let '(result, db1) :=
        match action with
        | TrBanned =>
            let '(op, db1) := update_connection_state now p NewBanned db in
            (ScoreUpdateResult_from op, db1)
        | TrDisconnected =>
            (UpdDisconnect, (update_connection_state now p (NewDisconnecting false) db).2)
        | TrNoAction => (UpdNoAction, db)
        | TrUnbanned =>
            let db1 := (update_connection_state now p NewUnbanned db).2 in
            (UpdUnbanned (unbanned_addresses db1 p), db1)
        end in
      let '(results, db2) := gossip_actions now actions' db1 in
      (match result with UpdNoAction => results | _ => (p, result) :: results end, db2)
  end.

(** The number of negative gossipsub scores to ignore. *)
Definition negative_allowance (target_peers : Z) : Z :=
  f32_ceil_usize (f32_mul (f32_of_Z target_peers) ALLOWED_NEGATIVE_GOSSIPSUB_FACTOR).

(** [peer_score] is [gossipsub.peer_score], [sort] the descending unstable sort
    by score. *)
Definition update_gossipsub_scores (now : Instant) (target_peers : Z)
    (peer_score : PeerId -> option f64)
    (sort : list (PeerId * f64) -> list (PeerId * f64)) (db : PeerDB)
  : list (PeerId * ScoreUpdateResult) * PeerDB :=
  let entries := omap (fun e => (fun s => (e.1, s)) <$> peer_score e.1)
    (filter (fun e => is_connected e.2 = true) (map_iter (peers db))) in
  let '(actions, ps) :=
    gossip_pass now (sort entries) (negative_allowance target_peers) (peers db) in
  gossip_actions now actions
    (mkPeerDB ps (disconnected_peers db) (banned_peers_count db) (disable_peer_scoring db)).

(** [cleanup_dialing_peers]: the peers that have been dialed for too long. *)
Definition stale_dials (now : Instant) (db : PeerDB) : list PeerId :=
  peers_with (fun i => match connection_status i with
    | Dialing since => since + from_secs DIAL_TIMEOUT <? now
    | _ => false
    end) db.

Definition cleanup_dialing_peers (now : Instant) (db : PeerDB) : PeerDB :=
  foldl (fun db p => (update_connection_state now p NewDisconnected db).2) db (stale_dials now db).

(** ** Pruning *)

(** The oldest banned peer, and the oldest disconnected peer that is not
    trusted. *)
Definition oldest_banned (db : PeerDB) : option (PeerId * PeerInfo) :=
  (fun e => (e.1.1, e.1.2)) <$> min_by_key snd (omap (fun e =>
    match connection_status e.2 with Banned since => Some (e, since) | _ => None end)
    (map_iter (peers db))).

Definition oldest_disconnected (db : PeerDB) : option PeerId :=
  fst <$> min_by_key snd (omap (fun e =>
    match connection_status e.2 with Disconnected since => Some (e.1, since) | _ => None end)
    (filter (fun e => is_disconnected e.2 && negb (is_trusted e.2) = true) (map_iter (peers db)))).

Definition remove_peer (p : PeerId) (db : PeerDB) : PeerDB :=
  mkPeerDB (delete p (peers db)) (disconnected_peers db) (banned_peers_count db)
    (disable_peer_scoring db).

(** [while banned_peers > MAX_BANNED_PEERS]. *)
Fixpoint shrink_banned (fuel : nat) (db : PeerDB) : list (PeerId * list IpAddr) * PeerDB :=
  match fuel with
  | O => ([], db)
  | S fuel' =>
      if MAX_BANNED_PEERS <? banned_peers (banned_peers_count db) then
        match oldest_banned db with
        | Some (p, i) =>
            let db1 := set_banned_count
              (remove_banned_peer (seen_ip_addresses i) (banned_peers_count db)) db in
            let unbanned_ips := filter (fun ip => is_ip_banned db1 ip = false) (seen_ip_addresses i) in
            let '(rest, db2) := shrink_banned fuel' (remove_peer p db1) in
            ((p, unbanned_ips) :: rest, db2)
        | None => shrink_banned fuel' (set_banned_count BannedPeersCount_default db)
        end
      else ([], db)
  end.

(** [while disconnected_peers > MAX_DC_PEERS]. *)
Fixpoint shrink_disconnected (fuel : nat) (db : PeerDB) : PeerDB :=
  match fuel with
  | O => db
  | S fuel' =>
      if MAX_DC_PEERS <? disconnected_peers db then
        let db1 := match oldest_disconnected db with Some p => remove_peer p db | None => db end in
        shrink_disconnected fuel' (set_disconnected (saturating_sub (disconnected_peers db1) 1) db1)
      else db
  end.

Definition shrink_to_fit (db : PeerDB) : list (PeerId * list IpAddr) * PeerDB :=
  let '(unbanned_peers, db1) :=
    shrink_banned (Z.to_nat (banned_peers (banned_peers_count db))) db in
  (unbanned_peers, shrink_disconnected (Z.to_nat (disconnected_peers db1)) db1).

Definition inject_disconnect (now : Instant) (p : PeerId) (db : PeerDB)
  : option BanOperation * list (PeerId * list IpAddr) * PeerDB :=
  let '(maybe_ban_op, db1) := update_connection_state now p NewDisconnected db in
  let '(purged_peers, db2) := shrink_to_fit db1 in
  (maybe_ban_op, purged_peers, db2).
End updates.
End peerdb.
