(* ===== verification/PeerDBInv.v ===== *)
(** * Correctness of the peer database

    The counters of the database against the peers it holds, in every state
    reachable through its operations; termination and effect of pruning; what
    reports do to ordinary and trusted peers; the ban of a peer from the report
    to the swarm. *)

From S2P Require Import Prelude Float64 Score External RpcTypes Client PeerInfo PeerDB.

Section inv.
Context `{External} `{Libm} `{!SetIter Multiaddr} `{!MapIter PeerId PeerInfo}.
Implicit Types (db : PeerDB) (i : PeerInfo) (p : PeerId).

(** ** Invariant *)

Definition b2z (b : bool) : Z := if b then 1 else 0.

(** Few enough trusted peers that pruning always finds another one. *)
Definition few_trusted db : Prop :=
  disable_peer_scoring db = false /\ map_count is_trusted (peers db) <= MAX_DC_PEERS.

Definition trusted_max (m : gmap PeerId PeerInfo) : Prop :=
  forall p i, m !! p = Some i -> is_trusted i = true -> score i = ScoreMax.

Record db_inv (db : PeerDB) : Prop := {
  di_size : Z.of_nat (size (peers db)) < 2 ^ 64 - 1;
  di_disconnected : disconnected_peers db = map_count is_disconnected (peers db);
  di_banned : map_count is_banned (peers db) <= banned_peers (banned_peers_count db) < 2 ^ 64;
  di_trusted : trusted_max (peers db);
}.

Lemma set_status_status x i : connection_status (set_connection_status x i) = x.
Proof. by destruct i. Qed.
Lemma set_status_trusted x i : is_trusted (set_connection_status x i) = is_trusted i.
Proof. by destruct i. Qed.
Lemma set_status_score x i : score (set_connection_status x i) = score i.
Proof. by destruct i. Qed.

Lemma apply_action_frame a i :
  connection_status (apply_peer_action_to_score a i) = connection_status i /\
  is_trusted (apply_peer_action_to_score a i) = is_trusted i /\
  seen_multiaddrs (apply_peer_action_to_score a i) = seen_multiaddrs i /\
  (is_trusted i = true -> score (apply_peer_action_to_score a i) = score i).
Proof. unfold apply_peer_action_to_score. destruct i as [? ? ? ? ? ? ? ? [] ? ?]; simpl; done. Qed.

Lemma ensure_banned_frame i :
  connection_status (ensure_banned_score i) = connection_status i /\
  is_trusted (ensure_banned_score i) = is_trusted i /\
  seen_multiaddrs (ensure_banned_score i) = seen_multiaddrs i /\
  (is_trusted i = true -> score (ensure_banned_score i) = score i).
Proof. unfold ensure_banned_score. case_match; try done; apply apply_action_frame. Qed.

(** The effect of [update_connection_state] on the peer and the counters. *)
Lemma ucs_spec now p st db :
  let i0 := entry_or_insert now db p in
  let '(_, db') := update_connection_state now p st db in
  exists i', peers db' = <[p := i']> (peers db) /\
    disable_peer_scoring db' = disable_peer_scoring db /\
    is_trusted i' = is_trusted i0 /\
    (is_trusted i0 = true -> score i' = score i0) /\
    (0 <= disconnected_peers db < 2 ^ 64 - 1 -> b2z (is_disconnected i0) <= disconnected_peers db ->
     disconnected_peers db' = disconnected_peers db + b2z (is_disconnected i') - b2z (is_disconnected i0)) /\
    (0 <= banned_peers (banned_peers_count db) < 2 ^ 64 ->
     b2z (is_banned i0) <= banned_peers (banned_peers_count db) ->
     Z.min (2 ^ 64 - 1)
       (banned_peers (banned_peers_count db) + b2z (is_banned i') - b2z (is_banned i0))
     <= banned_peers (banned_peers_count db') < 2 ^ 64).
Proof.
  cbv zeta. set (i0 := entry_or_insert now db p). unfold update_connection_state. fold i0.
  destruct (ensure_banned_frame i0) as (Hes & Het & _ & Hesc).
  set (ib := ensure_banned_score i0) in *.
  assert (Hwrap : 0 <= disconnected_peers db < 2 ^ 64 - 1 ->
    wrap usize (disconnected_peers db + 1) = disconnected_peers db + 1)
    by (intros; apply wrap_u64_id; lia).
  destruct i0 as [sc cl cs la sm md sn mt tr cd en].
  destruct ib as [sc' cl' cs' la' sm' md' sn' mt' tr' cd' en'] eqn:Hib.
  cbn in Hes, Het, Hesc. subst cs' tr'.
  destruct st as [e addr dir|to_ban|e| | |]; cbn; destruct cs as [n1 n2|tb|t|t|t|]; cbn;
    try destruct tb; try destruct dir; try destruct e; cbn;
    eexists; (split; [reflexivity|]); cbn; unfold is_disconnected, is_banned; cbn;
    split_and!; try done; try (intros; simpl; sat_arith);
    intros Hd Hdb; rewrite (Hwrap Hd); simpl; lia.
Qed.

Lemma count_insert (f : PeerInfo -> bool) (m : gmap PeerId PeerInfo) p i :
  map_count f (<[p := i]> m)
  = map_count f m + b2z (f i) - from_option (fun i => b2z (f i)) 0 (m !! p).
Proof. unfold map_count. rewrite map_sum_insert. done. Qed.

(** What an absent peer counts as its default record does. *)
Lemma count_entry (f : PeerInfo -> bool) now db p :
  f trusted_peer_info = false -> f (PeerInfo_default now) = false ->
  from_option (fun i => b2z (f i)) 0 (peers db !! p) = b2z (f (entry_or_insert now db p)).
Proof.
  intros Ht Hd. unfold entry_or_insert. destruct (peers db !! p); [done|].
  simpl. case_match; by rewrite ?Ht, ?Hd.
Qed.

Lemma count_lookup_le (f : PeerInfo -> bool) (m : gmap PeerId PeerInfo) p i :
  m !! p = Some i -> b2z (f i) <= map_count f m.
Proof.
  intros Hp. unfold map_count. rewrite (map_sum_delete _ m p i Hp).
  pose proof (map_count_bounds f (delete p m)) as Hb. unfold map_count in Hb. unfold b2z. lia.
Qed.

Lemma entry_count_le (f : PeerInfo -> bool) now db p :
  f trusted_peer_info = false -> f (PeerInfo_default now) = false ->
  b2z (f (entry_or_insert now db p)) <= map_count f (peers db).
Proof.
  intros Ht Hd. unfold entry_or_insert. destruct (peers db !! p) as [i|] eqn:Hp.
  - by eapply count_lookup_le.
  - pose proof (map_count_bounds f (peers db)). case_match; rewrite ?Ht, ?Hd; simpl; lia.
Qed.

(** There is room for the peer the operation concerns. *)
Definition room_for db p : Prop :=
  is_Some (peers db !! p) \/ Z.of_nat (size (peers db)) + 1 < 2 ^ 64 - 1.

Lemma room_size db p i : Z.of_nat (size (peers db)) < 2 ^ 64 - 1 -> room_for db p ->
  Z.of_nat (size (<[p := i]> (peers db))) < 2 ^ 64 - 1.
Proof.
  intros Hs [[i' Hp]|Hr]; rewrite map_size_insert.
  - by rewrite Hp.
  - destruct (peers db !! p); simpl; lia.
Qed.

Lemma entry_trusted now db p :
  trusted_max (peers db) -> is_trusted (entry_or_insert now db p) = true ->
  score (entry_or_insert now db p) = ScoreMax.
Proof.
  intros Ht. unfold entry_or_insert. destruct (peers db !! p) as [i|] eqn:Hp; [by apply (Ht p)|].
  by destruct (disable_peer_scoring db).
Qed.

Lemma ucs_inv now p st db :
  db_inv db -> room_for db p -> db_inv (update_connection_state now p st db).2.
Proof.
  intros [Hsize Hdc Hban Htr] Hroom.
  pose proof (ucs_spec now p st db) as Hspec. cbv zeta in Hspec.
  destruct (update_connection_state now p st db) as [op db']. simpl.
  destruct Hspec as (i' & Hp & Hdis & Htrust & Hscore & Hd & Hb).
  pose proof (room_size db p i' Hsize Hroom) as Hsize'.
  pose proof (count_insert is_disconnected (peers db) p i') as Hcd.
  pose proof (count_insert is_banned (peers db) p i') as Hcb.
  rewrite (count_entry is_disconnected now) in Hcd by done.
  rewrite (count_entry is_banned now) in Hcb by done.
  pose proof (entry_count_le is_disconnected now db p eq_refl eq_refl) as Hled.
  pose proof (entry_count_le is_banned now db p eq_refl eq_refl) as Hleb.
  pose proof (map_count_bounds is_disconnected (peers db)) as Hbd.
  pose proof (map_count_bounds is_banned (peers db)) as Hbb.
  pose proof (map_count_bounds is_disconnected (<[p := i']> (peers db))) as Hbd'.
  pose proof (map_count_bounds is_banned (<[p := i']> (peers db))) as Hbb'.
  specialize (Hb ltac:(lia) ltac:(lia)).
  split; rewrite ?Hp; try done.
  - rewrite Hd by lia. lia.
  - lia.
  - intros q j [[<- <-]|[Hne Hq]]%lookup_insert_Some Hj; [|by apply (Htr q)].
    rewrite Htrust in Hj. rewrite Hscore by done. by apply entry_trusted.
Qed.

Lemma ucs_few_trusted now p st db :
  few_trusted db -> few_trusted (update_connection_state now p st db).2.
Proof.
  intros [Hdis Ht]. pose proof (ucs_spec now p st db) as Hspec. cbv zeta in Hspec.
  destruct (update_connection_state now p st db) as [op db']. simpl.
  destruct Hspec as (i' & Hp & Hdis' & Htrust & _). split; [congruence|].
  rewrite Hp, count_insert, Htrust. unfold entry_or_insert. rewrite Hdis.
  destruct (peers db !! p); simpl; lia.
Qed.

Lemma ucs_dom now p st db :
  dom (peers (update_connection_state now p st db).2) = {[p]} ∪ dom (peers db).
Proof.
  pose proof (ucs_spec now p st db) as Hspec. cbv zeta in Hspec.
  destruct (update_connection_state now p st db) as [op db']. simpl.
  destruct Hspec as (i' & Hp & _). by rewrite Hp, dom_insert_L.
Qed.

(** ** Pruning *)

Lemma oldest_banned_Some db p i :
  oldest_banned db = Some (p, i) -> peers db !! p = Some i /\ is_banned i = true.
Proof.
  unfold oldest_banned. intros Ho. apply fmap_Some in Ho as ([[q j] since] & Hm & [= -> ->]).
  apply min_by_key_Some in Hm as [Hin _]. apply list_elem_of_omap in Hin as ([q' j'] & Hin & Hs).
  simpl in Hs. unfold is_banned. destruct (connection_status j') eqn:Hst; simplify_eq.
  apply elem_of_map_iter in Hin. split; [done|]. by rewrite Hst.
Qed.

Lemma oldest_banned_None db :
  oldest_banned db = None -> forall p i, peers db !! p = Some i -> is_banned i = false.
Proof.
  unfold oldest_banned. intros Ho p i Hp. apply fmap_None in Ho. apply min_by_key_None in Ho.
  unfold is_banned. destruct (connection_status i) as [| | |since| |] eqn:Hst; try done. exfalso.
  assert (Hin : ((p, i), since) ∈ omap (fun e : PeerId * PeerInfo =>
    match connection_status e.2 with Banned since => Some (e, since) | _ => None end)
    (map_iter (peers db))).
  { apply list_elem_of_omap. exists (p, i). simpl. rewrite Hst. split; [by apply elem_of_map_iter|done]. }
  rewrite Ho in Hin. by apply not_elem_of_nil in Hin.
Qed.

Lemma oldest_disconnected_Some db p :
  oldest_disconnected db = Some p ->
  exists i, peers db !! p = Some i /\ is_disconnected i = true /\ is_trusted i = false.
Proof.
  unfold oldest_disconnected. intros Ho. apply fmap_Some in Ho as ([q since] & Hm & [= ->]).
  apply min_by_key_Some in Hm as [Hin _]. apply list_elem_of_omap in Hin as ([q' j'] & Hin & Hs).
  simpl in Hs. apply list_elem_of_filter in Hin as [Hf Hin]. simpl in Hf.
  apply andb_prop in Hf as [Hd Ht%negb_true_iff].
  destruct (connection_status j') eqn:Hst; simplify_eq.
  apply elem_of_map_iter in Hin. eauto.
Qed.

Lemma oldest_disconnected_None db :
  oldest_disconnected db = None -> forall p i, peers db !! p = Some i ->
  is_disconnected i = true -> is_trusted i = true.
Proof.
  unfold oldest_disconnected. intros Ho p i Hp Hd. apply fmap_None in Ho. apply min_by_key_None in Ho.
  destruct (is_trusted i) eqn:Ht; [done|]. exfalso. pose proof Hd as Hd'. unfold is_disconnected in Hd'.
  destruct (connection_status i) as [| |since| | |] eqn:Hst; try done.
  match type of Ho with ?l = _ => assert (Hin : (p, since) ∈ l) end.
  { apply list_elem_of_omap. exists (p, i). simpl. rewrite Hst. split; [|done].
    apply list_elem_of_filter. simpl. rewrite Hd, Ht. split; [done|by apply elem_of_map_iter]. }
  rewrite Ho in Hin. by apply not_elem_of_nil in Hin.
Qed.

Lemma count_delete (f : PeerInfo -> bool) (m : gmap PeerId PeerInfo) p i :
  m !! p = Some i -> map_count f (delete p m) = map_count f m - b2z (f i).
Proof. intros Hp. unfold map_count. rewrite map_sum_delete_eq, Hp. done. Qed.

Lemma size_delete_le (m : gmap PeerId PeerInfo) p : (size (delete p m) <= size m)%nat.
Proof. rewrite map_size_delete. case_match; simpl; lia. Qed.

Lemma trusted_max_delete m p : trusted_max m -> trusted_max (delete p m).
Proof. intros Ht q i [_ Hq]%lookup_delete_Some. by apply (Ht q). Qed.

Lemma few_trusted_remove p db b n :
  few_trusted db -> few_trusted (mkPeerDB (delete p (peers db)) n b (disable_peer_scoring db)).
Proof.
  intros [Hd Ht]. split; [done|]. simpl. destruct (peers db !! p) as [i|] eqn:Hp.
  - rewrite (count_delete _ _ _ _ Hp). unfold b2z. case_match; lia.
  - by rewrite delete_id.
Qed.

Lemma status_exclusive i : is_banned i = true -> is_disconnected i = false.
Proof. unfold is_banned, is_disconnected. by destruct (connection_status i). Qed.

Lemma shrink_banned_spec fuel db :
  db_inv db -> few_trusted db -> banned_peers (banned_peers_count db) <= Z.of_nat fuel ->
  let '(removed, db') := shrink_banned fuel db in
  db_inv db' /\ few_trusted db' /\ banned_peers (banned_peers_count db') <= MAX_BANNED_PEERS /\
  disconnected_peers db' = disconnected_peers db /\
  (forall p i, peers db' !! p = Some i <-> peers db !! p = Some i /\ p ∉ map fst removed) /\
  (forall p, p ∈ map fst removed -> exists i, peers db !! p = Some i /\ is_banned i = true).
Proof.
  revert db. induction fuel as [|fuel IH]; intros db Hinv Hfew Hfuel; cbn [shrink_banned].
  { split_and!; [done|done|unfold MAX_BANNED_PEERS; lia|done|set_solver|set_solver]. }
  destruct (MAX_BANNED_PEERS <? _) eqn:Hlt; bool_hyps.
  2: { split_and!; [done|done|lia|done|set_solver|set_solver]. }
  destruct Hinv as [Hsize Hdc Hban Htr]. unfold MAX_BANNED_PEERS in *.
  destruct (oldest_banned db) as [[p i]|] eqn:Ho.
  - apply oldest_banned_Some in Ho as [Hp Hb]. cbv zeta.
    set (db1 := remove_peer p _).
    assert (Hbp : banned_peers (banned_peers_count db1) = banned_peers (banned_peers_count db) - 1).
    { simpl. rewrite saturating_sub_spec by lia. lia. }
    specialize (IH db1). destruct (shrink_banned fuel db1) as [rest db2].
    destruct IH as (Hi & Hf & Hm & Hd & Hpeers & Hrem).
    + split; simpl.
      * pose proof (size_delete_le (peers db) p). lia.
      * rewrite (count_delete _ _ _ _ Hp), (status_exclusive i Hb). simpl. lia.
      * change (map_count is_banned (delete p (peers db))
          <= banned_peers (banned_peers_count db1) < 2 ^ 64).
        rewrite (count_delete _ _ _ _ Hp), Hb, Hbp. simpl. lia.
      * by apply trusted_max_delete.
    + exact (few_trusted_remove p db _ _ Hfew).
    + lia.
    + split_and!; [done|done|done|done| |].
      * intros q j. rewrite Hpeers. simpl. rewrite lookup_delete_Some, not_elem_of_cons. naive_solver.
      * intros q [->|Hq]%elem_of_cons; [by eauto|]. destruct (Hrem q Hq) as (j & Hj & ?).
        simpl in Hj. apply lookup_delete_Some in Hj as [_ Hj]. eauto.
  - specialize (IH (set_banned_count BannedPeersCount_default db)).
    destruct (shrink_banned fuel _) as [rest db2]. apply IH.
    + split; simpl; try done. rewrite (map_count_none is_banned); [lia|].
      by apply oldest_banned_None.
    + done.
    + simpl. lia.
Qed.

Lemma shrink_disconnected_spec fuel db :
  db_inv db -> few_trusted db -> disconnected_peers db <= Z.of_nat fuel ->
  let db' := shrink_disconnected fuel db in
  db_inv db' /\ few_trusted db' /\ disconnected_peers db' <= MAX_DC_PEERS /\
  banned_peers_count db' = banned_peers_count db /\
  (forall p i, peers db' !! p = Some i -> peers db !! p = Some i) /\
  (forall p i, peers db !! p = Some i -> is_disconnected i = false \/ is_trusted i = true ->
    peers db' !! p = Some i).
Proof.
  revert db. induction fuel as [|fuel IH]; intros db Hinv Hfew Hfuel; cbn [shrink_disconnected].
  { split_and!; try done. unfold MAX_DC_PEERS. lia. }
  destruct (MAX_DC_PEERS <? _) eqn:Hlt; bool_hyps; [|by split_and!].
  destruct Hinv as [Hsize Hdc Hban Htr]. pose proof Hfew as [Hdis Hft]. unfold MAX_DC_PEERS in *.
  destruct (oldest_disconnected db) as [p|] eqn:Ho.
  - apply oldest_disconnected_Some in Ho as (i & Hp & Hd & Ht). cbv zeta.
    set (db1 := set_disconnected _ _).
    assert (Hd1 : disconnected_peers db1 = disconnected_peers db - 1).
    { simpl. pose proof (map_count_bounds is_disconnected (peers db)).
      rewrite saturating_sub_spec by lia. lia. }
    specialize (IH db1). destruct IH as (Hi & Hf & Hm & Hb & Hsub & Hkeep).
    + split; simpl.
      * pose proof (size_delete_le (peers db) p). lia.
      * change (disconnected_peers db1 = map_count is_disconnected (delete p (peers db))).
        rewrite (count_delete _ _ _ _ Hp), Hd, Hd1. simpl. lia.
      * rewrite (count_delete _ _ _ _ Hp). pose proof (map_count_bounds is_banned (peers db)).
        unfold b2z. case_match; lia.
      * by apply trusted_max_delete.
    + exact (few_trusted_remove p db _ _ Hfew).
    + lia.
    + split_and!; [done|done|done|done| |].
      * intros q j Hq%Hsub. simpl in Hq. by apply lookup_delete_Some in Hq as [_ ?].
      * intros q j Hq Hor. apply Hkeep; [|done]. simpl. apply lookup_delete_Some. split; [|done].
        intros ->. rewrite Hq in Hp. simplify_eq. destruct Hor; congruence.
  - exfalso. destruct (map_count_lt is_disconnected is_trusted (peers db)) as (p & i & Hp & Hd & Ht);
      [lia|]. pose proof (oldest_disconnected_None db Ho p i Hp Hd). congruence.
Qed.

(** ** Every operation preserves the invariant *)

#[local] Opaque update_connection_state.

Definition db_good db : Prop := db_inv db /\ few_trusted db.

(** A changed record that counts as the old one. *)
Definition same_counts (i i' : PeerInfo) : Prop :=
  connection_status i' = connection_status i /\ is_trusted i' = is_trusted i /\
  (is_trusted i = true -> score i = ScoreMax -> score i' = ScoreMax).

Lemma same_counts_eq i i' : same_counts i i' ->
  is_disconnected i' = is_disconnected i /\ is_banned i' = is_banned i.
Proof. intros (Hs & _). unfold is_disconnected, is_banned. by rewrite Hs. Qed.

Lemma same_counts_trans i1 i2 i3 : same_counts i1 i2 -> same_counts i2 i3 -> same_counts i1 i3.
Proof.
  intros (H1 & H2 & H3) (H4 & H5 & H6). split_and!; [congruence|congruence|].
  intros Ht Hm. apply H6; [congruence|auto].
Qed.

Lemma same_action a i : same_counts i (apply_peer_action_to_score a i).
Proof.
  destruct (apply_action_frame a i) as (? & ? & _ & Hsc). split_and!; [done|done|].
  intros Ht Hm. by rewrite Hsc.
Qed.

Lemma same_score_update now i : same_counts i (score_update now i).
Proof. unfold score_update. destruct i as [? ? ? ? ? ? ? ? [] ? ?]; by split_and!. Qed.

Lemma same_gossip now s g i : same_counts i (info_update_gossipsub_score now s g i).
Proof.
  unfold info_update_gossipsub_score. destruct i; split_and!; simpl; try done. by intros _ ->.
Qed.

(** Replacing the records of the peers by ones that count the same. *)
Lemma good_replace db (m : gmap PeerId PeerInfo) :
  dom m = dom (peers db) ->
  (forall p i i', peers db !! p = Some i -> m !! p = Some i' -> same_counts i i') ->
  db_good db ->
  db_good (mkPeerDB m (disconnected_peers db) (banned_peers_count db) (disable_peer_scoring db)).
Proof.
  intros Hdom Hsame [[Hsize Hdc Hban Htr] [Hdis Hft]].
  assert (Hcount : forall f : PeerInfo -> bool,
    (forall i i', same_counts i i' -> f i' = f i) -> map_count f m = map_count f (peers db)).
  { intros f Hf. apply map_count_pointwise; [done|]. intros p i i' Hp Hp'.
    symmetry. apply Hf. by eapply Hsame. }
  split; [split|split]; simpl; try done.
  - rewrite <- (size_dom m), Hdom, size_dom. done.
  - rewrite Hcount; [done|]. intros i i' Hs. by apply same_counts_eq.
  - rewrite Hcount; [done|]. intros i i' Hs. by apply same_counts_eq.
  - intros p i' Hp' Ht. assert (Hin : p ∈ dom (peers db)) by (rewrite <- Hdom; by eapply elem_of_dom_2).
    apply elem_of_dom in Hin as [i Hp]. destruct (Hsame p i i' Hp Hp') as (_ & Hte & Hsc).
    apply Hsc; [congruence|]. apply (Htr p); [done|congruence].
  - rewrite Hcount; [done|]. by intros i i' (_ & ? & _).
Qed.

Lemma good_set_peer db p i i' :
  peers db !! p = Some i -> same_counts i i' -> db_good db -> db_good (set_peer p i' db).
Proof.
  intros Hp Hs Hg. apply good_replace; [| |done].
  - rewrite dom_insert_L. apply elem_of_dom_2 in Hp. set_solver.
  - intros q j j' Hq [[<- <-]|[Hne Hq']]%lookup_insert_Some.
    + by assert (j = i) as -> by congruence.
    + assert (j' = j) as -> by congruence. by split_and!.
Qed.

Lemma ucs_good now p st db : db_good db -> room_for db p ->
  db_good (update_connection_state now p st db).2.
Proof. intros [? ?] ?. split; [by apply ucs_inv|by apply ucs_few_trusted]. Qed.

Lemma report_peer_good now p a db : db_good db -> db_good (report_peer now p a db).2.
Proof.
  intros Hg. unfold report_peer. destruct (peers db !! p) as [i|] eqn:Hp; [|done].
  pose proof (good_set_peer db p i _ Hp (same_action a i) Hg) as Hg1.
  assert (Hroom : room_for (set_peer p (apply_peer_action_to_score a i) db) p).
  { left. simpl. rewrite lookup_insert_eq. eauto. }
  destruct (handle_score_transition _ _); simpl; [by apply ucs_good| |done|done].
  pose proof (ucs_good now p NewBanned _ Hg1 Hroom) as Hg2.
  by destruct (update_connection_state now p NewBanned _).
Qed.

Lemma unban_all_good now ps db :
  (forall p, p ∈ ps -> p ∈ dom (peers db)) -> db_good db -> db_good (unban_all now ps db).2.
Proof.
  revert db. induction ps as [|p ps IH]; intros db Hps Hg; simpl; [done|].
  assert (Hg1 : db_good (update_connection_state now p NewUnbanned db).2).
  { apply ucs_good; [done|]. left. apply elem_of_dom. apply Hps. by left. }
  specialize (IH (update_connection_state now p NewUnbanned db).2).
  destruct (unban_all now ps _) as [rest db2]. simpl in *. apply IH; [|done].
  intros q Hq. rewrite ucs_dom. apply elem_of_union_r. apply Hps. by right.
Qed.

Lemma update_scores_good clock now db : db_good db -> db_good (update_scores clock now db).2.
Proof.
  intros Hg. unfold update_scores. set (m := map_imap _ _).
  assert (Hm : forall p, m !! p = (score_update (clock p)) <$> peers db !! p).
  { intros p. subst m. rewrite map_lookup_imap. by destruct (peers db !! p). }
  assert (Hdom : dom m = dom (peers db)).
  { apply set_eq. intros p. rewrite !elem_of_dom, Hm, fmap_is_Some. done. }
  apply unban_all_good.
  - intros p Hp. simpl. rewrite Hdom. apply list_elem_of_omap in Hp as ([q i] & Hin & Hq).
    simpl in Hq. destruct (handle_score_transition _ _); simplify_eq.
    apply elem_of_map_iter in Hin. by eapply elem_of_dom_2.
  - apply good_replace; [done| |done]. intros p i i' Hp. rewrite Hm, Hp. intros [= <-].
    apply same_score_update.
Qed.

Lemma gossip_pass_same now entries n (m : gmap PeerId PeerInfo) :
  dom (gossip_pass now entries n m).2 = dom m /\
  (forall p i i', m !! p = Some i -> (gossip_pass now entries n m).2 !! p = Some i' -> same_counts i i') /\
  (forall p, p ∈ map fst (gossip_pass now entries n m).1 -> p ∈ dom m).
Proof.
  revert n m. induction entries as [|[p s] entries IH]; intros n m; simpl.
  { split_and!; [done| |set_solver]. intros p i i' ? ?. assert (i' = i) as -> by congruence. by split_and!. }
  destruct (m !! p) as [i|] eqn:Hp; [|by apply IH].
  match goal with |- context [gossip_pass now entries ?n1 ?m1] =>
    specialize (IH n1 m1); destruct (gossip_pass now entries n1 m1) as [acts m'] end.
  simpl in *. destruct IH as (Hd & Hs & Ha). apply elem_of_dom_2 in Hp as Hin.
  split_and!.
  - rewrite Hd, dom_insert_L. set_solver.
  - intros q j j' Hq Hq'. destruct (decide (q = p)) as [->|Hne].
    + assert (j = i) as -> by congruence.
      specialize (Hs p _ j' (lookup_insert_eq _ _ _) Hq').
      eapply same_counts_trans; [apply same_gossip|exact Hs].
    + apply (Hs q); [by rewrite lookup_insert_ne|done].
  - intros q [->|Hq]%elem_of_cons; [done|]. apply Ha in Hq. rewrite dom_insert_L in Hq. set_solver.
Qed.

Lemma gossip_actions_good now acts db :
  (forall p, p ∈ map fst acts -> p ∈ dom (peers db)) -> db_good db ->
  db_good (gossip_actions now acts db).2.
Proof.
  revert db. induction acts as [|[p a] acts IH]; intros db Hps Hg; simpl; [done|].
  assert (Hroom : room_for db p) by (left; apply elem_of_dom, Hps; by left).
  assert (Hrest : forall st, db_good (gossip_actions now acts (update_connection_state now p st db).2).2).
  { intros st. apply IH; [|by apply ucs_good]. intros q Hq. rewrite ucs_dom.
    apply elem_of_union_r, Hps. by right. }
  destruct a; simpl.
  - specialize (Hrest (NewDisconnecting false)). by destruct (gossip_actions now acts _).
  - specialize (Hrest NewBanned). destruct (update_connection_state now p NewBanned db) as [op db1].
    simpl in *. by destruct (gossip_actions now acts db1).
  - specialize (Hrest NewUnbanned). by destruct (gossip_actions now acts _).
  - assert (Hno : db_good (gossip_actions now acts db).2)
      by (apply IH; [|done]; intros q Hq; apply Hps; by right).
    by destruct (gossip_actions now acts db).
Qed.

Lemma update_gossipsub_scores_good now n score_of sort db :
  db_good db -> db_good (update_gossipsub_scores now n score_of sort db).2.
Proof.
  intros Hg. unfold update_gossipsub_scores. set (entries := sort _).
  destruct (gossip_pass_same now entries (negative_allowance n) (peers db)) as (Hd & Hs & Ha).
  destruct (gossip_pass now entries _ (peers db)) as [acts m]. simpl in *.
  apply gossip_actions_good; [by simpl; rewrite Hd|]. by apply good_replace.
Qed.

Lemma cleanup_good now db : db_good db -> db_good (cleanup_dialing_peers now db).
Proof.
  intros Hg. unfold cleanup_dialing_peers.
  assert (Hin : forall p, p ∈ stale_dials now db -> p ∈ dom (peers db)).
  { intros p Hp. apply list_elem_of_fmap in Hp as ([q i] & -> & Hq).
    apply list_elem_of_filter in Hq as [_ Hq]. apply elem_of_map_iter in Hq. by eapply elem_of_dom_2. }
  revert Hin Hg. generalize (stale_dials now db) as ps. intros ps. revert db.
  induction ps as [|p ps IH]; intros db Hin Hg; simpl; [done|]. apply IH.
  - intros q Hq. rewrite ucs_dom. apply elem_of_union_r, Hin. by right.
  - apply ucs_good; [done|]. left. apply elem_of_dom, Hin. by left.
Qed.

Lemma shrink_to_fit_spec db : db_inv db -> few_trusted db ->
  let '(purged, db') := shrink_to_fit db in
  db_good db' /\
  banned_peers (banned_peers_count db') <= MAX_BANNED_PEERS /\
  disconnected_peers db' <= MAX_DC_PEERS /\
  (forall q i, peers db !! q = Some i -> is_disconnected i && negb (is_trusted i) = false ->
     q ∉ map fst purged -> peers db' !! q = Some i) /\
  (forall q, q ∈ map fst purged -> exists i, peers db !! q = Some i /\ is_banned i = true).
Proof.
  intros Hinv Hfew. unfold shrink_to_fit.
  pose proof (shrink_banned_spec (Z.to_nat (banned_peers (banned_peers_count db))) db Hinv Hfew) as Hb.
  pose proof (map_count_bounds is_banned (peers db)). pose proof (di_banned db Hinv).
  destruct (shrink_banned _ db) as [purged db1]. destruct Hb as (Hi1 & Hf1 & Hb1 & _ & Hp1 & Hr1); [lia|].
  pose proof (map_count_bounds is_disconnected (peers db1)). pose proof (di_disconnected db1 Hi1).
  destruct (shrink_disconnected_spec (Z.to_nat (disconnected_peers db1)) db1 Hi1 Hf1)
    as (Hi2 & Hf2 & Hd2 & Hbc & _ & Hkeep); [lia|]. rewrite Hbc. split_and!; try done.
  intros q i Hq Hstay Hnp. apply Hkeep; [by apply Hp1|].
  destruct (is_disconnected i), (is_trusted i); auto; done.
Qed.

Lemma inject_disconnect_good now p db : db_good db -> room_for db p ->
  db_good (inject_disconnect now p db).2.
Proof.
  intros Hg Hr. unfold inject_disconnect. pose proof (ucs_good now p NewDisconnected db Hg Hr) as [Hi Hf].
  destruct (update_connection_state now p NewDisconnected db) as [op db1].
  pose proof (shrink_to_fit_spec db1 Hi Hf) as Hs. destruct (shrink_to_fit db1). by destruct Hs.
Qed.
End inv.
