(* ===== verification/PeerDBProps.v ===== *)
(** * Histories of the peer database

    The operations of the database as steps, the states they reach from a new
    database, and the theorems about them: the counters are right, disconnecting
    keeps the database within its limits, reports do what the peer manager
    relies on, trusted peers are left alone, and a fatal report bans a peer for
    twelve hours. Two theorems describe the cases in which the counters
    drift and in which nothing is ever pruned. *)

From S2P Require Import Prelude Float64 Score External RpcTypes Client PeerInfo PeerDB PeerDBInv.

Section histories.
Context `{External} `{Libm} `{!SetIter Multiaddr} `{!MapIter PeerId PeerInfo}.
Implicit Types (db : PeerDB) (i : PeerInfo) (p : PeerId).

(** ** Operations and reachable states *)

(** What the peer manager does to the database. *)
Inductive db_op : Type :=
| OpDialing p (e : option Enr)
| OpConnect p (seen : Multiaddr) (e : option Enr) (d : ConnectionDirection)
| OpDisconnecting p (to_ban : bool)
| OpDisconnect p
| OpReport p (a : PeerAction)
| OpUpdateScores (clock : PeerId -> Instant)
| OpGossip (target_peers : Z) (peer_score : PeerId -> option f64)
    (sort : list (PeerId * f64) -> list (PeerId * f64))
| OpCleanup
| OpMinTtl p (ttl : Instant)
| OpIdentify p (addrs : list Multiaddr) (c : Client)
| OpMetaData p (m : MetaData).

(** A change of a record through [peer_info_mut]. *)
Definition with_info (p : PeerId) (f : PeerInfo -> PeerInfo) (db : PeerDB) : PeerDB :=
  match peers db !! p with Some i => set_peer p (f i) db | None => db end.

Definition db_do (now : Instant) (op : db_op) (db : PeerDB) : PeerDB :=
  match op with
  | OpDialing p e => dialing_peer now p e db
  | OpConnect p a e Incoming => db_connect_ingoing now p a e db
  | OpConnect p a e Outgoing => db_connect_outgoing now p a e db
  | OpDisconnecting p b => notify_disconnecting now p b db
  | OpDisconnect p => (inject_disconnect now p db).2
  | OpReport p a => (report_peer now p a db).2
  | OpUpdateScores clock => (update_scores clock now db).2
  | OpGossip n sc sort => (update_gossipsub_scores now n sc sort db).2
  | OpCleanup => cleanup_dialing_peers now db
  | OpMinTtl p ttl => update_min_ttl now p ttl db
  | OpIdentify p la c => with_info p (fun i => set_client c (set_listening_addresses la i).2) db
  | OpMetaData p m => with_info p (set_meta_data m) db
  end.

(** The peer an operation may add. *)
Definition op_adds (op : db_op) : option PeerId :=
  match op with
  | OpDialing p _ | OpConnect p _ _ _ | OpDisconnecting p _ | OpDisconnect p | OpMinTtl p _ => Some p
  | _ => None
  end.

Definition op_fits (op : db_op) (db : PeerDB) : Prop :=
  match op_adds op with Some p => room_for db p | None => True end.

(** States of a database with scoring enabled. *)
Inductive db_reachable (trusted : list PeerId) : PeerDB -> Prop :=
| reach_new : db_reachable trusted (PeerDB_new trusted false)
| reach_op now op db :
    db_reachable trusted db -> op_fits op db -> db_reachable trusted (db_do now op db).

(** ** The invariant in every reachable state *)

Lemma new_lookup trusted b p i :
  peers (PeerDB_new trusted b) !! p = Some i -> i = trusted_peer_info.
Proof.
  simpl. intros Hp%elem_of_list_to_map_2. by apply list_elem_of_fmap in Hp as (q & [= _ ->] & _).
Qed.

Lemma new_size trusted b : (size (peers (PeerDB_new trusted b)) <= length trusted)%nat.
Proof.
  simpl. induction trusted as [|q l IH]; [done|]. rewrite fmap_cons, list_to_map_cons. simpl.
  rewrite map_size_insert. case_match; simpl; lia.
Qed.

Lemma new_good trusted :
  Z.of_nat (length trusted) <= MAX_DC_PEERS -> db_good (PeerDB_new trusted false).
Proof.
  intros Hlen. pose proof (new_size trusted false) as Hsz. unfold MAX_DC_PEERS in *.
  assert (Hnone : forall f : PeerInfo -> bool, f trusted_peer_info = false ->
    map_count f (peers (PeerDB_new trusted false)) = 0).
  { intros f Hf. apply map_count_none. intros p i Hp%new_lookup. by subst. }
  split; split.
  - lia.
  - by rewrite Hnone.
  - rewrite Hnone by done. simpl. lia.
  - intros p i Hp%new_lookup _. by subst.
  - done.
  - pose proof (map_count_bounds is_trusted (peers (PeerDB_new trusted false))). unfold MAX_DC_PEERS. lia.
Qed.

Lemma with_info_good p f db :
  (forall i, same_counts i (f i)) -> db_good db -> db_good (with_info p f db).
Proof.
  intros Hf Hg. unfold with_info. destruct (peers db !! p) as [i|] eqn:Hp; [|done].
  by eapply good_set_peer.
Qed.

Lemma same_identify la c i : same_counts i (set_client c (set_listening_addresses la i).2).
Proof. by destruct i. Qed.
Lemma same_meta m i : same_counts i (set_meta_data m i).
Proof. by destruct i. Qed.
Lemma same_min_ttl t i : same_counts i (set_min_ttl t i).
Proof. by destruct i. Qed.

(** A new record that counts nowhere. *)
Lemma good_insert db p i :
  peers db !! p = None -> room_for db p ->
  is_disconnected i = false -> is_banned i = false -> is_trusted i = false ->
  db_good db -> db_good (set_peer p i db).
Proof.
  intros Hp Hroom Hd Hb Ht [[Hsize Hdc Hban Htr] [Hdis Hft]].
  assert (Hcount : forall f : PeerInfo -> bool, f i = false ->
    map_count f (<[p := i]> (peers db)) = map_count f (peers db)).
  { intros f Hf. rewrite count_insert, Hp, Hf. simpl. lia. }
  split; split; simpl; rewrite ?Hcount by done; try done.
  - by apply room_size.
  - intros q j [[<- <-]|[_ Hq]]%lookup_insert_Some Hj; [congruence|by apply (Htr q)].
Qed.

Lemma min_ttl_good now p ttl db :
  room_for db p -> db_good db -> db_good (update_min_ttl now p ttl db).
Proof.
  intros Hroom Hg. unfold update_min_ttl. destruct (peers db !! p) as [i|] eqn:Hp; simpl.
  - eapply good_set_peer; [done| |done].
    assert (Hrefl : same_counts i i) by by split_and!.
    case_match; [case_match|]; done || apply same_min_ttl.
  - by apply good_insert.
Qed.

Lemma op_good now op db : op_fits op db -> db_good db -> db_good (db_do now op db).
Proof.
  intros Hfit Hg. destruct op as [p e|p a e []|p b|p|p a|clock|n sc sort| |p ttl|p la c|p m]; simpl.
  1-4: by apply ucs_good.
  - by apply inject_disconnect_good.
  - by apply report_peer_good.
  - by apply update_scores_good.
  - by apply update_gossipsub_scores_good.
  - by apply cleanup_good.
  - by apply min_ttl_good.
  - apply with_info_good; [apply same_identify|done].
  - apply with_info_good; [apply same_meta|done].
Qed.

Lemma reachable_good trusted db :
  Z.of_nat (length trusted) <= MAX_DC_PEERS -> db_reachable trusted db -> db_good db.
Proof. intros Hlen Hr. induction Hr; [by apply new_good|by apply op_good]. Qed.

(** C25: with peer scoring enabled, the counters of the database are right in every
    state reachable through its operations from a database with at most 500 trusted
    peers, as long as each operation that adds a peer finds room for it (fewer than [2^64]
    records): [disconnected_peers] is the number of disconnected peers, the count of
    banned peers is never below the number of banned peers, and a trusted peer
    has the maximal score. With scoring disabled every peer is created as trusted,
    and [disconnected_peers] drifts (see the end of this file). *)
Theorem peerdb_counters trusted db :
  Z.of_nat (length trusted) <= MAX_DC_PEERS -> db_reachable trusted db ->
  disconnected_peers db = map_count is_disconnected (peers db) /\
  map_count is_banned (peers db) <= banned_peers (banned_peers_count db) /\
  (forall p i, peers db !! p = Some i -> is_trusted i = true ->
     score i = ScoreMax /\ ban_status db p <> BanBadScore).
Proof.
  intros Hlen Hr. destruct (reachable_good trusted db Hlen Hr) as [[_ Hd Hb Ht] _].
  split_and!; [done|lia|]. intros p i Hp Hi. pose proof (Ht p i Hp Hi) as Hs. split; [done|].
  unfold ban_status, score_state. rewrite Hp, Hs. simpl. by case_match.
Qed.

(** A disconnection leaves the database within its limits, whatever
    happened before: at most 500 disconnected and 1000 banned peers. It removes
    only disconnected peers that are not trusted and banned peers, each of
    which it reports; every other peer keeps its record. *)
Theorem inject_disconnect_bounds trusted db now p :
  Z.of_nat (length trusted) <= MAX_DC_PEERS -> db_reachable trusted db -> room_for db p ->
  let '(_, purged, db') := inject_disconnect now p db in
  map_count is_disconnected (peers db') <= MAX_DC_PEERS /\
  map_count is_banned (peers db') <= MAX_BANNED_PEERS /\
  (forall q i, q <> p -> peers db !! q = Some i ->
     is_disconnected i && negb (is_trusted i) = false -> q ∉ map fst purged ->
     peers db' !! q = Some i) /\
  (forall q, q ∈ map fst purged -> q <> p -> exists i, peers db !! q = Some i /\ is_banned i = true).
Proof.
  intros Hlen Hr Hroom. pose proof (reachable_good trusted db Hlen Hr) as Hg.
  pose proof (ucs_good now p NewDisconnected db Hg Hroom) as [Hi1 Hf1].
  pose proof (ucs_spec now p NewDisconnected db) as Hspec. cbv zeta in Hspec.
  unfold inject_disconnect. destruct (update_connection_state _ _ _ _) as [op db1]. simpl in Hi1, Hf1.
  destruct Hspec as (i' & Hp1 & _). pose proof (shrink_to_fit_spec db1 Hi1 Hf1) as Hs.
  destruct (shrink_to_fit db1) as [purged db2]. destruct Hs as ([[_ Hd Hb _] _] & Hbb & Hdd & Hkeep & Hrem).
  split_and!; [lia|lia| |].
  - intros q i Hq Hi Hstay Hnp. apply Hkeep; [|done|done]. by rewrite Hp1, lookup_insert_ne.
  - intros q Hin Hq. destruct (Hrem q Hin) as (i & Hi & Hib). rewrite Hp1, lookup_insert_ne in Hi by done.
    eauto.
Qed.

(** ** Reports *)

Lemma set_peer_same db p i : peers db !! p = Some i -> set_peer p i db = db.
Proof. intros Hp. unfold set_peer. rewrite insert_id by done. by destruct db. Qed.

(** A report never touches a trusted peer: in every reachable state a
    report of any kind about a trusted peer leaves the database as it is and
    asks for no action. *)
Theorem trusted_peer_not_penalised trusted db now p i a :
  Z.of_nat (length trusted) <= MAX_DC_PEERS -> db_reachable trusted db ->
  peers db !! p = Some i -> is_trusted i = true ->
  report_peer now p a db = (UpdNoAction, db).
Proof.
  intros Hlen Hr Hp Ht. destruct (reachable_good trusted db Hlen Hr) as [[_ _ _ Hmax] _].
  pose proof (Hmax p i Hp Ht) as Hs. unfold report_peer. rewrite Hp.
  assert (apply_peer_action_to_score a i = i) as ->
    by (unfold apply_peer_action_to_score; by rewrite Ht).
  rewrite set_peer_same by done. unfold handle_score_transition, score_state. by rewrite Hs.
Qed.

(** The status and the answer a report leads to, from the score state before
    and after it and the connection status. *)
Definition report_outcome (now : Instant) (before after : ScoreState) (st : PeerConnectionStatus)
    (ips : list IpAddr) : PeerConnectionStatus * ScoreUpdateResult :=
  match after, before, st with
  | StBanned, StBanned, _ => (st, UpdNoAction)
  | StBanned, _, (Connected _ _ | Dialing _) => (Disconnecting true, UpdBan DisconnectThePeer)
  | StBanned, _, Disconnecting _ => (Disconnecting true, UpdBan PeerDisconnecting)
  | StBanned, _, (Disconnected _ | Unknown) => (Banned now, UpdBan (ReadyToBan ips))
  | StBanned, _, Banned _ => (st, UpdBan (ReadyToBan ips))
  | StDisconnected, (StHealthy | StBanned), (Connected _ _ | Dialing _) =>
      (Disconnecting false, UpdDisconnect)
  | _, _, _ => (st, UpdNoAction)
  end.

Lemma entry_set_peer now p i db : entry_or_insert now (set_peer p i db) p = i.
Proof. unfold entry_or_insert. simpl. by rewrite lookup_insert_eq. Qed.

Lemma ensure_banned_id i : score_state i = StBanned -> ensure_banned_score i = i.
Proof. unfold ensure_banned_score. by intros ->. Qed.

Lemma report_effect now p a db i :
  peers db !! p = Some i ->
  let i1 := apply_peer_action_to_score a i in
  let '(answer, db') := report_peer now p a db in
  exists i', peers db' = <[p := i']> (peers db) /\
    score i' = score i1 /\
    (connection_status i', answer)
    = report_outcome now (score_state i) (score_state i1) (connection_status i)
        (known_banned (banned_peers_count db') i').
Proof.
  intros Hp. cbv zeta. destruct (apply_action_frame a i) as (Hst & _).
  unfold report_peer. rewrite Hp. set (i1 := apply_peer_action_to_score a i) in *.
  unfold handle_score_transition, is_connected_or_dialing, is_connected, is_dialing.
  unfold update_connection_state. rewrite entry_set_peer.
  destruct (score_state i1) eqn:Hs1, (score_state i) eqn:Hs0;
    rewrite ?(ensure_banned_id i1 Hs1); rewrite ?Hst;
    destruct (connection_status i) eqn:Hc; simpl;
    (eexists; split; [first [reflexivity | apply insert_insert_eq]|]);
    rewrite ?set_status_score, ?set_status_status, ?Hst, ?Hc; done.
Qed.

(** What a report does, on every branch. The peer's score changes by the
    action exactly once; its connection status and the answer to the peer
    manager follow from the score state before and after and from the
    connection status: a connected or dialed peer that gets banned is
    disconnected first and banned afterwards, one that is not connected is
    banned at once with those of its addresses that are banned now, a peer
    that falls below the disconnection threshold is disconnected; no other
    peer changes. *)
Theorem report_peer_spec now p a db i :
  peers db !! p = Some i ->
  let i1 := apply_peer_action_to_score a i in
  let '(answer, db') := report_peer now p a db in
  exists i', peers db' = <[p := i']> (peers db) /\
    score i' = score i1 /\
    (connection_status i', answer)
    = report_outcome now (score_state i) (score_state i1) (connection_status i)
        (known_banned (banned_peers_count db') i').
Proof. apply report_effect. Qed.

(** ** Bans *)

(** A peer at the bottom of the scale whose score is frozen until [T]. *)
Definition banned_until (T : Instant) (i : PeerInfo) : Prop :=
  is_trusted i = false /\
  exists r, score i = ScoreReal r /\ rock_bottom r /\ T <= last_updated r.

Definition held (T : Instant) (p : PeerId) (ps : gmap PeerId PeerInfo) : Prop :=
  exists i, ps !! p = Some i /\ banned_until T i.

Lemma banned_until_state T i : banned_until T i -> score_state i = StBanned.
Proof. intros (_ & r & Hs & Hr & _). unfold score_state. rewrite Hs. by apply rock_bottom_state. Qed.

Lemma banned_until_same T i i' :
  banned_until T i -> is_trusted i' = is_trusted i -> score i' = score i -> banned_until T i'.
Proof. intros (Ht & r & Hs & Hr & Hl) Ht' Hs'. split; [congruence|]. exists r. split; [congruence|done]. Qed.

Lemma banned_until_action T a i : banned_until T i -> banned_until T (apply_peer_action_to_score a i).
Proof.
  intros (Ht & r & Hs & Hr & Hl). unfold apply_peer_action_to_score. rewrite Ht. simpl.
  destruct i; simpl in *. subst. split; [done|]. simpl. eexists. split; [done|].
  destruct (rock_bottom_action a r Hr) as (? & -> & _). done.
Qed.

Lemma banned_until_update T now i : now < T -> banned_until T i -> banned_until T (score_update now i).
Proof.
  intros Hn (Ht & r & Hs & Hr & Hl). unfold score_update. rewrite Ht. simpl.
  destruct i; simpl in *. subst. split; [done|]. simpl. eexists. split; [done|].
  unfold update_at, checked_duration_since.
  assert (last_updated r <=? now = false) as -> by (apply Z.leb_gt; lia). done.
Qed.

Lemma banned_until_gossip T now s g i :
  now < T -> banned_until T i -> banned_until T (info_update_gossipsub_score now s g i).
Proof.
  intros Hn (Ht & r & Hs & Hr & Hl). unfold info_update_gossipsub_score.
  destruct i; simpl in *. subst. split; [done|]. simpl. eexists. split; [done|].
  unfold update_gossipsub_score.
  assert (last_updated r <=? now = false) as -> by (apply Z.leb_gt; lia). done.
Qed.

Lemma held_insert T p q i ps : held T p ps -> (q = p -> banned_until T i) -> held T p (<[q := i]> ps).
Proof.
  intros (j & Hj & Hb) Hi. destruct (decide (q = p)) as [->|Hne].
  - exists i. rewrite lookup_insert_eq. auto.
  - exists j. by rewrite lookup_insert_ne.
Qed.

(** A connection state change does not lift the score of a banned peer. *)
Lemma ucs_banned_score now q st db :
  exists i', peers (update_connection_state now q st db).2 = <[q := i']> (peers db) /\
    is_trusted i' = is_trusted (entry_or_insert now db q) /\
    (score_state (entry_or_insert now db q) = StBanned -> score i' = score (entry_or_insert now db q)).
Proof.
  set (i0 := entry_or_insert now db q). unfold update_connection_state. fold i0.
  destruct (ensure_banned_frame i0) as (Hes & Het & _ & _).
  assert (Hei : score_state i0 = StBanned -> score (ensure_banned_score i0) = score i0)
    by (intros Hb; by rewrite ensure_banned_id).
  set (ib := ensure_banned_score i0) in *. clearbody ib. clearbody i0.
  destruct i0 as [sc cl cs la sm md sn mt tr cd en].
  destruct ib as [sc' cl' cs' la' sm' md' sn' mt' tr' cd' en'].
  cbn in Hes, Het, Hei. subst cs' tr'.
  destruct st as [e addr dir|to_ban|e| | |]; cbn; destruct cs as [n1 n2|tb|t|t|t|]; cbn;
    try destruct tb; try destruct dir; try destruct e; cbn;
    eexists; (split; [reflexivity|]); by split.
Qed.

Lemma ucs_held T p now q st db :
  held T p (peers db) -> held T p (peers (update_connection_state now q st db).2).
Proof.
  intros Hh. destruct (ucs_banned_score now q st db) as (i' & -> & Ht & Hs).
  apply held_insert; [done|]. intros ->. destruct Hh as (j & Hj & Hb).
  unfold entry_or_insert in *. rewrite Hj in *. eapply banned_until_same; [done..|].
  apply Hs. by eapply banned_until_state.
Qed.

#[local] Opaque update_connection_state.

Lemma report_held_after T p now q a db i :
  peers db !! q = Some i ->
  held T p (peers (set_peer q (apply_peer_action_to_score a i) db)) ->
  held T p (peers (report_peer now q a db).2).
Proof.
  intros Hq Hh. unfold report_peer. rewrite Hq.
  destruct (handle_score_transition _ _); simpl; [by apply ucs_held| |done|done].
  pose proof (ucs_held T p now q NewBanned _ Hh) as Hh2.
  by destruct (update_connection_state now q NewBanned _).
Qed.

Lemma report_held T p now q a db :
  held T p (peers db) -> held T p (peers (report_peer now q a db).2).
Proof.
  intros Hh. destruct (peers db !! q) as [i|] eqn:Hq.
  - eapply report_held_after; [done|]. simpl. apply held_insert; [done|]. intros ->.
    destruct Hh as (j & Hj & Hb). assert (j = i) as -> by congruence. by apply banned_until_action.
  - unfold report_peer. by rewrite Hq.
Qed.

Lemma unban_all_held T p now qs db :
  held T p (peers db) -> held T p (peers (unban_all now qs db).2).
Proof.
  revert db. induction qs as [|q qs IH]; intros db Hh; simpl; [done|].
  specialize (IH _ (ucs_held T p now q NewUnbanned db Hh)).
  by destruct (unban_all now qs _).
Qed.

Lemma update_scores_held T p clock now db :
  clock p < T -> held T p (peers db) -> held T p (peers (update_scores clock now db).2).
Proof.
  intros Hc (i & Hp & Hb). unfold update_scores. apply unban_all_held. simpl.
  exists (score_update (clock p) i). rewrite map_lookup_imap, Hp. split; [done|].
  by apply banned_until_update.
Qed.

Lemma gossip_pass_held T p now entries n ps :
  now < T -> held T p ps -> held T p (gossip_pass now entries n ps).2.
Proof.
  intros Hn. revert n ps. induction entries as [|[q s] entries IH]; intros n ps Hh; simpl; [done|].
  destruct (ps !! q) as [i|] eqn:Hq; [|by apply IH].
  match goal with |- context [gossip_pass now entries ?n1 ?m1] =>
    specialize (IH n1 m1); destruct (gossip_pass now entries n1 m1) as [acts m'] end.
  apply IH, held_insert; [done|]. intros ->. destruct Hh as (j & Hj & Hb).
  assert (j = i) as -> by congruence. by apply banned_until_gossip.
Qed.

Lemma gossip_actions_held T p now acts db :
  held T p (peers db) -> held T p (peers (gossip_actions now acts db).2).
Proof.
  revert db. induction acts as [|[q a] acts IH]; intros db Hh; simpl; [done|].
  pose proof (fun st => IH _ (ucs_held T p now q st db Hh)) as Hrest. destruct a; simpl.
  - specialize (Hrest (NewDisconnecting false)). by destruct (gossip_actions now acts _).
  - specialize (Hrest NewBanned). destruct (update_connection_state now q NewBanned db) as [op db1].
    simpl in *. by destruct (gossip_actions now acts db1).
  - specialize (Hrest NewUnbanned). by destruct (gossip_actions now acts _).
  - specialize (IH db Hh). by destruct (gossip_actions now acts db).
Qed.

Lemma update_gossip_held T p now n sc sort db :
  now < T -> held T p (peers db) -> held T p (peers (update_gossipsub_scores now n sc sort db).2).
Proof.
  intros Hn Hh. unfold update_gossipsub_scores. set (entries := sort _).
  pose proof (gossip_pass_held T p now entries (negative_allowance n) (peers db) Hn Hh) as Hg.
  destruct (gossip_pass now entries _ (peers db)) as [acts m]. by apply gossip_actions_held.
Qed.

Lemma cleanup_held T p now db : held T p (peers db) -> held T p (peers (cleanup_dialing_peers now db)).
Proof.
  unfold cleanup_dialing_peers. generalize (stale_dials now db) as qs. intros qs. revert db.
  induction qs as [|q qs IH]; intros db Hh; simpl; [done|]. apply IH. by apply ucs_held.
Qed.

Lemma shrink_banned_sub fuel db : peers (shrink_banned fuel db).2 ⊆ peers db.
Proof.
  revert db. induction fuel as [|fuel IH]; intros db; simpl; [done|].
  case_match; [|done]. destruct (oldest_banned db) as [[q i]|];
    [|exact (IH (set_banned_count BannedPeersCount_default db))].
  match goal with |- context [shrink_banned fuel ?d] =>
    specialize (IH d); destruct (shrink_banned fuel d) end.
  simpl in *. etrans; [done|]. apply delete_subseteq.
Qed.

Lemma shrink_disconnected_sub fuel db : peers (shrink_disconnected fuel db) ⊆ peers db.
Proof.
  revert db. induction fuel as [|fuel IH]; intros db; simpl; [done|].
  case_match; [|done]. etrans; [apply IH|]. case_match; simpl; [apply delete_subseteq|done].
Qed.

Lemma shrink_to_fit_sub db : peers (shrink_to_fit db).2 ⊆ peers db.
Proof.
  unfold shrink_to_fit.
  pose proof (shrink_banned_sub (Z.to_nat (banned_peers (banned_peers_count db))) db) as Hs1.
  destruct (shrink_banned _ db) as [purged db1]. simpl in *.
  etrans; [apply shrink_disconnected_sub|done].
Qed.

Lemma inject_held T p now q db :
  held T p (peers db) -> is_Some (peers (inject_disconnect now q db).2 !! p) ->
  held T p (peers (inject_disconnect now q db).2).
Proof.
  intros Hh. pose proof (ucs_held T p now q NewDisconnected db Hh) as (i & Hi & Hb).
  unfold inject_disconnect. destruct (update_connection_state now q NewDisconnected db) as [op db1].
  pose proof (shrink_to_fit_sub db1) as Hs. destruct (shrink_to_fit db1) as [purged db2].
  simpl in *. intros [j Hj]. exists j. split; [done|].
  pose proof (lookup_weaken _ _ _ _ Hj Hs). congruence.
Qed.

Lemma with_info_held T p q f db :
  (forall i, score (f i) = score i /\ is_trusted (f i) = is_trusted i) ->
  held T p (peers db) -> held T p (peers (with_info q f db)).
Proof.
  intros Hf Hh. unfold with_info. destruct (peers db !! q) as [i|] eqn:Hq; [|done].
  simpl. apply held_insert; [done|]. intros ->. destruct Hh as (j & Hj & Hb).
  assert (j = i) as -> by congruence. destruct (Hf i). by eapply banned_until_same.
Qed.

Lemma min_ttl_held T p now q ttl db :
  held T p (peers db) -> held T p (peers (update_min_ttl now q ttl db)).
Proof.
  intros Hh. unfold update_min_ttl. simpl. apply held_insert; [done|]. intros ->.
  destruct Hh as (j & -> & Hb). simpl.
  assert (Hset : banned_until T (set_min_ttl ttl j)) by (eapply banned_until_same; [done| |]; by destruct j).
  case_match; [case_match|]; done.
Qed.

(** The clock readings that may reach the score of [p] are before [T]. *)
Definition op_before (T : Instant) (p : PeerId) (now : Instant) (op : db_op) : Prop :=
  match op with
  | OpUpdateScores clock => clock p < T
  | OpGossip _ _ _ => now < T
  | _ => True
  end.

Lemma op_held T p now op db :
  op_before T p now op -> held T p (peers db) -> is_Some (peers (db_do now op db) !! p) ->
  held T p (peers (db_do now op db)).
Proof.
  intros Hb Hh. destruct op as [q e|q a e []|q b|q|q a|clock|n sc sort| |q ttl|q la c|q m]; simpl; intros Hin.
  1-4: by apply ucs_held.
  - by apply inject_held.
  - by apply report_held.
  - by apply update_scores_held.
  - by apply update_gossip_held.
  - by apply cleanup_held.
  - by apply min_ttl_held.
  - apply with_info_held; [|done]. by intros [].
  - apply with_info_held; [|done]. by intros [].
Qed.

(** A run of operations in which [p] is never dropped. *)
Inductive db_run (T : Instant) (p : PeerId) : PeerDB -> PeerDB -> Prop :=
| run_done db : db_run T p db db
| run_op now op db db' :
    op_before T p now op -> is_Some (peers (db_do now op db) !! p) ->
    db_run T p (db_do now op db) db' -> db_run T p db db'.

Lemma run_held T p db db' : db_run T p db db' -> held T p (peers db) -> held T p (peers db').
Proof. induction 1 as [|now op db db' Hb Hin _ IH]; intros Hh; [done|]. by apply IH, op_held. Qed.

(** Until when a fatal report bans a peer with this score: twelve hours after the
    last update of the score, or, for a peer whose score is one of a banned
    peer already, until the time of the last update, which lies twelve hours
    ahead since that ban. *)
Definition banned_before (r : RealScore) : Instant :=
  last_updated r + (if f64_lt MIN_SCORE_BEFORE_BAN (rs_score r) then BANNED_BEFORE_DECAY else 0).

Lemma fatal_report_held now p db i r :
  peers db !! p = Some i -> is_trusted i = false -> score i = ScoreReal r ->
  held (banned_before r) p (peers (report_peer now p Fatal db).2).
Proof.
  intros Hp Ht Hs. destruct (fatal_bottom r) as [Hb Hl].
  eapply report_held_after; [done|]. eexists. simpl. rewrite lookup_insert_eq. split; [done|].
  unfold apply_peer_action_to_score. rewrite Ht. simpl. destruct i; simpl in *. subst.
  split; [done|]. eexists. split; [done|]. split; [done|]. apply Z.eq_le_incl. symmetry. exact Hl.
Qed.

(** C12: a fatal report bans a peer that is not trusted until twelve hours after the
    last update of its score before the report. Whatever the database is asked to do after
    the report, in any order, as long as no clock reading reaches that time and the
    record of the peer is not pruned, the peer is banned for its score and is not dialed. A
    report on a peer whose score is at most -50 already does not lengthen its ban.
    The twelve hours count from the last update, not from the report, so from
    the report they are fewer than the code's comment says. *)
Theorem fatal_report_bans now p db i r db' :
  peers db !! p = Some i -> is_trusted i = false -> score i = ScoreReal r ->
  db_run (banned_before r) p (report_peer now p Fatal db).2 db' ->
  ban_status db' p = BanBadScore /\ should_dial db' p = false.
Proof.
  intros Hp Ht Hs Hrun.
  destruct (run_held _ _ _ _ Hrun (fatal_report_held now p db i r Hp Ht Hs)) as (j & Hj & Hb).
  apply banned_until_state in Hb. unfold ban_status, should_dial, score_state_banned_or_disconnected.
  rewrite Hj, Hb. split; [done|]. apply andb_false_r.
Qed.

#[local] Transparent update_connection_state.

(** A peer that is being disconnected to be banned is banned when the
    connection is gone. The database answers that the ban is ready, with those
    addresses of the peer that now have more than five bans; unless
    pruned at once, the peer is recorded as banned since now and no longer
    counted as disconnecting. *)
Lemma disconnect_ban_effect now p db i :
  peers db !! p = Some i -> connection_status i = Disconnecting true ->
  let '(answer, purged, db') := inject_disconnect now p db in
  let count ip := default 0 (banned_peers_per_ip (add_banned_peer (seen_ip_addresses i)
                    (banned_peers_count db)) !! ip) in
  answer = Some (ReadyToBan
    (filter (fun ip => BANNED_PEERS_PER_IP_THRESHOLD < count ip) (seen_ip_addresses i))) /\
  (forall i', peers db' !! p = Some i' -> connection_status i' = Banned now /\ score i' = score i).
Proof.
  intros Hp Hst. unfold inject_disconnect, update_connection_state.
  assert (entry_or_insert now db p = i) as -> by (unfold entry_or_insert; by rewrite Hp).
  rewrite Hst. set (i2 := set_connection_status _ _).
  assert (Hips : seen_ip_addresses i2 = seen_ip_addresses i) by (subst i2; by destruct i).
  assert (Hst2 : connection_status i2 = Banned now /\ score i2 = score i) by (subst i2; by destruct i).
  set (b := add_banned_peer _ _). set (db1 := set_peer _ _ _).
  pose proof (shrink_to_fit_sub db1) as Hsub. destruct (shrink_to_fit db1) as [purged db2]. simpl in Hsub.
  subst b. rewrite Hips. split.
  - f_equal. f_equal. unfold known_banned. rewrite Hips. apply list_filter_iff. intros ip.
    rewrite elem_of_banned_ips. unfold ip_is_banned, BANNED_PEERS_PER_IP_THRESHOLD.
    destruct (_ !! ip); simpl; [by rewrite Z.ltb_lt|]. split; [done|lia].
  - intros i' Hi'. pose proof (lookup_weaken _ _ _ _ Hi' Hsub) as Hl. simpl in Hl.
    rewrite lookup_insert_eq in Hl. by simplify_eq.
Qed.

(** ** Where the counters drift *)

(** A banned peer that is disconnected again is counted twice. When a
    peer that is recorded as banned is told to disconnect and the
    disconnection completes, the count of banned peers has grown by one while
    the number of banned peers is what it was. *)
Theorem rebanned_peer_counted_twice now now' p db i since :
  peers db !! p = Some i -> connection_status i = Banned since ->
  0 <= banned_peers (banned_peers_count db) < 2 ^ 64 - 1 ->
  let db2 := (update_connection_state now' p NewDisconnected (notify_disconnecting now p true db)).2 in
  banned_peers (banned_peers_count db2) = banned_peers (banned_peers_count db) + 1 /\
  map_count is_banned (peers db2) = map_count is_banned (peers db).
Proof.
  intros Hp Hst Hb. unfold notify_disconnecting, update_connection_state.
  assert (entry_or_insert now db p = i) as -> by (unfold entry_or_insert; by rewrite Hp).
  rewrite Hst. cbn [snd]. rewrite entry_set_peer, set_status_status. cbn [snd]. split.
  - simpl. sat_arith.
  - cbn [peers set_peer set_banned_count]. rewrite insert_insert_eq, count_insert, Hp.
    destruct i. simpl in *. subst. unfold is_banned. simpl. lia.
Qed.

Definition all_trusted (ps : gmap PeerId PeerInfo) : Prop :=
  forall q i, ps !! q = Some i -> is_trusted i = true.

Lemma oldest_none_trusted db : all_trusted (peers db) -> oldest_disconnected db = None.
Proof.
  intros Ha. destruct (oldest_disconnected db) as [q|] eqn:Ho; [|done].
  apply oldest_disconnected_Some in Ho as (i & Hi & _ & Ht). rewrite (Ha q i Hi) in Ht. done.
Qed.

Lemma shrink_disconnected_trusted fuel db :
  all_trusted (peers db) -> 0 <= disconnected_peers db <= Z.of_nat fuel -> disconnected_peers db < 2 ^ 64 ->
  peers (shrink_disconnected fuel db) = peers db /\
  disconnected_peers (shrink_disconnected fuel db) <= MAX_DC_PEERS.
Proof.
  revert db. induction fuel as [|fuel IH]; intros db Ha Hd Hw; simpl.
  { unfold MAX_DC_PEERS. split; [done|lia]. }
  case_match; bool_hyps; [|by split]. rewrite oldest_none_trusted by done.
  unfold MAX_DC_PEERS in *.
  apply (IH (set_disconnected (saturating_sub (disconnected_peers db) 1) db)); [done|simpl..];
    rewrite saturating_sub_spec by lia; lia.
Qed.

Lemma ucs_disconnected_bounds now p db :
  0 <= disconnected_peers db < 2 ^ 64 - 1 ->
  0 <= banned_peers (banned_peers_count db) < MAX_BANNED_PEERS ->
  let db1 := (update_connection_state now p NewDisconnected db).2 in
  0 <= disconnected_peers db1 < 2 ^ 64 /\
  banned_peers (banned_peers_count db1) <= MAX_BANNED_PEERS.
Proof.
  intros Hd Hb. unfold update_connection_state, MAX_BANNED_PEERS in *.
  pose proof (wrap_u64_id (disconnected_peers db + 1) ltac:(lia)) as Hw. change u64 with usize in Hw.
  destruct (connection_status _) as [| [] | | | |]; simpl; rewrite ?Hw; sat_arith.
Qed.

Lemma shrink_banned_idle fuel db :
  banned_peers (banned_peers_count db) <= MAX_BANNED_PEERS -> shrink_banned fuel db = ([], db).
Proof. intros Hb. destruct fuel; simpl; [done|]. by apply Z.ltb_ge in Hb as ->. Qed.

(** With peer scoring disabled nothing is ever pruned. Every peer
    is then recorded as trusted, and a disconnection brings the counter
    of disconnected peers below its limit without removing a single peer: the
    database only grows. *)
Theorem scoring_disabled_never_prunes now p db :
  disable_peer_scoring db = true -> all_trusted (peers db) ->
  0 <= disconnected_peers db < 2 ^ 64 - 1 ->
  0 <= banned_peers (banned_peers_count db) < MAX_BANNED_PEERS ->
  let db' := (inject_disconnect now p db).2 in
  dom (peers db') = {[p]} ∪ dom (peers db) /\ all_trusted (peers db') /\
  disconnected_peers db' <= MAX_DC_PEERS.
Proof.
  intros Hdis Ha Hd Hb. cbv zeta. unfold inject_disconnect.
  pose proof (ucs_dom now p NewDisconnected db) as Hdom.
  pose proof (ucs_spec now p NewDisconnected db) as Hspec. cbv zeta in Hspec.
  pose proof (ucs_disconnected_bounds now p db Hd Hb) as [Hd1 Hb1].
  destruct (update_connection_state now p NewDisconnected db) as [op db1]. simpl in Hdom, Hd1, Hb1.
  destruct Hspec as (i' & Hp & _ & Ht & _).
  assert (Ha1 : all_trusted (peers db1)).
  { rewrite Hp. intros q j [[<- <-]|[_ Hq]]%lookup_insert_Some; [|by apply (Ha q)].
    rewrite Ht. unfold entry_or_insert. rewrite Hdis. destruct (peers db !! p) eqn:Hl; [by apply (Ha p)|done]. }
  unfold shrink_to_fit. rewrite shrink_banned_idle by lia.
  destruct (shrink_disconnected_trusted (Z.to_nat (disconnected_peers db1)) db1 Ha1) as [Hps Hdc]; [lia|lia|].
  simpl. rewrite Hps. by split_and!.
Qed.
End histories.

(** ** Runs on concrete peers *)

Section demo.
#[local] Existing Instance demo_external.
#[local] Existing Instance demo_libm.
#[local] Instance demo_addrs : SetIter Multiaddr := canonical_set_iter Multiaddr.
#[local] Instance demo_peers : MapIter PeerId PeerInfo := canonical_map_iter PeerId PeerInfo.

Definition demo_addr : Multiaddr := (10, 9000).
Definition demo_new : PeerDB := PeerDB_new [demo_peer2] false.
(** A peer connects, and is reported. *)
Definition demo_connected : PeerDB := db_do 0 (OpConnect demo_peer demo_addr None Incoming) demo_new.
Definition demo_reported : PeerDB := (report_peer 5 demo_peer Fatal demo_connected).2.
Definition demo_banned : PeerDB := db_do 6 (OpDisconnect demo_peer) demo_reported.
Definition demo_disabled : PeerDB := PeerDB_new [demo_peer2] true.
Definition demo_info (db : PeerDB) : PeerInfo :=
  default trusted_peer_info (peers db !! demo_peer).
Definition demo_real (db : PeerDB) : RealScore :=
  match score (demo_info db) with ScoreReal r => r | ScoreMax => RealScore_default 0 end.

Lemma demo_connected_reachable : db_reachable [demo_peer2] demo_connected.
Proof. apply reach_op; [apply reach_new|]. right. vm_compute. reflexivity. Qed.

Lemma peerdb_counters_witness :
  disconnected_peers demo_connected = map_count is_disconnected (peers demo_connected).
Proof.
  apply (peerdb_counters [demo_peer2] demo_connected); [vm_compute; discriminate|].
  exact demo_connected_reachable.
Defined.

Lemma inject_disconnect_bounds_witness :
  map_count is_disconnected (peers (inject_disconnect 7 demo_peer demo_connected).2) <= MAX_DC_PEERS.
Proof.
  apply (inject_disconnect_bounds [demo_peer2] demo_connected 7 demo_peer).
  - vm_compute. discriminate.
  - exact demo_connected_reachable.
  - right. vm_compute. reflexivity.
Defined.

Lemma trusted_peer_not_penalised_witness :
  report_peer 5 demo_peer2 Fatal demo_connected = (UpdNoAction, demo_connected).
Proof.
  apply (trusted_peer_not_penalised [demo_peer2] demo_connected 5 demo_peer2 trusted_peer_info).
  - vm_compute. discriminate.
  - exact demo_connected_reachable.
  - reflexivity.
  - reflexivity.
Defined.

Lemma report_peer_spec_witness :
  exists i', peers demo_reported = <[demo_peer := i']> (peers demo_connected) /\
    connection_status i' = Disconnecting true.
Proof.
  destruct (report_peer_spec 5 demo_peer Fatal demo_connected (demo_info demo_connected) eq_refl)
    as (i' & Hp & _ & Ho).
  exists i'. split; [exact Hp|]. apply (f_equal fst) in Ho. exact Ho.
Defined.

(** The ban outlasts the disconnection and a score update eleven hours later. *)
Definition demo_later : PeerDB := db_do 7 (OpUpdateScores (fun _ => from_secs 39600)) demo_banned.

Lemma fatal_report_bans_witness :
  ban_status demo_later demo_peer = BanBadScore /\ should_dial demo_later demo_peer = false.
Proof.
  apply (fatal_report_bans 5 demo_peer demo_connected (demo_info demo_connected)
    (demo_real demo_connected)); [reflexivity..|].
  apply (run_op _ _ 6 (OpDisconnect demo_peer)); [exact I|eexists; reflexivity|].
  apply (run_op _ _ 7 (OpUpdateScores (fun _ => from_secs 39600)));
    [vm_compute; reflexivity|eexists; reflexivity|].
  apply run_done.
Defined.

Lemma demo_banned_status :
  match peers demo_banned !! demo_peer with Some i => connection_status i | None => Unknown end = Banned 6.
Proof. vm_compute. reflexivity. Qed.

Lemma demo_banned_count : banned_peers (banned_peers_count demo_banned) = 1.
Proof. vm_compute. reflexivity. Qed.

Lemma rebanned_peer_counted_twice_witness :
  banned_peers (banned_peers_count (update_connection_state 8 demo_peer NewDisconnected
    (notify_disconnecting 7 demo_peer true demo_banned)).2) = 2.
Proof.
  pose proof demo_banned_status as Hs. destruct (peers demo_banned !! demo_peer) as [i|] eqn:Hi; [|done].
  pose proof (rebanned_peer_counted_twice 7 8 demo_peer demo_banned i 6 Hi Hs) as Hr.
  rewrite demo_banned_count in Hr. exact (proj1 (Hr ltac:(lia))).
Defined.

Lemma scoring_disabled_never_prunes_witness :
  dom (peers (inject_disconnect 7 demo_peer demo_disabled).2)
  = {[demo_peer]} ∪ dom (peers demo_disabled).
Proof.
  apply (scoring_disabled_never_prunes 7 demo_peer demo_disabled).
  - reflexivity.
  - intros q i Hq. apply new_lookup in Hq as ->. reflexivity.
  - vm_compute. split; [discriminate|reflexivity].
  - vm_compute. split; [discriminate|reflexivity].
Defined.
End demo.
