(* ===== verification/Ranking.v ===== *)
(** * Peers in the order of their scores

    Models the listings of [src/peer_manager/peerdb.rs] that sort peers by score:
    [worst_connected_peers], [best_peers_by_status] and [best_by_status], with the stable sort and the
    maximum of Rust's library. The random shuffle before a sort is an argument. For
    scores that are numbers every stable sort has the same result; the theorems assume that, since
    the order of a sort is not specified when a score is not a number. *)

From Stdlib Require Import Floats.SpecFloat.
From stdpp Require Import sorting.
From S2P Require Import Prelude Float64 External.
From S2P Require Import Score PeerInfo PeerDB.

(** ** The order of numbers *)

Lemma f64_le_trans a b c : f64_le a b = true -> f64_le b c = true -> f64_le a c = true.
Proof.
  unfold f64_le, SFleb. destruct a as [ []|[]| |[] m1 e1], b as [ []|[]| |[] m2 e2], c as [ []|[]| |[] m3 e3]; cbn; try done.
  all: destruct (Z.compare_spec e1 e2), (Z.compare_spec e2 e3), (Z.compare_spec e1 e3); try done; try lia; cbn.
  all: change (Pos.compare_cont Eq m1 m2) with (m1 ?= m2)%positive; change (Pos.compare_cont Eq m2 m3) with (m2 ?= m3)%positive;
    change (Pos.compare_cont Eq m1 m3) with (m1 ?= m3)%positive;
    destruct (Pos.compare_spec m1 m2), (Pos.compare_spec m2 m3), (Pos.compare_spec m1 m3); try done; try lia.
Qed.

Lemma f64_le_total a b : is_nan a = false -> is_nan b = false -> f64_le a b = false -> f64_le b a = true.
Proof.
  intros Ha Hb H. apply f64_lt_le. unfold f64_le, f64_lt, SFleb, SFltb in *. rewrite (f64_compare_antisym a b).
  destruct (SFcompare a b) as [ []|] eqn:E; try done. apply f64_compare_nan in E. naive_solver congruence.
Qed.

(** ** Sorting by a key *)

Section sort.
Context {A : Type} (key : A -> f64).

(** [Ord::cmp] of the keys: incomparable ones are equal. *)
Definition key_cmp (a b : A) : comparison := default Eq (f64_partial_cmp (key a) (key b)).

Fixpoint insert_by (a : A) (l : list A) : list A :=
  match l with
  | [] => [a]
  | b :: l' => match key_cmp a b with Gt => b :: insert_by a l' | _ => a :: l end
  end.
(** [slice::sort_by_key], which is stable. *)
Fixpoint sort_by (l : list A) : list A :=
  match l with [] => [] | a :: l' => insert_by a (sort_by l') end.

(** [Iterator::max_by_key], which gives the last of several maxima. *)
Definition later_max (a b : A) : A := match key_cmp a b with Gt => a | _ => b end.
Definition max_by (l : list A) : option A :=
  match l with [] => None | a :: l' => Some (foldl later_max a l') end.

Definition key_le (a b : A) : Prop := f64_le (key a) (key b) = true.
Definition keyed (l : list A) : Prop := Forall (fun a => is_nan (key a) = false) l.

Lemma insert_by_perm a l : insert_by a l ≡ₚ a :: l.
Proof.
  induction l as [|b l IH]; cbn; [done|]. destruct (key_cmp a b); [done..|]. rewrite IH. apply Permutation_swap.
Qed.
Lemma sort_by_perm l : sort_by l ≡ₚ l.
Proof. induction l as [|a l IH]; cbn; [done|]. by rewrite insert_by_perm, IH. Qed.

Lemma key_cmp_Gt a b : is_nan (key a) = false -> is_nan (key b) = false ->
  match key_cmp a b with Gt => f64_le (key a) (key b) = false /\ key_le b a | _ => key_le a b end.
Proof.
  intros Ha Hb. pose proof (f64_le_total (key a) (key b) Ha Hb) as Ht. unfold key_le, key_cmp, f64_partial_cmp, f64_le, SFleb in *.
  destruct (SFcompare (key a) (key b)) as [ []|] eqn:E; cbn; try done; [by split; auto|]. apply f64_compare_nan in E. naive_solver congruence.
Qed.

Lemma sort_by_sorted l : keyed l -> StronglySorted key_le (sort_by l).
Proof.
  induction 1 as [|a l Ha Hl IH]; cbn; [constructor|].
  assert (keyed (sort_by l)) as Hs by (unfold keyed; by rewrite sort_by_perm).
  revert Hs IH. generalize (sort_by l) as s. clear l Hl. induction s as [|b s IHs]; intros Hs Hsort; cbn; [by repeat constructor|].
  apply Forall_cons in Hs as [Hb Hs]. pose proof (key_cmp_Gt a b Ha Hb) as Hc. pose proof Hsort as [Hss Hbs]%StronglySorted_inv.
  destruct (key_cmp a b).
  1,2: constructor; [done|]; constructor; [done|]; eapply Forall_impl; [exact Hbs|]; intros x; by apply f64_le_trans.
  destruct Hc as [_ Hc]. constructor; [by apply IHs|]. rewrite insert_by_perm. by constructor.
Qed.

Lemma later_max_assoc a b c : is_nan (key a) = false -> is_nan (key b) = false -> is_nan (key c) = false ->
  later_max a (later_max b c) = later_max (later_max a b) c.
Proof.
  intros Ha Hb Hc. unfold later_max.
  pose proof (key_cmp_Gt a b Ha Hb) as H1. pose proof (key_cmp_Gt b c Hb Hc) as H2. pose proof (key_cmp_Gt a c Ha Hc) as H3.
  unfold key_le in *. destruct (key_cmp a b) eqn:E1, (key_cmp b c) eqn:E2; rewrite ?E1, ?E2; try done; destruct (key_cmp a c) eqn:E3; try done.
  all: exfalso; destruct_and?.
  all: repeat match goal with
    | H : f64_le ?x ?y = true, H' : f64_le ?y ?z = true, H'' : f64_le ?x ?z = false |- _ =>
        rewrite (f64_le_trans x y z H H') in H''; done
    end.
Qed.
End sort.

Section sort_lemmas.
Context {A : Type} (key : A -> f64).

Lemma max_by_cons a l : keyed key (a :: l) ->
  max_by key (a :: l) = Some (match max_by key l with Some z => later_max key a z | None => a end).
Proof.
  intros [Ha Hl]%Forall_cons. destruct l as [|b l]; [done|]. cbn. f_equal. apply Forall_cons in Hl as [Hb Hl].
  revert a b Ha Hb. induction Hl as [|c l Hc Hl IH]; intros a b Ha Hb; cbn; [done|].
  assert (forall x y, is_nan (key x) = false -> is_nan (key y) = false -> is_nan (key (later_max key x y)) = false) as Hm
    by (intros x y ? ?; unfold later_max; by destruct (key_cmp _ _ _)).
  rewrite <- later_max_assoc by done. apply IH; auto.
Qed.

Lemma last_insert_by a s : keyed key (a :: s) -> StronglySorted (key_le key) s ->
  last (insert_by key a s) = Some (match last s with Some z => later_max key a z | None => a end).
Proof.
  intros [Ha Hs]%Forall_cons Hsort. induction Hsort as [|b s Hss IH Hbs]; [done|]. apply Forall_cons in Hs as [Hb Hs].
  assert (Forall (fun c => key_cmp key a b <> Gt -> key_cmp key a c <> Gt) s) as Hle.
  { rewrite Forall_forall in *. intros c Hc H1 H2. pose proof (key_cmp_Gt key a b Ha Hb) as E1.
    pose proof (key_cmp_Gt key a c Ha (Hs c Hc)) as E2. rewrite H2 in E2. destruct E2 as [E2 _].
    assert (key_le key a b) as Hab by by destruct (key_cmp key a b).
    by rewrite (f64_le_trans _ _ _ Hab (Hbs c Hc)) in E2. }
  cbn [insert_by]. destruct s as [|c s].
  - unfold later_max. cbn. by destruct (key_cmp key a b).
  - destruct (key_cmp key a b) eqn:E.
    3: { specialize (IH Hs). change (last (b :: c :: s)) with (last (c :: s)). rewrite <- IH.
      assert (insert_by key a (c :: s) <> []) by (cbn; by destruct (key_cmp key a c)).
      by destruct (insert_by key a (c :: s)). }
    all: change (last (a :: b :: c :: s)) with (last (c :: s)); change (last (b :: c :: s)) with (last (c :: s)).
    all: destruct (last (c :: s)) as [z|] eqn:Ez; [|by apply last_None in Ez].
    all: apply last_Some_elem_of in Ez; rewrite Forall_forall in Hle; specialize (Hle z Ez ltac:(done)).
    all: unfold later_max; by destruct (key_cmp key a z).
Qed.

(** The last of the sorted elements is the maximum the library gives. *)
Lemma last_sort_by l : keyed key l -> last (sort_by key l) = max_by key l.
Proof.
  induction l as [|a l IH]; intros Hk; [done|]. rewrite max_by_cons by done. cbn [sort_by].
  pose proof Hk as [Ha Hl]%Forall_cons. rewrite <- IH by done. apply last_insert_by; [|by apply sort_by_sorted].
  constructor; [done|]. by rewrite sort_by_perm.
Qed.
End sort_lemmas.

(** ** Listings of peers *)

Section listings.
Context `{External} `{!MapIter PeerId PeerInfo}.

Definition peer_score (e : PeerId * PeerInfo) : f64 := Score_score (score e.2).

(** Peers and their data, in the order of the hash map. *)
Definition filtered_peers (is_status : PeerInfo -> bool) (db : PeerDB) : list (PeerId * PeerInfo) :=
  filter (fun e => is_status e.2 = true) (map_iter (peers db)).

Definition connected_peers : PeerDB -> list (PeerId * PeerInfo) := filtered_peers is_connected.

Definition worst_connected_peers (shuffle : list (PeerId * PeerInfo) -> list (PeerId * PeerInfo)) (db : PeerDB)
  : list (PeerId * PeerInfo) :=
  sort_by peer_score (shuffle (filtered_peers is_connected db)).

Definition best_peers_by_status (is_status : PeerInfo -> bool) (db : PeerDB) : list (PeerId * PeerInfo) :=
  rev (sort_by peer_score (filtered_peers is_status db)).

Definition best_by_status (is_status : PeerInfo -> bool) (db : PeerDB) : option PeerId :=
  fst <$> max_by peer_score (filtered_peers is_status db).

(** All scores are numbers. *)
Definition scores_numeric (db : PeerDB) : Prop :=
  map_Forall (fun _ i => is_nan (Score_score (score i)) = false) (peers db).

Lemma filtered_peers_spec is_status db p i :
  (p, i) ∈ filtered_peers is_status db <-> peers db !! p = Some i /\ is_status i = true.
Proof. unfold filtered_peers. rewrite list_elem_of_filter, elem_of_map_iter. cbn. tauto. Qed.

Lemma filtered_peers_keyed is_status db : scores_numeric db -> keyed peer_score (filtered_peers is_status db).
Proof. intros Hn. apply Forall_forall. intros [p i] [Hp _]%filtered_peers_spec. by apply (Hn p i). Qed.

Lemma worst_connected_perm shuffle db : (forall l, shuffle l ≡ₚ l) -> worst_connected_peers shuffle db ≡ₚ filtered_peers is_connected db.
Proof. intros Hs. unfold worst_connected_peers. by rewrite sort_by_perm. Qed.

Lemma worst_connected_sorted shuffle db : (forall l, shuffle l ≡ₚ l) -> scores_numeric db ->
  StronglySorted (key_le peer_score) (worst_connected_peers shuffle db).
Proof. intros Hs Hn. apply sort_by_sorted. unfold keyed. rewrite Hs. by apply filtered_peers_keyed. Qed.

(** The listing of the best peers holds each peer with the status once, from the highest score to the lowest, and
    the best peer, which the code finds without sorting, is the first of the listing. *)
Theorem best_peers_ranked is_status db : scores_numeric db ->
  let l := best_peers_by_status is_status db in
  (forall p i, (p, i) ∈ l <-> peers db !! p = Some i /\ is_status i = true) /\ NoDup (l.*1) /\
  StronglySorted (fun a b => key_le peer_score b a) l /\ best_by_status is_status db = fst <$> head l.
Proof.
  intros Hn l. pose proof (filtered_peers_keyed is_status db Hn) as Hk. split_and!.
  - intros p i. unfold l, best_peers_by_status. rewrite <- Permutation_rev, sort_by_perm. apply filtered_peers_spec.
  - unfold l, best_peers_by_status. rewrite <- Permutation_rev, sort_by_perm.
    eapply sublist_NoDup; [|apply fmap_sublist; apply sublist_filter]. apply map_iter_fst_NoDup.
  - unfold l, best_peers_by_status. pose proof (sort_by_sorted peer_score _ Hk) as Hs.
    induction Hs as [|a s Hs IH Ha]; cbn; [constructor|]. apply StronglySorted_snoc; [done|]. by rewrite <- Permutation_rev.
  - unfold best_by_status, l, best_peers_by_status. rewrite <- last_sort_by by done. f_equal.
    rewrite <- (reverse_involutive (sort_by _ _)) at 1. rewrite last_reverse. unfold reverse. by rewrite <- rev_alt.
Qed.
End listings.
