(* ===== verification/SubnetPruning.v ===== *)
(** * Pruning by subnets

    Models the second phase of [PeerManager::prune_excess_peers] in [peer_manager/mod.rs]: while there are more peers than wanted, a
    peer of the subnet with most peers is chosen, unless that would leave too few outbound peers or too
    few peers on a sync committee; a subnet without a suitable peer is given up. The theorems say
    that the loop ends, and what it never does. The code runs it on a map it has not filled. *)

From S2P Require Import Prelude External Float64 Score RpcTypes Client PeerInfo.

Definition MIN_SYNC_COMMITTEE_PEERS : Z := 2.

Section pruning.
Context `{External}.

(** The map of subnets in the order of its iteration; a sync committee by its number. *)
Record SubnetPruning : Type := mkSubnetPruning {
  subnet_to_peer : list (Subnet * list (PeerId * PeerInfo));
  sync_committee_peer_count : gmap Z Z;
  peer_to_sync_committee : gmap PeerId (gset Z);
  sp_to_prune : list PeerId;
  sp_outbound_pruned : Z;
}.

(** [max_by_key]: the last of the largest, by its index. *)
Fixpoint max_by_len (i : nat) (best : option (nat * nat)) (l : list (Subnet * list (PeerId * PeerInfo))) : option nat :=
  match l with
  | [] => option_map fst best
  | (_, peers) :: l =>
      max_by_len (S i) (match best with
                        | Some (j, len) => if (len <=? length peers)%nat then Some (i, length peers) else best
                        | None => Some (i, length peers)
                        end) l
  end.

(** [Iterator::min]. *)
Definition list_min (l : list Z) : option Z :=
  match l with [] => None | x :: l => Some (fold_left Z.min l x) end.

(** The committees of a peer that are counted, and the smallest of their counts. *)
Definition min_subnet_count (st : SubnetPruning) (p : PeerId) : option Z :=
  match peer_to_sync_committee st !! p with
  | Some subnets => list_min (omap (fun v => sync_committee_peer_count st !! v) (elements subnets))
  | None => None
  end.

Definition keep_candidate (target_outbound connected_outbound : Z) (st : SubnetPruning) (p : PeerId) (info : PeerInfo) : bool :=
  (is_outbound_only info && (saturating_sub connected_outbound (sp_outbound_pruned st) <=? target_outbound))
  || match min_subnet_count st p with Some n => n <=? MIN_SYNC_COMMITTEE_PEERS | None => false end.

(** The first peer that may go. *)
Definition find_candidate (target_outbound connected_outbound : Z) (st : SubnetPruning) (peers : list (PeerId * PeerInfo))
  : option (PeerId * PeerInfo) :=
  head (filter (fun e => keep_candidate target_outbound connected_outbound st e.1 e.2 = false) peers).

(** Removing a chosen peer from all subnets and counts. *)
Definition remove_candidate (p : PeerId) (info : PeerInfo) (st : SubnetPruning) : SubnetPruning :=
  mkSubnetPruning
    (map (fun e => (e.1, filter (fun q => q.1 <> p) e.2)) (subnet_to_peer st))
    (match peer_to_sync_committee st !! p with
     | Some known => fold_left (fun counts v => alter (fun n => saturating_sub n 1) v counts) (elements known) (sync_committee_peer_count st)
     | None => sync_committee_peer_count st
     end)
    (peer_to_sync_committee st)
    (if bool_decide (p ∈ sp_to_prune st) then sp_to_prune st else sp_to_prune st ++ [p])
    (if is_outbound_only info then sp_outbound_pruned st + 1 else sp_outbound_pruned st).

Definition clear_subnet (i : nat) (st : SubnetPruning) : SubnetPruning :=
  mkSubnetPruning (alter (fun e => (e.1, [])) i (subnet_to_peer st)) (sync_committee_peer_count st)
    (peer_to_sync_committee st) (sp_to_prune st) (sp_outbound_pruned st).

(** The [while] loop; the flag says whether it ended within the fuel. *)
Fixpoint prune_subnets (shuffle : nat -> list (PeerId * PeerInfo) -> list (PeerId * PeerInfo))
    (excess target_outbound connected_outbound : Z) (fuel : nat) (st : SubnetPruning) : SubnetPruning * bool :=
  match fuel with
  | O => (st, false)
  | S fuel =>
      if Z.of_nat (length (sp_to_prune st)) <? excess then
        match max_by_len 0 None (subnet_to_peer st) with
        | None => (st, true)
        | Some i =>
            match subnet_to_peer st !! i with
            | Some (_, (_ :: _) as peers) =>
                match find_candidate target_outbound connected_outbound st (shuffle fuel peers) with
                | Some (p, info) =>
                    prune_subnets shuffle excess target_outbound connected_outbound fuel (remove_candidate p info st)
                | None => prune_subnets shuffle excess target_outbound connected_outbound fuel (clear_subnet i st)
                end
            | _ => (st, true)
            end
        end
      else (st, true)
  end.

(** The phase as the code starts it: no map has been filled. *)
Definition second_phase (shuffle : nat -> list (PeerId * PeerInfo) -> list (PeerId * PeerInfo))
    (excess target_outbound connected_outbound : Z) (first : list PeerId * Z) : list PeerId :=
  if Z.of_nat (length first.1) <? excess then
    sp_to_prune (prune_subnets shuffle excess target_outbound connected_outbound 1
      (mkSubnetPruning [] ∅ ∅ first.1 first.2)).1
  else first.1.

Lemma second_phase_inert shuffle excess tgt outb first : second_phase shuffle excess tgt outb first = first.1.
Proof. unfold second_phase. destruct (_ <? _) eqn:E; [|done]. cbn. by rewrite E. Qed.

(** ** Termination *)

Definition entries (st : SubnetPruning) : nat := sum_list (map (fun e => length e.2) (subnet_to_peer st)).

Lemma sum_alter_clear (l : list (Subnet * list (PeerId * PeerInfo))) i s ps : l !! i = Some (s, ps) ->
  (sum_list (map (fun e => length e.2) (alter (fun e => (e.1, [])) i l)) + length ps = sum_list (map (fun e => length e.2) l))%nat.
Proof.
  revert i. induction l as [|e l IH]; intros i; [done|]. destruct i as [|i]; cbn.
  - intros [= ->]. cbn. lia.
  - intros Hi. specialize (IH i Hi). unfold alter, list_alter in *. lia.
Qed.

Lemma filter_length_le {A} (P : A -> Prop) `{!forall x, Decision (P x)} (l : list A) : (length (filter P l) <= length l)%nat.
Proof. induction l as [|a l IH]; [done|]. rewrite filter_cons. case_decide; cbn; lia. Qed.

Lemma sum_filter_le (p : PeerId) (l : list (Subnet * list (PeerId * PeerInfo))) :
  (sum_list (map (fun e => length e.2) (map (fun e => (e.1, filter (fun q => q.1 <> p) e.2)) l)) <= sum_list (map (fun e => length e.2) l))%nat.
Proof.
  induction l as [|[s ps] l IH]; cbn; [done|]. pose proof (filter_length_le (fun q : PeerId * PeerInfo => q.1 <> p) ps). lia.
Qed.

Lemma filter_length_lt (p : PeerId) (ps : list (PeerId * PeerInfo)) info : (p, info) ∈ ps ->
  (length (filter (fun q => q.1 <> p) ps) < length ps)%nat.
Proof.
  induction ps as [|q ps IH]; [set_solver|]. intros [<-|Hin]%elem_of_cons; rewrite filter_cons.
  - rewrite decide_False by (cbn; tauto). cbn. pose proof (filter_length_le (fun q : PeerId * PeerInfo => q.1 <> p) ps). lia.
  - specialize (IH Hin). case_decide; cbn; lia.
Qed.

Lemma sum_filter_lt (p : PeerId) info l i s ps : l !! i = Some (s, ps) -> (p, info) ∈ ps ->
  (sum_list (map (fun e => length e.2) (map (fun e : Subnet * list (PeerId * PeerInfo) => (e.1, filter (fun q => q.1 <> p) e.2)) l))
   < sum_list (map (fun e => length e.2) l))%nat.
Proof.
  revert i. induction l as [|[s' ps'] l IH]; intros i; [done|]. destruct i as [|i]; cbn.
  - intros [= -> ->] Hin. pose proof (filter_length_lt p ps info Hin). pose proof (sum_filter_le p l). lia.
  - intros Hi Hin. specialize (IH i Hi Hin). pose proof (filter_length_le (fun q : PeerId * PeerInfo => q.1 <> p) ps'). lia.
Qed.

Lemma find_candidate_spec tgt outb st peers p info : find_candidate tgt outb st peers = Some (p, info) ->
  (p, info) ∈ peers /\ keep_candidate tgt outb st p info = false.
Proof.
  unfold find_candidate. destruct (filter _ peers) as [|e l] eqn:E; [done|]. intros [= ->].
  assert ((p, info) ∈ filter (fun e => keep_candidate tgt outb st e.1 e.2 = false) peers) as Hin by (rewrite E; by left).
  by apply list_elem_of_filter in Hin as [Hk Hin].
Qed.

(** ** What the loop keeps *)

Definition on_subnet (st : SubnetPruning) (p : PeerId) : Prop :=
  exists s ps info, (s, ps) ∈ subnet_to_peer st /\ (p, info) ∈ ps.

(** Peers chosen before are on no subnet any more. *)
Definition pruning_ok (st : SubnetPruning) : Prop :=
  NoDup (sp_to_prune st) /\ (forall p, p ∈ sp_to_prune st -> ~ on_subnet st p) /\ 0 <= sp_outbound_pruned st.

(** The smaller of a count and the minimum is never undercut. *)
Definition committees_kept (counts counts' : gmap Z Z) : Prop :=
  forall v n, counts !! v = Some n -> exists n', counts' !! v = Some n' /\ Z.min n MIN_SYNC_COMMITTEE_PEERS <= n'.

Record pruned (excess target_outbound connected_outbound : Z) (st st' : SubnetPruning) : Prop := {
  pr_extends : exists extra, sp_to_prune st' = sp_to_prune st ++ extra /\ Forall (on_subnet st) extra;
  pr_length : Z.of_nat (length (sp_to_prune st')) <= Z.max (Z.of_nat (length (sp_to_prune st))) excess;
  pr_outbound : sp_outbound_pruned st <= sp_outbound_pruned st' <= Z.max (sp_outbound_pruned st) (connected_outbound - target_outbound);
  pr_committees : committees_kept (sync_committee_peer_count st) (sync_committee_peer_count st');
}.

Lemma committees_kept_refl counts : committees_kept counts counts.
Proof. intros v n Hv. exists n. split; [done|lia]. Qed.

Lemma pruned_refl e t o st : pruned e t o st st.
Proof. split; [exists []; by rewrite app_nil_r|lia|lia|apply committees_kept_refl]. Qed.

Lemma pruned_trans e t o st st1 st2 : (forall p, on_subnet st1 p -> on_subnet st p) ->
  pruned e t o st st1 -> pruned e t o st1 st2 -> pruned e t o st st2.
Proof.
  intros Hs [ (x1 & E1 & F1) L1 O1 C1] [ (x2 & E2 & F2) L2 O2 C2]. split; [|lia|lia|].
  - exists (x1 ++ x2). rewrite E2, E1, app_assoc. split; [done|]. apply Forall_app. split; [done|]. eapply Forall_impl; [exact F2|auto].
  - intros v n Hv. destruct (C1 v n Hv) as (n1 & Hv1 & ?), (C2 v n1 Hv1) as (n2 & Hv2 & ?). exists n2. split; [done|lia].
Qed.

Lemma list_min_le l x y : x ∈ l -> list_min l = Some y -> y <= x.
Proof.
  destruct l as [|z l]; [set_solver|]. intros Hin [= <-].
  assert (forall l a, fold_left Z.min l a <= a /\ forall b, b ∈ l -> fold_left Z.min l a <= b) as Hf.
  { clear. induction l as [|c l IH]; intros a; cbn; [split; [lia|set_solver]|]. destruct (IH (Z.min a c)) as [H1 H2].
    split; [lia|]. intros b [->|Hb]%elem_of_cons; [lia|auto]. }
  destruct (Hf l z) as [H1 H2]. apply elem_of_cons in Hin as [->|Hin]; [exact H1|exact (H2 x Hin)].
Qed.

(** Lowering the counts of committees that are above the minimum. *)
Lemma lower_counts (known : list Z) : forall counts, NoDup known ->
  (forall v n, v ∈ known -> counts !! v = Some n -> MIN_SYNC_COMMITTEE_PEERS < n) ->
  committees_kept counts (fold_left (fun counts v => alter (fun n => saturating_sub n 1) v counts) known counts).
Proof.
  induction known as [|v known IH]; intros counts Hnd Hk; cbn; [apply committees_kept_refl|].
  apply NoDup_cons in Hnd as [Hv Hnd]. intros u n Hu.
  destruct (IH (alter (fun n => saturating_sub n 1) v counts) Hnd) with (v := u) (n := if decide (u = v) then saturating_sub n 1 else n) as (n' & Hn' & Hle).
  - intros w k Hw Hk'. rewrite lookup_alter_ne in Hk' by (intros ->; done). eapply Hk; [by right|exact Hk'].
  - case_decide as Hd; [subst u; by rewrite lookup_alter_eq, Hu|by rewrite lookup_alter_ne by done].
  - exists n'. split; [done|]. case_decide as Hd; [|done]. subst u. specialize (Hk v n ltac:(by left) Hu).
    unfold MIN_SYNC_COMMITTEE_PEERS in *. assert (2 <= saturating_sub n 1) by sat_arith. lia.
Qed.

Lemma remove_candidate_ok e t o p info st : pruning_ok st -> on_subnet st p -> 0 <= o < 2 ^ 64 -> 0 <= t ->
  Z.of_nat (length (sp_to_prune st)) < e -> keep_candidate t o st p info = false ->
  pruning_ok (remove_candidate p info st) /\ pruned e t o st (remove_candidate p info st) /\
  (forall q, on_subnet (remove_candidate p info st) q -> on_subnet st q).
Proof.
  intros (Hnd & Hdis & Ho) Hp Hr Ht Hl Hk. assert (p ∉ sp_to_prune st) as Hnew by (intros Hin; by apply (Hdis p Hin)).
  assert (forall q, on_subnet (remove_candidate p info st) q -> on_subnet st q /\ q <> p) as Hsub.
  { intros q (s & ps & i & Hin & Hq). cbn in Hin. apply list_elem_of_fmap in Hin as ([s' ps'] & [= -> ->] & Hin).
    apply list_elem_of_filter in Hq as [Hne Hq]. split; [by exists s', ps', i|exact Hne]. }
  apply orb_false_iff in Hk as [Hout Hsync]. split; [|split; [|intros q Hq; by apply Hsub] ].
  - unfold pruning_ok. cbn [remove_candidate sp_to_prune sp_outbound_pruned]. rewrite bool_decide_eq_false_2 by done. split_and!.
    + apply NoDup_app. split_and!; [done|set_solver|apply NoDup_singleton].
    + intros q [Hq| ->%list_elem_of_singleton]%elem_of_app Hon; apply Hsub in Hon as [Hon Hne]; [by apply (Hdis q)|done].
    + destruct (is_outbound_only info); lia.
  - split; cbn [remove_candidate sp_to_prune sp_outbound_pruned sync_committee_peer_count]; rewrite ?bool_decide_eq_false_2 by done.
    + exists [p]. split; [done|]. by repeat constructor.
    + rewrite length_app. cbn. lia.
    + destruct (is_outbound_only info); cbn in Hout; [|lia]. apply Z.leb_gt in Hout. rewrite saturating_sub_spec in Hout by lia. lia.
    + destruct (peer_to_sync_committee st !! p) as [known|] eqn:Ek; [|apply committees_kept_refl].
      apply lower_counts; [apply NoDup_elements|]. intros v n Hv Hn. unfold min_subnet_count in Hsync. rewrite Ek in Hsync.
      assert (n ∈ omap (fun v => sync_committee_peer_count st !! v) (elements known)) as Hin by (apply list_elem_of_omap; eauto).
      destruct (list_min _) as [y|] eqn:Em; [|by destruct (omap _ _); [set_solver|] ].
      pose proof (list_min_le _ _ _ Hin Em). apply Z.leb_gt in Hsync. lia.
Qed.

Lemma clear_subnet_ok e t o i st : pruning_ok st ->
  pruning_ok (clear_subnet i st) /\ pruned e t o st (clear_subnet i st) /\ (forall q, on_subnet (clear_subnet i st) q -> on_subnet st q).
Proof.
  intros (Hnd & Hdis & Ho). assert (forall q, on_subnet (clear_subnet i st) q -> on_subnet st q) as Hsub.
  { intros q (s & ps & info & Hin & Hq). cbn in Hin. apply list_elem_of_lookup in Hin as [j Hj].
    destruct (decide (i = j)) as [->|Hne].
    - rewrite list_lookup_alter_eq in Hj. destruct (subnet_to_peer st !! j) as [ [? ?]|]; [|done]. cbn in Hj. injection Hj as <- <-. set_solver.
    - rewrite list_lookup_alter_ne in Hj by done. exists s, ps, info. split; [by eapply list_elem_of_lookup_2|done]. }
  split_and!; [|destruct (pruned_refl e t o st); by split|done]. split_and!; [done| |done]. intros p Hp Hon. by apply (Hdis p Hp), Hsub.
Qed.

(** The index is that of a largest subnet. *)
Lemma max_by_len_spec l : forall i best j, max_by_len i best l = Some j ->
  (exists k b, best = Some (k, b) /\ j = k /\ forall m s ps, l !! m = Some (s, ps) -> (length ps <= b)%nat) \/
  (exists m s ps, l !! m = Some (s, ps) /\ j = (i + m)%nat /\ (forall k b, best = Some (k, b) -> (b <= length ps)%nat) /\
     forall m' s' ps', l !! m' = Some (s', ps') -> (length ps' <= length ps)%nat).
Proof.
  induction l as [|[s ps] l IH]; intros i best j Hm; cbn in Hm.
  { destruct best as [ [k b]|]; [|done]. left. exists k, b. split_and!; [done|by injection Hm|]. intros m s ps. by rewrite lookup_nil. }
  apply IH in Hm as [ (k & b & Hb & -> & Hall)|(m & s1 & ps1 & Hm & -> & Hbest & Hall)].
  - destruct best as [ [k0 b0]|]; [destruct (Nat.leb_spec b0 (length ps))|]; injection Hb as <- <-.
    + right. exists 0%nat, s, ps. split_and!; [done|lia|by intros ? ? [= <- <-]|]. intros [|m'] s' ps' Hm'; [injection Hm' as -> ->; lia|by eapply Hall].
    + left. exists k0, b0. split_and!; [done..|]. intros [|m'] s' ps' Hm'; [injection Hm' as -> ->; lia|by eapply Hall].
    + right. exists 0%nat, s, ps. split_and!; [done|lia|done|]. intros [|m'] s' ps' Hm'; [injection Hm' as -> ->; lia|by eapply Hall].
  - right. exists (S m), s1, ps1. split_and!; [done|lia| |].
    + intros k b ->. destruct (Nat.leb_spec b (length ps)); [specialize (Hbest _ _ eq_refl); lia|by eapply Hbest].
    + intros [|m'] s' ps' Hm'; [|by eapply Hall]. injection Hm' as -> ->.
      destruct best as [ [k b]|]; [destruct (Nat.leb_spec b (length ps'))|]; specialize (Hbest _ _ eq_refl); lia.
Qed.

Lemma max_by_len_top l j : max_by_len 0 None l = Some j -> exists s ps, l !! j = Some (s, ps) /\
  forall m' s' ps', l !! m' = Some (s', ps') -> (length ps' <= length ps)%nat.
Proof. intros [ (k & b & [=] & _)|(m & s & ps & Hm & -> & _ & Hall)]%max_by_len_spec. by exists s, ps. Qed.

Lemma max_by_len_none l : max_by_len 0 None l = None -> l = [].
Proof.
  destruct l as [|[s ps] l]; [done|]. cbn. intros Hn. exfalso. revert Hn. generalize 1%nat (0%nat, length ps).
  induction l as [|[s' ps'] l IH]; intros i [k b]; cbn; [done|]. destruct (b <=? length ps')%nat; apply IH.
Qed.

Lemma sum_zero (l : list (Subnet * list (PeerId * PeerInfo))) : (forall m s ps, l !! m = Some (s, ps) -> length ps = 0%nat) ->
  sum_list (map (fun e => length e.2) l) = 0%nat.
Proof.
  induction l as [|[s ps] l IH]; intros Hl; cbn; [done|]. rewrite (Hl 0%nat s ps eq_refl), IH; [done|].
  intros m s' ps' Hm. by apply (Hl (S m) s' ps').
Qed.

(** C34: The loop that prunes by subnets ends after at most as many rounds as there are peers on the subnets, and one more. It stops with enough peers
    chosen or with no peer left on any subnet; every peer it chooses is on a subnet and is chosen
    once; it never chooses more peers than asked for, never so many outbound peers that fewer than the target
    remain, and never takes a sync committee below its minimum. *)
Theorem subnet_pruning_ends shuffle excess tgt outb : (forall n l, Permutation (shuffle n l) l) ->
  0 <= outb < 2 ^ 64 -> 0 <= tgt -> forall fuel st, pruning_ok st -> (entries st < fuel)%nat ->
  exists st', prune_subnets shuffle excess tgt outb fuel st = (st', true) /\
    pruned excess tgt outb st st' /\ NoDup (sp_to_prune st') /\
    (excess <= Z.of_nat (length (sp_to_prune st')) \/ entries st' = 0%nat).
Proof.
  intros Hsh Ho Ht. induction fuel as [|fuel IH]; intros st Hok Hf; [lia|]. cbn [prune_subnets].
  pose proof (pruned_refl excess tgt outb st) as Hrefl. pose proof Hok as (Hnd & _ & _).
  destruct (Z.ltb_spec (Z.of_nat (length (sp_to_prune st))) excess) as [Hl|Hl]; [|exists st; split_and!; auto].
  destruct (max_by_len 0 None (subnet_to_peer st)) as [i|] eqn:Em.
  2: { exists st. split_and!; [done..|]. right. unfold entries. by rewrite (max_by_len_none _ Em). }
  destruct (max_by_len_top _ _ Em) as (s & ps & Hi & Hmax). rewrite Hi. destruct ps as [|e ps].
  { exists st. split_and!; [done..|]. right. apply sum_zero. intros m s' ps' Hm. specialize (Hmax _ _ _ Hm). cbn in Hmax. lia. }
  set (peers := e :: ps) in *.
  assert (forall st1, pruning_ok st1 -> pruned excess tgt outb st st1 -> (forall q, on_subnet st1 q -> on_subnet st q) ->
    (entries st1 < entries st)%nat -> exists st', prune_subnets shuffle excess tgt outb fuel st1 = (st', true) /\
    pruned excess tgt outb st st' /\ NoDup (sp_to_prune st') /\ (excess <= Z.of_nat (length (sp_to_prune st')) \/ entries st' = 0%nat)) as next.
  { intros st1 Hok1 Hp1 Hs1 He1. destruct (IH st1 Hok1 ltac:(lia)) as (st' & Hst & Hp & Hn & Hend). exists st'.
    split_and!; [done|by eapply pruned_trans|done|done]. }
  destruct (find_candidate tgt outb st (shuffle fuel peers)) as [ [p info]|] eqn:Ec.
  - apply find_candidate_spec in Ec as [Hin Hk]. rewrite Hsh in Hin.
    assert (on_subnet st p) as Hon by (exists s, peers, info; split; [by eapply list_elem_of_lookup_2|done]).
    destruct (remove_candidate_ok excess tgt outb p info st Hok Hon Ho Ht Hl Hk) as (Hok1 & Hp1 & Hs1). apply next; [done..|].
    exact (sum_filter_lt p info _ i s peers Hi Hin).
  - destruct (clear_subnet_ok excess tgt outb i st Hok) as (Hok1 & Hp1 & Hs1). apply next; [done..|].
    pose proof (sum_alter_clear _ i s peers Hi) as Hsum. unfold entries, clear_subnet. cbn [subnet_to_peer]. cbn [length peers] in Hsum. lia.
Qed.
End pruning.

(** ** A run *)

#[local] Existing Instance demo_external.
Definition demo_entry (p : PeerId) : PeerId * PeerInfo := (p, PeerInfo_default 0).
Definition demo_pruning : SubnetPruning :=
  mkSubnetPruning [(Mempool "a", [demo_entry demo_peer; demo_entry demo_peer2]); (Mempool "b", [demo_entry demo_peer2])]
    {[1 := 3]} {[demo_peer2 := {[1]}]} [] 0.
Lemma subnet_pruning_ends_witness : exists st',
  prune_subnets (fun _ l => l) 2 5 3 4 demo_pruning = (st', true) /\ pruned 2 5 3 demo_pruning st' /\ NoDup (sp_to_prune st') /\
  (2 <= Z.of_nat (length (sp_to_prune st')) \/ entries st' = 0%nat).
Proof.
  apply (subnet_pruning_ends (fun _ l => l) 2 5 3 (fun _ l => Permutation_refl l) ltac:(lia) ltac:(lia) 4 demo_pruning); [|cbn; lia].
  split_and!; [constructor|by intros p ?%not_elem_of_nil|cbn; lia].
Defined.
Example demo_pruned : sp_to_prune (prune_subnets (fun _ l => l) 2 5 3 4 demo_pruning).1 = [demo_peer; demo_peer2].
Proof. vm_compute. reflexivity. Qed.
