(* ===== verification/PeerManager.v ===== *)
(** * The peer manager

    Models [src/peer_manager/mod.rs], [network_behaviour.rs], [config.rs] and
    the peer counts of [src/types/globals.rs]: reports and bans, discovered
    peers, connections and their limits, pings and metadata, pruning of excess
    peers, the heartbeat and [poll]. The state holds the peer database
    that the code shares behind a lock. Sets of peers with timers are the class
    [HashSetDelay]. The random shuffle of the connected peers is
    an argument; a dial names the node record, whose addresses are the swarm's
    business. Logs and metrics are left out. *)

From S2P Require Import Prelude Float64 Score External RpcTypes LruTimeCache Client PeerInfo PeerDB Ranking SubnetPruning.

(** [delay_map::HashSetDelay]: a set whose keys expire; inserting a key starts
    its timer again, and polling yields expired keys and removes them. *)
Class HashSetDelay (A : Type) `{Countable A} := {
  DelaySet : Type;
  ds_keys : DelaySet -> gset A;
  ds_new : Duration -> DelaySet;
  ds_insert : A -> DelaySet -> DelaySet;
  ds_remove : A -> DelaySet -> DelaySet;
  (** The timer of a key runs out. *)
  ds_expire : A -> DelaySet -> option DelaySet;

  ds_new_keys : forall d, ds_keys (ds_new d) = ∅;
  ds_insert_keys : forall a s, ds_keys (ds_insert a s) = {[a]} ∪ ds_keys s;
  ds_remove_keys : forall a s, ds_keys (ds_remove a s) = ds_keys s ∖ {[a]};
  ds_expire_spec : forall a s,
    match ds_expire a s with
    | Some s' => a ∈ ds_keys s /\ ds_keys s' = ds_keys s ∖ {[a]}
    | None => a ∉ ds_keys s
    end;
}.

(** The keys alone. *)
#[refine] Definition demo_delay_set (A : Type) `{Countable A} : HashSetDelay A := {|
  DelaySet := gset A;
  ds_keys := fun s => s;
  ds_new := fun _ => ∅;
  ds_insert := fun a s => {[a]} ∪ s;
  ds_remove := fun a s => s ∖ {[a]};
  ds_expire := fun a s => if decide (a ∈ s) then Some (s ∖ {[a]}) else None;
|}.
Proof. all: try done. intros a s. simpl. by case_decide. Defined.

(** ** Configuration ([config.rs]) *)

Definition DEFAULT_STATUS_INTERVAL : Z := 300.
Definition DEFAULT_PING_INTERVAL_OUTBOUND : Z := 15.
Definition DEFAULT_PING_INTERVAL_INBOUND : Z := 20.
Definition DEFAULT_TARGET_PEERS : Z := 50.

Record Config : Type := mkConfig {
  cfg_discovery_enabled : bool;
  cfg_metrics_enabled : bool;
  cfg_target_peer_count : Z;
  cfg_status_interval : Z;
  cfg_ping_interval_inbound : Z;
  cfg_ping_interval_outbound : Z;
}.

Definition Config_default : Config :=
  mkConfig true false DEFAULT_TARGET_PEERS DEFAULT_STATUS_INTERVAL DEFAULT_PING_INTERVAL_INBOUND
    DEFAULT_PING_INTERVAL_OUTBOUND.

(** ** Limits *)

Definition PEER_RECONNECTION_TIMEOUT : Duration := from_secs 600.
(** The [f32] nearest to the decimal fractions. *)
Definition PEER_EXCESS_FACTOR : f32 := f32_div (f32_of_Z 1) (f32_of_Z 10).
Definition TARGET_OUTBOUND_ONLY_FACTOR : f32 := f32_div (f32_of_Z 3) (f32_of_Z 10).
Definition MIN_OUTBOUND_ONLY_FACTOR : f32 := f32_div (f32_of_Z 2) (f32_of_Z 10).
Definition PRIORITY_PEER_EXCESS : f32 := f32_div (f32_of_Z 2) (f32_of_Z 10).

(** The limits for a number of target peers. *)
Definition max_peers (target_peers : Z) : Z :=
  f32_ceil_usize (f32_mul (f32_of_Z target_peers) (f32_add (f32_of_Z 1) PEER_EXCESS_FACTOR)).
Definition max_priority_peers (target_peers : Z) : Z :=
  f32_ceil_usize (f32_mul (f32_of_Z target_peers)
    (f32_add (f32_add (f32_of_Z 1) PEER_EXCESS_FACTOR) PRIORITY_PEER_EXCESS)).
Definition min_outbound_only_peers (target_peers : Z) : Z :=
  f32_ceil_usize (f32_mul (f32_of_Z target_peers) MIN_OUTBOUND_ONLY_FACTOR).
Definition target_outbound_peers (target_peers : Z) : Z :=
  f32_ceil_usize (f32_mul (f32_of_Z target_peers) TARGET_OUTBOUND_ONLY_FACTOR).
Definition max_outbound_dialing_peers (target_peers : Z) : Z :=
  f32_ceil_usize (f32_mul (f32_of_Z target_peers)
    (f32_add (f32_add (f32_of_Z 1) PEER_EXCESS_FACTOR)
      (f32_div PRIORITY_PEER_EXCESS (f32_of_Z 2)))).

Example default_limits :
  (max_peers 50, max_priority_peers 50, min_outbound_only_peers 50, target_outbound_peers 50,
   max_outbound_dialing_peers 50) = (55, 65, 10, 16, 61).
Proof. vm_compute. reflexivity. Qed.

(** ** State and events *)

Section manager.
Context `{External} `{Libm} `{!SetIter Multiaddr} `{!MapIter PeerId PeerInfo}
  `{!HashSetDelay PeerId}.

Inductive PeerManagerEvent : Type :=
| PeerConnectedIncoming (p : PeerId)
| PeerConnectedOutgoing (p : PeerId)
| PeerDisconnected (p : PeerId)
| EvStatus (p : PeerId)
| EvPing (p : PeerId)
| EvMetaData (p : PeerId)
| DisconnectPeer (p : PeerId) (reason : GoodbyeReason)
| EvBanned (p : PeerId) (ips : list IpAddr)
| EvUnBanned (p : PeerId) (ips : list IpAddr)
| DiscoverPeers (n : Z)
| DiscoverSubnetPeers (subnets : list (Subnet * option Instant)).

Record PeerManager : Type := mkPeerManager {
  pm_peers : PeerDB;
  pm_events : list PeerManagerEvent;
  inbound_ping_peers : DelaySet;
  outbound_ping_peers : DelaySet;
  status_peers : DelaySet;
  target_peers : Z;
  peers_to_dial : list Enr;
  temporary_banned_peers : LRUTimeCache PeerId;
  sync_committee_subnets : gmap Z Instant;
  discovery_enabled : bool;
  metrics_enabled : bool;
}.

Definition PeerManager_new (cfg : Config) (db : PeerDB) : PeerManager :=
  mkPeerManager db [] (ds_new (from_secs (cfg_ping_interval_inbound cfg)))
    (ds_new (from_secs (cfg_ping_interval_outbound cfg)))
    (ds_new (from_secs (cfg_status_interval cfg)))
    (cfg_target_peer_count cfg) [] (lru_new PEER_RECONNECTION_TIMEOUT) ∅
    (cfg_discovery_enabled cfg) (cfg_metrics_enabled cfg).

(** Field updates. *)
Definition set_peers (x : PeerDB) (m : PeerManager) : PeerManager :=
  let 'mkPeerManager db ev ip op sp tp pd tb sc de me := m in
  mkPeerManager x ev ip op sp tp pd tb sc de me.
Definition set_events (x : list PeerManagerEvent) (m : PeerManager) : PeerManager :=
  let 'mkPeerManager db ev ip op sp tp pd tb sc de me := m in
  mkPeerManager db x ip op sp tp pd tb sc de me.
Definition set_inbound_ping (x : DelaySet) (m : PeerManager) : PeerManager :=
  let 'mkPeerManager db ev ip op sp tp pd tb sc de me := m in
  mkPeerManager db ev x op sp tp pd tb sc de me.
Definition set_outbound_ping (x : DelaySet) (m : PeerManager) : PeerManager :=
  let 'mkPeerManager db ev ip op sp tp pd tb sc de me := m in
  mkPeerManager db ev ip x sp tp pd tb sc de me.
Definition set_status (x : DelaySet) (m : PeerManager) : PeerManager :=
  let 'mkPeerManager db ev ip op sp tp pd tb sc de me := m in
  mkPeerManager db ev ip op x tp pd tb sc de me.
Definition set_to_dial (x : list Enr) (m : PeerManager) : PeerManager :=
  let 'mkPeerManager db ev ip op sp tp pd tb sc de me := m in
  mkPeerManager db ev ip op sp tp x tb sc de me.
Definition set_temporary (x : LRUTimeCache PeerId) (m : PeerManager) : PeerManager :=
  let 'mkPeerManager db ev ip op sp tp pd tb sc de me := m in
  mkPeerManager db ev ip op sp tp pd x sc de me.
Definition set_sync_subnets (x : gmap Z Instant) (m : PeerManager) : PeerManager :=
  let 'mkPeerManager db ev ip op sp tp pd tb sc de me := m in
  mkPeerManager db ev ip op sp tp pd tb x de me.

Definition push_event (e : PeerManagerEvent) (m : PeerManager) : PeerManager :=
  set_events (pm_events m ++ [e]) m.

(** The counts of [NetworkGlobals]. *)
Definition connected_count (db : PeerDB) : Z := Z.of_nat (length (connected_peer_ids db)).
Definition outbound_only_count (db : PeerDB) : Z :=
  Z.of_nat (length (connected_outbound_only_peers db)).
Definition connected_or_dialing_count (db : PeerDB) : Z :=
  Z.of_nat (length (connected_or_dialing_peers db)).

(** ** Reports and bans *)

Definition is_unban_of (p : PeerId) (e : PeerManagerEvent) : bool :=
  match e with EvUnBanned q _ => bool_decide (q = p) | _ => false end.

Definition handle_ban_operation (now : Instant) (p : PeerId) (op : BanOperation)
    (reason : option GoodbyeReason) (m : PeerManager) : outcome PeerManager :=
  match op with
  | TemporaryBan =>
      if target_peers m <=? connected_count (pm_peers m) then
        r <-! lru_raw_insert now p (temporary_banned_peers m) ;
        Ret (push_event (EvBanned p []) (set_temporary r.1 m))
      else Ret m
  | DisconnectThePeer => Ret (push_event (DisconnectPeer p (default BadScore reason)) m)
  | PeerDisconnecting => Ret m
  | ReadyToBan banned_ips =>
      r <-! lru_raw_remove p (temporary_banned_peers m) ;
      let m1 := set_temporary r.1 m in
      if negb r.2 then
        let events := pm_events m1 ++ [EvBanned p banned_ips] in
        Ret (set_events (filter (fun e => is_unban_of p e = false) events) m1)
      else Ret m1
  end.

Definition handle_score_action (now : Instant) (p : PeerId) (action : ScoreUpdateResult)
    (reason : option GoodbyeReason) (m : PeerManager) : outcome PeerManager :=
  match action with
  | UpdBan op => handle_ban_operation now p op reason m
  | UpdDisconnect =>
      let m1 := set_inbound_ping (ds_remove p (inbound_ping_peers m)) m in
      let m2 := set_outbound_ping (ds_remove p (outbound_ping_peers m1)) m1 in
      Ret (push_event (DisconnectPeer p BadScore) m2)
  | UpdNoAction => Ret m
  | UpdUnbanned unbanned_ips => Ret (push_event (EvUnBanned p unbanned_ips) m)
  end.

Definition pm_report_peer (now : Instant) (p : PeerId) (action : PeerAction)
    (reason : option GoodbyeReason) (m : PeerManager) : outcome PeerManager :=
  let '(result, db) := report_peer now p action (pm_peers m) in
  handle_score_action now p result reason (set_peers db m).

Definition goodbye_peer (now : Instant) (p : PeerId) (reason : GoodbyeReason) (m : PeerManager)
  : outcome PeerManager :=
  pm_report_peer now p Fatal (Some reason) m.

(** The loops over the results of score updates. *)
Fixpoint handle_score_actions (now : Instant) (actions : list (PeerId * ScoreUpdateResult))
    (m : PeerManager) : outcome PeerManager :=
  match actions with
  | [] => Ret m
  | (p, action) :: actions' =>
      m1 <-! handle_score_action now p action None m ;
      handle_score_actions now actions' m1
  end.

Definition pm_update_gossipsub_scores (now : Instant) (peer_score : PeerId -> option f64)
    (sort : list (PeerId * f64) -> list (PeerId * f64)) (m : PeerManager) : outcome PeerManager :=
  let '(actions, db) :=
    update_gossipsub_scores now (target_peers m) peer_score sort (pm_peers m) in
  handle_score_actions now actions (set_peers db m).

(** The action an RPC error leads to, if any. *)
Definition rpc_error_action (protocol : Protocol) (err : RPCError) (direction : ConnectionDirection)
  : option PeerAction :=
  match err with
  | IncompleteStream => Some MidToleranceError
  | InternalError _ => None
  | HandlerRejected => Some Fatal
  | InvalidData _ => Some Fatal
  | IoError _ => Some HighToleranceError
  | ErrorResponse code _ =>
      match code with
      | UnknownCode => Some HighToleranceError
      | ResourceUnavailable =>
          match direction with Outgoing => Some Fatal | Incoming => None end
      | ServerError => Some MidToleranceError
      | InvalidRequest => Some LowToleranceError
      | RateLimited =>
          match protocol with
          | PingProtocol | PooledUserOpHashesProtocol | PooledUserOpsByHashProtocol =>
              Some MidToleranceError
          | Goodbye | MetaDataProtocol | Status => Some LowToleranceError
          end
      end
  | SSZDecodeError _ => Some Fatal
  | UnsupportedProtocol =>
      match protocol with
      | PingProtocol | MetaDataProtocol | Status => Some Fatal
      | PooledUserOpHashesProtocol | PooledUserOpsByHashProtocol | Goodbye => None
      end
  | StreamTimeout =>
      match direction with
      | Incoming => None
      | Outgoing =>
          match protocol with
          | PingProtocol => Some LowToleranceError
          | PooledUserOpHashesProtocol | PooledUserOpsByHashProtocol => Some MidToleranceError
          | Goodbye | MetaDataProtocol | Status => None
          end
      end
  | NegotiationTimeout => Some LowToleranceError
  | Disconnected_ => None
  end.

Definition handle_rpc_error (now : Instant) (p : PeerId) (protocol : Protocol) (err : RPCError)
    (direction : ConnectionDirection) (m : PeerManager) : outcome PeerManager :=
  match rpc_error_action protocol err direction with
  | Some action => pm_report_peer now p action None m
  | None => Ret m
  end.

(** ** Discovered peers *)

Definition dial_peer (e : Enr) (m : PeerManager) : PeerManager :=
  if should_dial (pm_peers m) (enr_peer_id e) then set_to_dial (peers_to_dial m ++ [e]) m else m.

(** The loop of [peers_discovered]. *)
Fixpoint dial_discovered (now : Instant) (connected_or_dialing : Z)
    (results : list (Enr * option Instant)) (to_dial_peers : Z) (m : PeerManager) : PeerManager :=
  match results with
  | [] => m
  | (e, min_ttl) :: results' =>
      if (bool_decide (is_Some min_ttl) &&
          (connected_or_dialing + to_dial_peers <? max_priority_peers (target_peers m)))
         || (connected_or_dialing + to_dial_peers <? max_peers (target_peers m))
      then
        let m1 := match min_ttl with
          | Some ttl => set_peers (update_min_ttl now (enr_peer_id e) ttl (pm_peers m)) m
          | None => m
          end in
        dial_discovered now connected_or_dialing results' (to_dial_peers + 1) (dial_peer e m1)
      else dial_discovered now connected_or_dialing results' to_dial_peers m
  end.

Definition peers_discovered (now : Instant) (results : list (Enr * option Instant))
    (m : PeerManager) : PeerManager :=
  dial_discovered now (connected_or_dialing_count (pm_peers m)) results 0 m.

Definition peer_statusd (p : PeerId) (m : PeerManager) : PeerManager :=
  set_status (ds_insert p (status_peers m)) m.

Definition add_sync_subnet (subnet_id : Z) (min_ttl : Instant) (m : PeerManager) : PeerManager :=
  match sync_committee_subnets m !! subnet_id with
  | None => set_sync_subnets (<[subnet_id := min_ttl]> (sync_committee_subnets m)) m
  | Some old =>
      if old <? min_ttl
      then set_sync_subnets (<[subnet_id := min_ttl]> (sync_committee_subnets m)) m else m
  end.

(** [peer_limit_reached]. *)
Definition peer_limit_reached (count_dialing : bool) (m : PeerManager) : bool :=
  if count_dialing
  then max_peers (target_peers m) <=? connected_or_dialing_count (pm_peers m)
  else max_outbound_dialing_peers (target_peers m) <=? connected_count (pm_peers m).

(** ** Identification, pings and metadata *)

Definition identify (p : PeerId) (listen_addrs : list Multiaddr) (info : IdentifyInfo)
    (m : PeerManager) : PeerManager :=
  match peers (pm_peers m) !! p with
  | Some i =>
      set_peers (set_peer p (set_client (Client_from_identify_info info)
        (set_listening_addresses listen_addrs i).2) (pm_peers m)) m
  | None => m
  end.

(** Ask for metadata newer than what is known. *)
Definition request_metadata (p : PeerId) (i : PeerInfo) (seq : Z) (m : PeerManager) : PeerManager :=
  match meta_data i with
  | Some md => if seq_number md <? seq then push_event (EvMetaData p) m else m
  | None => push_event (EvMetaData p) m
  end.

Definition ping_request (p : PeerId) (seq : Z) (m : PeerManager) : PeerManager :=
  match peers (pm_peers m) !! p with
  | Some i =>
      let m1 := match connection_direction i with
        | Some Incoming => set_inbound_ping (ds_insert p (inbound_ping_peers m)) m
        | Some Outgoing => set_outbound_ping (ds_insert p (outbound_ping_peers m)) m
        | None => m
        end in
      request_metadata p i seq m1
  | None => m
  end.

Definition pong_response (p : PeerId) (seq : Z) (m : PeerManager) : PeerManager :=
  match peers (pm_peers m) !! p with
  | Some i => request_metadata p i seq m
  | None => m
  end.

Definition meta_data_response (p : PeerId) (md : MetaData) (m : PeerManager) : PeerManager :=
  match peers (pm_peers m) !! p with
  | Some i => set_peers (set_peer p (set_meta_data md i) (pm_peers m)) m
  | None => m
  end.

(** ** Connections *)

Inductive ConnectingType : Type :=
| ConnDialing
| IngoingConnected (multiaddr : Multiaddr)
| OutgoingConnected (multiaddr : Multiaddr).

Definition inject_peer_connection (now : Instant) (p : PeerId) (connection : ConnectingType)
    (e : option Enr) (m : PeerManager) : PeerManager :=
  match connection with
  | ConnDialing => set_peers (dialing_peer now p e (pm_peers m)) m
  | IngoingConnected a =>
      let m1 := set_peers (db_connect_ingoing now p a e (pm_peers m)) m in
      let m2 := set_inbound_ping (ds_insert p (inbound_ping_peers m1)) m1 in
      set_status (ds_insert p (status_peers m2)) m2
  | OutgoingConnected a =>
      let m1 := set_peers (db_connect_outgoing now p a e (pm_peers m)) m in
      let m2 := set_outbound_ping (ds_insert p (outbound_ping_peers m1)) m1 in
      set_status (ds_insert p (status_peers m2)) m2
  end.

Definition inject_connect_ingoing (now : Instant) (p : PeerId) (a : Multiaddr) (e : option Enr)
    (m : PeerManager) : PeerManager := inject_peer_connection now p (IngoingConnected a) e m.
Definition inject_connect_outgoing (now : Instant) (p : PeerId) (a : Multiaddr) (e : option Enr)
    (m : PeerManager) : PeerManager := inject_peer_connection now p (OutgoingConnected a) e m.

Definition pm_inject_disconnect (now : Instant) (p : PeerId) (m : PeerManager)
  : outcome PeerManager :=
  let '(ban_operation, purged_peers, db) := inject_disconnect now p (pm_peers m) in
  let m0 := set_peers db m in
  m1 <-! match ban_operation with
         | Some op => handle_ban_operation now p op None m0
         | None => Ret m0
         end ;
  let m2 := set_inbound_ping (ds_remove p (inbound_ping_peers m1)) m1 in
  let m3 := set_outbound_ping (ds_remove p (outbound_ping_peers m2)) m2 in
  let m4 := set_status (ds_remove p (status_peers m3)) m3 in
  Ret (set_events (pm_events m4 ++ map (fun e => EvUnBanned e.1 e.2) purged_peers) m4).

Definition disconnect_peer (now : Instant) (p : PeerId) (reason : GoodbyeReason) (m : PeerManager)
  : PeerManager :=
  let m1 := push_event (DisconnectPeer p reason) m in
  set_peers (notify_disconnecting now p false (pm_peers m1)) m1.

(** [libp2p::core::ConnectedPoint] with the address of the peer. *)
Inductive ConnectedPoint : Type :=
| Dialer (address : Multiaddr)
| Listener (send_back_addr : Multiaddr).

Definition is_listener (endpoint : ConnectedPoint) : bool :=
  match endpoint with Listener _ => true | Dialer _ => false end.

Definition on_connection_established (now : Instant) (p : PeerId) (endpoint : ConnectedPoint)
    (other_established : Z) (m : PeerManager) : outcome PeerManager :=
  let m0 := if other_established =? 0 then push_event (EvMetaData p) m else m in
  match ban_status (pm_peers m0) p with
  | BanBadScore =>
      m1 <-! goodbye_peer now p GoodbyeBanned m0 ;
      Ret (push_event (EvBanned p []) m1)
  | BannedIp _ => goodbye_peer now p BannedIP m0
  | NotBanned =>
      if peer_limit_reached (is_listener endpoint) m0 then
        Ret (disconnect_peer now p TooManyPeers m0)
      else
        match endpoint with
        | Listener a =>
            Ret (push_event (PeerConnectedIncoming p) (inject_connect_ingoing now p a None m0))
        | Dialer a =>
            Ret (push_event (PeerConnectedOutgoing p) (inject_connect_outgoing now p a None m0))
        end
  end.

Definition on_connection_closed (now : Instant) (p : PeerId) (remaining_established : Z)
    (m : PeerManager) : outcome PeerManager :=
  if 0 <? remaining_established then Ret m
  else
    let m1 := if db_is_connected_or_disconnecting (pm_peers m) p
              then push_event (PeerDisconnected p) m else m in
    pm_inject_disconnect now p m1.

Definition on_dial_failure (now : Instant) (peer_id : option PeerId) (m : PeerManager)
  : outcome PeerManager :=
  match peer_id with
  | Some p => if negb (db_is_connected (pm_peers m) p) then pm_inject_disconnect now p m else Ret m
  | None => Ret m
  end.

Inductive FromSwarm : Type :=
| ConnectionEstablished (p : PeerId) (endpoint : ConnectedPoint) (other_established : Z)
| ConnectionClosed (p : PeerId) (endpoint : ConnectedPoint) (remaining_established : Z)
| DialFailure (p : option PeerId)
| OtherSwarmEvent.

Definition on_swarm_event (now : Instant) (event : FromSwarm) (m : PeerManager)
  : outcome PeerManager :=
  match event with
  | ConnectionEstablished p endpoint n => on_connection_established now p endpoint n m
  | ConnectionClosed p _ n => on_connection_closed now p n m
  | DialFailure p => on_dial_failure now p m
  | OtherSwarmEvent => Ret m
  end.

(** ** Maintenance *)

Definition maintain_peer_count (dialing_peers : Z) (m : PeerManager) : PeerManager :=
  if discovery_enabled m then
    let peer_count := connected_or_dialing_count (pm_peers m) in
    let wanted_peers :=
      if peer_count <? saturating_sub (target_peers m) dialing_peers then
        wrap usize (saturating_sub (target_peers m) dialing_peers - peer_count)
      else if (outbound_only_count (pm_peers m) <? min_outbound_only_peers (target_peers m))
              && (peer_count <? max_outbound_dialing_peers (target_peers m)) then
        wrap usize
          (saturating_sub (max_outbound_dialing_peers (target_peers m)) dialing_peers - peer_count)
      else 0 in
    if negb (wanted_peers =? 0) then push_event (DiscoverPeers wanted_peers) m else m
  else m.

(** The loop of the macro [prune_peers!]: the peers to prune so far, in the
    order they were chosen, and the number of outbound-only ones among them. *)
Fixpoint prune_peers (excess target_outbound connected_outbound : Z)
    (candidates : list (PeerId * PeerInfo)) (to_prune : list PeerId) (outbound_pruned : Z)
  : list PeerId * Z :=
  match candidates with
  | [] => (to_prune, outbound_pruned)
  | (p, i) :: candidates' =>
      if excess <=? Z.of_nat (length to_prune) then (to_prune, outbound_pruned)
      else if bool_decide (p ∈ to_prune) then
        prune_peers excess target_outbound connected_outbound candidates' to_prune outbound_pruned
      else if is_outbound_only i then
        if target_outbound + outbound_pruned <? connected_outbound then
          prune_peers excess target_outbound connected_outbound candidates' (to_prune ++ [p])
            (outbound_pruned + 1)
        else
          prune_peers excess target_outbound connected_outbound candidates' to_prune outbound_pruned
      else
        prune_peers excess target_outbound connected_outbound candidates' (to_prune ++ [p])
          outbound_pruned
  end.

(** The peers [prune_excess_peers] disconnects. Its second phase runs on an empty map of subnets
    ([SubnetPruning.second_phase]), so the shuffle of the peers of a subnet is never called. *)
Definition peers_to_prune (shuffle : list (PeerId * PeerInfo) -> list (PeerId * PeerInfo))
    (m : PeerManager) : list PeerId :=
  let connected := connected_count (pm_peers m) in
  if connected <=? target_peers m then []
  else
    let excess := saturating_sub connected (target_peers m) in
    let target_outbound := target_outbound_peers (target_peers m) in
    let connected_outbound := outbound_only_count (pm_peers m) in
    second_phase (fun _ l => l) excess target_outbound connected_outbound
      (prune_peers excess target_outbound connected_outbound
         (filter (fun e => negb (is_trusted e.2) && f64_lt (Score_score (score e.2)) (f64_of_Z 0) = true)
            (worst_connected_peers shuffle (pm_peers m))) [] 0).

(** [order] is the order in which the set of pruned peers is iterated over. *)
Definition prune_excess_peers (now : Instant)
    (shuffle : list (PeerId * PeerInfo) -> list (PeerId * PeerInfo))
    (order : list PeerId -> list PeerId) (m : PeerManager) : PeerManager :=
  foldl (fun m p => disconnect_peer now p TooManyPeers m) m (order (peers_to_prune shuffle m)).

Definition unban_temporary_banned_peers (now : Instant) (m : PeerManager) : PeerManager :=
  let '(cache, expired) := lru_remove_expired now (temporary_banned_peers m) in
  let m1 := set_temporary cache m in
  set_events (pm_events m1 ++ map (fun p => EvUnBanned p []) expired) m1.

(** The clock and the choices of one heartbeat: the readings for the scores,
    one reading for the rest, the shuffle of the connected peers and the order of the
    pruned ones. *)
Record HeartbeatEnv : Type := mkHeartbeatEnv {
  hb_now : Instant;
  hb_clock : PeerId -> Instant;
  hb_shuffle : list (PeerId * PeerInfo) -> list (PeerId * PeerInfo);
  hb_order : list PeerId -> list PeerId;
}.

Definition heartbeat (env : HeartbeatEnv) (m : PeerManager) : outcome PeerManager :=
  let m1 := maintain_peer_count 0 m in
  let m2 := set_peers (cleanup_dialing_peers (hb_now env) (pm_peers m1)) m1 in
  let '(actions, db) := update_scores (hb_clock env) (hb_now env) (pm_peers m2) in
  m3 <-! handle_score_actions (hb_now env) actions (set_peers db m2) ;
  let m4 := prune_excess_peers (hb_now env) (hb_shuffle env) (hb_order env) m3 in
  Ret (unban_temporary_banned_peers (hb_now env) m4).

(** ** [poll] *)

(** What the ping timers yield until they are pending: a peer or an error. *)
Fixpoint poll_pings (yielded : list (result PeerId string)) (s : DelaySet)
  : list PeerManagerEvent * DelaySet :=
  match yielded with
  | [] => ([], s)
  | Err _ :: yielded' => poll_pings yielded' s
  | Ok p :: yielded' =>
      match ds_expire p s with
      | Some s1 =>
          let '(events, s2) := poll_pings yielded' (ds_insert p s1) in (EvPing p :: events, s2)
      | None => poll_pings yielded' s
      end
  end.

Fixpoint heartbeats (envs : list HeartbeatEnv) (m : PeerManager) : outcome PeerManager :=
  match envs with
  | [] => Ret m
  | env :: envs' => m1 <-! heartbeat env m ; heartbeats envs' m1
  end.

Inductive ToSwarm : Type :=
| GenerateEvent (e : PeerManagerEvent)
| Dial (p : PeerId) (e : Enr).

(** [ticks] are the heartbeats that are due. *)
Definition pm_poll (now : Instant) (ticks : list HeartbeatEnv)
    (inbound outbound : list (result PeerId string)) (m : PeerManager)
  : outcome (poll ToSwarm * PeerManager) :=
  m0 <-! heartbeats ticks m ;
  let '(ev1, s1) := poll_pings inbound (inbound_ping_peers m0) in
  let m1 := set_events (pm_events m0 ++ ev1) (set_inbound_ping s1 m0) in
  let '(ev2, s2) := poll_pings outbound (outbound_ping_peers m1) in
  let m2 := set_events (pm_events m1 ++ ev2) (set_outbound_ping s2 m1) in
  match pm_events m2 with
  | e :: events => Ret (Ready (GenerateEvent e), set_events events m2)
  | [] =>
      match last (peers_to_dial m2) with
      | Some e =>
          let p := enr_peer_id e in
          let m3 := set_to_dial (removelast (peers_to_dial m2)) m2 in
          Ret (Ready (Dial p e), inject_peer_connection now p ConnDialing (Some e) m3)
      | None => Ret (Pending, m2)
      end
  end.
End manager.
