(* ===== verification/PeerManagerInv.v ===== *)
(** * Correctness of the peer manager

    Which peers are connected after each operation of the database, the
    invariant of the peer manager, and its preservation by every entry point:
    no panic, at most the maximal number of connections, a ping timer for every
    connected peer. *)

From S2P Require Import Prelude Float64 Score External RpcTypes LruTimeCache Client PeerInfo PeerDB.
From S2P Require Import PeerDBInv PeerDBProps PeerManager.

Section connected.
Context `{External} `{Libm} `{!SetIter Multiaddr} `{!MapIter PeerId PeerInfo}.
Implicit Types (db : PeerDB) (i : PeerInfo) (p : PeerId) (ps : gmap PeerId PeerInfo).

(** ** Connected peers of the database *)

(** No peer is connected that was not connected before. *)
Definition conn_le ps' ps : Prop :=
  forall p i', ps' !! p = Some i' -> is_connected i' = true ->
  exists i, ps !! p = Some i /\ is_connected i = true.

#[export] Instance conn_le_preorder : PreOrder conn_le.
Proof.
  split.
  - intros ps p i Hp Hc. eauto.
  - intros ps1 ps2 ps3 H1 H2 p i Hp Hc. destruct (H1 p i Hp Hc) as (j & Hj & Hcj). by apply (H2 p j).
Qed.

Lemma conn_le_insert p i' ps :
  (is_connected i' = true -> exists i, ps !! p = Some i /\ is_connected i = true) ->
  conn_le (<[p := i']> ps) ps.
Proof.
  intros Hi q j [[<- <-]|[_ Hq]]%lookup_insert_Some Hc; [by apply Hi|eauto].
Qed.

Lemma conn_le_submap ps' ps : ps' ⊆ ps -> conn_le ps' ps.
Proof. intros Hsub p i Hp Hc. exists i. split; [|done]. by eapply lookup_weaken. Qed.

Lemma conn_le_count ps' ps : conn_le ps' ps -> map_count is_connected ps' <= map_count is_connected ps.
Proof. intros Hle. apply map_count_le_subset. exact Hle. Qed.

Definition connects (st : NewConnectionState) : bool :=
  match st with NewConnected _ _ _ => true | _ => false end.
Definition disconnects (st : NewConnectionState) : bool :=
  match st with NewDisconnecting _ | NewDisconnected => true | _ => false end.

Lemma ucs_connected now p st db :
  exists i', peers (update_connection_state now p st db).2 = <[p := i']> (peers db) /\
    (connects st = false -> is_connected i' = true ->
     is_connected (entry_or_insert now db p) = true) /\
    (disconnects st = true -> is_connected i' = false).
Proof.
  set (i0 := entry_or_insert now db p). unfold update_connection_state. fold i0.
  destruct (ensure_banned_frame i0) as (Hes & _). set (ib := ensure_banned_score i0) in *.
  clearbody ib. clearbody i0. destruct i0 as [sc cl cs la sm md sn mt tr cd en].
  destruct ib as [sc' cl' cs' la' sm' md' sn' mt' tr' cd' en']. cbn in Hes. subst cs'.
  destruct st as [e addr dir|to_ban|e| | |]; cbn; destruct cs as [n1 n2|tb|t|t|t|]; cbn;
    try destruct tb; try destruct dir; try destruct e; cbn;
    eexists; (split; [reflexivity|]); by split.
Qed.

Lemma entry_connected now db p :
  is_connected (entry_or_insert now db p) = true ->
  exists i, peers db !! p = Some i /\ is_connected i = true.
Proof.
  unfold entry_or_insert. destruct (peers db !! p) as [i|]; [eauto|]. by case_match.
Qed.

Lemma ucs_conn_le now p st db :
  connects st = false -> conn_le (peers (update_connection_state now p st db).2) (peers db).
Proof.
  intros Hst. destruct (ucs_connected now p st db) as (i' & -> & Hi & _).
  apply conn_le_insert. intros Hc. eapply entry_connected. by apply Hi.
Qed.

(** A peer that is being disconnected is not connected. *)
Definition not_connected p db : Prop :=
  forall i, peers db !! p = Some i -> is_connected i = false.

Lemma not_connected_le p db db' :
  conn_le (peers db') (peers db) -> not_connected p db -> not_connected p db'.
Proof.
  intros Hle Hn i Hp. destruct (is_connected i) eqn:Hc; [|done].
  destruct (Hle p i Hp Hc) as (j & Hj & Hcj). rewrite (Hn j Hj) in Hcj. done.
Qed.

Lemma ucs_not_connected now p st db :
  disconnects st = true -> not_connected p (update_connection_state now p st db).2.
Proof.
  intros Hst i. destruct (ucs_connected now p st db) as (i' & -> & _ & Hd).
  rewrite lookup_insert_eq. intros [= <-]. by apply Hd.
Qed.

#[local] Opaque update_connection_state.

(** A record with the same status. *)
Lemma conn_le_same p i i' db :
  peers db !! p = Some i -> connection_status i' = connection_status i ->
  conn_le (peers (set_peer p i' db)) (peers db).
Proof.
  intros Hp Hs. apply conn_le_insert. unfold is_connected. rewrite Hs. eauto.
Qed.

Lemma report_conn now p a db :
  conn_le (peers (report_peer now p a db).2) (peers db) /\
  ((report_peer now p a db).1 = UpdDisconnect -> not_connected p (report_peer now p a db).2).
Proof.
  unfold report_peer. destruct (peers db !! p) as [i|] eqn:Hp; [|done].
  destruct (apply_action_frame a i) as (Hst & _).
  pose proof (conn_le_same p i _ db Hp Hst) as Hle.
  set (db1 := set_peer p (apply_peer_action_to_score a i) db) in *.
  destruct (handle_score_transition _ _); simpl; [| |done|done].
  - split; [|intros _; by apply ucs_not_connected].
    etrans; [by apply (ucs_conn_le now p (NewDisconnecting false))|done].
  - pose proof (ucs_conn_le now p NewBanned db1 eq_refl) as Hle2.
    destruct (update_connection_state now p NewBanned db1) as [op db2]. simpl in *.
    split; [by etrans|]. by destruct op.
Qed.

Lemma unban_all_conn now qs db :
  conn_le (peers (unban_all now qs db).2) (peers db) /\
  Forall (fun e => exists ips, e.2 = UpdUnbanned ips) (unban_all now qs db).1.
Proof.
  revert db. induction qs as [|p qs IH]; intros db; simpl; [done|].
  pose proof (ucs_conn_le now p NewUnbanned db eq_refl) as Hle.
  specialize (IH (update_connection_state now p NewUnbanned db).2).
  destruct (unban_all now qs _) as [rest db2]. simpl in *. destruct IH as [Hle2 Hf].
  split; [by etrans|]. constructor; eauto.
Qed.

Lemma update_scores_conn clock now db :
  conn_le (peers (update_scores clock now db).2) (peers db) /\
  Forall (fun e => exists ips, e.2 = UpdUnbanned ips) (update_scores clock now db).1.
Proof.
  unfold update_scores.
  match goal with |- context [unban_all now ?ps ?d] => destruct (unban_all_conn now ps d) as [Hle Hf] end.
  split; [|done]. etrans; [exact Hle|]. simpl. intros p i' Hp Hc.
  rewrite map_lookup_imap in Hp. destruct (peers db !! p) as [i|]; [|done]. simpl in Hp. simplify_eq.
  exists i. split; [done|]. destruct (same_score_update (clock p) i) as (Hs & _).
  unfold is_connected in *. by rewrite Hs in Hc.
Qed.

Lemma gossip_pass_conn now entries n ps : conn_le (gossip_pass now entries n ps).2 ps.
Proof.
  destruct (gossip_pass_same now entries n ps) as (Hd & Hs & _). intros p i' Hp Hc.
  assert (Hin : p ∈ dom ps) by (rewrite <- Hd; by eapply elem_of_dom_2).
  apply elem_of_dom in Hin as [i Hi]. exists i. split; [done|].
  destruct (Hs p i i' Hi Hp) as (Hst & _). unfold is_connected in *. by rewrite Hst in Hc.
Qed.

(** What the peer manager may assume of a list of score results. *)
Definition results_ok db (results : list (PeerId * ScoreUpdateResult)) : Prop :=
  Forall (fun e => e.2 = UpdDisconnect -> not_connected e.1 db) results.

Lemma gossip_actions_conn now acts db :
  conn_le (peers (gossip_actions now acts db).2) (peers db) /\
  results_ok (gossip_actions now acts db).2 (gossip_actions now acts db).1.
Proof.
  revert db. induction acts as [|[p a] acts IH]; intros db; simpl; [split; [done|constructor]|].
  assert (Hstep : forall r db1, conn_le (peers db1) (peers db) ->
    (r = UpdDisconnect -> not_connected p db1) ->
    let '(results, db2) := gossip_actions now acts db1 in
    conn_le (peers db2) (peers db) /\
    results_ok db2 (match r with UpdNoAction => results | _ => (p, r) :: results end)).
  { intros r db1 Hle Hr. specialize (IH db1). destruct (gossip_actions now acts db1) as [results db2].
    destruct IH as [Hle2 Hok]. simpl in *. split; [by etrans|].
    assert (Hcons : results_ok db2 ((p, r) :: results)).
    { constructor; [|done]. simpl. intros Hd. eapply not_connected_le; [done|auto]. }
    by destruct r. }
  destruct a; simpl.
  - specialize (Hstep UpdDisconnect _ (ucs_conn_le now p (NewDisconnecting false) db eq_refl)
      (fun _ => ucs_not_connected now p (NewDisconnecting false) db eq_refl)). by destruct (gossip_actions now acts _).
  - pose proof (ucs_conn_le now p NewBanned db eq_refl) as Hle.
    destruct (update_connection_state now p NewBanned db) as [op db1].
    specialize (Hstep (ScoreUpdateResult_from op) db1 Hle ltac:(destruct op; discriminate)).
    by destruct (gossip_actions now acts db1).
  - specialize (Hstep (UpdUnbanned
      (unbanned_addresses (update_connection_state now p NewUnbanned db).2 p)) _
      (ucs_conn_le now p NewUnbanned db eq_refl) ltac:(discriminate)). by destruct (gossip_actions now acts _).
  - specialize (Hstep UpdNoAction db (reflexivity _) ltac:(discriminate)). by destruct (gossip_actions now acts db).
Qed.

Lemma update_gossip_conn now n sc sort db :
  conn_le (peers (update_gossipsub_scores now n sc sort db).2) (peers db) /\
  results_ok (update_gossipsub_scores now n sc sort db).2
    (update_gossipsub_scores now n sc sort db).1.
Proof.
  unfold update_gossipsub_scores. set (entries := sort _).
  pose proof (gossip_pass_conn now entries (negative_allowance n) (peers db)) as Hle.
  destruct (gossip_pass now entries _ (peers db)) as [acts m]. simpl in Hle.
  set (db1 := mkPeerDB _ _ _ _). destruct (gossip_actions_conn now acts db1) as [Hle2 Hok].
  split; [|done]. by etrans.
Qed.

Lemma cleanup_conn now db : conn_le (peers (cleanup_dialing_peers now db)) (peers db).
Proof.
  unfold cleanup_dialing_peers. generalize (stale_dials now db) as qs. intros qs. revert db.
  induction qs as [|p qs IH]; intros db; simpl; [done|].
  etrans; [apply IH|by apply ucs_conn_le].
Qed.

Lemma inject_disconnect_conn now p db :
  conn_le (peers (inject_disconnect now p db).2) (peers db) /\
  not_connected p (inject_disconnect now p db).2.
Proof.
  unfold inject_disconnect.
  pose proof (ucs_conn_le now p NewDisconnected db eq_refl) as Hle.
  pose proof (ucs_not_connected now p NewDisconnected db eq_refl) as Hn.
  destruct (update_connection_state now p NewDisconnected db) as [op db1].
  pose proof (conn_le_submap _ _ (shrink_to_fit_sub db1)) as Hs.
  destruct (shrink_to_fit db1) as [purged db2]. simpl in *.
  split; [by etrans|by eapply not_connected_le].
Qed.

Lemma min_ttl_conn now p ttl db : conn_le (peers (update_min_ttl now p ttl db)) (peers db).
Proof.
  unfold update_min_ttl. simpl. apply conn_le_insert.
  destruct (peers db !! p) as [i|]; simpl; [|done].
  intros Hc. exists i. split; [done|]. revert Hc. unfold is_connected.
  repeat case_match; destruct i; simpl in *; by subst.
Qed.
End connected.

Section manager.
Context `{External} `{Libm} `{!SetIter Multiaddr} `{!MapIter PeerId PeerInfo}
  `{!HashSetDelay PeerId}.
Implicit Types (db : PeerDB) (i : PeerInfo) (p : PeerId) (m : PeerManager).

(** ** Invariant of the manager *)

Lemma count_with (f : PeerInfo -> bool) db :
  Z.of_nat (length (peers_with f db)) = map_count f (peers db).
Proof. unfold peers_with. rewrite length_map. apply length_filter_iter. Qed.

Lemma connected_count_eq db : connected_count db = map_count is_connected (peers db).
Proof. apply count_with. Qed.

(** The most peers that may be connected. *)
Definition connection_limit m : Z :=
  Z.max (max_peers (target_peers m)) (max_outbound_dialing_peers (target_peers m)).

(** Every connected peer has a ping timer. *)
Definition pinged m : Prop :=
  forall p i, peers (pm_peers m) !! p = Some i -> is_connected i = true ->
  p ∈ ds_keys (inbound_ping_peers m) ∪ ds_keys (outbound_ping_peers m).

Record pm_inv (t : Instant) (m : PeerManager) : Prop := {
  pi_cache : lru_inv t (temporary_banned_peers m);
  pi_limit : connected_count (pm_peers m) <= connection_limit m;
  pi_pinged : pinged m;
}.

Lemma inv_later t t' m : pm_inv t m -> t <= t' -> pm_inv t' m.
Proof. intros [Hc Hl Hp] Ht. split; [by eapply lru_inv_later|done|done]. Qed.

Lemma inv_set_peers t db m :
  pm_inv t m -> conn_le (peers db) (peers (pm_peers m)) -> pm_inv t (set_peers db m).
Proof.
  intros [Hc Hl Hp] Hle. destruct m. split; simpl in *; [done| |].
  - apply conn_le_count in Hle. rewrite connected_count_eq in *. unfold connection_limit in *. simpl in *. lia.
  - intros p i Hi Hcon. destruct (Hle p i Hi Hcon) as (j & Hj & Hcj). by apply (Hp p j).
Qed.

Lemma inv_set_events t ev m : pm_inv t m -> pm_inv t (set_events ev m).
Proof. destruct m. by intros []. Qed.
Lemma inv_push_event t e m : pm_inv t m -> pm_inv t (push_event e m).
Proof. apply inv_set_events. Qed.
Lemma inv_set_status t s m : pm_inv t m -> pm_inv t (set_status s m).
Proof. destruct m. by intros []. Qed.
Lemma inv_set_to_dial t l m : pm_inv t m -> pm_inv t (set_to_dial l m).
Proof. destruct m. by intros []. Qed.
Lemma inv_set_sync t s m : pm_inv t m -> pm_inv t (set_sync_subnets s m).
Proof. destruct m. by intros []. Qed.
Lemma inv_set_temporary t c m : pm_inv t m -> lru_inv t c -> pm_inv t (set_temporary c m).
Proof. destruct m. by intros []. Qed.

(** Timers may grow, and lose a peer that is not connected. *)
Lemma inv_inbound t s m :
  pm_inv t m -> (forall p, p ∈ ds_keys (inbound_ping_peers m) ->
    p ∈ ds_keys s \/ not_connected p (pm_peers m)) -> pm_inv t (set_inbound_ping s m).
Proof.
  intros [Hc Hl Hp] Hs. destruct m. split; simpl in *; [done|done|].
  intros p i Hi Hcon. pose proof (Hp p i Hi Hcon) as [Hin|Hout]%elem_of_union;
    apply elem_of_union; [|by right].
  destruct (Hs p Hin) as [?|Hn]; [by left|]. simpl in *. rewrite (Hn i Hi) in Hcon. done.
Qed.

Lemma inv_outbound t s m :
  pm_inv t m -> (forall p, p ∈ ds_keys (outbound_ping_peers m) ->
    p ∈ ds_keys s \/ not_connected p (pm_peers m)) -> pm_inv t (set_outbound_ping s m).
Proof.
  intros [Hc Hl Hp] Hs. destruct m. split; simpl in *; [done|done|].
  intros p i Hi Hcon. pose proof (Hp p i Hi Hcon) as [Hin|Hout]%elem_of_union;
    apply elem_of_union; [by left|].
  destruct (Hs p Hout) as [?|Hn]; [by right|]. simpl in *. rewrite (Hn i Hi) in Hcon. done.
Qed.

Lemma peers_set_inbound s m : pm_peers (set_inbound_ping s m) = pm_peers m.
Proof. by destruct m. Qed.
Lemma outbound_set_inbound s m : outbound_ping_peers (set_inbound_ping s m) = outbound_ping_peers m.
Proof. by destruct m. Qed.
Lemma peers_set_peers db m : pm_peers (set_peers db m) = db.
Proof. by destruct m. Qed.

(** Both ping timers of a peer that is not connected are removed. *)
Lemma inv_drop_pings t p m :
  pm_inv t m -> not_connected p (pm_peers m) ->
  let m1 := set_inbound_ping (ds_remove p (inbound_ping_peers m)) m in
  let m2 := set_outbound_ping (ds_remove p (outbound_ping_peers m1)) m1 in
  pm_inv t m2 /\ pm_peers m2 = pm_peers m.
Proof.
  intros Hi Hn. cbv zeta. split; [|by destruct m].
  assert (Hcase : forall (s : DelaySet) q, q ∈ ds_keys s ->
    q ∈ ds_keys (ds_remove p s) \/ not_connected q (pm_peers m)).
  { intros s q Hq. rewrite ds_remove_keys. destruct (decide (q = p)) as [->|]; [by right|left; set_solver]. }
  apply inv_outbound.
  - apply inv_inbound; [done|]. intros q. apply Hcase.
  - rewrite peers_set_inbound. intros q. apply Hcase.
Qed.

Lemma inv_insert_inbound t p m :
  pm_inv t m -> pm_inv t (set_inbound_ping (ds_insert p (inbound_ping_peers m)) m).
Proof. intros Hi. apply inv_inbound; [done|]. intros q Hq. left. rewrite ds_insert_keys. set_solver. Qed.
Lemma inv_insert_outbound t p m :
  pm_inv t m -> pm_inv t (set_outbound_ping (ds_insert p (outbound_ping_peers m)) m).
Proof. intros Hi. apply inv_outbound; [done|]. intros q Hq. left. rewrite ds_insert_keys. set_solver. Qed.

#[local] Hint Resolve inv_set_events inv_push_event inv_set_status inv_set_to_dial inv_set_sync
  inv_set_temporary inv_insert_inbound inv_insert_outbound : voltaire.

(** ** Reports and bans *)

(** A handler of events returns, keeps the invariant and the database. *)
Definition handles (now : Instant) (m : PeerManager) (o : outcome PeerManager) : Prop :=
  exists m', o = Ret m' /\ pm_inv now m' /\ pm_peers m' = pm_peers m.

Lemma handle_ban_ok now p op reason m :
  pm_inv now m -> handles now m (handle_ban_operation now p op reason m).
Proof.
  intros Hi. unfold handles. destruct op as [| |ips|]; cbn [handle_ban_operation].
  - case_match; [|by eauto].
    destruct (lru_raw_insert_spec now now p _ (pi_cache _ _ Hi) ltac:(lia)) as (c & -> & Hc & _).
    eexists. split; [reflexivity|]. split; [eauto with voltaire|by destruct m].
  - eexists. split; [reflexivity|]. split; [eauto with voltaire|by destruct m].
  - destruct (lru_raw_remove_spec now p _ (pi_cache _ _ Hi)) as (c & -> & Hc & _). simpl.
    case_match; eexists; (split; [reflexivity|]); (split; [eauto with voltaire|by destruct m]).
  - by eauto.
Qed.

Lemma handle_score_ok now p action reason m :
  pm_inv now m -> (action = UpdDisconnect -> not_connected p (pm_peers m)) ->
  handles now m (handle_score_action now p action reason m).
Proof.
  intros Hi Hn. destruct action as [op| |ips|]; cbn [handle_score_action].
  - by apply handle_ban_ok.
  - destruct (inv_drop_pings now p m Hi (Hn eq_refl)) as [Hi2 Hp2].
    eexists. split; [reflexivity|]. split; [by apply inv_push_event|].
    by destruct m.
  - eexists. split; [reflexivity|]. split; [eauto with voltaire|by destruct m].
  - by exists m.
Qed.

Lemma handle_scores_ok now actions m :
  pm_inv now m -> results_ok (pm_peers m) actions ->
  handles now m (handle_score_actions now actions m).
Proof.
  revert m. induction actions as [|[p a] actions IH]; intros m Hi Hok; cbn [handle_score_actions].
  { by exists m. }
  apply Forall_cons in Hok as [Ha Hok].
  destruct (handle_score_ok now p a None m Hi Ha) as (m1 & -> & Hi1 & Hp1). simpl.
  destruct (IH m1 Hi1) as (m2 & -> & Hi2 & Hp2); [by rewrite Hp1|].
  exists m2. split_and!; [done|done|congruence].
Qed.

(** ** Entry points *)

(** An entry point returns and keeps the invariant. *)
Definition keeps (now : Instant) (o : outcome PeerManager) : Prop :=
  exists m', o = Ret m' /\ pm_inv now m'.

Lemma keeps_ret now m : pm_inv now m -> keeps now (Ret m).
Proof. by exists m. Qed.
Lemma handles_keeps now m o : handles now m o -> keeps now o.
Proof. intros (m' & ? & ? & _). by exists m'. Qed.

Lemma report_ok now p a reason m : pm_inv now m -> keeps now (pm_report_peer now p a reason m).
Proof.
  intros Hi. unfold pm_report_peer. destruct (report_conn now p a (pm_peers m)) as [Hle Hn].
  destruct (report_peer now p a (pm_peers m)) as [res db]. simpl in *.
  apply (handles_keeps now (set_peers db m)), handle_score_ok; [by apply inv_set_peers|].
  by rewrite peers_set_peers.
Qed.

Lemma gossip_ok now sc sort m : pm_inv now m -> keeps now (pm_update_gossipsub_scores now sc sort m).
Proof.
  intros Hi. unfold pm_update_gossipsub_scores.
  destruct (update_gossip_conn now (target_peers m) sc sort (pm_peers m)) as [Hle Hok].
  destruct (update_gossipsub_scores _ _ _ _ _) as [acts db]. simpl in *.
  apply (handles_keeps now (set_peers db m)), handle_scores_ok; [by apply inv_set_peers|].
  by rewrite peers_set_peers.
Qed.

Lemma rpc_error_ok now p proto err dir m : pm_inv now m -> keeps now (handle_rpc_error now p proto err dir m).
Proof.
  intros Hi. unfold handle_rpc_error. destruct (rpc_error_action _ _ _); [by apply report_ok|by apply keeps_ret].
Qed.

Lemma dial_peer_ok t e m : pm_inv t m -> pm_inv t (dial_peer e m).
Proof. intros Hi. unfold dial_peer. case_match; eauto with voltaire. Qed.

Lemma discovered_ok t now n results k m : pm_inv t m -> pm_inv t (dial_discovered now n results k m).
Proof.
  revert k m. induction results as [|[e ttl] results IH]; intros k m Hi; simpl; [done|].
  case_match; [|by apply IH]. apply IH, dial_peer_ok.
  destruct ttl; [|done]. apply inv_set_peers; [done|apply min_ttl_conn].
Qed.

Lemma set_record_ok t p i i' m :
  peers (pm_peers m) !! p = Some i -> connection_status i' = connection_status i ->
  pm_inv t m -> pm_inv t (set_peers (set_peer p i' (pm_peers m)) m).
Proof. intros Hp Hs Hi. apply inv_set_peers; [done|]. by eapply conn_le_same. Qed.

Lemma identify_ok t p la info m : pm_inv t m -> pm_inv t (identify p la info m).
Proof.
  intros Hi. unfold identify. case_match eqn:Hp; [|done].
  eapply set_record_ok; [done| |done]. by destruct p0.
Qed.

Lemma request_metadata_ok t p i seq m : pm_inv t m -> pm_inv t (request_metadata p i seq m).
Proof. intros Hi. unfold request_metadata. repeat case_match; eauto with voltaire. Qed.

Lemma ping_ok t p seq m : pm_inv t m -> pm_inv t (ping_request p seq m).
Proof.
  intros Hi. unfold ping_request. case_match; [|done]. apply request_metadata_ok.
  repeat case_match; eauto with voltaire.
Qed.

Lemma pong_ok t p seq m : pm_inv t m -> pm_inv t (pong_response p seq m).
Proof. intros Hi. unfold pong_response. case_match; [|done]. by apply request_metadata_ok. Qed.

Lemma metadata_ok t p md m : pm_inv t m -> pm_inv t (meta_data_response p md m).
Proof.
  intros Hi. unfold meta_data_response. case_match eqn:Hp; [|done].
  eapply set_record_ok; [done| |done]. by destruct p0.
Qed.

Lemma disconnect_ok now p m : pm_inv now m -> keeps now (pm_inject_disconnect now p m).
Proof.
  intros Hi. unfold pm_inject_disconnect.
  destruct (inject_disconnect_conn now p (pm_peers m)) as [Hle Hn].
  destruct (inject_disconnect now p (pm_peers m)) as [[op purged] db]. simpl in *.
  assert (Hb : handles now (set_peers db m)
    match op with Some op => handle_ban_operation now p op None (set_peers db m)
             | None => Ret (set_peers db m) end).
  { assert (Hi0 : pm_inv now (set_peers db m)) by by apply inv_set_peers.
    destruct op; [by apply handle_ban_ok|by exists (set_peers db m)]. }
  destruct Hb as (m1 & -> & Hi1 & Hp1). rewrite peers_set_peers in Hp1. simpl.
  apply keeps_ret, inv_set_events, inv_set_status.
  apply (inv_drop_pings now p m1 Hi1). by rewrite Hp1.
Qed.

Lemma disconnect_peer_ok now p reason m : pm_inv now m -> pm_inv now (disconnect_peer now p reason m).
Proof.
  intros Hi. unfold disconnect_peer. apply inv_set_peers; [eauto with voltaire|].
  by apply (ucs_conn_le now p (NewDisconnecting false)).
Qed.

(** ** Connections *)

Lemma connected_le_dialing db : connected_count db <= connected_or_dialing_count db.
Proof.
  rewrite connected_count_eq. unfold connected_or_dialing_count, connected_or_dialing_peers.
  rewrite count_with. apply map_sum_le. intros p i _. unfold is_connected_or_dialing.
  by destruct (is_connected i), (is_dialing i).
Qed.

Lemma connect_count now p st db :
  map_count is_connected (peers (update_connection_state now p st db).2)
  <= map_count is_connected (peers db) + 1.
Proof.
  destruct (ucs_connected now p st db) as (i' & -> & _). rewrite count_insert.
  destruct (peers db !! p) as [i|]; simpl; unfold b2z; repeat case_match; lia.
Qed.

(** Registering a connection below the limit. *)
Lemma connect_inv t now p db m (s s' : DelaySet) :
  pm_inv t m -> connected_count (pm_peers m) < connection_limit m ->
  (exists st, db = (update_connection_state now p st (pm_peers m)).2) ->
  p ∈ ds_keys s ∪ ds_keys s' ->
  ds_keys (inbound_ping_peers m) ⊆ ds_keys s -> ds_keys (outbound_ping_peers m) ⊆ ds_keys s' ->
  pm_inv t (set_outbound_ping s' (set_inbound_ping s (set_peers db m))).
Proof.
  intros [Hc Hl Hp] Hlt (st & ->) Hin Hs Hs'.
  pose proof (connect_count now p st (pm_peers m)) as Hcount.
  destruct (ucs_connected now p st (pm_peers m)) as (i' & Hps & _).
  destruct m as [db0 ev ip op sp tp pd tb sc de me]. split; simpl in *; [done| |].
  - rewrite connected_count_eq in *. unfold connection_limit in *. simpl in *. lia.
  - intros q i Hq Hcon. simpl in *. rewrite Hps in Hq.
    apply lookup_insert_Some in Hq as [[<- _]|[_ Hq]]; [done|].
    pose proof (Hp q i Hq Hcon) as Hq'. simpl in Hq'. set_solver.
Qed.

Lemma limit_free endpoint m :
  peer_limit_reached (is_listener endpoint) m = false ->
  connected_count (pm_peers m) < connection_limit m.
Proof.
  unfold peer_limit_reached, connection_limit. pose proof (connected_le_dialing (pm_peers m)).
  case_match; intros Hlt%Z.leb_gt; lia.
Qed.

Lemma ingoing_ok t now p a e m :
  pm_inv t m -> connected_count (pm_peers m) < connection_limit m ->
  pm_inv t (inject_connect_ingoing now p a e m).
Proof.
  intros Hi Hlt. unfold inject_connect_ingoing, inject_peer_connection. apply inv_set_status.
  pose proof (connect_inv t now p (db_connect_ingoing now p a e (pm_peers m)) m
    (ds_insert p (inbound_ping_peers m)) (outbound_ping_peers m) Hi Hlt) as Hc.
  destruct m. apply Hc; [by eexists| | |done]; simpl; rewrite ds_insert_keys; set_solver.
Qed.

Lemma outgoing_ok t now p a e m :
  pm_inv t m -> connected_count (pm_peers m) < connection_limit m ->
  pm_inv t (inject_connect_outgoing now p a e m).
Proof.
  intros Hi Hlt. unfold inject_connect_outgoing, inject_peer_connection. apply inv_set_status.
  pose proof (connect_inv t now p (db_connect_outgoing now p a e (pm_peers m)) m
    (inbound_ping_peers m) (ds_insert p (outbound_ping_peers m)) Hi Hlt) as Hc.
  destruct m. apply Hc; [by eexists| |done|]; simpl; rewrite ds_insert_keys; set_solver.
Qed.

Lemma established_ok now p endpoint n m :
  pm_inv now m -> keeps now (on_connection_established now p endpoint n m).
Proof.
  intros Hi. unfold on_connection_established. set (m0 := if n =? 0 then _ else _).
  assert (Hi0 : pm_inv now m0) by (subst m0; case_match; eauto with voltaire). clearbody m0.
  destruct (ban_status (pm_peers m0) p).
  - destruct (report_ok now p Fatal (Some GoodbyeBanned) m0 Hi0) as (m1 & Hm & Hi1).
    unfold goodbye_peer. rewrite Hm. simpl. apply keeps_ret. eauto with voltaire.
  - by apply report_ok.
  - destruct (peer_limit_reached _ m0) eqn:Hlim; [by apply keeps_ret, disconnect_peer_ok|].
    apply limit_free in Hlim. destruct endpoint; apply keeps_ret, inv_push_event;
      [by apply outgoing_ok|by apply ingoing_ok].
Qed.

Lemma swarm_ok now ev m : pm_inv now m -> keeps now (on_swarm_event now ev m).
Proof.
  intros Hi. destruct ev as [p endpoint n|p endpoint n|[p|]|]; cbn [on_swarm_event].
  - by apply established_ok.
  - unfold on_connection_closed. case_match; [by apply keeps_ret|]. apply disconnect_ok.
    case_match; eauto with voltaire.
  - unfold on_dial_failure. case_match; [by apply disconnect_ok|by apply keeps_ret].
  - by apply keeps_ret.
  - by apply keeps_ret.
Qed.

(** ** Heartbeat and poll *)

Lemma maintain_ok t n m : pm_inv t m -> pm_inv t (maintain_peer_count n m).
Proof. intros Hi. unfold maintain_peer_count. case_match; [|done]. case_match; eauto with voltaire. Qed.

Lemma prune_ok now sort order m : pm_inv now m -> pm_inv now (prune_excess_peers now sort order m).
Proof.
  intros Hi. unfold prune_excess_peers. generalize (order (peers_to_prune sort m)) as l. intros l.
  revert m Hi. induction l as [|p l IH]; intros m Hi; simpl; [done|]. apply IH. by apply disconnect_peer_ok.
Qed.

Lemma unban_temporary_ok t now m :
  pm_inv t m -> t <= now -> pm_inv now (unban_temporary_banned_peers now m).
Proof.
  intros Hi Ht. unfold unban_temporary_banned_peers.
  pose proof (lru_step_inv _ _ (step_remove_expired t now (temporary_banned_peers m) Ht)
    (pi_cache _ _ Hi)) as Hc. simpl in Hc.
  destruct (lru_remove_expired now (temporary_banned_peers m)) as [c expired]. simpl in Hc.
  apply inv_set_events, inv_set_temporary; [by eapply inv_later|done].
Qed.

Lemma heartbeat_ok env m : pm_inv (hb_now env) m -> keeps (hb_now env) (heartbeat env m).
Proof.
  intros Hi. unfold heartbeat. apply (maintain_ok _ 0) in Hi.
  set (m1 := maintain_peer_count 0 m) in *. clearbody m1.
  assert (Hi2 : pm_inv (hb_now env) (set_peers (cleanup_dialing_peers (hb_now env) (pm_peers m1)) m1))
    by (apply inv_set_peers; [done|apply cleanup_conn]).
  set (m2 := set_peers _ m1) in *. clearbody m2.
  destruct (update_scores_conn (hb_clock env) (hb_now env) (pm_peers m2)) as [Hle Hf].
  destruct (update_scores _ _ _) as [acts db]. simpl in *.
  destruct (handle_scores_ok (hb_now env) acts (set_peers db m2)) as (m3 & -> & Hi3 & _).
  - by apply inv_set_peers.
  - eapply Forall_impl; [exact Hf|]. intros [q r] (ips & Hr) Hd. simpl in *. congruence.
  - simpl. apply keeps_ret. eapply unban_temporary_ok; [|reflexivity]. by apply prune_ok.
Qed.

(** The heartbeats of a [poll] happen in order. *)
Fixpoint ticks_ok (t : Instant) (ticks : list HeartbeatEnv) (now : Instant) : Prop :=
  match ticks with
  | [] => t <= now
  | env :: ticks' => t <= hb_now env /\ ticks_ok (hb_now env) ticks' now
  end.

Lemma heartbeats_ok t ticks now m :
  pm_inv t m -> ticks_ok t ticks now -> keeps now (heartbeats ticks m).
Proof.
  revert t m. induction ticks as [|env ticks IH]; intros t m Hi Ht; simpl in *.
  - apply keeps_ret. by eapply inv_later.
  - destruct Ht as [Ht Hr]. destruct (heartbeat_ok env m) as (m1 & -> & Hi1); [by eapply inv_later|].
    simpl. by eapply IH.
Qed.

Lemma poll_pings_keys yielded (s : DelaySet) : ds_keys (poll_pings yielded s).2 = ds_keys s.
Proof.
  revert s. induction yielded as [|[p|e] yielded IH]; intros s; simpl; [done| |by apply IH].
  pose proof (ds_expire_spec p s) as Hs. destruct (ds_expire p s) as [s1|]; [|by apply IH].
  destruct Hs as [Hin Hk]. specialize (IH (ds_insert p s1)).
  destruct (poll_pings yielded _) as [ev s2]. simpl in *. rewrite IH, ds_insert_keys, Hk.
  apply set_eq. intros q. destruct (decide (q = p)); set_solver.
Qed.

Lemma pm_poll_ok t now ticks inb outb m :
  pm_inv t m -> ticks_ok t ticks now ->
  exists r m', pm_poll now ticks inb outb m = Ret (r, m') /\ pm_inv now m'.
Proof.
  intros Hi Ht. unfold pm_poll. destruct (heartbeats_ok t ticks now m Hi Ht) as (m0 & -> & Hi0). simpl.
  pose proof (poll_pings_keys inb (inbound_ping_peers m0)) as Hk1.
  destruct (poll_pings inb _) as [ev1 s1]. simpl in Hk1.
  set (m1 := set_events (pm_events m0 ++ ev1) (set_inbound_ping s1 m0)).
  assert (Hi1 : pm_inv now m1).
  { apply inv_set_events, inv_inbound; [done|]. intros p. rewrite Hk1. by left. }
  clearbody m1. pose proof (poll_pings_keys outb (outbound_ping_peers m1)) as Hk2.
  destruct (poll_pings outb _) as [ev2 s2]. simpl in Hk2.
  set (m2 := set_events (pm_events m1 ++ ev2) (set_outbound_ping s2 m1)).
  assert (Hi2 : pm_inv now m2).
  { apply inv_set_events, inv_outbound; [done|]. intros p. rewrite Hk2. by left. }
  clearbody m2. destruct (pm_events m2) as [|ev events]; [|eauto with voltaire].
  destruct (last (peers_to_dial m2)) as [e|]; [|by eauto].
  eexists _, _. split; [reflexivity|]. cbn [inject_peer_connection].
  apply inv_set_peers; [eauto with voltaire|]. by apply (ucs_conn_le now _ (NewDialing (Some e))).
Qed.
End manager.
