(* ===== verification/PeerManagerProps.v ===== *)
(** * Theorems about the peer manager

    In every state the manager can reach: no panic, the connection limit, a
    ping timer for every connected peer. What pruning keeps, how a ban travels
    from the report to the swarm, how many discovered peers are dialed, the
    limits computed in single precision, and two cases in which the
    manager does less than its comments say. *)

From S2P Require Import Prelude Float64 Score External RpcTypes LruTimeCache Client PeerInfo PeerDB Ranking SubnetPruning.
From S2P Require Import PeerDBInv PeerDBProps PeerManager PeerManagerInv.

Section theorems.
Context `{External} `{Libm} `{!SetIter Multiaddr} `{!MapIter PeerId PeerInfo}
  `{!HashSetDelay PeerId}.
Implicit Types (db : PeerDB) (i : PeerInfo) (p : PeerId) (m : PeerManager).

(** ** Reachable states *)

(** The entry points of the manager. *)
Inductive pm_op : Type :=
| PmReport p (a : PeerAction) (reason : option GoodbyeReason)
| PmGossip (peer_score : PeerId -> option f64) (sort : list (PeerId * f64) -> list (PeerId * f64))
| PmRpcError p (protocol : Protocol) (err : RPCError) (direction : ConnectionDirection)
| PmDiscovered (results : list (Enr * option Instant))
| PmDial (e : Enr)
| PmStatus p
| PmSyncSubnet (id : Z) (min_ttl : Instant)
| PmIdentify p (addrs : list Multiaddr) (info : IdentifyInfo)
| PmPing p (seq : Z)
| PmPong p (seq : Z)
| PmMetaData p (md : MetaData)
| PmSwarm (ev : FromSwarm)
| PmPoll (ticks : list HeartbeatEnv) (inbound outbound : list (result PeerId string)).

Definition pm_do (now : Instant) (op : pm_op) (m : PeerManager) : outcome PeerManager :=
  match op with
  | PmReport p a reason => pm_report_peer now p a reason m
  | PmGossip sc sort => pm_update_gossipsub_scores now sc sort m
  | PmRpcError p proto err dir => handle_rpc_error now p proto err dir m
  | PmDiscovered results => Ret (peers_discovered now results m)
  | PmDial e => Ret (dial_peer e m)
  | PmStatus p => Ret (peer_statusd p m)
  | PmSyncSubnet id ttl => Ret (add_sync_subnet id ttl m)
  | PmIdentify p la info => Ret (identify p la info m)
  | PmPing p seq => Ret (ping_request p seq m)
  | PmPong p seq => Ret (pong_response p seq m)
  | PmMetaData p md => Ret (meta_data_response p md m)
  | PmSwarm ev => on_swarm_event now ev m
  | PmPoll ticks inb outb => r <-! pm_poll now ticks inb outb m ; Ret r.2
  end.

(** The operation starts at [t] and ends at [now]. *)
Definition op_times (t : Instant) (op : pm_op) (now : Instant) : Prop :=
  match op with PmPoll ticks _ _ => ticks_ok t ticks now | _ => t <= now end.

Inductive pm_reachable (cfg : Config) (trusted : list PeerId) (disable : bool)
  : Instant -> PeerManager -> Prop :=
| pm_start t : pm_reachable cfg trusted disable t (PeerManager_new cfg (PeerDB_new trusted disable))
| pm_step t now op m m' :
    pm_reachable cfg trusted disable t m -> op_times t op now -> pm_do now op m = Ret m' ->
    pm_reachable cfg trusted disable now m'.

Lemma do_keeps t now op m : pm_inv t m -> op_times t op now -> keeps now (pm_do now op m).
Proof.
  intros Hi Ht. assert (Hi' : (forall a b c, op <> PmPoll a b c) -> pm_inv now m).
  { intros Hne. apply (inv_later t); [done|]. destruct op; done || by destruct (Hne ticks inbound outbound). }
  destruct op; cbn [pm_do].
  13: { destruct (pm_poll_ok t now ticks inbound outbound m Hi Ht) as (r & m' & -> & Hm').
        by apply keeps_ret. }
  all: specialize (Hi' ltac:(done)).
  - by apply report_ok.
  - by apply gossip_ok.
  - by apply rpc_error_ok.
  - by apply keeps_ret, discovered_ok.
  - by apply keeps_ret, dial_peer_ok.
  - by apply keeps_ret, inv_set_status.
  - apply keeps_ret. unfold add_sync_subnet. repeat case_match; try done; by apply inv_set_sync.
  - by apply keeps_ret, identify_ok.
  - by apply keeps_ret, ping_ok.
  - by apply keeps_ret, pong_ok.
  - by apply keeps_ret, metadata_ok.
  - by apply swarm_ok.
Qed.

Lemma f32_ceil_nonneg x : 0 <= f32_ceil_usize x.
Proof. unfold f32_ceil_usize. repeat case_match; unfold saturate, int_min, int_max; simpl; lia. Qed.

Lemma new_inv cfg trusted b t : pm_inv t (PeerManager_new cfg (PeerDB_new trusted b)).
Proof.
  assert (Hnone : forall p i, peers (PeerDB_new trusted b) !! p = Some i -> is_connected i = false)
    by (intros p i Hp%new_lookup; by subst).
  split.
  - repeat constructor.
  - rewrite connected_count_eq. cbn [pm_peers PeerManager_new]. rewrite map_count_none by done.
    unfold connection_limit. pose proof (f32_ceil_nonneg (f32_mul (f32_of_Z (cfg_target_peer_count cfg))
      (f32_add (f32_of_Z 1) PEER_EXCESS_FACTOR))). cbn [target_peers PeerManager_new]. unfold max_peers. lia.
  - intros p i Hp Hc. cbn [pm_peers PeerManager_new] in Hp. rewrite (Hnone p i Hp) in Hc. done.
Qed.

Lemma reachable_inv cfg trusted b t m : pm_reachable cfg trusted b t m -> pm_inv t m.
Proof.
  induction 1 as [t|t now op m m' _ IH Ht Hd]; [apply new_inv|].
  destruct (do_keeps t now op m IH Ht) as (m1 & Hm1 & Hi). congruence.
Qed.

(** C3: in every state the peer manager can reach, whatever the swarm, the
    network and the timers report: the next operation returns without a
    panic, and afterwards no more peers are connected than the
    larger of the limits for inbound and for outbound connections, and every
    connected peer has a ping timer running. *)
Theorem peer_manager_safe cfg trusted b t now op m :
  pm_reachable cfg trusted b t m -> op_times t op now ->
  exists m', pm_do now op m = Ret m' /\
    connected_count (pm_peers m') <=
      Z.max (max_peers (target_peers m')) (max_outbound_dialing_peers (target_peers m')) /\
    (forall p i, peers (pm_peers m') !! p = Some i -> is_connected i = true ->
       p ∈ ds_keys (inbound_ping_peers m') ∪ ds_keys (outbound_ping_peers m')).
Proof.
  intros Hr Ht. destruct (do_keeps t now op m (reachable_inv _ _ _ _ _ Hr) Ht) as (m' & Hm & [_ Hl Hp]).
  by exists m'.
Qed.

(** ** Pruning *)

(** The number of peers of a list whose record satisfies a test. *)
Definition hits (f : PeerInfo -> bool) (ps : gmap PeerId PeerInfo) (l : list PeerId) : Z :=
  foldr (fun p n => b2z (from_option f false (ps !! p)) + n) 0 l.

Lemma hits_insert f ps p i l : p ∉ l -> hits f (<[p := i]> ps) l = hits f ps l.
Proof.
  induction l as [|q l IH]; intros Hp; simpl; [done|]. apply not_elem_of_cons in Hp as [Hne Hp].
  rewrite lookup_insert_ne by done. by rewrite IH.
Qed.

Lemma hits_app f ps l l' : hits f ps (l ++ l') = hits f ps l + hits f ps l'.
Proof. induction l as [|q l IH]; simpl; lia. Qed.

#[export] Instance hits_perm f ps : Proper (Permutation ==> eq) (hits f ps).
Proof. intros l l' Hp. induction Hp; simpl; lia. Qed.

Lemma hits_le f ps l : hits f ps l <= Z.of_nat (length l).
Proof. induction l as [|q l IH]; simpl; [lia|]. unfold b2z. case_match; lia. Qed.

(** What the selection loop guarantees of its result, from the peers [acc]
    and the number [n] of outbound-only ones it starts with. *)
Record selected (ps : gmap PeerId PeerInfo) (excess spare : Z) (candidates : list (PeerId * PeerInfo))
    (acc : list PeerId) (n : Z) (res : list PeerId * Z) : Prop := {
  sel_nodup : NoDup res.1;
  sel_hits : hits is_outbound_only ps res.1 = res.2;
  sel_outbound : res.2 <= Z.max n spare;
  sel_length : Z.of_nat (length res.1) <= Z.max (Z.of_nat (length acc)) excess;
  sel_from : forall p, p ∈ res.1 -> p ∈ acc \/ exists i, (p, i) ∈ candidates;
}.

Lemma selected_skip ps excess spare c cs acc n res :
  selected ps excess spare cs acc n res -> selected ps excess spare (c :: cs) acc n res.
Proof.
  intros [? ? ? ? Hin]. split; try done. intros q Hq.
  destruct (Hin q Hq) as [?|[j ?]]; [by left|right; exists j; by right].
Qed.

Lemma selected_take ps excess spare p i cs acc n n' res :
  Z.of_nat (length acc) < excess -> n' <= Z.max n spare ->
  selected ps excess spare cs (acc ++ [p]) n' res -> selected ps excess spare ((p, i) :: cs) acc n res.
Proof.
  intros Hlt Hn [? ? ? Hlen Hin]. rewrite length_app in Hlen. simpl in Hlen.
  split; [done|done|lia|lia|]. intros q Hq. destruct (Hin q Hq) as [Hq'|[j ?]].
  - apply elem_of_app in Hq' as [?|Hq']; [by left|]. apply list_elem_of_singleton in Hq' as ->.
    right. exists i. by left.
  - right. exists j. by right.
Qed.

Lemma prune_peers_spec excess tgt outb ps candidates acc n :
  (forall p i, (p, i) ∈ candidates -> ps !! p = Some i) ->
  NoDup acc -> hits is_outbound_only ps acc = n ->
  selected ps excess (outb - tgt) candidates acc n (prune_peers excess tgt outb candidates acc n).
Proof.
  revert acc n. induction candidates as [|[p i] candidates IH]; intros acc n Hps Hnd Hh; cbn [prune_peers].
  { split; simpl; try done; [lia|lia|by left]. }
  assert (Hi : ps !! p = Some i) by (apply Hps; by left).
  assert (Hps' : forall q j, (q, j) ∈ candidates -> ps !! q = Some j) by (intros q j Hq; apply Hps; by right).
  destruct (excess <=? Z.of_nat (length acc)) eqn:Hex; bool_hyps.
  { split; simpl; try done; [lia|lia|by left]. }
  destruct (bool_decide (p ∈ acc)) eqn:Hin; [by apply selected_skip, IH|].
  apply bool_decide_eq_false in Hin.
  assert (Hnd' : NoDup (acc ++ [p]))
    by (apply NoDup_app; split_and!; [done|set_solver|apply NoDup_singleton]).
  assert (Hone : hits is_outbound_only ps (acc ++ [p]) = n + b2z (is_outbound_only i)).
  { rewrite hits_app, Hh. simpl. rewrite Hi. simpl. lia. }
  destruct (is_outbound_only i) eqn:Hout; simpl in Hone.
  - destruct (tgt + n <? outb) eqn:Hlt; bool_hyps; [|by apply selected_skip, IH].
    eapply (selected_take _ _ _ _ _ _ _ _ (n + 1)); [lia|lia|by apply IH].
  - rewrite Z.add_0_r in Hone. eapply (selected_take _ _ _ _ _ _ _ _ n); [lia|lia|by apply IH].
Qed.

Lemma disconnect_connected now p i reason m :
  peers (pm_peers m) !! p = Some i -> is_connected i = true ->
  peers (pm_peers (disconnect_peer now p reason m))
  = <[p := set_connection_status (Disconnecting false) i]> (peers (pm_peers m)).
Proof.
  intros Hp Hc. unfold disconnect_peer, notify_disconnecting, update_connection_state.
  assert (He : pm_peers (push_event (DisconnectPeer p reason) m) = pm_peers m) by by destruct m.
  rewrite peers_set_peers, He. unfold entry_or_insert. rewrite Hp. simpl.
  unfold is_connected in Hc. by destruct (connection_status i).
Qed.

Definition connected_in (ps : gmap PeerId PeerInfo) p : Prop :=
  exists i, ps !! p = Some i /\ is_connected i = true.

(** Disconnecting a list of connected peers takes them out of every count
    of connected peers and leaves the others alone. *)
Lemma disconnect_all now reason l m :
  NoDup l -> (forall p, p ∈ l -> connected_in (peers (pm_peers m)) p) ->
  let ps := peers (pm_peers m) in
  let ps' := peers (pm_peers (foldl (fun m p => disconnect_peer now p reason m) m l)) in
  (forall f, (forall i, f (set_connection_status (Disconnecting false) i) = false) ->
     map_count f ps' = map_count f ps - hits f ps l) /\
  (forall q, q ∉ l -> ps' !! q = ps !! q).
Proof.
  revert m. induction l as [|p l IH]; intros m Hnd Hl; cbv zeta; simpl.
  { split; [intros; lia|done]. }
  apply NoDup_cons in Hnd as [Hp Hnd]. destruct (Hl p ltac:(by left)) as (i & Hi & Hc).
  pose proof (disconnect_connected now p i reason m Hi Hc) as Hd.
  destruct (IH (disconnect_peer now p reason m) Hnd) as [Hcount Hother].
  { intros q Hq. rewrite Hd. destruct (Hl q ltac:(by right)) as (j & Hj & Hcj). exists j.
    rewrite lookup_insert_ne by (intros ->; done). done. }
  rewrite Hd in Hcount, Hother. split.
  - intros f Hf. rewrite (Hcount f Hf), hits_insert by done. rewrite count_insert, Hf, Hi. simpl. lia.
  - intros q [Hne Hq]%not_elem_of_cons. rewrite (Hother q Hq). by rewrite lookup_insert_ne.
Qed.

(** *** Which peers are pruned *)

Lemma prune_peers_keeps excess tgt outb candidates : forall acc n p,
  p ∈ acc -> p ∈ (prune_peers excess tgt outb candidates acc n).1.
Proof.
  induction candidates as [|[p0 i0] candidates IH]; intros acc n p Hp; cbn [prune_peers]; [done|].
  repeat case_match; try done; apply IH; set_solver.
Qed.

(** Once no outbound peer is to spare none is chosen. *)
Lemma prune_peers_full excess tgt outb candidates : forall acc n p,
  outb <= tgt + n -> p ∈ (prune_peers excess tgt outb candidates acc n).1 ->
  p ∈ acc \/ exists i, (p, i) ∈ candidates /\ is_outbound_only i = false.
Proof.
  induction candidates as [|[p0 i0] candidates IH]; intros acc n p Hn; cbn [prune_peers]; [by left|].
  destruct (excess <=? _); [by left|]. assert ((tgt + n <? outb) = false) as -> by lia.
  destruct (bool_decide (p0 ∈ acc)), (is_outbound_only i0) eqn:Ho; intros [Hp|(i & Hi & Hf)]%IH; try done; try (by left);
    try (right; exists i; split; [by right|done]).
  apply elem_of_app in Hp as [Hp|Hp]; [by left|]. apply list_elem_of_singleton in Hp as ->. right. exists i0. split; [by left|done].
Qed.

Lemma assoc_unique {K V} (l : list (K * V)) k v v' : NoDup l.*1 -> (k, v) ∈ l -> (k, v') ∈ l -> v = v'.
Proof.
  induction l as [|[k0 v0] l IH]; [set_solver|]. intros [Hk Hnd]%NoDup_cons. cbn in Hk.
  assert (forall w, (k0, w) ∉ l) as Hno by (intros w Hw; apply Hk; by apply (list_elem_of_fmap_2 fst _ (k0, w))).
  intros [ [= -> ->]|H1]%elem_of_cons [ [= <- ]|H2]%elem_of_cons; naive_solver.
Qed.

(** Of sorted candidates the first ones are chosen, outbound ones as long as some are to spare. *)
Lemma prune_peers_order excess tgt outb R candidates : StronglySorted R candidates -> NoDup candidates.*1 ->
  forall acc n p i q j, let res := (prune_peers excess tgt outb candidates acc n).1 in
  (p, i) ∈ candidates -> (q, j) ∈ candidates -> p ∉ acc -> p ∈ res -> q ∉ res ->
  is_outbound_only j = false \/ is_outbound_only i = true -> R (p, i) (q, j).
Proof.
  intros Hs. induction Hs as [|[p0 i0] candidates Hs IH Hhd]; intros Hnd acc n p i q j res Hp Hq Hacc; [set_solver|].
  subst res. apply NoDup_cons in Hnd as [Hp0 Hnd]. cbn in Hp0. rewrite Forall_forall in Hhd.
  cbn [prune_peers]. destruct (excess <=? _); [done|].
  apply elem_of_cons in Hp as [ [= -> ->]|Hp].
  { intros Hin Hnin _. apply elem_of_cons in Hq as [ [= -> ->]|Hq]; [done|by apply Hhd]. }
  assert (p <> p0) as Hne by (intros ->; apply Hp0; by apply (list_elem_of_fmap_2 fst _ (p0, i))).
  assert (p ∉ acc ++ [p0]) as Hacc' by set_solver.
  apply elem_of_cons in Hq as [ [= -> ->]|Hq].
  2: { destruct (bool_decide (p0 ∈ acc)), (is_outbound_only i0), (tgt + n <? outb); by eapply IH. }
  destruct (bool_decide_reflect (p0 ∈ acc)) as [Hin|Hin].
  { intros _ Hnin. destruct Hnin. by apply prune_peers_keeps. }
  destruct (is_outbound_only i0) eqn:Ho; [destruct (Z.ltb_spec (tgt + n) outb) as [Hlt|Hlt]|].
  1,3: intros _ Hnin; destruct Hnin; apply prune_peers_keeps; set_solver.
  intros Hc _ Hd. apply prune_peers_full in Hc as [Hpa|(k & Hk & Hf)]; [done| |lia].
  destruct Hd as [?|Hi]; [congruence|].
  assert (k = i) as -> by (by eapply assoc_unique). congruence.
Qed.

Lemma selection_spec shuffle m :
  (forall l, Permutation (shuffle l) l) ->
  let ps := peers (pm_peers m) in
  let l := peers_to_prune shuffle m in
  NoDup l /\
  hits is_outbound_only ps l
    <= Z.max 0 (outbound_only_count (pm_peers m) - target_outbound_peers (target_peers m)) /\
  Z.of_nat (length l) <= Z.max 0 (connected_count (pm_peers m) - target_peers m) /\
  (forall p, p ∈ l -> exists i, ps !! p = Some i /\ is_connected i = true /\ is_trusted i = false /\
     f64_lt (Score_score (score i)) (f64_of_Z 0) = true).
Proof.
  intros Hsort. cbv zeta. unfold peers_to_prune. case_match; bool_hyps.
  { split_and!; [constructor|simpl; lia|simpl; lia|set_solver]. }
  rewrite second_phase_inert. set (cands := filter _ (worst_connected_peers shuffle (pm_peers m))).
  assert (Hcands : forall p i, (p, i) ∈ cands -> peers (pm_peers m) !! p = Some i /\
    is_connected i = true /\ is_trusted i = false /\ f64_lt (Score_score (score i)) (f64_of_Z 0) = true).
  { intros p i [Hf Hin]%list_elem_of_filter. rewrite worst_connected_perm in Hin by done.
    apply filtered_peers_spec in Hin as [Hin Hc].
    apply andb_prop in Hf as [Ht%negb_true_iff Hs]. done. }
  destruct (prune_peers_spec (saturating_sub (connected_count (pm_peers m)) (target_peers m))
    (target_outbound_peers (target_peers m)) (outbound_only_count (pm_peers m)) (peers (pm_peers m))
    cands [] 0) as [Hnd Hh Ho Hl Hf].
  - intros p i Hin. by apply Hcands.
  - constructor.
  - done.
  - simpl in Hl. split_and!; [done|rewrite Hh; lia| |].
    + assert (saturating_sub (connected_count (pm_peers m)) (target_peers m)
        <= connected_count (pm_peers m) - target_peers m) by sat_arith. lia.
    + intros p Hp. destruct (Hf p Hp) as [?|(i & Hi)]; [set_solver|]. exists i. by apply Hcands.
Qed.

(** C13: pruning keeps what it must keep, and more than its documentation says. Whatever
    the random shuffle, pruning excess peers leaves at least the target number of peers
    connected (or as many as there were), at least the target number of outbound-only
    peers (or as many as there were), and does not touch a peer that is trusted or
    not connected, as the documentation of [prune_excess_peers] promises. Neither
    does it touch a peer without a negative score: of the documented
    steps only the first, removing the worst scoring peers, has an effect; steps
    2 to 4, which bring the number of peers down to the target by
    removing well-scored ones, never remove a peer. *)
Theorem prune_keeps_targets now shuffle order m :
  (forall l, Permutation (shuffle l) l) -> (forall l, Permutation (order l) l) ->
  let m' := prune_excess_peers now shuffle order m in
  Z.min (connected_count (pm_peers m)) (target_peers m) <= connected_count (pm_peers m') /\
  Z.min (outbound_only_count (pm_peers m)) (target_outbound_peers (target_peers m))
    <= outbound_only_count (pm_peers m') /\
  (forall p i, peers (pm_peers m) !! p = Some i ->
     is_trusted i || negb (f64_lt (Score_score (score i)) (f64_of_Z 0)) || negb (is_connected i) = true ->
     peers (pm_peers m') !! p = Some i).
Proof.
  intros Hsort Horder. cbv zeta. unfold prune_excess_peers.
  destruct (selection_spec shuffle m Hsort) as (Hnd & Ho & Hl & Hf).
  pose proof (Horder (peers_to_prune shuffle m)) as Hperm.
  set (l := order (peers_to_prune shuffle m)) in *. clearbody l. rewrite <- Hperm in Hnd, Ho, Hl.
  assert (Hf' : forall p, p ∈ l -> exists i, peers (pm_peers m) !! p = Some i /\ is_connected i = true /\
    is_trusted i = false /\ f64_lt (Score_score (score i)) (f64_of_Z 0) = true)
    by (intros p; rewrite Hperm; apply Hf).
  destruct (disconnect_all now TooManyPeers l m Hnd) as [Hcount Hother].
  { intros p Hp. destruct (Hf' p Hp) as (i & ? & ? & _). by exists i. }
  set (m' := foldl _ m l) in *. unfold outbound_only_count in *. rewrite !connected_count_eq in *.
  unfold connected_outbound_only_peers in *. rewrite !count_with in *. split_and!.
  - rewrite Hcount by (by intros []). pose proof (hits_le is_connected (peers (pm_peers m)) l). lia.
  - rewrite Hcount by (by intros []). lia.
  - intros p i Hp Hk. rewrite Hother; [done|]. intros Hin. destruct (Hf' p Hin) as (j & Hj & Hc & Ht & Hs).
    assert (j = i) as -> by congruence. by rewrite Hc, Ht, Hs in Hk.
Qed.

(** C19: The worst peers go first: a connected peer that may be pruned and is kept scores at least as well as every
    peer that is chosen. An outbound-only peer may be kept instead of a better inbound one, to keep the target
    of outbound peers, but not instead of a better outbound-only one. *)
Theorem prune_worst_first shuffle m p i q j :
  (forall l, Permutation (shuffle l) l) -> scores_numeric (pm_peers m) ->
  peers (pm_peers m) !! p = Some i -> peers (pm_peers m) !! q = Some j ->
  p ∈ peers_to_prune shuffle m -> q ∉ peers_to_prune shuffle m ->
  is_connected j = true -> is_trusted j = false -> is_outbound_only j = false \/ is_outbound_only i = true ->
  f64_le (Score_score (score i)) (Score_score (score j)) = true.
Proof.
  intros Hsh Hnum Hp Hq Hin Hnin Hc Ht Ho. destruct (selection_spec shuffle m Hsh) as (_ & _ & _ & Hsel).
  destruct (Hsel p Hin) as (i' & Hi' & Hci & Hti & Hneg). assert (i' = i) as -> by congruence. clear Hsel Hi'.
  destruct (f64_lt (Score_score (score j)) (f64_of_Z 0)) eqn:Hj.
  2: { apply f64_lt_le in Hneg. eapply f64_le_trans; [exact Hneg|]. apply f64_lt_false_le in Hj; [done|by apply (Hnum q j)|done]. }
  unfold peers_to_prune in Hin, Hnin. destruct (_ <=? target_peers m) in Hin, Hnin; [by apply elem_of_nil in Hin|].
  rewrite second_phase_inert in Hin, Hnin. set (cands := filter _ (worst_connected_peers shuffle (pm_peers m))) in *.
  assert (forall r k, peers (pm_peers m) !! r = Some k -> is_connected k = true -> is_trusted k = false ->
    f64_lt (Score_score (score k)) (f64_of_Z 0) = true -> (r, k) ∈ cands) as Hcand.
  { intros r k Hr Hk1 Hk2 Hk3. apply list_elem_of_filter. cbv beta; cbn [snd]. rewrite Hk2, Hk3. split; [done|].
    rewrite worst_connected_perm by done. by apply filtered_peers_spec. }
  assert (StronglySorted (key_le peer_score) cands) as Hs by (by apply StronglySorted_filter, worst_connected_sorted).
  assert (NoDup cands.*1) as Hnd.
  { eapply sublist_NoDup; [|apply fmap_sublist, sublist_filter]. rewrite worst_connected_perm by done.
    eapply sublist_NoDup; [|apply fmap_sublist, sublist_filter]. apply map_iter_fst_NoDup. }
  eapply (prune_peers_order _ _ _ _ _ Hs Hnd [] 0 p i q j); eauto. apply not_elem_of_nil.
Qed.

(** ** Bans and the swarm *)

Lemma fatal_banned i r : is_trusted i = false -> score i = ScoreReal r ->
  score_state (apply_peer_action_to_score Fatal i) = StBanned.
Proof.
  intros Ht Hs. unfold apply_peer_action_to_score. rewrite Ht. destruct i. simpl in *. subst.
  apply rock_bottom_state, fatal_bottom.
Qed.

Lemma goodbye_connected now p reason m i r :
  peers (pm_peers m) !! p = Some i -> is_connected i = true -> is_trusted i = false ->
  score i = ScoreReal r -> score_state i <> StBanned ->
  exists m1 i1, goodbye_peer now p reason m = Ret m1 /\
    pm_events m1 = pm_events m ++ [DisconnectPeer p reason] /\
    temporary_banned_peers m1 = temporary_banned_peers m /\
    peers (pm_peers m1) !! p = Some i1 /\ connection_status i1 = Disconnecting true.
Proof.
  intros Hp Hc Ht Hs Hb. unfold goodbye_peer, pm_report_peer.
  pose proof (report_effect now p Fatal (pm_peers m) i Hp) as Hr. cbv zeta in Hr.
  rewrite (fatal_banned i r Ht Hs) in Hr.
  destruct (report_peer now p Fatal (pm_peers m)) as [answer db].
  destruct Hr as (i1 & Hps & _ & Ho). unfold is_connected in Hc.
  destruct (connection_status i); try done. destruct (score_state i); try done;
    simpl in Ho; injection Ho as Hst ->; simpl;
    (eexists _, i1; split; [reflexivity|]); destruct m; simpl in *;
    rewrite Hps, lookup_insert_eq; by split_and!.
Qed.

(** The events that a ban of [p] leaves in the queue. *)
Definition without_unban p (ev : list PeerManagerEvent) : list PeerManagerEvent :=
  filter (fun e => is_unban_of p e = false) ev.

Lemma closed_to_ban now p m i :
  lru_inv now (temporary_banned_peers m) -> lru_abs (temporary_banned_peers m) !! p = None ->
  peers (pm_peers m) !! p = Some i -> connection_status i = Disconnecting true ->
  exists m' ips purged, on_connection_closed now p 0 m = Ret m' /\
    pm_events m' = without_unban p (pm_events m ++ [PeerDisconnected p; EvBanned p ips])
      ++ map (fun e => EvUnBanned e.1 e.2) purged /\
    p ∉ ds_keys (inbound_ping_peers m') ∪ ds_keys (outbound_ping_peers m').
Proof.
  intros Hcache Hlru Hp Hst.
  pose proof (disconnect_ban_effect now p (pm_peers m) i Hp Hst) as Hd.
  unfold on_connection_closed, db_is_connected_or_disconnecting, db_connection_status.
  rewrite Hp. simpl. rewrite Hst. unfold pm_inject_disconnect.
  set (m1 := push_event (PeerDisconnected p) m).
  assert (Hm1 : pm_peers m1 = pm_peers m) by (subst m1; by destruct m). rewrite Hm1.
  destruct (inject_disconnect now p (pm_peers m)) as [[answer purged] db].
  destruct Hd as [-> _]. set (ips := filter _ (seen_ip_addresses i)). cbn [handle_ban_operation].
  assert (Htmp : temporary_banned_peers (set_peers db m1) = temporary_banned_peers m)
    by (subst m1; by destruct m). rewrite Htmp.
  destruct (lru_raw_remove_spec now p _ Hcache) as (c & -> & _).
  rewrite Hlru. simpl. eexists _, ips, purged. split; [reflexivity|]. subst m1.
  destruct m; simpl in *. split.
  - unfold without_unban. by rewrite <- !app_assoc.
  - rewrite !ds_remove_keys. set_solver.
Qed.

(** C23: a ban travels to the swarm. When a connected peer with a good score is
    told goodbye, the manager asks the swarm to disconnect it with that
    reason; when its connection is closed, the application learns that the
    peer is gone and the swarm is asked to ban it, after any pending
    request to lift an older ban has been withdrawn. Only bans of other peers
    that the database forgot are lifted afterwards. *)
Theorem ban_reaches_swarm cfg trusted b t now now' p reason m i r :
  pm_reachable cfg trusted b t m -> t <= now -> now <= now' ->
  peers (pm_peers m) !! p = Some i -> is_connected i = true -> is_trusted i = false ->
  score i = ScoreReal r -> score_state i <> StBanned ->
  lru_abs (temporary_banned_peers m) !! p = None ->
  exists m1 m2 ips purged,
    goodbye_peer now p reason m = Ret m1 /\
    pm_events m1 = pm_events m ++ [DisconnectPeer p reason] /\
    on_connection_closed now' p 0 m1 = Ret m2 /\
    pm_events m2 = without_unban p (pm_events m ++ [DisconnectPeer p reason; PeerDisconnected p;
      EvBanned p ips]) ++ map (fun e => EvUnBanned e.1 e.2) purged /\
    p ∉ ds_keys (inbound_ping_peers m2) ∪ ds_keys (outbound_ping_peers m2).
Proof.
  intros Hr Ht Ht' Hp Hc Htr Hs Hb Hlru.
  pose proof (inv_later _ now _ (reachable_inv _ _ _ _ _ Hr) Ht) as Hi.
  destruct (goodbye_connected now p reason m i r Hp Hc Htr Hs Hb)
    as (m1 & i1 & Hg & Hev & Htmp & Hp1 & Hst1).
  destruct (closed_to_ban now' p m1 i1) as (m2 & ips & purged & Hcl & Hev2 & Hk); [| |done|done|].
  - rewrite Htmp. eapply lru_inv_later; [apply Hi|done].
  - by rewrite Htmp.
  - exists m1, m2, ips, purged. split_and!; try done. rewrite Hev2, Hev, <- app_assoc. done.
Qed.

(** A temporary ban hides the addresses of a ban. When a peer that is
    temporarily banned becomes ready to be banned, it leaves the list of
    temporary bans and no event is produced: the addresses that should be
    banned with it never reach the swarm and the discovery, which were
    told of the temporary ban without addresses. *)
Theorem temporary_ban_hides_addresses cfg trusted b t now p ips reason m :
  pm_reachable cfg trusted b t m -> t <= now ->
  is_Some (lru_abs (temporary_banned_peers m) !! p) ->
  exists m', handle_ban_operation now p (ReadyToBan ips) reason m = Ret m' /\
    pm_events m' = pm_events m /\ lru_abs (temporary_banned_peers m') !! p = None.
Proof.
  intros Hr Ht [since Hs].
  pose proof (inv_later _ now _ (reachable_inv _ _ _ _ _ Hr) Ht) as Hi.
  destruct (lru_raw_remove_spec now p _ (pi_cache _ _ Hi)) as (c & Hrm & _ & Habs & _).
  cbn [handle_ban_operation]. rewrite Hrm, Hs. simpl. eexists. split; [reflexivity|].
  destruct m; simpl in *. by rewrite Habs, lookup_delete_eq.
Qed.

Lemma banned_report now p db i :
  peers db !! p = Some i -> score_state i = StBanned ->
  report_peer now p Fatal db = (UpdNoAction, set_peer p (apply_peer_action_to_score Fatal i) db).
Proof.
  intros Hp Hb. unfold report_peer. rewrite Hp.
  assert (Ha : score_state (apply_peer_action_to_score Fatal i) = StBanned).
  { destruct (is_trusted i) eqn:Ht.
    - unfold apply_peer_action_to_score. by rewrite Ht.
    - destruct (score i) as [|r] eqn:Hs; [|by eapply fatal_banned].
      unfold score_state in Hb. rewrite Hs in Hb. done. }
  unfold handle_score_transition. by rewrite Ha, Hb.
Qed.

(** A banned peer that connects is not disconnected by the manager. The
    code says goodbye to it, but the report of a peer that is already banned
    has no effect: the peer is asked for its metadata and the swarm is asked
    to ban it once more; no disconnection is requested, no goodbye is
    sent, and the recorded connection status stays what it was. *)
Theorem banned_peer_reconnects now p endpoint n m :
  ban_status (pm_peers m) p = BanBadScore ->
  exists m', on_connection_established now p endpoint n m = Ret m' /\
    pm_events m' = pm_events m ++ (if n =? 0 then [EvMetaData p] else []) ++ [EvBanned p []] /\
    db_connection_status (pm_peers m') p = db_connection_status (pm_peers m) p.
Proof.
  intros Hb. unfold on_connection_established. set (m0 := if n =? 0 then _ else _).
  assert (Hm0 : pm_peers m0 = pm_peers m /\
    pm_events m0 = pm_events m ++ (if n =? 0 then [EvMetaData p] else [])).
  { subst m0. destruct (n =? 0); [by destruct m|by rewrite app_nil_r]. }
  destruct Hm0 as [Hps Hev]. clearbody m0. rewrite Hps, Hb.
  unfold ban_status in Hb. destruct (peers (pm_peers m) !! p) as [i|] eqn:Hp; [|done].
  destruct (score_state i) eqn:Hs; [by destruct (peer_ip_is_banned _ i)..|].
  unfold goodbye_peer, pm_report_peer. rewrite Hps, (banned_report now p _ i Hp Hs). simpl.
  eexists. split; [reflexivity|]. destruct (apply_action_frame Fatal i) as (Hst & _).
  destruct m0; simpl in *. split.
  - rewrite Hev. by rewrite <- app_assoc.
  - unfold db_connection_status. simpl. rewrite lookup_insert_eq, Hp. simpl. by rewrite Hst.
Qed.

(** ** Discovery and limits *)

Lemma dial_peer_length e m :
  (length (peers_to_dial (dial_peer e m)) <= length (peers_to_dial m) + 1)%nat.
Proof.
  unfold dial_peer. case_match; [|lia]. destruct m. simpl. rewrite length_app. simpl. lia.
Qed.

Lemma dial_discovered_length now c results k m :
  let limit := Z.max (max_priority_peers (target_peers m)) (max_peers (target_peers m)) in
  Z.of_nat (length (peers_to_dial (dial_discovered now c results k m)))
  <= Z.of_nat (length (peers_to_dial m)) + Z.max 0 (limit - c - k).
Proof.
  cbv zeta. revert k m. induction results as [|[e ttl] results IH]; intros k m; simpl; [lia|].
  destruct (_ || _) eqn:Hc; [|by apply IH].
  assert (Hlt : c + k < Z.max (max_priority_peers (target_peers m)) (max_peers (target_peers m))).
  { apply orb_true_iff in Hc as [Hc|Hc]; bool_hyps; lia. }
  set (m1 := match ttl with Some _ => _ | None => _ end).
  assert (Hm1 : peers_to_dial m1 = peers_to_dial m /\ target_peers m1 = target_peers m)
    by (subst m1; destruct ttl; by destruct m).
  destruct Hm1 as [Hd1 Ht1]. clearbody m1. pose proof (dial_peer_length e m1) as Hl.
  assert (Ht2 : target_peers (dial_peer e m1) = target_peers m1)
    by (unfold dial_peer; case_match; by destruct m1).
  specialize (IH (k + 1) (dial_peer e m1)). rewrite Ht2, Ht1 in IH. rewrite Hd1 in Hl. lia.
Qed.

(** Discovery never queues too many dials: however many peers a query
    returns, the peers queued for dialing together with those connected or
    being dialed stay within the limit for priority peers. *)
Theorem peers_discovered_bounded now results m :
  let limit := Z.max (max_priority_peers (target_peers m)) (max_peers (target_peers m)) in
  Z.of_nat (length (peers_to_dial (peers_discovered now results m)))
  <= Z.of_nat (length (peers_to_dial m))
     + Z.max 0 (limit - connected_or_dialing_count (pm_peers m)).
Proof.
  cbv zeta. unfold peers_discovered.
  pose proof (dial_discovered_length now (connected_or_dialing_count (pm_peers m)) results 0 m) as Hl.
  simpl in Hl. lia.
Qed.
End theorems.

(** The quotient rounded up. *)
Definition ceil_div (a b : Z) : Z := - ((- a) / b).

Definition within_one (x lo : Z) : bool := (lo <=? x) && (x <=? lo + 1).

Definition limit_check (t : Z) : bool :=
  (max_peers t =? ceil_div (11 * t) 10) && (min_outbound_only_peers t =? ceil_div (2 * t) 10)
  && within_one (target_outbound_peers t) (ceil_div (3 * t) 10)
  && within_one (max_priority_peers t) (ceil_div (13 * t) 10)
  && within_one (max_outbound_dialing_peers t) (ceil_div (12 * t) 10).

Lemma limits_checked : forallb limit_check (map Z.of_nat (seq 0 1001)) = true.
Proof. vm_compute. reflexivity. Qed.

(** The limits computed in single precision, for every target up to 1000
    peers. The limit of connections and the minimum of outbound peers are
    exactly the documented fractions of the target, rounded up; the other
    limits are at most one above them, and are above them for the default of
    50 peers, where 16 instead of 15 outbound peers are kept and 61 instead of
    60 connections are allowed when dialing. *)
Theorem limits_single_precision :
  Forall (fun t =>
    max_peers t = ceil_div (11 * t) 10 /\
    min_outbound_only_peers t = ceil_div (2 * t) 10 /\
    ceil_div (3 * t) 10 <= target_outbound_peers t <= ceil_div (3 * t) 10 + 1 /\
    ceil_div (13 * t) 10 <= max_priority_peers t <= ceil_div (13 * t) 10 + 1 /\
    ceil_div (12 * t) 10 <= max_outbound_dialing_peers t <= ceil_div (12 * t) 10 + 1)
    (map Z.of_nat (seq 0 1001)) /\
  target_outbound_peers DEFAULT_TARGET_PEERS = 16 /\
  max_outbound_dialing_peers DEFAULT_TARGET_PEERS = 61.
Proof.
  split; [|vm_compute; done]. apply Forall_forall. intros t Ht.
  pose proof (proj1 (forallb_forall _ _) limits_checked t) as Hall.
  specialize (Hall ltac:(by apply list_elem_of_In)). unfold limit_check, within_one in Hall. bool_hyps. lia.
Qed.

(** ** Runs on concrete peers *)

Section demo.
#[local] Existing Instance demo_external.
#[local] Existing Instance demo_libm.
#[local] Existing Instance demo_addrs.
#[local] Existing Instance demo_peers.
#[local] Instance demo_timers : HashSetDelay PeerId := demo_delay_set PeerId.

Definition demo_manager (cfg : Config) : PeerManager := PeerManager_new cfg (PeerDB_new [demo_peer2] false).

(** The state after an operation. *)
Definition demo_after (now : Instant) (op : pm_op) (m : PeerManager) : PeerManager :=
  match pm_do now op m with Ret m' => m' | Panic _ => m end.

Definition demo_connects : pm_op := PmSwarm (ConnectionEstablished demo_peer (Listener demo_addr) 0).
Definition demo_closes : pm_op := PmSwarm (ConnectionClosed demo_peer (Listener demo_addr) 0).
Definition demo_one : PeerManager := demo_after 0 demo_connects (demo_manager Config_default).

(** A manager that wants no peers: the peer is turned away and then
    temporarily banned. *)
Definition demo_lonely : Config := mkConfig false false 0 300 20 15.
Definition demo_turned_away : PeerManager :=
  demo_after 1 demo_closes (demo_after 0 demo_connects (demo_manager demo_lonely)).

Lemma demo_step cfg t now op m :
  pm_reachable cfg [demo_peer2] false t m -> op_times t op now ->
  pm_reachable cfg [demo_peer2] false now (demo_after now op m).
Proof.
  intros Hr Ht. destruct (do_keeps t now op m (reachable_inv _ _ _ _ _ Hr) Ht) as (m' & Hm & _).
  unfold demo_after. rewrite Hm. by eapply pm_step.
Qed.

Lemma demo_one_reachable : pm_reachable Config_default [demo_peer2] false 0 demo_one.
Proof. eapply demo_step; [apply (pm_start _ _ _ 0)|]. simpl. lia. Qed.

Lemma demo_turned_away_reachable : pm_reachable demo_lonely [demo_peer2] false 1 demo_turned_away.
Proof.
  eapply (demo_step _ 0); [|simpl; lia]. eapply demo_step; [apply (pm_start _ _ _ 0)|]. simpl. lia.
Qed.

Lemma peer_manager_safe_witness :
  exists m', pm_do 5 demo_closes demo_one = Ret m' /\
    connected_count (pm_peers m') <=
      Z.max (max_peers (target_peers m')) (max_outbound_dialing_peers (target_peers m')).
Proof.
  destruct (peer_manager_safe Config_default [demo_peer2] false 0 5 demo_closes demo_one)
    as (m' & Hm & Hl & _); [exact demo_one_reachable|simpl; lia|].
  exists m'. split; [exact Hm|exact Hl].
Defined.

(** One peer too many, and two that misbehaved. *)
Definition demo_penalised (a : PeerAction) : PeerInfo :=
  apply_peer_action_to_score a (set_connection_status (Connected 1 0) (PeerInfo_default 0)).
Definition demo_worse : @PeerId demo_external := 3%positive.
Definition demo_better : @PeerId demo_external := 4%positive.
Definition demo_crowded : PeerManager :=
  let m := demo_manager (mkConfig false false 1 300 20 15) in
  set_peers (set_peer demo_worse (demo_penalised LowToleranceError)
    (set_peer demo_better (demo_penalised HighToleranceError) (pm_peers m))) m.

(** The peer with the worse score is pruned. *)
Definition demo_pruned : PeerManager := prune_excess_peers 5 (fun l => l) (fun l => l) demo_crowded.

Lemma prune_keeps_targets_witness :
  connected_count (pm_peers demo_crowded) = 2 /\ connected_count (pm_peers demo_pruned) = 1 /\
  Z.min (connected_count (pm_peers demo_crowded)) (target_peers demo_crowded)
    <= connected_count (pm_peers demo_pruned).
Proof.
  split; [vm_compute; reflexivity|]. split; [vm_compute; reflexivity|].
  exact (proj1 (prune_keeps_targets 5 (fun l => l) (fun l => l) demo_crowded
    (fun l => reflexivity l) (fun l => reflexivity l))).
Defined.

(** Two peers with a good score, of which the documentation would remove one. *)
Example prune_leaves_excess :
  let m := demo_manager (mkConfig false false 1 300 20 15) in
  let good := set_connection_status (Connected 1 0) (PeerInfo_default 0) in
  let m := set_peers (set_peer demo_worse good (set_peer demo_better good (pm_peers m))) m in
  target_peers m = 1 /\
  connected_count (pm_peers (prune_excess_peers 5 (fun l => l) (fun l => l) m)) = 2.
Proof. vm_compute. done. Qed.

Lemma demo_crowded_numeric : scores_numeric (pm_peers demo_crowded).
Proof. apply (bool_decide_unpack _). vm_compute. exact I. Qed.

Lemma prune_worst_first_witness :
  f64_le (Score_score (score (demo_penalised LowToleranceError))) (Score_score (score (demo_penalised HighToleranceError))) = true.
Proof.
  apply (prune_worst_first (fun l => l) demo_crowded demo_worse _ demo_better _);
    [done|exact demo_crowded_numeric|reflexivity|reflexivity| | |reflexivity|reflexivity|by left].
  - apply (bool_decide_unpack _). vm_compute. exact I.
  - apply (bool_decide_unpack _). vm_compute. exact I.
Defined.

Lemma demo_one_peer :
  match peers (pm_peers demo_one) !! demo_peer with
  | Some i => is_connected i && negb (is_trusted i) && negb (bool_decide (score_state i = StBanned))
              && match score i with ScoreReal _ => true | ScoreMax => false end
  | None => false
  end = true.
Proof. vm_compute. reflexivity. Qed.

Lemma demo_one_not_temporary : bool_decide (lru_abs (temporary_banned_peers demo_one) !! demo_peer = None) = true.
Proof. vm_compute. reflexivity. Qed.

Lemma ban_reaches_swarm_witness :
  exists m1, goodbye_peer 5 demo_peer Fault demo_one = Ret m1 /\
    pm_events m1 = pm_events demo_one ++ [DisconnectPeer demo_peer Fault].
Proof.
  pose proof demo_one_peer as Hp. destruct (peers (pm_peers demo_one) !! demo_peer) as [i|] eqn:Hi;
    [|discriminate].
  destruct (score i) as [|r] eqn:Hs; [by rewrite andb_false_r in Hp|].
  rewrite andb_true_r in Hp. apply andb_prop in Hp as [Hp Hb%negb_true_iff%bool_decide_eq_false].
  apply andb_prop in Hp as [Hc Ht%negb_true_iff].
  destruct (ban_reaches_swarm Config_default [demo_peer2] false 0 5 6 demo_peer Fault demo_one i r
    demo_one_reachable ltac:(lia) ltac:(lia) Hi Hc Ht Hs Hb
    (bool_decide_eq_true_1 _ demo_one_not_temporary)) as (m1 & _ & _ & _ & Hg & Hev & _).
  exists m1. split; [exact Hg|exact Hev].
Defined.

Lemma demo_turned_away_temporary :
  bool_decide (is_Some (lru_abs (temporary_banned_peers demo_turned_away) !! demo_peer)) = true.
Proof. vm_compute. reflexivity. Qed.

Lemma temporary_ban_hides_addresses_witness :
  exists m', handle_ban_operation 2 demo_peer (ReadyToBan [V4 10]) None demo_turned_away = Ret m' /\
    pm_events m' = pm_events demo_turned_away.
Proof.
  destruct (temporary_ban_hides_addresses demo_lonely [demo_peer2] false 1 2 demo_peer [V4 10] None
    demo_turned_away) as (m' & Hm & Hev & _).
  - exact demo_turned_away_reachable.
  - lia.
  - exact (bool_decide_eq_true_1 _ demo_turned_away_temporary).
  - exists m'. split; [exact Hm|exact Hev].
Defined.

Lemma banned_peer_reconnects_witness :
  exists m', on_connection_established 7 demo_peer (Listener demo_addr) 0
      (PeerManager_new Config_default demo_banned) = Ret m' /\
    pm_events m' = [EvMetaData demo_peer; EvBanned demo_peer []].
Proof.
  destruct (banned_peer_reconnects 7 demo_peer (Listener demo_addr) 0
    (PeerManager_new Config_default demo_banned)) as (m' & Hm & Hev & _).
  - vm_compute. reflexivity.
  - exists m'. split; [exact Hm|exact Hev].
Defined.
End demo.
