(* ===== verification/PeerMetrics.v ===== *)
(** * Metrics about peers

    Models the parts of [src/peer_manager/mod.rs] and [network_behaviour.rs] that report to the metrics of
    [Metrics]: [update_connected_peer_metrics], [update_peer_score_metrics], and what a connection that is
    established or closed and an identification change. Each takes the peer manager in the state
    in which the code reads it. *)

From stdpp Require Import sorting.
From S2P Require Import Prelude Float64 Score External RpcTypes LruTimeCache Client PeerInfo PeerDB Ranking SubnetPruning.
From S2P Require Import PeerDBInv PeerDBProps PeerManager PeerManagerInv Metrics.

Section metrics.
Context `{External} `{Libm} `{!SetIter Multiaddr} `{!MapIter PeerId PeerInfo} `{!MapIter string (f64 * Z)}
  `{!HashSetDelay PeerId} `{Prometheus}.

(** ** Connected peers *)

(** The counters of the loop: peers, inbound and outbound peers, peers per client. *)
Record PeerTally : Type := mkTally {
  connected_peer_count : Z; inbound_connected_peers : Z; outbound_connected_peers : Z; clients_per_peer : gmap string Z;
}.
Definition tally_peer (t : PeerTally) (e : PeerId * PeerInfo) : PeerTally :=
  let 'mkTally c n o clients := t in
  let client := ClientKind_as_ref (kind (client e.2)) in
  let clients := <[client := default 0 (clients !! client) + 1]> clients in
  match connection_status e.2 with
  | Connected n_in _ => if 0 <? n_in then mkTally (c + 1) (n + 1) o clients else mkTally (c + 1) n (o + 1) clients
  | _ => mkTally (c + 1) n o clients
  end.

Definition update_connected_peer_metrics (m : PeerManager) (x : NetMetrics) : NetMetrics :=
  if negb (metrics_enabled m) then x
  else
    let 'mkTally connected inbound outbound clients :=
      foldl tally_peer (mkTally 0 0 0 ∅) (connected_peers (pm_peers m)) in
    let x := on_int PEERS_CONNECTED (set_gauge connected) x in
    let x := on_int NETWORK_INBOUND_PEERS (set_gauge inbound) x in
    let x := on_int NETWORK_OUTBOUND_PEERS (set_gauge outbound) x in
    with_clients (foldl (fun v k => set_gauge_vec v [ClientKind_as_ref k] (default 0 (clients !! ClientKind_as_ref k)))
      (PEERS_PER_CLIENT x) ClientKind_iter) x.

(** ** Scores *)

(** The label under which the score at a position of the ranking is reported. *)
Definition position_label (id total_peers : Z) : option string :=
  if id =? 0 then Some "1st"
  else if id =? saturating_sub (total_peers * 3 / 4) 1 then Some "3/4"
  else if id =? saturating_sub (total_peers / 2) 1 then Some "1/2"
  else if id =? saturating_sub (total_peers / 4) 1 then Some "1/4"
  else if id =? saturating_sub total_peers 1 then Some "last"
  else None.

(** The loop over the ranking: the distribution, and the sums and numbers per client. *)
Fixpoint rank_peers (id total_peers : Z) (ranking : list (PeerId * PeerInfo)) (distribution : MetricVec Z)
    (avg : gmap string (f64 * Z)) : MetricVec Z * gmap string (f64 * Z) :=
  match ranking with
  | [] => (distribution, avg)
  | (_, info) :: ranking' =>
      let score := Score_score (score info) in
      let distribution := match position_label id total_peers with
                          | Some label => set_gauge_vec distribution [label] (f64_as_i64 score)
                          | None => distribution
                          end in
      let client := ClientKind_as_ref (kind (client info)) in
      let '(sum, peers) := default (f64_of_Z 0, 0) (avg !! client) in
      rank_peers (id + 1) total_peers ranking' distribution (<[client := (f64_add sum score, peers + 1)]> avg)
  end.

Definition update_peer_score_metrics (m : PeerManager) (x : NetMetrics) : NetMetrics :=
  if negb (metrics_enabled m) then x
  else
    let distribution := reset_vec (PEER_SCORE_DISTRIBUTION x) in
    let per_client := reset_vec (PEER_SCORE_PER_CLIENT x) in
    let ranking := best_peers_by_status is_connected (pm_peers m) in
    let '(distribution, avg) := rank_peers 0 (Z.of_nat (length ranking)) ranking distribution ∅ in
    let per_client := foldl (fun v '(client, (score, peers)) =>
      set_float_gauge_vec v [client] (f64_div score (f64_of_Z peers))) per_client (map_iter avg) in
    with_score_per_client per_client (with_distribution distribution x).

(** ** Events *)

Definition remote_addr (endpoint : ConnectedPoint) : Multiaddr :=
  match endpoint with Dialer address => address | Listener send_back_addr => send_back_addr end.
(** The gauge of the transport, from the first component that names one. *)
Definition transport_gauge (a : Multiaddr) : option IntName :=
  head (omap (fun proto => match proto with
    | QuicV1 => Some QUIC_PEERS_CONNECTED | Tcp _ => Some TCP_PEERS_CONNECTED | _ => None end) (multiaddr_iter a)).
Definition on_transport (a : Multiaddr) (g : IntMetric -> IntMetric) (x : NetMetrics) : NetMetrics :=
  match transport_gauge a with Some k => on_int k g x | None => x end.

(** The end of [inject_peer_connection], for a connected peer. *)
Definition count_connection (m : PeerManager) (x : NetMetrics) : NetMetrics :=
  on_int PEERS_CONNECTED (set_gauge (as_i64 (connected_count (pm_peers m)))) (on_int PEER_CONNECT_EVENT_COUNT inc_counter x).

(** [on_connection_established] with its metrics; [udp4] is whether our record has a UDP port. *)
Definition established_metered (now : Instant) (p : PeerId) (endpoint : ConnectedPoint) (other_established : Z) (udp4 : bool)
    (m : PeerManager) (x : NetMetrics) : outcome (PeerManager * NetMetrics) :=
  let x := if udp4 then check_nat x else x in
  let x := if metrics_enabled m then
      on_int PEER_CONNECT_EVENT_COUNT inc_counter
        (update_connected_peer_metrics m (on_transport (remote_addr endpoint) inc_gauge x))
    else x in
  m' <-! on_connection_established now p endpoint other_established m;
  match ban_status (pm_peers m) p with
  | NotBanned => if peer_limit_reached (is_listener endpoint) m then Ret (m', x) else Ret (m', count_connection m' x)
  | _ => Ret (m', x)
  end.

Definition closed_metered (now : Instant) (p : PeerId) (endpoint : ConnectedPoint) (remaining_established : Z)
    (m : PeerManager) (x : NetMetrics) : outcome (PeerManager * NetMetrics) :=
  m' <-! on_connection_closed now p remaining_established m;
  if (0 <? remaining_established) || negb (metrics_enabled m') then Ret (m', x)
  else
    Ret (m', on_int PEER_DISCONNECT_EVENT_COUNT inc_counter
      (update_connected_peer_metrics m' (on_transport (remote_addr endpoint) dec_gauge x))).

(** [identify] with its metrics. *)
Definition identify_metered (p : PeerId) (listen_addrs : list Multiaddr) (info : IdentifyInfo)
    (m : PeerManager) (x : NetMetrics) : PeerManager * NetMetrics :=
  let m' := identify p listen_addrs info m in
  match peers (pm_peers m) !! p, peers (pm_peers m') !! p with
  | Some i, Some i' =>
      let previous_kind := kind (client i) in
      if negb (bool_decide (previous_kind = kind (client i')))
         || negb (bool_decide (listening_addresses i' = listening_addresses i)) then
        match connection_status i' with
        | Connected _ _ | Disconnecting _ =>
            let v := inc_gauge_vec (PEERS_PER_CLIENT x) [ClientKind_as_ref (kind (client i'))] in
            (m', with_clients (dec_gauge_vec v [ClientKind_as_ref previous_kind]) x)
        | _ => (m', x)
        end
      else (m', x)
  | _, _ => (m', x)
  end.

(** ** Correctness *)

Definition has_inbound (i : PeerInfo) : bool :=
  match connection_status i with Connected n_in _ => 0 <? n_in | _ => false end.
Definition of_client (k : ClientKind) (i : PeerInfo) : bool := bool_decide (kind (client i) = k).

Lemma ClientKind_as_ref_inj k k' : ClientKind_as_ref k = ClientKind_as_ref k' -> k = k'.
Proof. by destruct k, k'. Qed.

Lemma tally_spec l : Forall (fun e => is_connected e.2 = true) l -> forall t, let t' := foldl tally_peer t l in
  connected_peer_count t' = connected_peer_count t + Z.of_nat (length l) /\
  inbound_connected_peers t' = inbound_connected_peers t + Z.of_nat (length (filter (fun e => has_inbound e.2 = true) l)) /\
  inbound_connected_peers t' + outbound_connected_peers t' = inbound_connected_peers t + outbound_connected_peers t + Z.of_nat (length l) /\
  forall k, default 0 (clients_per_peer t' !! ClientKind_as_ref k)
    = default 0 (clients_per_peer t !! ClientKind_as_ref k) + Z.of_nat (length (filter (fun e => of_client k e.2 = true) l)).
Proof.
  induction 1 as [|e l He Hl IH]; intros t; cbn [foldl]; [split_and!; cbn; try intros k; lia|].
  destruct (IH (tally_peer t e)) as (IH1 & IH2 & IH3 & IH4). clear IH. destruct t as [c n o clients].
  assert (exists n_in n_out, connection_status e.2 = Connected n_in n_out) as (n_in & n_out & Hs)
    by (unfold is_connected in He; destruct (connection_status e.2); try done; by eexists _, _).
  assert (forall (P : PeerInfo -> bool), Z.of_nat (length (filter (fun e => P e.2 = true) (e :: l)))
    = (if P e.2 then 1 else 0) + Z.of_nat (length (filter (fun e => P e.2 = true) l))) as Hcons.
  { intros P. rewrite filter_cons. case_decide as E; destruct (P e.2); try done; cbn [length]; lia. }
  rewrite Hcons. split_and!; [rewrite IH1|rewrite IH2|rewrite IH3|intros k; rewrite IH4, Hcons].
  4: { assert (default 0 (clients_per_peer (tally_peer (mkTally c n o clients) e) !! ClientKind_as_ref k)
      = default 0 (clients !! ClientKind_as_ref k) + if of_client k e.2 then 1 else 0) as ->; [|cbn; lia].
    unfold tally_peer, of_client. rewrite Hs. destruct (decide (kind (client e.2) = k)) as [<-|Hne].
    - rewrite bool_decide_true by done. destruct (0 <? n_in); cbn; by rewrite lookup_insert_eq.
    - rewrite bool_decide_false by done.
      destruct (0 <? n_in); cbn; (rewrite lookup_insert_ne by (by intros ?%ClientKind_as_ref_inj)); lia. }
  all: unfold tally_peer, has_inbound; rewrite Hs; destruct (0 <? n_in); cbn [connected_peer_count inbound_connected_peers outbound_connected_peers length]; lia.
Qed.

Lemma filtered_count f g db :
  Z.of_nat (length (filter (fun e => g e.2 = true) (filtered_peers f db))) = map_count (fun i => f i && g i) (peers db).
Proof.
  rewrite <- length_filter_iter. unfold filtered_peers. rewrite list_filter_filter. f_equal. f_equal.
  apply list_filter_iff. intros e. rewrite andb_true_iff. tauto.
Qed.

Lemma map_sum_add {K V} `{Countable K} (w1 w2 : V -> Z) (m : gmap K V) :
  map_sum (fun v => w1 v + w2 v) m = map_sum w1 m + map_sum w2 m.
Proof.
  induction m as [|k v m Hk IH] using map_ind; [by rewrite !map_sum_empty|]. rewrite !map_sum_insert_new by done. lia.
Qed.

(** Every client belongs to one kind. *)
Lemma count_by_client (f : PeerInfo -> bool) (m : gmap PeerId PeerInfo) :
  foldr Z.add 0 (map (fun k => map_count (fun i => f i && of_client k i) m) ClientKind_iter) = map_count f m.
Proof.
  unfold map_count, ClientKind_iter. cbn [map foldr]. rewrite Z.add_0_r, <- !map_sum_add. apply map_sum_ext.
  intros _ i _. unfold of_client. destruct (f i); [|done]. by destruct (kind (client i)).
Qed.

(** All metrics exist. *)
Record registered_metrics (x : NetMetrics) : Prop := {
  reg_ints : forall k, is_ok (ints x k) = true;
  reg_clients : forall s, is_Some (get_metric (PEERS_PER_CLIENT x) [s]);
  reg_distribution : forall s, is_Some (get_metric (PEER_SCORE_DISTRIBUTION x) [s]);
}.

Lemma set_clients_spec (f : ClientKind -> Z) ks v k : NoDup ks -> (forall s, is_Some (get_metric v [s])) ->
  get_metric (foldl (fun v k => set_gauge_vec v [ClientKind_as_ref k] (f k)) v ks) [ClientKind_as_ref k]
    = if decide (k ∈ ks) then Some (f k) else get_metric v [ClientKind_as_ref k].
Proof.
  revert v. induction ks as [|k0 ks IH]; intros v Hnd Hv; cbn [foldl]; [by rewrite decide_False by apply not_elem_of_nil|].
  apply NoDup_cons in Hnd as [Hk0 Hnd]. rewrite IH; [|done|].
  - rewrite get_set_gauge_vec by done. destruct (decide (k = k0)) as [->|Hne].
    + rewrite decide_False, !decide_True by (done || by left). done.
    + rewrite (decide_False (P := [_] = [_])) by (intros [= ?%ClientKind_as_ref_inj]; by subst).
      destruct (decide (k ∈ ks)); [rewrite decide_True by (by right); done|]. rewrite decide_False; [done|]. by intros [?|?]%elem_of_cons.
  - intros s. rewrite get_set_gauge_vec by done. destruct (decide ([ClientKind_as_ref k0] = [s])); [by eauto|apply Hv].
Qed.

(** The tally of the connected peers. *)
Lemma connected_tally m : let t := foldl tally_peer (mkTally 0 0 0 ∅) (connected_peers (pm_peers m)) in
  connected_peer_count t = connected_count (pm_peers m) /\
  inbound_connected_peers t = map_count (fun i => is_connected i && has_inbound i) (peers (pm_peers m)) /\
  inbound_connected_peers t + outbound_connected_peers t = connected_count (pm_peers m) /\
  forall k, default 0 (clients_per_peer t !! ClientKind_as_ref k)
    = map_count (fun i => is_connected i && of_client k i) (peers (pm_peers m)).
Proof.
  assert (Forall (fun e => is_connected e.2 = true) (connected_peers (pm_peers m))) as Hall.
  { apply Forall_forall. intros [p i] Hp. by apply filtered_peers_spec in Hp as [_ ?]. }
  assert (Z.of_nat (length (connected_peers (pm_peers m))) = connected_count (pm_peers m)) as Hlen.
  { unfold connected_count, connected_peer_ids, peers_with. by rewrite length_map. }
  intros t. destruct (tally_spec _ Hall (mkTally 0 0 0 ∅)) as (T1 & T2 & T3 & T4). fold t in T1, T2, T3, T4.
  cbn [connected_peer_count inbound_connected_peers outbound_connected_peers clients_per_peer] in T1, T2, T3.
  split_and!; [lia| |lia|].
  - rewrite T2. apply filtered_count.
  - intros k. rewrite T4. cbn [clients_per_peer]. rewrite lookup_empty. cbn. apply filtered_count.
Qed.

Lemma connected_totals m x : metrics_enabled m = true -> (forall k, is_ok (ints x k) = true) ->
  let x' := update_connected_peer_metrics m x in
  value_of_int PEERS_CONNECTED x' = connected_count (pm_peers m) /\
  value_of_int NETWORK_INBOUND_PEERS x' = map_count (fun i => is_connected i && has_inbound i) (peers (pm_peers m)) /\
  value_of_int NETWORK_INBOUND_PEERS x' + value_of_int NETWORK_OUTBOUND_PEERS x' = connected_count (pm_peers m).
Proof.
  intros Hen Hi x'. destruct (connected_tally m) as (T1 & T2 & T3 & _). subst x'. unfold update_connected_peer_metrics, value_of_int. rewrite Hen.
  destruct (foldl tally_peer _ _) as [c n o clients]. cbn [negb connected_peer_count inbound_connected_peers outbound_connected_peers] in *.
  destruct x as [ints d clients0 s p b a]. cbn [Metrics.ints with_clients on_int] in *.
  pose proof (Hi PEERS_CONNECTED). pose proof (Hi NETWORK_INBOUND_PEERS). pose proof (Hi NETWORK_OUTBOUND_PEERS).
  unfold insert, functions.fn_insert. cbn.
  destruct (ints PEERS_CONNECTED), (ints NETWORK_INBOUND_PEERS), (ints NETWORK_OUTBOUND_PEERS); done.
Qed.

(** C33: After an update the gauges agree with the peer database: the number of connected peers, those that dialed us
    and the others, which together are all, and for each kind of client its connected
    peers, which together are all as well, whatever the order of the hash map. *)
Theorem connected_metrics_exact m x : metrics_enabled m = true -> registered_metrics x ->
  let x' := update_connected_peer_metrics m x in
  let ps := peers (pm_peers m) in
  let per_client k := default 0 (get_metric (PEERS_PER_CLIENT x') [ClientKind_as_ref k]) in
  value_of_int PEERS_CONNECTED x' = connected_count (pm_peers m) /\
  value_of_int NETWORK_INBOUND_PEERS x' = map_count (fun i => is_connected i && has_inbound i) ps /\
  value_of_int NETWORK_INBOUND_PEERS x' + value_of_int NETWORK_OUTBOUND_PEERS x' = connected_count (pm_peers m) /\
  (forall k, per_client k = map_count (fun i => is_connected i && of_client k i) ps) /\
  foldr Z.add 0 (map per_client ClientKind_iter) = connected_count (pm_peers m).
Proof.
  intros Hen [Hi Hc _] x' ps per_client. destruct (connected_totals m x Hen Hi) as (T1 & T2 & T3).
  assert (forall k, per_client k = map_count (fun i => is_connected i && of_client k i) ps) as Hper.
  { intros k. destruct (connected_tally m) as (_ & _ & _ & T4). subst per_client x'. unfold update_connected_peer_metrics. rewrite Hen.
    destruct (foldl tally_peer _ _) as [c n o clients]. destruct x as [ints d clients0 s p b a].
    cbn [negb PEERS_PER_CLIENT with_clients on_int clients_per_peer] in *.
    rewrite (set_clients_spec (fun k => default 0 (clients !! ClientKind_as_ref k))); [| |done].
    - rewrite decide_True by (destruct k; unfold ClientKind_iter; set_solver). apply T4.
    - apply (bool_decide_unpack _). vm_compute. exact I. }
  split_and!; [exact T1|exact T2|exact T3|exact Hper|].
  rewrite (map_ext _ _ Hper), count_by_client. symmetry. apply connected_count_eq.
Qed.

(** A label stands for one position. *)
Lemma position_label_inj id id' n s : position_label id n = Some s -> position_label id' n = Some s -> id = id'.
Proof. unfold position_label. repeat case_match; bool_hyps; intros; simplify_eq; lia. Qed.

Lemma rank_peers_other n s ranking : forall id v avg,
  (forall j, (j < length ranking)%nat -> position_label (id + Z.of_nat j) n <> Some s) ->
  get_metric (rank_peers id n ranking v avg).1 [s] = get_metric v [s].
Proof.
  induction ranking as [|[p i] ranking IH]; intros id v avg Hno; cbn [rank_peers]; [done|].
  destruct (default _ (avg !! _)) as [sum ps]. rewrite IH.
  - pose proof (Hno 0%nat ltac:(cbn; lia)) as H0'. rewrite Z.add_0_r in H0'. destruct (position_label id n) as [s'|]; [|done].
    unfold set_gauge_vec. rewrite get_update, decide_False by congruence. done.
  - intros j Hj. specialize (Hno (S j) ltac:(cbn; lia)). by rewrite Nat2Z.inj_succ, Z.add_succ_r, <- Z.add_succ_l in Hno.
Qed.

Lemma rank_peers_at n s ranking : forall id v avg j e, (forall s, is_Some (get_metric v [s])) ->
  ranking !! j = Some e -> position_label (id + Z.of_nat j) n = Some s ->
  get_metric (rank_peers id n ranking v avg).1 [s] = Some (f64_as_i64 (peer_score e)).
Proof.
  induction ranking as [|[p i] ranking IH]; intros id v avg j e Hv Hj Hs; [done|]. cbn [rank_peers].
  destruct (default _ (avg !! _)) as [sum ps]. destruct j as [|j]; cbn in Hj.
  - injection Hj as <-. rewrite Z.add_0_r in Hs. rewrite rank_peers_other.
    + rewrite Hs. rewrite get_set_gauge_vec by done. by rewrite decide_True.
    + intros j _ Hj'. pose proof (position_label_inj _ _ _ _ Hs Hj'). lia.
  - apply (IH _ _ _ j); [|done|by rewrite Nat2Z.inj_succ, Z.add_succ_r, <- Z.add_succ_l in Hs].
    intros s'. destruct (position_label id n); [|done]. rewrite get_set_gauge_vec by done. case_decide; [by eauto|apply Hv].
Qed.

(** The distribution of the scores is that of the ranking: under each label stands the score of the peer at its position
    among the connected peers from best to worst, cut to an integer, and labels without a position read zero: nothing
    is left of earlier updates. With fewer than eight peers the label of the first quarter has no position. *)
Theorem score_distribution_exact m x f : metrics_enabled m = true -> registered_metrics x ->
  PEER_SCORE_DISTRIBUTION x = Ok f -> family_zero f = 0 ->
  let ranking := best_peers_by_status is_connected (pm_peers m) in
  let n := Z.of_nat (length ranking) in
  let reported s := get_metric (PEER_SCORE_DISTRIBUTION (update_peer_score_metrics m x)) [s] in
  (forall j e s, ranking !! j = Some e -> position_label (Z.of_nat j) n = Some s -> reported s = Some (f64_as_i64 (peer_score e))) /\
  (forall s, (forall j, (j < length ranking)%nat -> position_label (Z.of_nat j) n <> Some s) -> reported s = Some 0) /\
  (n < 8 -> reported "1/4" = Some 0).
Proof.
  intros Hen [_ _ Hd] Hf Hz ranking n reported.
  assert (forall s, reported s = get_metric (rank_peers 0 n ranking (reset_vec (Ok f)) ∅).1 [s]) as Hrep.
  { intros s. unfold reported, update_peer_score_metrics. rewrite Hen, Hf. cbn [negb]. fold ranking. fold n.
    destruct (rank_peers 0 n ranking _ _) as [d avg]. by destruct x. }
  assert (forall s, get_metric (reset_vec (Ok f)) [s] = Some 0) as Hreset.
  { intros s. destruct (Hd s) as [v Hs]. rewrite Hf in Hs. cbn in Hs. by rewrite get_reset, Hs, <- Hz. }
  assert (forall s, (forall j, (j < length ranking)%nat -> position_label (Z.of_nat j) n <> Some s) -> reported s = Some 0) as Hnone
    by (intros s Hno; by rewrite Hrep, rank_peers_other).
  split_and!; [|exact Hnone|].
  - intros j e s Hj Hs. rewrite Hrep. eapply rank_peers_at; [|exact Hj|by rewrite Z.add_0_l]. intros s'. rewrite Hreset. by eexists.
  - intros Hn. apply Hnone. intros j Hj. unfold position_label. assert (saturating_sub (n / 4) 1 = 0) as ->.
    { assert (0 <= n / 4 <= 1) by (split; [apply Z.div_pos; lia|]; assert (n / 4 < 2) by (apply Z.div_lt_upper_bound; lia); lia). sat_arith. }
    repeat case_match; try done; bool_hyps; lia.
Qed.

Lemma update_connected_ints m x k : k ∉ [PEERS_CONNECTED; NETWORK_INBOUND_PEERS; NETWORK_OUTBOUND_PEERS] ->
  ints (update_connected_peer_metrics m x) k = ints x k.
Proof.
  intros Hk. unfold update_connected_peer_metrics. destruct (negb _); [done|].
  destruct (foldl tally_peer _ _) as [c n o cl]. destruct x. cbn. unfold insert, functions.fn_insert.
  repeat case_decide; subst; try done; destruct Hk; set_solver.
Qed.

Lemma registered_on_int k g x : (forall r, is_ok (g r) = is_ok r) -> registered_metrics x -> registered_metrics (on_int k g x).
Proof.
  intros Hg [Hi Hc Hd]. split; [|by destruct x..]. intros k'. rewrite ints_on_int. case_decide; [by rewrite Hg|done].
Qed.

Lemma registered_check_nat x : registered_metrics x -> registered_metrics (check_nat x).
Proof. intros Hx. unfold check_nat. repeat case_match; try done. apply registered_on_int; [by intros []|done]. Qed.

(** An accepted connection is counted twice: once when it is established and again when the peer is entered. Of the
    gauges only the number of connected peers includes the new peer; the gauges of
    inbound and outbound peers were set before it was entered and count the others. *)
Theorem connection_counted_twice now p endpoint other udp4 m x m' x' :
  metrics_enabled m = true -> registered_metrics x -> ban_status (pm_peers m) p = NotBanned ->
  peer_limit_reached (is_listener endpoint) m = false ->
  established_metered now p endpoint other udp4 m x = Ret (m', x') ->
  value_of_int PEER_CONNECT_EVENT_COUNT x' = wrap u64 (value_of_int PEER_CONNECT_EVENT_COUNT x + 2) /\
  value_of_int PEERS_CONNECTED x' = as_i64 (connected_count (pm_peers m')) /\
  value_of_int NETWORK_INBOUND_PEERS x' + value_of_int NETWORK_OUTBOUND_PEERS x' = connected_count (pm_peers m).
Proof.
  intros Hen Hx Hban Hlim. unfold established_metered. rewrite Hen, Hban, Hlim.
  set (x1 := if udp4 then check_nat x else x).
  assert (registered_metrics x1 /\ ints x1 PEER_CONNECT_EVENT_COUNT = ints x PEER_CONNECT_EVENT_COUNT) as [Hx1 He1].
  { unfold x1. destruct udp4; [split; [by apply registered_check_nat|]|done]. unfold check_nat. repeat case_match; try done. by rewrite ints_on_int. }
  clearbody x1. set (x2 := on_transport (remote_addr endpoint) inc_gauge x1).
  assert (registered_metrics x2 /\ ints x2 PEER_CONNECT_EVENT_COUNT = ints x1 PEER_CONNECT_EVENT_COUNT) as [Hx2 He2].
  { unfold x2, on_transport, transport_gauge. destruct (head _) as [k|] eqn:Ek; [|done].
    split; [apply registered_on_int; [by intros []|done]|]. rewrite ints_on_int, decide_False; [done|]. intros ->.
    apply head_Some_elem_of in Ek. apply list_elem_of_omap in Ek as (proto & _ & Hp). by destruct proto. }
  clearbody x2. destruct (on_connection_established _ _ _ _ _) as [m1|]; [|done]. intros [= -> <-].
  destruct (connected_totals m x2 Hen (reg_ints _ Hx2)) as (_ & _ & Hio). pose proof (reg_ints _ Hx2 PEER_CONNECT_EVENT_COUNT) as Hok.
  assert (forall k, is_ok (ints (update_connected_peer_metrics m x2) k) = true) as Hok'.
  { intros k. unfold update_connected_peer_metrics. rewrite Hen. cbn [negb]. destruct (foldl tally_peer _ _).
    pose proof (reg_ints _ Hx2) as Hi. destruct x2 as [i2 ? ? ? ? ? ?]. cbn in *. unfold insert, functions.fn_insert, set_gauge.
    pose proof (Hi k). pose proof (Hi PEERS_CONNECTED). pose proof (Hi NETWORK_INBOUND_PEERS). pose proof (Hi NETWORK_OUTBOUND_PEERS).
    repeat case_decide; subst; by repeat match goal with |- context [i2 ?k] => destruct (i2 k) end. }
  unfold count_connection. split_and!.
  - rewrite !value_on_int. cbn [decide]. rewrite decide_False, decide_True by done. rewrite !ints_on_int, decide_True by done.
    rewrite update_connected_ints by set_solver. unfold value_of_int. rewrite He2, He1 in *.
    destruct (ints x PEER_CONNECT_EVENT_COUNT) as [v|]; [|done]. cbn. unfold wrap. cbn. rewrite !Z.sub_0_r, !Z.add_0_r.
    rewrite Z.add_mod_idemp_l by done. f_equal. lia.
  - rewrite value_on_int, decide_True by done. rewrite !ints_on_int, decide_False by done. specialize (Hok' PEERS_CONNECTED).
    by destruct (ints (update_connected_peer_metrics m x2) PEERS_CONNECTED).
  - rewrite !value_on_int. rewrite !decide_False by done. exact Hio.
Qed.
End metrics.

(** ** Runs on concrete peers *)

Section demo.
#[local] Existing Instance demo_external.
#[local] Existing Instance demo_libm.
#[local] Existing Instance demo_addrs.
#[local] Existing Instance demo_peers.
#[local] Existing Instance demo_prometheus.
#[local] Instance demo_timers : HashSetDelay PeerId := demo_delay_set PeerId.
#[local] Instance demo_sums : MapIter string (f64 * Z) := canonical_map_iter _ _.

Definition demo_idle : PeerManager := PeerManager_new (mkConfig false true 50 300 20 15) (PeerDB_new [] false).
Definition demo_scored (a : PeerAction) (k : ClientKind) : PeerInfo :=
  set_client (mkClient k "" "" "" None) (apply_peer_action_to_score a (set_connection_status (Connected 1 0) (PeerInfo_default 0))).
(** Two connected peers with different scores. *)
Definition demo_busy : PeerManager :=
  set_peers (set_peer demo_peer (demo_scored LowToleranceError Voltaire)
    (set_peer demo_peer2 (demo_scored HighToleranceError Nimbus) (pm_peers demo_idle))) demo_idle.

Lemma fresh_registered : registered_metrics fresh_metrics.
Proof. split; [done|intros s; vm_compute; by eexists..]. Qed.

Lemma connected_metrics_exact_witness :
  let x := update_connected_peer_metrics demo_busy fresh_metrics in
  value_of_int PEERS_CONNECTED x = connected_count (pm_peers demo_busy) /\
  foldr Z.add 0 (map (fun k => default 0 (get_metric (PEERS_PER_CLIENT x) [ClientKind_as_ref k])) ClientKind_iter) = connected_count (pm_peers demo_busy).
Proof.
  destruct (connected_metrics_exact demo_busy fresh_metrics eq_refl fresh_registered) as (H1 & _ & _ & _ & H2). split; [exact H1|exact H2].
Defined.

Lemma score_distribution_exact_witness :
  get_metric (PEER_SCORE_DISTRIBUTION (update_peer_score_metrics demo_busy fresh_metrics)) ["1/4"] = Some 0.
Proof.
  destruct (score_distribution_exact demo_busy fresh_metrics (family_new ["position"] 0) eq_refl fresh_registered eq_refl eq_refl) as (_ & _ & H3).
  apply H3. vm_compute. reflexivity.
Defined.

(** The best of the two has lost one point of its score and the last ten. *)
Example demo_distribution :
  map (fun s => get_metric (PEER_SCORE_DISTRIBUTION (update_peer_score_metrics demo_busy fresh_metrics)) [s]) ["1st"; "3/4"; "1/2"; "1/4"; "last"]
  = [Some (-1); Some 0; Some 0; Some 0; Some (-10)].
Proof. vm_compute. reflexivity. Qed.

Definition demo_metered (r : outcome (PeerManager * NetMetrics)) : PeerManager * NetMetrics :=
  match r with Ret y => y | Panic _ => (demo_idle, fresh_metrics) end.

Lemma connection_counted_twice_witness :
  let y := demo_metered (established_metered 5 demo_peer (Listener demo_addr) 0 true demo_idle fresh_metrics) in
  value_of_int PEER_CONNECT_EVENT_COUNT y.2 = wrap u64 (value_of_int PEER_CONNECT_EVENT_COUNT fresh_metrics + 2).
Proof.
  cbv zeta. assert (is_ret (established_metered 5 demo_peer (Listener demo_addr) 0 true demo_idle fresh_metrics) = true) as Hr by (vm_compute; reflexivity).
  destruct (established_metered 5 demo_peer (Listener demo_addr) 0 true demo_idle fresh_metrics) as [ [m' x']|] eqn:E; [|discriminate Hr].
  destruct (connection_counted_twice 5 demo_peer (Listener demo_addr) 0 true demo_idle fresh_metrics m' x') as [H1 _];
      [vm_compute; reflexivity|exact fresh_registered|vm_compute; reflexivity|vm_compute; reflexivity|exact E|]. exact H1.
Defined.

(** A peer with two connections: when both are closed the gauge of its transport still counts one. *)
Example demo_transport_drift :
  let a := Listener demo_addr in
  let y := demo_metered (established_metered 1 demo_peer a 0 false demo_idle fresh_metrics) in
  let y := demo_metered (established_metered 2 demo_peer a 1 false y.1 y.2) in
  let y := demo_metered (closed_metered 3 demo_peer a 1 y.1 y.2) in
  let y := demo_metered (closed_metered 4 demo_peer a 0 y.1 y.2) in
  (value_of_int TCP_PEERS_CONNECTED y.2, value_of_int PEERS_CONNECTED y.2) = (1, 0).
Proof. vm_compute. reflexivity. Qed.

(** A peer that is being disconnected is identified: it is no longer counted, but its former kind loses one. *)
Example demo_identify_negative :
  let m := set_peers (set_peer demo_peer (set_connection_status (Disconnecting false) (PeerInfo_default 0)) (pm_peers demo_idle)) demo_idle in
  let x := update_connected_peer_metrics m fresh_metrics in
  get_metric (PEERS_PER_CLIENT (identify_metered demo_peer [] (mkIdentifyInfo "Voltaire/v1/linux" "") m x).2) ["Unknown"] = Some (-1).
Proof. vm_compute. reflexivity. Qed.
End demo.
