(* ===== verification/RateLimiter.v ===== *)
(** * The request rate limiter

    Models [src/rpc/rate_limiter.rs]: quotas, the per-key GCRA limiter with its
    64-bit nanosecond arithmetic, the limiter of all protocols and its
    builder, and the configuration record of [src/rpc/config.rs]. The clock
    readings ([Instant::now], [elapsed]) are arguments.

    The theorems show that a limiter never grants a key more than its quota
    over any window of any run, that a [TooSoon] answer names the exact time of
    acceptance, that pruning is invisible, and that limiting one peer or
    protocol leaves the others alone. *)

From S2P Require Import Prelude External RpcTypes.

(** ** Quotas and configuration *)

Record Quota : Type := mkQuota { replenish_all_every : Duration; max_tokens : Z }.

Definition one_every (seconds : Z) : Quota := mkQuota (from_secs seconds) 1.
Definition n_every (n seconds : Z) : Quota := mkQuota (from_secs seconds) n.

#[export] Instance Quota_eq_dec : EqDecision Quota.
Proof. solve_decision. Defined.

(** [config.rs]: [RateLimiterConfig] and its defaults. *)
Record RateLimiterConfig : Type := mkRateLimiterConfig {
  cfg_ping_quota : Quota;
  cfg_meta_data_quota : Quota;
  cfg_status_quota : Quota;
  cfg_goodbye_quota : Quota;
  cfg_pooled_user_op_hashes_quota : Quota;
  cfg_pooled_user_ops_by_hash_quota : Quota;
}.

Definition DEFAULT_PING_QUOTA : Quota := n_every 2 10.
Definition DEFAULT_META_DATA_QUOTA : Quota := n_every 2 5.
Definition DEFAULT_STATUS_QUOTA : Quota := n_every 5 15.
Definition DEFAULT_GOODBYE_QUOTA : Quota := one_every 10.
Definition DEFAULT_POOLED_USER_OP_HASHES_QUOTA : Quota := n_every 1024 10.
Definition DEFAULT_POOLED_USER_OPS_BY_HASH_QUOTA : Quota := n_every 128 10.

Definition RateLimiterConfig_default : RateLimiterConfig := {|
  cfg_ping_quota := DEFAULT_PING_QUOTA;
  cfg_meta_data_quota := DEFAULT_META_DATA_QUOTA;
  cfg_status_quota := DEFAULT_STATUS_QUOTA;
  cfg_goodbye_quota := DEFAULT_GOODBYE_QUOTA;
  cfg_pooled_user_op_hashes_quota := DEFAULT_POOLED_USER_OP_HASHES_QUOTA;
  cfg_pooled_user_ops_by_hash_quota := DEFAULT_POOLED_USER_OPS_BY_HASH_QUOTA;
|}.

(** ** The limiter of one protocol *)

Inductive RateLimitedErr : Type :=
| TooLarge
| TooSoon (wait : Duration).

Section limiter.
Context {Key : Type} `{Countable Key}.

Record Limiter : Type := mkLimiter {
  tau : Z;
  t : Z;
  tat_per_key : gmap Key Z;
}.

Definition from_quota (q : Quota) : result Limiter string :=
  if max_tokens q =? 0 then Err "Max number of tokens should be positive"
  else
    let tau128 := replenish_all_every q in
    if tau128 =? 0 then Err "Replenish time must be positive"
    else
      t64 <-? ok_or (checked u64 (tau128 / max_tokens q)) "total replenish time is too long" ;
      tau64 <-? ok_or (checked u64 tau128) "total replenish time is too long" ;
      Ok (mkLimiter tau64 t64 ∅).

(** [allows]: [t * tokens], [tat + additional_time] and the new TAT wrap at 64
    bits; the entry of a new key is created with the current time. *)
Definition Limiter_allows (time_since_start : Duration) (key : Key) (tokens : Z) (l : Limiter)
  : result unit RateLimitedErr * Limiter :=
  let now := wrap u64 time_since_start in
  let additional_time := wrap u64 (t l * tokens) in
  if tau l <? additional_time then (Err TooLarge, l)
  else
    let tat := default now (tat_per_key l !! key) in
    let earliest_time := saturating_sub (wrap u64 (tat + additional_time)) (tau l) in
    if now <? earliest_time then
      (Err (TooSoon (earliest_time - now)),
       mkLimiter (tau l) (t l) (<[key := tat]> (tat_per_key l)))
    else
      (Ok tt,
       mkLimiter (tau l) (t l)
         (<[key := wrap u64 (Z.max now tat + additional_time)]> (tat_per_key l))).

Definition Limiter_prune (time_limit : Duration) (l : Limiter) : Limiter :=
  let lim := wrap u64 time_limit in
  mkLimiter (tau l) (t l) (filter (fun e => lim <= e.2) (tat_per_key l)).

(** ** Runs of a limiter: calls in the order the event loop makes them *)

Inductive limiter_call : Type :=
| CallAllows (time : Duration) (key : Key) (tokens : Z)
| CallPrune (time : Duration).

Definition call_time (c : limiter_call) : Duration :=
  match c with CallAllows T _ _ => T | CallPrune T => T end.

Fixpoint limiter_run (cs : list limiter_call) (l : Limiter)
  : list (result unit RateLimitedErr) * Limiter :=
  match cs with
  | [] => ([], l)
  | CallAllows T k n :: cs' =>
      let '(r, l1) := Limiter_allows T k n l in
      let '(rs, l2) := limiter_run cs' l1 in
      (r :: rs, l2)
  | CallPrune T :: cs' => limiter_run cs' (Limiter_prune T l)
  end.

(** The tokens granted to [key] in a run. *)
Fixpoint granted (key : Key) (cs : list limiter_call) (l : Limiter) : Z :=
  match cs with
  | [] => 0
  | CallAllows T k n :: cs' =>
      let '(r, l1) := Limiter_allows T k n l in
      (if is_ok r && bool_decide (k = key) then n else 0) + granted key cs' l1
  | CallPrune T :: cs' => granted key cs' (Limiter_prune T l)
  end.

(** Calls made at non-decreasing times from [T0], with room for the arithmetic:
    no time is within two bucket lengths of the end of the 64-bit clock (about
    584 years), and the tokens of one request fit. *)
Fixpoint timely (l : Limiter) (T0 : Duration) (cs : list limiter_call) : Prop :=
  match cs with
  | [] => True
  | c :: cs' =>
      T0 <= call_time c /\ call_time c + 2 * tau l < 2 ^ 64 /\
      match c with CallAllows _ _ n => 0 <= n /\ t l * n < 2 ^ 64 | _ => True end /\
      timely l (call_time c) cs'
  end.

(** The last time of a run. *)
Fixpoint end_time (T0 : Duration) (cs : list limiter_call) : Duration :=
  match cs with [] => T0 | c :: cs' => end_time (call_time c) cs' end.

(** [is_allows c] selects the calls that answer a request. *)
Definition is_allows (c : limiter_call) : bool :=
  match c with CallAllows _ _ _ => true | CallPrune _ => false end.

(** ** Invariant and the abstract state

    What a limiter knows of a key at time [T]: when its bucket is full. *)
Definition full_at (l : Limiter) (T : Duration) (k : Key) : Z :=
  Z.max T (default T (tat_per_key l !! k)).

Definition limiter_inv (l : Limiter) (T : Duration) : Prop :=
  0 <= tau l < 2 ^ 64 /\ 0 <= t l /\
  (forall k v, tat_per_key l !! k = Some v -> 0 <= v <= T + tau l).

(** Two limiters that answer alike from [T] on. *)
Definition limiter_equiv (T : Duration) (l1 l2 : Limiter) : Prop :=
  tau l1 = tau l2 /\ t l1 = t l2 /\ forall k, full_at l1 T k = full_at l2 T k.

Lemma full_at_mono l T T' k : T <= T' -> full_at l T k <= full_at l T' k.
Proof. unfold full_at. destruct (tat_per_key l !! k); simpl; lia. Qed.

Lemma full_at_later l T T' k :
  T <= T' -> full_at l T' k = Z.max T' (full_at l T k).
Proof. unfold full_at. destruct (tat_per_key l !! k); simpl; lia. Qed.

Lemma full_at_upper l T k : limiter_inv l T -> full_at l T k <= T + tau l.
Proof.
  intros (Ht & _ & Hv). unfold full_at. destruct (tat_per_key l !! k) as [v|] eqn:Hk; simpl; [|lia].
  specialize (Hv k v Hk). lia.
Qed.

Lemma limiter_inv_later l T T' : T <= T' -> limiter_inv l T -> limiter_inv l T'.
Proof. intros HT (H1 & H2 & Hv). split_and!; try done || lia. intros k v Hk. specialize (Hv k v Hk). lia. Qed.

(** A call in terms of [full_at], without wrapping. *)
Lemma Limiter_allows_spec l T k n :
  limiter_inv l T -> 0 <= T -> T + 2 * tau l < 2 ^ 64 -> 0 <= n -> t l * n < 2 ^ 64 ->
  let '(r, l') := Limiter_allows T k n l in
  tau l' = tau l /\ t l' = t l /\ limiter_inv l' T /\
  (forall k', k' <> k -> full_at l' T k' = full_at l T k') /\
  ((tau l < t l * n /\ r = Err TooLarge /\ l' = l) \/
   (t l * n <= tau l /\ T + tau l < full_at l T k + t l * n /\
    r = Err (TooSoon (full_at l T k + t l * n - tau l - T)) /\ full_at l' T k = full_at l T k) \/
   (t l * n <= tau l /\ full_at l T k + t l * n <= T + tau l /\
    r = Ok tt /\ full_at l' T k = full_at l T k + t l * n)).
Proof.
  intros (Htau & Ht & Hv) HT Hroom Hn Hprod. unfold Limiter_allows. cbv zeta.
  rewrite (wrap_u64_id T) by lia. rewrite (wrap_u64_id (t l * n)) by nia.
  destruct (tau l <? t l * n) eqn:Hlarge; bool_hyps.
  { split_and!; try done || auto. }
  assert (Htat : 0 <= default T (tat_per_key l !! k) <= T + tau l).
  { destruct (tat_per_key l !! k) as [v|] eqn:Hk; simpl; [|lia]. specialize (Hv k v Hk). lia. }
  pose proof (Z.mul_nonneg_nonneg _ _ Ht Hn).
  set (tat := default T (tat_per_key l !! k)) in *.
  rewrite (wrap_u64_id (tat + t l * n)) by lia. rewrite saturating_sub_spec by lia.
  assert (Hfull : full_at l T k = Z.max T tat) by done.
  destruct (T <? _) eqn:Hsoon; bool_hyps; cbn [tau t tat_per_key].
  - split_and!; try done || lia.
    + split_and!; cbn [tau t tat_per_key]; try lia. intros k' v' [[<- <-]|[? Hk']]%lookup_insert_Some; [lia|eauto].
    + intros k' Hne. unfold full_at. cbn [tat_per_key]. by rewrite lookup_insert_ne.
    + right; left. rewrite Hfull. split_and!; [lia|lia|repeat f_equal; lia|].
      unfold full_at. cbn [tat_per_key]. rewrite lookup_insert_eq. simpl. lia.
  - rewrite wrap_u64_id by lia. split_and!; try done || lia.
    + split_and!; cbn [tau t tat_per_key]; try lia. intros k' v' [[<- <-]|[? Hk']]%lookup_insert_Some; [lia|eauto].
    + intros k' Hne. unfold full_at. cbn [tat_per_key]. by rewrite lookup_insert_ne.
    + right; right. rewrite Hfull. split_and!; [lia|lia|done|].
      unfold full_at. cbn [tat_per_key]. rewrite lookup_insert_eq. simpl. lia.
Qed.

Lemma Limiter_prune_spec l T :
  limiter_inv l T -> 0 <= T < 2 ^ 64 ->
  limiter_inv (Limiter_prune T l) T /\ limiter_equiv T (Limiter_prune T l) l.
Proof.
  intros (Htau & Ht & Hv) HT. unfold Limiter_prune. rewrite wrap_u64_id by lia.
  split; [split_and!; cbn [tau t tat_per_key]; try done; try lia|split_and!; [done..|]].
  - intros k v [Hk _]%map_lookup_filter_Some. eauto.
  - intros k. unfold full_at; cbn [tat_per_key]. rewrite map_lookup_filter.
    destruct (tat_per_key l !! k) as [v|]; simpl; [|done]. case_guard; simpl in *; lia.
Qed.

#[global] Instance limiter_equiv_equivalence T : Equivalence (limiter_equiv T).
Proof.
  split.
  - intros l. by split_and!.
  - intros l1 l2 (?&?&He). by split_and!.
  - intros l1 l2 l3 (H1&H2&He) (H3&H4&He'). split_and!; congruence.
Qed.

Lemma limiter_equiv_later T T' l1 l2 :
  T <= T' -> limiter_equiv T l1 l2 -> limiter_equiv T' l1 l2.
Proof.
  intros HT (H1&H2&He). split_and!; try done. intros k.
  rewrite (full_at_later l1 T T'), (full_at_later l2 T T') by done. by rewrite He.
Qed.

Lemma Limiter_allows_equiv l1 l2 T k n :
  limiter_inv l1 T -> limiter_inv l2 T -> limiter_equiv T l1 l2 ->
  0 <= T -> T + 2 * tau l1 < 2 ^ 64 -> 0 <= n -> t l1 * n < 2 ^ 64 ->
  (Limiter_allows T k n l1).1 = (Limiter_allows T k n l2).1 /\
  limiter_equiv T (Limiter_allows T k n l1).2 (Limiter_allows T k n l2).2.
Proof.
  intros Hi1 Hi2 (Htau & Ht & He) HT Hroom Hn Hp.
  pose proof (Limiter_allows_spec l1 T k n Hi1 HT Hroom Hn Hp) as H1.
  assert (Hroom2 : T + 2 * tau l2 < 2 ^ 64) by (rewrite <- Htau; done).
  assert (Hp2 : t l2 * n < 2 ^ 64) by (rewrite <- Ht; done).
  pose proof (Limiter_allows_spec l2 T k n Hi2 HT Hroom2 Hn Hp2) as H2.
  destruct (Limiter_allows T k n l1) as [r1 l1'], (Limiter_allows T k n l2) as [r2 l2'].
  destruct H1 as (? & ? & _ & Ho1 & Hc1), H2 as (? & ? & _ & Ho2 & Hc2).
  rewrite <- Htau, <- Ht, <- (He k) in Hc2. cbn [fst snd].
  assert (r1 = r2 /\ full_at l1' T k = full_at l2' T k) as [-> Hk].
  { destruct Hc1 as [(?&->&->)|[(?&?&->&->)|(?&?&->&->)]],
      Hc2 as [(?&->&->)|[(?&?&->&->)|(?&?&->&->)]]; try lia; done || auto. }
  split; [done|]. split_and!; [congruence..|]. intros k'.
  destruct (decide (k' = k)) as [->|Hne]; [done|]. by rewrite Ho1, Ho2, He.
Qed.

Lemma timely_ext l l' T cs : tau l' = tau l -> t l' = t l -> timely l T cs -> timely l' T cs.
Proof.
  intros Htau Ht. revert T. induction cs as [|c cs IH]; simpl; intros T; [done|].
  rewrite Htau, Ht. naive_solver.
Qed.

(** Rate bound, over a run from any good state. *)
Lemma granted_full_at key cs l T0 :
  limiter_inv l T0 -> 0 <= T0 -> timely l T0 cs ->
  limiter_inv (limiter_run cs l).2 (end_time T0 cs) /\
  tau (limiter_run cs l).2 = tau l /\
  t l * granted key cs l + full_at l T0 key
    <= full_at (limiter_run cs l).2 (end_time T0 cs) key.
Proof.
  revert l T0. induction cs as [|c cs IH]; intros l T0 Hi HT Hcs; simpl in *.
  { split_and!; [done|done|lia]. }
  destruct Hcs as (Hle & Hroom & Hn & Hcs).
  pose proof (limiter_inv_later l T0 _ Hle Hi) as Hi'.
  pose proof (full_at_mono l T0 (call_time c) key Hle) as Hmono.
  destruct c as [T k n|T]; simpl in *.
  - destruct Hn as [Hn Hp].
    pose proof (Limiter_allows_spec l T k n Hi' ltac:(lia) Hroom Hn Hp) as Hs.
    destruct (Limiter_allows T k n l) as [r l1] eqn:Hcall.
    destruct Hs as (Htau & Ht & Hi1 & Ho & Hc).
    destruct (IH l1 T Hi1 ltac:(lia) (timely_ext l l1 T cs Htau Ht Hcs)) as (Hend & Htau' & Hb).
    destruct (limiter_run cs l1) as [rs l2]; simpl in *.
    split_and!; [done|congruence|]. rewrite Ht in Hb.
    case_bool_decide as Hk; [subst k|].
    + destruct Hc as [(?&->&->)|[(?&?&->&?)|(?&?&->&?)]]; simpl; lia.
    + rewrite Ho in Hb by done. rewrite andb_false_r. lia.
  - destruct Hi as [[? ?] ?].
    destruct (Limiter_prune_spec l T Hi' ltac:(lia)) as [Hi1 (Htau & Ht & He)].
    destruct (IH _ T Hi1 ltac:(lia) (timely_ext l _ T cs Htau Ht Hcs)) as (Hend & Htau' & Hb).
    split_and!; [done|congruence|]. rewrite Ht, He in Hb. lia.
Qed.

Lemma limiter_run_equiv cs l1 l2 T0 :
  limiter_inv l1 T0 -> limiter_inv l2 T0 -> limiter_equiv T0 l1 l2 -> 0 <= T0 ->
  timely l1 T0 cs ->
  (limiter_run cs l1).1 = (limiter_run (filter is_allows cs) l2).1.
Proof.
  revert l1 l2 T0. induction cs as [|c cs IH]; intros l1 l2 T0 Hi1 Hi2 He HT Hcs; [done|].
  destruct Hcs as (Hle & Hroom & Hn & Hcs).
  pose proof (limiter_inv_later _ _ _ Hle Hi1) as Hj1.
  pose proof (limiter_inv_later _ _ _ Hle Hi2) as Hj2.
  pose proof (limiter_equiv_later _ _ _ _ Hle He) as Hej.
  destruct c as [T k n|T]; simpl in Hle, Hroom, Hcs, Hj1, Hj2, Hej.
  - rewrite filter_cons_True by done. simpl. destruct Hn as [Hn Hp].
    destruct (Limiter_allows_equiv l1 l2 T k n Hj1 Hj2 Hej ltac:(lia) Hroom Hn Hp) as [Hr He'].
    pose proof (Limiter_allows_spec l1 T k n Hj1 ltac:(lia) Hroom Hn Hp) as H1.
    destruct Hej as (Htau & Ht & _).
    pose proof (Limiter_allows_spec l2 T k n Hj2 ltac:(lia) ltac:(lia) Hn ltac:(congruence)) as H2.
    destruct (Limiter_allows T k n l1) as [r1 l1'], (Limiter_allows T k n l2) as [r2 l2'].
    simpl in Hr, He'. subst r2. destruct H1 as (Hta & Htb & Hi1' & _), H2 as (_ & _ & Hi2' & _).
    specialize (IH l1' l2' T Hi1' Hi2' He' ltac:(lia) (timely_ext l1 l1' T cs Hta Htb Hcs)).
    destruct (limiter_run cs l1'), (limiter_run (filter is_allows cs) l2'); simpl in *. congruence.
  - rewrite filter_cons_False by (intros []). simpl. pose proof Hi1 as [[? ?] ?].
    destruct (Limiter_prune_spec l1 T Hj1 ltac:(lia)) as [Hi1' Hp].
    apply (IH _ _ T); [done|done| |lia|by apply (timely_ext l1)].
    by etransitivity.
Qed.

Lemma limiter_run_t cs l : t (limiter_run cs l).2 = t l.
Proof.
  revert l. induction cs as [|[T k n|T] cs IH]; intros l; simpl; [done| |by rewrite IH].
  assert (Ht : t (Limiter_allows T k n l).2 = t l) by (unfold Limiter_allows; by repeat case_match).
  destruct (Limiter_allows T k n l) as [r l1]. specialize (IH l1).
  destruct (limiter_run cs l1). simpl in *. congruence.
Qed.

Lemma end_time_mono l T cs : timely l T cs -> T <= end_time T cs.
Proof.
  revert T. induction cs as [|c cs IH]; simpl; intros T; [lia|].
  intros (Hle & _ & _ & Hcs). specialize (IH _ Hcs). lia.
Qed.

End limiter.
Arguments Limiter : clear implicits.
Arguments Limiter Key {_ _}.
Arguments limiter_call : clear implicits.
#[export] Hint Resolve full_at_mono limiter_inv_later : voltaire.

(** ** The limiter of all protocols *)

Section rpc_limiter.
Context `{External}.

(** [prune_interval] is a timer of [tokio]; the ticks it delivers are an
    argument of [poll]. *)
Record RPCRateLimiter : Type := mkRPCRateLimiter {
  init_time : Instant;
  goodbye_rl : Limiter PeerId;
  ping_rl : Limiter PeerId;
  metadata_rl : Limiter PeerId;
  status_rl : Limiter PeerId;
  pooled_user_op_hashes_rl : Limiter PeerId;
  pooled_user_ops_by_hash_rl : Limiter PeerId;
}.

Record RPCRateLimiterBuilder : Type := mkBuilder {
  goodbye_quota : option Quota;
  ping_quota : option Quota;
  metadata_quota : option Quota;
  status_quota : option Quota;
  pooled_user_op_hashes_quota : option Quota;
  pooled_user_ops_by_hash_quota : option Quota;
}.

(** [RPCRateLimiterBuilder::default]. *)
Definition RPCRateLimiter_builder : RPCRateLimiterBuilder :=
  mkBuilder None None None None None None.

Definition set_quota (protocol : Protocol) (quota : Quota) (b : RPCRateLimiterBuilder)
  : RPCRateLimiterBuilder :=
  let 'mkBuilder g p m s h o := b in
  let q := Some quota in
  match protocol with
  | PingProtocol => mkBuilder g q m s h o
  | Status => mkBuilder g p m q h o
  | MetaDataProtocol => mkBuilder g p q s h o
  | Goodbye => mkBuilder q p m s h o
  | PooledUserOpHashesProtocol => mkBuilder g p m s q o
  | PooledUserOpsByHashProtocol => mkBuilder g p m s h q
  end.

Definition RPCRateLimiter_build (now : Instant) (b : RPCRateLimiterBuilder)
  : result RPCRateLimiter string :=
  ping_q <-? ok_or (ping_quota b) "Ping quota not specified" ;
  metadata_q <-? ok_or (metadata_quota b) "MetaData quota not specified" ;
  status_q <-? ok_or (status_quota b) "Status quota not specified" ;
  goodbye_q <-? ok_or (goodbye_quota b) "Goodbye quota not specified" ;
  hashes_q <-? ok_or (pooled_user_op_hashes_quota b)
    "pooled_user_op_hashes_quota quota not specified" ;
  ops_q <-? ok_or (pooled_user_ops_by_hash_quota b)
    "pooled_user_ops_by_hash_quota quota not specified" ;
  ping <-? from_quota ping_q ;
  metadata <-? from_quota metadata_q ;
  status <-? from_quota status_q ;
  goodbye <-? from_quota goodbye_q ;
  hashes <-? from_quota hashes_q ;
  ops <-? from_quota ops_q ;
  Ok {| init_time := now; goodbye_rl := goodbye; ping_rl := ping; metadata_rl := metadata;
        status_rl := status; pooled_user_op_hashes_rl := hashes;
        pooled_user_ops_by_hash_rl := ops |}.

Definition new_with_config (now : Instant) (config : RateLimiterConfig)
  : result RPCRateLimiter string :=
  RPCRateLimiter_build now
    (set_quota PooledUserOpsByHashProtocol (cfg_pooled_user_ops_by_hash_quota config)
    (set_quota PooledUserOpHashesProtocol (cfg_pooled_user_op_hashes_quota config)
    (set_quota Goodbye (cfg_goodbye_quota config)
    (set_quota Status (cfg_status_quota config)
    (set_quota MetaDataProtocol (cfg_meta_data_quota config)
    (set_quota PingProtocol (cfg_ping_quota config) RPCRateLimiter_builder)))))).

(** [match request.protocol()]: the limiter a request is checked against. *)
Definition limiter_of (p : Protocol) (rl : RPCRateLimiter) : Limiter PeerId :=
  match p with
  | PingProtocol => ping_rl rl
  | Status => status_rl rl
  | MetaDataProtocol => metadata_rl rl
  | Goodbye => goodbye_rl rl
  | PooledUserOpHashesProtocol => pooled_user_op_hashes_rl rl
  | PooledUserOpsByHashProtocol => pooled_user_ops_by_hash_rl rl
  end.

Definition set_limiter (p : Protocol) (l : Limiter PeerId) (rl : RPCRateLimiter) : RPCRateLimiter :=
  let 'mkRPCRateLimiter i g pi m s h o := rl in
  match p with
  | PingProtocol => mkRPCRateLimiter i g l m s h o
  | Status => mkRPCRateLimiter i g pi m l h o
  | MetaDataProtocol => mkRPCRateLimiter i g pi l s h o
  | Goodbye => mkRPCRateLimiter i l pi m s h o
  | PooledUserOpHashesProtocol => mkRPCRateLimiter i g pi m s l o
  | PooledUserOpsByHashProtocol => mkRPCRateLimiter i g pi m s h l
  end.

(** The trait [RateLimiterItem]. *)
Class RateLimiterItem (Item : Type) := {
  item_protocol : Item -> Protocol;
  item_expected_responses : Item -> Z;
}.

#[export] Instance InboundRequest_item : RateLimiterItem InboundRequest := {|
  item_protocol := fun r => SupportedProtocol_protocol (Inbound_versioned_protocol r);
  item_expected_responses := Inbound_expected_responses;
|}.

#[export] Instance OutboundRequest_item : RateLimiterItem OutboundRequest := {|
  item_protocol := fun r => SupportedProtocol_protocol (Outbound_versioned_protocol r);
  item_expected_responses := Outbound_expected_responses;
|}.

(** [Instant::elapsed] (saturating). *)
Definition elapsed (now since : Instant) : Duration := Z.max 0 (now - since).

Definition RPCRateLimiter_allows {Item} `{!RateLimiterItem Item} (now : Instant) (peer_id : PeerId)
    (request : Item) (rl : RPCRateLimiter) : result unit RateLimitedErr * RPCRateLimiter :=
  let time_since_start := elapsed now (init_time rl) in
  let tokens := Z.max (item_expected_responses request) 1 in
  let p := item_protocol request in
  let '(r, l) := Limiter_allows time_since_start peer_id tokens (limiter_of p rl) in
  (r, set_limiter p l rl).

Definition RPCRateLimiter_prune (now : Instant) (rl : RPCRateLimiter) : RPCRateLimiter :=
  let time_since_start := elapsed now (init_time rl) in
  {| init_time := init_time rl;
     ping_rl := Limiter_prune time_since_start (ping_rl rl);
     status_rl := Limiter_prune time_since_start (status_rl rl);
     metadata_rl := Limiter_prune time_since_start (metadata_rl rl);
     goodbye_rl := Limiter_prune time_since_start (goodbye_rl rl);
     pooled_user_op_hashes_rl := Limiter_prune time_since_start (pooled_user_op_hashes_rl rl);
     pooled_user_ops_by_hash_rl := Limiter_prune time_since_start (pooled_user_ops_by_hash_rl rl) |}.

(** [Future::poll]: one [prune] for each tick of the timer that is ready, with
    the clock reading of that [prune]. *)
Definition RPCRateLimiter_poll (ticks : list Instant) (rl : RPCRateLimiter)
  : poll unit * RPCRateLimiter :=
  (Pending, foldl (fun rl now => RPCRateLimiter_prune now rl) rl ticks).

Lemma limiter_of_set p p' l rl :
  limiter_of p' (set_limiter p l rl) = if decide (p' = p) then l else limiter_of p' rl.
Proof. by destruct rl, p, p'. Qed.

Lemma init_time_set p l rl : init_time (set_limiter p l rl) = init_time rl.
Proof. by destruct rl, p. Qed.

Lemma limiter_of_prune p now rl :
  limiter_of p (RPCRateLimiter_prune now rl)
  = Limiter_prune (elapsed now (init_time rl)) (limiter_of p rl).
Proof. by destruct p. Qed.

End rpc_limiter.

(** ** Theorems *)

Lemma from_quota_Ok {Key} `{Countable Key} q (l : Limiter Key) :
  0 <= max_tokens q -> 0 <= replenish_all_every q -> from_quota q = Ok l ->
  0 < tau l < 2 ^ 64 /\ tau l = replenish_all_every q /\
  t l = replenish_all_every q / max_tokens q /\ 0 < max_tokens q /\ tat_per_key l = ∅.
Proof.
  intros Hm Hr. unfold from_quota, checked.
  destruct (max_tokens q =? 0) eqn:Hm0; [done|].
  destruct (replenish_all_every q =? 0) eqn:Hr0; [done|].
  destruct (in_range u64 (_ / _)) eqn:Ht; [|done].
  destruct (in_range u64 (replenish_all_every q)) eqn:Htau; [|done].
  intros [= <-]. cbn [tau t tat_per_key]. bool_hyps. apply in_range_spec in Htau.
  unfold int_max in Htau; cbn [signed bits u64] in Htau. split_and!; try done; lia.
Qed.

Lemma from_quota_inv {Key} `{Countable Key} q (l : Limiter Key) T :
  0 <= max_tokens q -> 0 <= replenish_all_every q -> from_quota q = Ok l -> limiter_inv l T.
Proof.
  intros Hm Hr Hl. destruct (from_quota_Ok q l Hm Hr Hl) as (? & ? & Ht & ? & Htat).
  split_and!; [lia|lia|rewrite Ht; apply Z.div_pos; lia|]. rewrite Htat. by intros k v.
Qed.

Lemma timely_app {Key} `{Countable Key} (l : Limiter Key) T cs1 cs2 :
  timely l T (cs1 ++ cs2) <-> timely l T cs1 /\ timely l (end_time T cs1) cs2.
Proof. revert T. induction cs1 as [|c cs1 IH]; simpl; intros T; [tauto|]. rewrite IH. tauto. Qed.

(** C1: the rate bound of the limiter. Take a limiter built from a quota and
    any run of [allows] and [prune] calls at non-decreasing times (with room in
    the 64-bit clock), and any window of the run, from a call [c] to the
    run's end: the time it takes to replenish the tokens granted to a
    key in the window is at most a full bucket plus the length of the window,
    whatever the calls for other keys and the prunings do. *)
Theorem limiter_rate_bound {Key} `{Countable Key} q (l : Limiter Key) key cs1 c cs2 :
  0 <= max_tokens q -> 0 <= replenish_all_every q ->
  from_quota q = Ok l -> timely l 0 (cs1 ++ c :: cs2) ->
  t l * granted key (c :: cs2) (limiter_run cs1 l).2
    <= tau l + (end_time (call_time c) cs2 - call_time c).
Proof.
  intros Hm Hr Hl [Hcs1 Hcs2]%timely_app.
  pose proof (from_quota_inv q l 0 Hm Hr Hl) as Hi.
  destruct (granted_full_at key cs1 l 0 Hi ltac:(lia) Hcs1) as (Hi1 & Htau1 & _).
  assert (Ht1 : t (limiter_run cs1 l).2 = t l) by apply limiter_run_t.
  assert (HT0 : 0 <= end_time 0 cs1) by (eapply end_time_mono; eauto).
  pose proof Hcs2 as (Hle & Hrest).
  set (l1 := (limiter_run cs1 l).2) in *.
  destruct (granted_full_at key (c :: cs2) l1 (call_time c)) as (Hi2 & Htau2 & Hb).
  - by eapply limiter_inv_later.
  - lia.
  - apply (timely_ext l); [done|done|]. split; [lia|done].
  - rewrite Ht1 in Hb. pose proof (full_at_upper _ _ key Hi2) as Hup.
    rewrite Htau2, Htau1 in Hup.
    assert (call_time c <= full_at l1 (call_time c) key) by (unfold full_at; lia).
    simpl end_time in *. lia.
Qed.

(** A run for two keys: a burst of four, a refusal, and a grant half a second
    later, under a quota of four tokens every two seconds. *)
Definition demo_calls : list (limiter_call nat) := [
  CallAllows 0 10%nat 4;
  CallPrune 100000000;
  CallAllows 100000000 10%nat 1;
  CallAllows 100000000 11%nat 2;
  CallAllows 500000000 10%nat 1;
  CallAllows 1000000000 10%nat 1;
  CallAllows 1400000000 10%nat 1;
  CallAllows 2000000000 10%nat 2].
Definition demo_quota : Quota := n_every 4 2.
Definition demo_limiter : Limiter nat := mkLimiter 2000000000 500000000 ∅.

Example demo_limiter_run :
  (limiter_run demo_calls demo_limiter).1 =
  [Ok tt; Err (TooSoon 400000000); Ok tt; Ok tt; Ok tt; Err (TooSoon 100000000); Ok tt].
Proof. vm_compute. reflexivity. Qed.

Lemma limiter_rate_bound_witness :
  500000000 * granted 10%nat demo_calls demo_limiter <= 2000000000 + 2000000000 /\
  granted 10%nat demo_calls demo_limiter = 8.
Proof.
  split; [|vm_compute; reflexivity].
  apply (limiter_rate_bound demo_quota demo_limiter 10%nat []
    (CallAllows 0 10%nat 4) (tail demo_calls)); [done|done|reflexivity|].
  unfold demo_calls; simpl. lia.
Defined.

(** The wait a refused request is told is exact. If [allows] answers
    [TooSoon w], then [w] is positive, the same request is refused with the
    remaining wait at every time before [T + w], and it is granted from [T + w]
    on (other keys may be served in between; the state of the key is what
    counts). *)
Theorem limiter_too_soon_exact {Key} `{Countable Key} (l l1 : Limiter Key) T k n w T' :
  limiter_inv l T -> 0 <= T <= T' -> T' + 2 * tau l < 2 ^ 64 -> 0 <= n -> t l * n < 2 ^ 64 ->
  Limiter_allows T k n l = (Err (TooSoon w), l1) ->
  0 < w /\
  (Limiter_allows T' k n l1).1 = if T' <? T + w then Err (TooSoon (T + w - T')) else Ok tt.
Proof.
  intros Hi HT Hroom Hn Hp Hcall.
  pose proof (Limiter_allows_spec l T k n Hi ltac:(lia) ltac:(destruct Hi; lia) Hn Hp) as Hs.
  rewrite Hcall in Hs. destruct Hs as (Htau & Ht & Hi1 & _ & Hc).
  destruct Hc as [(?&?&?)|[(Hfit & Hlate & [= ->] & Hfull)|(?&?&?&?)]]; [done| |done].
  split; [lia|].
  pose proof (Limiter_allows_spec l1 T' k n
    (limiter_inv_later l1 T T' ltac:(lia) Hi1) ltac:(lia) ltac:(lia) Hn ltac:(rewrite Ht; lia)) as Hs.
  destruct (Limiter_allows T' k n l1) as [r2 l2]. destruct Hs as (_ & _ & _ & _ & Hc).
  rewrite (full_at_later l1 T T') in Hc by lia. rewrite Hfull, Htau, Ht in Hc. simpl.
  destruct (T' <? _) eqn:Hlt; bool_hyps;
    destruct Hc as [(?&->&?)|[(?&?&->&?)|(?&?&->&?)]]; try lia; [|done]. repeat f_equal. lia.
Qed.

Lemma limiter_too_soon_exact_witness :
  0 < 400000000 /\
  (Limiter_allows 300000000 10%nat 1 (mkLimiter 2000000000 500000000 {[10%nat := 2000000000]})).1
  = Err (TooSoon 200000000).
Proof.
  apply (limiter_too_soon_exact (mkLimiter 2000000000 500000000 {[10%nat := 2000000000]}) _
    100000000 10%nat 1 400000000 300000000); [|lia|simpl; lia|lia|simpl; lia|reflexivity].
  split_and!; simpl; try lia. intros k v [<- <-]%lookup_singleton_Some. lia.
Defined.

(** Pruning is invisible. Removing every [prune] call from a run of a
    limiter changes no answer. *)
Theorem limiter_prune_invisible {Key} `{Countable Key} q (l : Limiter Key) cs :
  0 <= max_tokens q -> 0 <= replenish_all_every q ->
  from_quota q = Ok l -> timely l 0 cs ->
  (limiter_run cs l).1 = (limiter_run (filter is_allows cs) l).1.
Proof.
  intros Hm Hr Hl Hcs. pose proof (from_quota_inv q l 0 Hm Hr Hl) as Hi.
  by apply (limiter_run_equiv cs l l 0).
Qed.

Lemma limiter_prune_invisible_witness :
  (limiter_run demo_calls demo_limiter).1
  = (limiter_run (filter is_allows demo_calls) demo_limiter).1.
Proof.
  apply (limiter_prune_invisible demo_quota); [done|done|reflexivity|].
  unfold demo_calls; simpl. lia.
Defined.

(** When a limiter accepts a batch at all. A quota with no tokens, a zero
    replenish time or one beyond 64 bits of nanoseconds gives no limiter; any
    other quota does. A batch within the quota is never [TooLarge], and a
    batch whose replenish time exceeds the bucket always is. *)
Theorem limiter_batch_limit {Key} `{Countable Key} q T (k : Key) n :
  0 <= max_tokens q -> 0 <= replenish_all_every q -> 0 <= T -> 0 <= n ->
  if (max_tokens q =? 0) || (replenish_all_every q =? 0) || (2 ^ 64 <=? replenish_all_every q)
  then is_ok (@from_quota Key _ _ q) = false
  else exists l : Limiter Key, from_quota q = Ok l /\
    (n <= max_tokens q -> T + 2 * tau l < 2 ^ 64 -> (Limiter_allows T k n l).1 = Ok tt) /\
    (tau l < t l * n < 2 ^ 64 -> (Limiter_allows T k n l).1 = Err TooLarge).
Proof.
  intros Hm Hr HT Hn. destruct (is_ok (@from_quota Key _ _ q)) eqn:Hok.
  - destruct (from_quota q) as [l|] eqn:Hl; [|done].
    pose proof (from_quota_Ok q l Hm Hr Hl) as (Htau & Htq & Ht & Hpos & Htat).
    assert ((max_tokens q =? 0) || (replenish_all_every q =? 0)
      || (2 ^ 64 <=? replenish_all_every q) = false) as ->.
    { rewrite !orb_false_iff, !Z.eqb_neq, Z.leb_gt. lia. }
    pose proof (from_quota_inv q l T Hm Hr Hl) as Hi. pose proof Hi as (_ & Ht0 & _).
    exists l. split_and!; [done| |].
    + intros Hle Hroom. assert (t l * n <= tau l).
      { transitivity (t l * max_tokens q); [nia|]. rewrite Ht, Htq, Z.mul_comm.
        by apply Z.mul_div_le. }
      pose proof (Limiter_allows_spec l T k n Hi HT Hroom Hn ltac:(lia)) as Hs.
      assert (Hf : full_at l T k = T) by (unfold full_at; rewrite Htat, lookup_empty; simpl; lia).
      destruct (Limiter_allows T k n l). destruct Hs as (_ & _ & _ & _ & Hc). rewrite Hf in Hc.
      destruct Hc as [(?&->&?)|[(?&?&->&?)|(?&?&->&?)]]; [lia|lia|done].
    + intros [Hlt Hw]. unfold Limiter_allows. rewrite (wrap_u64_id (t l * n)) by lia.
      by apply Z.ltb_lt in Hlt as ->.
  - case_match eqn:Hbad; [done|]. rewrite !orb_false_iff in Hbad. destruct Hbad as [[? ?] ?].
    bool_hyps. exfalso. revert Hok. unfold from_quota, checked.
    assert (0 <= replenish_all_every q / max_tokens q <= replenish_all_every q)
      by (split; [apply Z.div_pos; lia|apply Z.div_le_upper_bound; nia]).
    assert (in_range u64 (replenish_all_every q / max_tokens q) = true) as ->
      by (apply in_range_spec; unfold int_min, int_max; cbn [signed bits u64]; lia).
    assert (in_range u64 (replenish_all_every q) = true) as ->
      by (apply in_range_spec; unfold int_min, int_max; cbn [signed bits u64]; lia).
    by repeat (case_match; bool_hyps; try lia).
Qed.

Lemma limiter_batch_limit_witness :
  exists l : Limiter nat, from_quota demo_quota = Ok l /\
    (4 <= 4 -> 0 + 2 * tau l < 2 ^ 64 -> (Limiter_allows 0 7%nat 4 l).1 = Ok tt) /\
    (tau l < t l * 4 < 2 ^ 64 -> (Limiter_allows 0 7%nat 4 l).1 = Err TooLarge).
Proof. refine (limiter_batch_limit demo_quota 0 7%nat 4 _ _ _ _); done. Defined.

(** *** Runs of the limiter of all protocols *)

Section rpc_runs.
Context `{External} {Item : Type} `{!RateLimiterItem Item}.

Inductive rpc_limiter_call : Type :=
| RpcAllows (now : Instant) (peer : PeerId) (request : Item)
| RpcPrune (now : Instant).

Fixpoint rpc_limiter_run (cs : list rpc_limiter_call) (rl : RPCRateLimiter)
  : list (Protocol * result unit RateLimitedErr) * RPCRateLimiter :=
  match cs with
  | [] => ([], rl)
  | RpcAllows now k i :: cs' =>
      let '(r, rl1) := RPCRateLimiter_allows now k i rl in
      let '(rs, rl2) := rpc_limiter_run cs' rl1 in
      ((item_protocol i, r) :: rs, rl2)
  | RpcPrune now :: cs' => rpc_limiter_run cs' (RPCRateLimiter_prune now rl)
  end.

(** What the limiter of protocol [p] sees of a run. *)
Fixpoint project (p : Protocol) (start : Instant) (cs : list rpc_limiter_call)
  : list (limiter_call PeerId) :=
  match cs with
  | [] => []
  | RpcAllows now k i :: cs' =>
      if decide (item_protocol i = p)
      then CallAllows (elapsed now start) k (Z.max (item_expected_responses i) 1)
           :: project p start cs'
      else project p start cs'
  | RpcPrune now :: cs' => CallPrune (elapsed now start) :: project p start cs'
  end.

(** C38: the limiters of the protocols are independent: the answers a run of
    the combined limiter gives to the requests of a protocol, and the state it
    leaves that protocol's limiter in, are those of that limiter alone on its own
    calls, each request weighing [max(expected_responses, 1)] tokens. *)
Theorem rpc_limiter_projection p cs rl :
  map snd (filter (fun e => e.1 = p) (rpc_limiter_run cs rl).1)
    = (limiter_run (project p (init_time rl) cs) (limiter_of p rl)).1 /\
  limiter_of p (rpc_limiter_run cs rl).2
    = (limiter_run (project p (init_time rl) cs) (limiter_of p rl)).2.
Proof.
  revert rl. induction cs as [|[now k i|now] cs IH]; intros rl; simpl; [done| |].
  - unfold RPCRateLimiter_allows.
    destruct (Limiter_allows _ k _ _) as [r l] eqn:Hcall.
    specialize (IH (set_limiter (item_protocol i) l rl)).
    rewrite init_time_set, limiter_of_set in IH.
    destruct (rpc_limiter_run cs _) as [rs rl2]. simpl in *.
    rewrite filter_cons. simpl. destruct (decide (item_protocol i = p)) as [<-|Hne].
    + rewrite decide_True in IH by done. simpl. rewrite Hcall. simpl in *.
      destruct (limiter_run _ l) as [rs' l']; simpl in *. by destruct IH as [-> ->].
    + rewrite decide_False in IH by done. done.
  - rewrite <- limiter_of_prune. apply (IH (RPCRateLimiter_prune now rl)).
Qed.

(** Limiters of a built configuration. *)
Definition config_quota (p : Protocol) (c : RateLimiterConfig) : Quota :=
  match p with
  | PingProtocol => cfg_ping_quota c
  | Status => cfg_status_quota c
  | MetaDataProtocol => cfg_meta_data_quota c
  | Goodbye => cfg_goodbye_quota c
  | PooledUserOpHashesProtocol => cfg_pooled_user_op_hashes_quota c
  | PooledUserOpsByHashProtocol => cfg_pooled_user_ops_by_hash_quota c
  end.

(** Building the limiter of a configuration succeeds exactly when every
    quota is usable, never fails for a missing quota, gives each protocol
    its own quota and starts with no peer recorded. *)
Theorem new_with_config_spec now config :
  match new_with_config now config with
  | Ok rl => init_time rl = now /\ forall p, from_quota (config_quota p config) = Ok (limiter_of p rl)
  | Err e => exists p, @from_quota PeerId _ _ (config_quota p config) = Err e
  end.
Proof.
  unfold new_with_config, RPCRateLimiter_build. cbn -[from_quota].
  repeat match goal with
  | |- context [match from_quota ?q with _ => _ end] => destruct (from_quota q) eqn:?
  end; try (split; [done|]; by intros []);
  match goal with Hq : from_quota (?f config) = Err ?e |- _ =>
    first [ (by exists PingProtocol) | (by exists MetaDataProtocol) | (by exists Status)
          | (by exists Goodbye) | (by exists PooledUserOpHashesProtocol)
          | (by exists PooledUserOpsByHashProtocol) ] end.
Qed.
End rpc_runs.
