(* ===== verification/RpcConfig.v ===== *)
(** * Parsing of the rate limiter configuration

    Models the string side of [src/rpc/config.rs]: [ProtocolQuota] with its
    [Display] and [FromStr], and [RateLimiterConfig::from_str]. The record
    and its defaults are in [RateLimiter]. The theorems are the round trip of a
    quota, the contract of the configuration string (first quota of a protocol
    wins, missing ones are the default, the first malformed entry is the
    error) and the round trip of a whole configuration string. *)

From Stdlib Require Import Ascii String.
From S2P Require Import Prelude RustStr External RpcTypes RateLimiter.

Record ProtocolQuota : Type := mkProtocolQuota { pq_protocol : Protocol; pq_quota : Quota }.

Definition ProtocolQuota_display (q : ProtocolQuota) : string :=
  Protocol_as_ref (pq_protocol q) +:+ ":" +:+ dec (max_tokens (pq_quota q)) +:+ "/"
  +:+ dec (as_secs (replenish_all_every (pq_quota q))).

Definition quote_mark : string := String (ascii_of_nat 34) "".

Definition ProtocolQuota_from_str (s : string) : result ProtocolQuota string :=
  parts <-? ok_or (split_once ":"%char s) "Missing ':' from quota definition." ;
  let '(protocol_str, quota_str) := parts in
  protocol <-? ok_or (Protocol_from_str protocol_str) "Wrong protocol representation in quota" ;
  parts2 <-? ok_or (split_once "/"%char quota_str)
    ("Quota should be defined as " +:+ quote_mark +:+ "n/t" +:+ quote_mark
     +:+ " (t in seconds). Missing '/' from quota.") ;
  let '(tokens_str, time_str) := parts2 in
  tokens <-? ok_or (parse_u64 tokens_str) "Failed to parse tokens from quota." ;
  seconds <-? ok_or (parse_u64 time_str) "Failed to parse time in seconds from quota." ;
  Ok (mkProtocolQuota protocol (mkQuota (from_secs seconds) tokens)).

(** The six [Option<Quota>] locals of [RateLimiterConfig::from_str] have the
    shape of a builder. *)
Definition or_quota (protocol : Protocol) (quota : Quota) (b : RPCRateLimiterBuilder)
  : RPCRateLimiterBuilder :=
  let 'mkBuilder g p m s h o := b in
  let q := Some quota in
  match protocol with
  | Status => mkBuilder g p m (option_or s q) h o
  | Goodbye => mkBuilder (option_or g q) p m s h o
  | PooledUserOpHashesProtocol => mkBuilder g p m s (option_or h q) o
  | PooledUserOpsByHashProtocol => mkBuilder g p m s h (option_or o q)
  | PingProtocol => mkBuilder g (option_or p q) m s h o
  | MetaDataProtocol => mkBuilder g p (option_or m q) s h o
  end.

(** The [for proto_def in s.split(';')] loop. *)
Fixpoint collect_quotas (proto_defs : list string) (b : RPCRateLimiterBuilder)
  : result RPCRateLimiterBuilder string :=
  match proto_defs with
  | [] => Ok b
  | d :: ds =>
      pq <-? ProtocolQuota_from_str d ;
      collect_quotas ds (or_quota (pq_protocol pq) (pq_quota pq) b)
  end.

Definition RateLimiterConfig_from_str (s : string) : result RateLimiterConfig string :=
  b <-? collect_quotas (split ";"%char s) (mkBuilder None None None None None None) ;
  Ok {| cfg_ping_quota := default DEFAULT_PING_QUOTA (ping_quota b);
        cfg_meta_data_quota := default DEFAULT_META_DATA_QUOTA (metadata_quota b);
        cfg_status_quota := default DEFAULT_STATUS_QUOTA (status_quota b);
        cfg_goodbye_quota := default DEFAULT_GOODBYE_QUOTA (goodbye_quota b);
        cfg_pooled_user_op_hashes_quota :=
          default DEFAULT_POOLED_USER_OP_HASHES_QUOTA (pooled_user_op_hashes_quota b);
        cfg_pooled_user_ops_by_hash_quota :=
          default DEFAULT_POOLED_USER_OPS_BY_HASH_QUOTA (pooled_user_ops_by_hash_quota b) |}.

(** ** Specification *)

(** The first quota given for a protocol. *)
Fixpoint first_quota (p : Protocol) (qs : list ProtocolQuota) : option Quota :=
  match qs with
  | [] => None
  | q :: qs' => if decide (pq_protocol q = p) then Some (pq_quota q) else first_quota p qs'
  end.

Fixpoint parse_all (ds : list string) : result (list ProtocolQuota) string :=
  match ds with
  | [] => Ok []
  | d :: ds' => q <-? ProtocolQuota_from_str d ; qs <-? parse_all ds' ; Ok (q :: qs)
  end.

(** A quota of whole seconds whose numbers fit in 64 bits. *)
Definition printable (q : Quota) : Prop :=
  0 <= max_tokens q < 2 ^ 64 /\
  exists s, 0 <= s < 2 ^ 64 /\ replenish_all_every q = from_secs s.

Definition builder_quota (p : Protocol) (b : RPCRateLimiterBuilder) : option Quota :=
  match p with
  | PingProtocol => ping_quota b
  | Status => status_quota b
  | MetaDataProtocol => metadata_quota b
  | Goodbye => goodbye_quota b
  | PooledUserOpHashesProtocol => pooled_user_op_hashes_quota b
  | PooledUserOpsByHashProtocol => pooled_user_ops_by_hash_quota b
  end.

(** ** Lemmas *)

Lemma builder_or_quota p p' q b :
  builder_quota p (or_quota p' q b)
  = if decide (p' = p) then option_or (builder_quota p b) (Some q) else builder_quota p b.
Proof. by destruct b, p, p'. Qed.

Lemma collect_quotas_spec ds b :
  collect_quotas ds b =
  result_map (fun qs => foldl (fun b q => or_quota (pq_protocol q) (pq_quota q) b) b qs)
    (parse_all ds).
Proof.
  revert b. induction ds as [|d ds IH]; intros b; simpl; [done|].
  destruct (ProtocolQuota_from_str d) as [q|e]; simpl; [|done].
  rewrite IH. by destruct (parse_all ds).
Qed.

Lemma fold_or_quota p qs b :
  builder_quota p (foldl (fun b q => or_quota (pq_protocol q) (pq_quota q) b) b qs)
  = option_or (builder_quota p b) (first_quota p qs).
Proof.
  revert b. induction qs as [|q qs IH]; intros b; simpl.
  - by destruct (builder_quota p b).
  - rewrite IH, builder_or_quota. case_decide; [|done]. by destruct (builder_quota p b).
Qed.

Lemma as_from_secs s : as_secs (from_secs s) = s.
Proof. unfold as_secs, from_secs. by rewrite Z.div_mul. Qed.

Lemma ProtocolQuota_roundtrip p q :
  printable q -> ProtocolQuota_from_str (ProtocolQuota_display (mkProtocolQuota p q))
  = Ok (mkProtocolQuota p q).
Proof.
  intros (Hm & s & Hs & Hr). destruct q as [every n]; simpl in *; subst every.
  unfold ProtocolQuota_from_str, ProtocolQuota_display. cbn [pq_protocol pq_quota max_tokens replenish_all_every].
  rewrite as_from_secs.
  change (":" +:+ ?x) with (String ":"%char x). change ("/" +:+ ?x) with (String "/"%char x).
  rewrite split_once_app by (by destruct p). simpl. rewrite Protocol_from_as_ref. simpl.
  rewrite split_once_app by (apply dec_no_char; [lia|done]). simpl.
  rewrite !parse_u64_dec by done. done.
Qed.

Lemma display_no_sep p q :
  printable q -> str_mem ";"%char (ProtocolQuota_display (mkProtocolQuota p q)) = false.
Proof.
  intros (Hm & s & Hs & Hr). unfold ProtocolQuota_display. cbn [pq_protocol pq_quota].
  rewrite Hr, as_from_secs, !str_mem_app, !dec_no_char by (lia || done). by destruct p.
Qed.

Lemma parse_all_display qs :
  Forall (fun q => printable (pq_quota q)) qs ->
  parse_all (map ProtocolQuota_display qs) = Ok qs.
Proof.
  induction 1 as [|[p q] qs Hq _ IH]; simpl; [done|].
  rewrite ProtocolQuota_roundtrip by done. by rewrite IH.
Qed.

(** ** Theorems *)

(** The contract of a configuration string. If every entry between the
    [;]s parses, each protocol gets the first quota given for it, or its
    default when none is; otherwise the result is the error of the first
    malformed entry. *)
Theorem config_from_str_spec s p :
  match RateLimiterConfig_from_str s, parse_all (split ";"%char s) with
  | Ok c, Ok qs =>
      config_quota p c = default (config_quota p RateLimiterConfig_default) (first_quota p qs)
  | Err e, Err e' => e = e'
  | _, _ => False
  end.
Proof.
  unfold RateLimiterConfig_from_str. rewrite collect_quotas_spec.
  destruct (parse_all _) as [qs|e]; simpl; [|done].
  pose proof (fold_or_quota p qs (mkBuilder None None None None None None)) as Hf.
  destruct p; simpl in *; by rewrite Hf.
Qed.

(** Printing quotas (of whole seconds, within 64 bits) joined by [;] and
    parsing the string gives the configuration in which each protocol has the
    first of its quotas. *)
Theorem config_string_roundtrip q qs :
  Forall (fun q => printable (pq_quota q)) (q :: qs) ->
  exists c, RateLimiterConfig_from_str (join ";"%char (map ProtocolQuota_display (q :: qs))) = Ok c /\
    forall p, config_quota p c
      = default (config_quota p RateLimiterConfig_default) (first_quota p (q :: qs)).
Proof.
  intros Hq.
  set (s := join _ _).
  assert (Hs : parse_all (split ";"%char s) = Ok (q :: qs)).
  { subst s. cbn [map]. rewrite split_join; [by apply (parse_all_display (q :: qs))|].
    change (Forall (fun q => str_mem ";" q = false) (ProtocolQuota_display <$> q :: qs)).
    apply Forall_fmap. eapply Forall_impl; [exact Hq|]. intros [p0 q0] Hp0. by apply display_no_sep. }
  unfold RateLimiterConfig_from_str. rewrite collect_quotas_spec, Hs. simpl result_map.
  eexists. split; [done|]. intros p.
  pose proof (fold_or_quota p (q :: qs) (mkBuilder None None None None None None)) as Hf.
  destruct p; simpl in *; by rewrite Hf.
Qed.

Lemma config_string_roundtrip_witness :
  exists c, RateLimiterConfig_from_str "ping:8/10;ping:1/1;status:5/2" = Ok c /\
    forall p, config_quota p c = default (config_quota p RateLimiterConfig_default)
      (first_quota p [mkProtocolQuota PingProtocol (n_every 8 10);
        mkProtocolQuota PingProtocol (n_every 1 1); mkProtocolQuota Status (n_every 5 2)]).
Proof.
  apply (config_string_roundtrip (mkProtocolQuota PingProtocol (n_every 8 10))
    [mkProtocolQuota PingProtocol (n_every 1 1); mkProtocolQuota Status (n_every 5 2)]).
  repeat constructor; simpl; try lia; eexists; (split; [|reflexivity]); lia.
Defined.
