(* ===== verification/NetConfig.v ===== *)
(** * Network configuration

    Models [src/config.rs] and [src/listen_addr.rs]: listening addresses and
    the filter of discovered records that goes with them, the presets of
    the gossip mesh, the identifiers of gossip messages and the tests for globally
    reachable addresses. The theorems relate these tests to the blocks of the
    registries of special-purpose addresses, show that every preset is a valid
    gossip configuration, and say what a message identifier depends on. *)

From Stdlib.Init Require Import Byte.
From Stdlib Require Import ZifyBool.
From coqutil Require Import Byte Word.LittleEndianList.
From S2P Require Import Prelude RustStr External RpcTypes Wire PeerInfo Topics RateLimiter.

(** ** Addresses: the parts of [std::net] the code uses *)

(** [Ipv4Addr] is a [u32] and [Ipv6Addr] a [u128], in network order. *)
Definition octet (a : Z) (i : Z) : Z := Z.land (Z.shiftr a (8 * (3 - i))) 255.
Definition segment (a : Z) (i : Z) : Z := Z.land (Z.shiftr a (16 * (7 - i))) 65535.

Definition v4_is_private (a : Z) : bool :=
  (octet a 0 =? 10) || ((octet a 0 =? 172) && (16 <=? octet a 1) && (octet a 1 <=? 31))
  || ((octet a 0 =? 192) && (octet a 1 =? 168)).
Definition v4_is_loopback (a : Z) : bool := octet a 0 =? 127.
Definition v4_is_link_local (a : Z) : bool := (octet a 0 =? 169) && (octet a 1 =? 254).
Definition v4_is_broadcast (a : Z) : bool := a =? 0xffffffff.
Definition v4_is_documentation (a : Z) : bool :=
  ((octet a 0 =? 192) && (octet a 1 =? 0) && (octet a 2 =? 2))
  || ((octet a 0 =? 198) && (octet a 1 =? 51) && (octet a 2 =? 100))
  || ((octet a 0 =? 203) && (octet a 1 =? 0) && (octet a 2 =? 113)).
Definition v6_is_unspecified (a : Z) : bool := a =? 0.
Definition v6_is_loopback (a : Z) : bool := a =? 1.

(** ** Globally reachable addresses *)

Definition is_global_ipv4 (addr : Z) : bool :=
  if (addr =? 0xc0000009) || (addr =? 0xc000000a) then true
  else
    negb (v4_is_private addr) && negb (v4_is_loopback addr) && negb (v4_is_link_local addr)
    && negb (v4_is_broadcast addr) && negb (v4_is_documentation addr)
    && negb ((octet addr 0 =? 100) && (Z.land (octet addr 1) 192 =? 64))
    && negb ((Z.land (octet addr 0) 240 =? 240) && negb (v4_is_broadcast addr))
    && negb ((octet addr 0 =? 192) && (octet addr 1 =? 0) && (octet addr 2 =? 0))
    && negb (octet addr 0 =? 0).

Definition is_documentation (addr : Z) : bool :=
  (segment addr 0 =? 0x2001) && (segment addr 1 =? 0xdb8).
Definition is_unique_local (addr : Z) : bool := Z.land (segment addr 0) 0xfe00 =? 0xfc00.
Definition is_unicast_link_local (addr : Z) : bool := Z.land (segment addr 0) 0xffc0 =? 0xfe80.

Definition is_global_ipv6 (addr : Z) : bool :=
  let s := segment addr in
  negb (v6_is_unspecified addr
    || v6_is_loopback addr
    || ((s 0 =? 0) && (s 1 =? 0) && (s 2 =? 0) && (s 3 =? 0) && (s 4 =? 0) && (s 5 =? 0xffff))
    || ((s 0 =? 0x64) && (s 1 =? 0xff9b) && (s 2 =? 1))
    || ((s 0 =? 0x100) && (s 1 =? 0) && (s 2 =? 0) && (s 3 =? 0))
    || (((s 0 =? 0x2001) && (s 1 <? 0x200))
        && negb ((addr =? 0x20010001000000000000000000000001)
                 || (addr =? 0x20010001000000000000000000000002)
                 || ((s 0 =? 0x2001) && (s 1 =? 3))
                 || ((s 0 =? 0x2001) && (s 1 =? 4) && (s 2 =? 0x112))
                 || ((s 0 =? 0x2001) && ((0x20 <=? s 1) && (s 1 <=? 0x2f)))))
    || is_documentation addr
    || is_unique_local addr
    || is_unicast_link_local addr).

(** ** [listen_addr.rs] *)

Record ListenAddr : Type := mkListenAddr {
  addr : Z; disc_port : Z; quic_port : Z; tcp_port : Z;
}.

Inductive ListenAddress : Type :=
| ListenV4 (v4_addr : ListenAddr)
| ListenV6 (v6_addr : ListenAddr)
| DualStack (v4_addr v6_addr : ListenAddr).

(** [SocketAddr]: an address and a port. *)
Record SocketAddr : Type := mkSocketAddr { sock_ip : IpAddr; sock_port : Z }.

Definition discovery_socket_addr (into : Z -> IpAddr) (l : ListenAddr) : SocketAddr :=
  mkSocketAddr (into (addr l)) (disc_port l).
Definition quic_socket_addr (into : Z -> IpAddr) (l : ListenAddr) : SocketAddr :=
  mkSocketAddr (into (addr l)) (quic_port l).
Definition tcp_socket_addr (into : Z -> IpAddr) (l : ListenAddr) : SocketAddr :=
  mkSocketAddr (into (addr l)) (tcp_port l).

Definition listen_v4 (l : ListenAddress) : option ListenAddr :=
  match l with
  | ListenV4 v4_addr | DualStack v4_addr _ => Some v4_addr
  | ListenV6 _ => None
  end.

Definition listen_v6 (l : ListenAddress) : option ListenAddr :=
  match l with
  | ListenV6 v6_addr | DualStack _ v6_addr => Some v6_addr
  | ListenV4 _ => None
  end.

(** A multiaddress by its components. *)
Definition libp2p_addresses (l : ListenAddress) : list (list MaProtocol) :=
  let v4_tcp_multiaddr := option_map (fun v4_addr => [Ip4 (addr v4_addr); Tcp (tcp_port v4_addr)])
    (listen_v4 l) in
  let v4_quic_multiaddr := option_map
    (fun v4_addr => [Ip4 (addr v4_addr); Udp (quic_port v4_addr); QuicV1]) (listen_v4 l) in
  let v6_quic_multiaddr := option_map
    (fun v6_addr => [Ip6 (addr v6_addr); Udp (quic_port v6_addr); QuicV1]) (listen_v6 l) in
  let v6_tcp_multiaddr := option_map (fun v6_addr => [Ip6 (addr v6_addr); Tcp (tcp_port v6_addr)])
    (listen_v6 l) in
  option_list v4_tcp_multiaddr ++ option_list v4_quic_multiaddr ++ option_list v6_quic_multiaddr
    ++ option_list v6_tcp_multiaddr.

(** ** The gossip mesh *)

Definition DUPLICATE_CACHE_TIME : Duration := from_secs 60.
Definition DEFAULT_NETWORK_DIR : string := "cache".

Definition gossip_max_size (is_merge_enabled : bool) (gossip_max_size : Z) : Z :=
  if is_merge_enabled then gossip_max_size else gossip_max_size / 10.

Record NetworkLoad : Type := mkNetworkLoad {
  load_name : string; mesh_n_low : Z; outbound_min : Z; mesh_n : Z; mesh_n_high : Z;
  gossip_lazy : Z; history_gossip : Z; heartbeat_interval : Duration;
}.

Definition from_millis (ms : Z) : Duration := ms * 1000000.

Definition NetworkLoad_from (load : Z) : NetworkLoad :=
  match load with
  | 1 => mkNetworkLoad "Low" 1 1 3 4 3 3 (from_millis 1200)
  | 2 => mkNetworkLoad "Low" 2 2 4 8 3 3 (from_millis 1000)
  | 3 => mkNetworkLoad "Average" 3 2 5 10 3 3 (from_millis 700)
  | 4 => mkNetworkLoad "Average" 4 3 8 12 3 3 (from_millis 700)
  | _ => mkNetworkLoad "High" 5 3 10 15 5 6 (from_millis 500)
  end.

Record GossipsubConfigParams : Type := mkGossipsubConfigParams {
  message_domain_valid_snappy : bytes;
  param_gossip_max_size : Z;
}.

(** The options of [gossipsub::ConfigBuilder] that are set. *)
Record GossipsubOptions : Type := mkGossipsubOptions {
  max_transmit_size : Z;
  gs_heartbeat_interval : Duration;
  gs_mesh_n : Z; gs_mesh_n_low : Z; mesh_outbound_min : Z; gs_mesh_n_high : Z; gs_gossip_lazy : Z;
  fanout_ttl : Duration; history_length : Z; max_messages_per_rpc : option Z; gs_history_gossip : Z;
  validate_messages : bool; duplicate_cache_time : Duration; allow_self_origin : bool;
}.

Definition gossipsub_options (network_load : Z) (params : GossipsubConfigParams) : GossipsubOptions :=
  let load := NetworkLoad_from network_load in
  mkGossipsubOptions (gossip_max_size true (param_gossip_max_size params)) (heartbeat_interval load)
    (mesh_n load) (mesh_n_low load) (outbound_min load) (mesh_n_high load) (gossip_lazy load)
    (from_secs 60) 12 (Some 500) (history_gossip load) true DUPLICATE_CACHE_TIME true.

Section gossip.
Context `{External}.

(** [gossipsub::Config] and its builder: documented conditions under which [build]
    succeeds. *)
Class GossipsubBuilder := {
  GsConfig : Type;
  gs_build : GossipsubOptions -> result GsConfig string;
  gs_build_ok : forall o, 100 <= max_transmit_size o -> gs_history_gossip o <= history_length o ->
    mesh_outbound_min o <= gs_mesh_n_low o <= gs_mesh_n o -> gs_mesh_n o <= gs_mesh_n_high o ->
    2 * mesh_outbound_min o <= gs_mesh_n o -> is_ok (gs_build o) = true;
}.

Definition gossipsub_config `{GossipsubBuilder} (network_load : Z) (params : GossipsubConfigParams)
  : outcome GsConfig :=
  match gs_build (gossipsub_options network_load params) with
  | Ok c => Ret c
  | Err _ => Panic "valid gossipsub configuration"
  end.

(** [sha2::Sha256]. *)
Context (sha256 : bytes -> bytes).

Definition fast_gossip_message_id (message : RawMessage) : bytes :=
  take 8 (sha256 (as_bytes (topic message) ++ data message)).

(** The lengths computed from the topic are used for the capacity alone. *)
Definition prefix (prefix : bytes) (message : RawMessage) : bytes := prefix ++ data message.

Definition gossip_message_id (params : GossipsubConfigParams) (message : RawMessage) : bytes :=
  take 20 (sha256 (prefix (message_domain_valid_snappy params) message)).
End gossip.

(** Nothing but the conditions. *)
#[refine] Definition demo_gs_builder : GossipsubBuilder := {|
  GsConfig := GossipsubOptions;
  gs_build := fun o =>
    if (100 <=? max_transmit_size o) && (gs_history_gossip o <=? history_length o)
       && (mesh_outbound_min o <=? gs_mesh_n_low o) && (gs_mesh_n_low o <=? gs_mesh_n o)
       && (gs_mesh_n o <=? gs_mesh_n_high o) && (2 * mesh_outbound_min o <=? gs_mesh_n o)
    then Ok o else Err "invalid";
|}.
Proof. intros o ? ? ? ? ?. by rewrite !(proj2 (Z.leb_le _ _)) by lia. Defined.

(** ** The configuration *)

(** [discv5::Enr] and its fields; [get_decodable] of an integer. *)
Class EnrFields `{External} := {
  enr_ip4 : Enr -> option Z;
  enr_ip6 : Enr -> option Z;
  enr_udp4 : Enr -> option Z;
  enr_udp6 : Enr -> option Z;
  enr_tcp4 : Enr -> option Z;
  enr_tcp6 : Enr -> option Z;
  enr_get_port : string -> Enr -> option Z;
  enr_get : string -> Enr -> option bytes;
}.

(** [discv5::ListenConfig]. *)
Inductive ListenConfig : Type :=
| LcIpv4 (ip port : Z)
| LcIpv6 (ip port : Z)
| LcDualStack (ipv4 ipv4_port ipv6 ipv6_port : Z).

Section config.
Context `{External} `{!EnrFields}.

Record NetworkConfig : Type := mkNetworkConfig {
  network_dir : string;
  listen_addresses : ListenAddress;
  enr_address : option Z * option Z;
  enr_udp4_port : option Z;
  enr_quic4_port : option Z;
  enr_tcp4_port : option Z;
  enr_udp6_port : option Z;
  enr_tcp6_port : option Z;
  enr_quic6_port : option Z;
  nc_target_peers : Z;
  listen_config : ListenConfig;
  table_filter : Enr -> bool;
  boot_nodes_enr : list Enr;
  boot_nodes_multiaddr : list Multiaddr;
  libp2p_nodes : list Multiaddr;
  nc_trusted_peers : list PeerId;
  nc_disable_peer_scoring : bool;
  disable_discovery : bool;
  disable_quic_support : bool;
  upnp_enabled : bool;
  subscribe_all_subnets : bool;
  network_load : Z;
  private : bool;
  topics : list string;
  nc_metrics_enabled : bool;
  outbound_rate_limiter_config : option RateLimiterConfig;
  inbound_rate_limiter_config : option RateLimiterConfig;
  discv5_enr_update : bool;
  discv5_packet_filter : bool;
}.

Definition filter_v4 (e : Enr) : bool :=
  match enr_ip4 e with Some ip => is_global_ipv4 ip | None => false end.
Definition filter_v6 (e : Enr) : bool :=
  match enr_ip6 e with Some ip => is_global_ipv6 ip | None => false end.
Definition filter_dual (e : Enr) : bool :=
  match enr_ip4 e, enr_ip6 e with
  | None, None => false
  | None, Some ip6 => is_global_ipv6 ip6
  | Some ip4, None => is_global_ipv4 ip4
  | Some ip4, Some ip6 => is_global_ipv4 ip4 && is_global_ipv6 ip6
  end.

(** The three fields that the setters write. *)
Definition set_listening (l : ListenAddress) (lc : ListenConfig) (f : Enr -> bool)
    (c : NetworkConfig) : NetworkConfig :=
  let 'mkNetworkConfig nd _ ea u4 q4 t4 u6 t6 q6 tp _ _ be bm ln tr ds dd dq up sa nl pr to me ob ib eu pf := c in
  mkNetworkConfig nd l ea u4 q4 t4 u6 t6 q6 tp lc f be bm ln tr ds dd dq up sa nl pr to me ob ib eu pf.

Definition set_ipv4_listening_address (a tcp_port disc_port quic_port : Z) (c : NetworkConfig)
  : NetworkConfig :=
  set_listening (ListenV4 (mkListenAddr a disc_port quic_port tcp_port)) (LcIpv4 a disc_port)
    filter_v4 c.

Definition set_ipv6_listening_address (a tcp_port disc_port quic_port : Z) (c : NetworkConfig)
  : NetworkConfig :=
  set_listening (ListenV6 (mkListenAddr a disc_port quic_port tcp_port)) (LcIpv6 a disc_port)
    filter_v6 c.

Definition set_ipv4_ipv6_listening_addresses (v4_addr tcp4_port disc4_port quic4_port
    v6_addr tcp6_port disc6_port quic6_port : Z) (c : NetworkConfig) : NetworkConfig :=
  set_listening
    (DualStack (mkListenAddr v4_addr disc4_port quic4_port tcp4_port)
       (mkListenAddr v6_addr disc6_port quic6_port tcp6_port))
    (LcDualStack v4_addr disc4_port v6_addr disc6_port) filter_dual c.

Definition set_listening_addr (listen_addr : ListenAddress) (c : NetworkConfig) : NetworkConfig :=
  match listen_addr with
  | ListenV4 l => set_ipv4_listening_address (addr l) (tcp_port l) (disc_port l) (quic_port l) c
  | ListenV6 l => set_ipv6_listening_address (addr l) (tcp_port l) (disc_port l) (quic_port l) c
  | DualStack l4 l6 =>
      set_ipv4_ipv6_listening_addresses (addr l4) (tcp_port l4) (disc_port l4) (quic_port l4)
        (addr l6) (tcp_port l6) (disc_port l6) (quic_port l6) c
  end.

(** The values of [Config::default] with a network directory; [discv5] updates the record of a
    node unless told otherwise. *)
Definition NetworkConfig_in (network_dir : string) : NetworkConfig :=
  mkNetworkConfig network_dir
    (ListenV4 (mkListenAddr 0 9000 9000 9000)) (None, None) None None None None None None 50
    (LcIpv4 0 9000) filter_v4 [] [] [] [] false false true true false 3 false [] false None None true true.

(** [std::env::current_dir().unwrap().join(DEFAULT_NETWORK_DIR)], from what the operating
    system answers. *)
Definition default_network_dir (current_dir : result string string) : outcome string :=
  match current_dir with
  | Ok dir => Ret (dir +:+ "/" +:+ DEFAULT_NETWORK_DIR)
  | Err e => Panic ("called `Result::unwrap()` on an `Err` value: " +:+ e)
  end.

(** [Config::default]. *)
Definition NetworkConfig_default (current_dir : result string string) : outcome NetworkConfig :=
  network_dir <-! default_network_dir current_dir;
  Ret (NetworkConfig_in network_dir).

(** The sockets discovery listens on. *)
Definition listen_sockets (lc : ListenConfig) : list SocketAddr :=
  match lc with
  | LcIpv4 ip port => [mkSocketAddr (V4 ip) port]
  | LcIpv6 ip port => [mkSocketAddr (V6 ip) port]
  | LcDualStack ip4 port4 ip6 port6 => [mkSocketAddr (V4 ip4) port4; mkSocketAddr (V6 ip6) port6]
  end.

(** A configuration whose discovery settings fit its listening addresses: discovery
    listens where it is told to, and the table keeps a record exactly when it has an
    address of a family we listen on and all its addresses of these families are
    globally reachable. *)
Definition listening_consistent (c : NetworkConfig) : Prop :=
  let l := listen_addresses c in
  listen_sockets (listen_config c) =
    option_list (option_map (discovery_socket_addr V4) (listen_v4 l)) ++
    option_list (option_map (discovery_socket_addr V6) (listen_v6 l)) /\
  forall e, table_filter c e = true <->
    (listen_v4 l <> None /\ enr_ip4 e <> None \/ listen_v6 l <> None /\ enr_ip6 e <> None) /\
    (listen_v4 l <> None -> forall ip, enr_ip4 e = Some ip -> is_global_ipv4 ip = true) /\
    (listen_v6 l <> None -> forall ip, enr_ip6 e = Some ip -> is_global_ipv6 ip = true).

(** The default configuration and every configuration after a listening address
    was set have discovery settings that fit the listening addresses, and setting an
    address changes nothing else. *)
Theorem listening_settings dir l c :
  listening_consistent (NetworkConfig_in dir) /\
  listening_consistent (set_listening_addr l c) /\
  listen_addresses (set_listening_addr l c) = l /\
  set_listening (listen_addresses c) (listen_config c) (table_filter c) (set_listening_addr l c) = c.
Proof.
  split_and!.
  - split; [done|]. intros e. cbn. unfold filter_v4. destruct (enr_ip4 e); naive_solver.
  - destruct c, l as [[]|[]|[] []]; (split; [done|]); intros e; cbn;
      unfold filter_v4, filter_v6, filter_dual; destruct (enr_ip4 e), (enr_ip6 e);
      rewrite ?andb_true_iff; naive_solver.
  - by destruct c, l as [[]|[]|[] []].
  - by destruct c, l as [[]|[]|[] []].
Qed.
End config.

(** ** Registries of special-purpose addresses *)

(** An address block: its first address and the length of its prefix, for addresses of
    [w] bits. *)
Definition in_block (w : Z) (a : Z) (block : Z * Z) : bool :=
  Z.shiftr a (w - block.2) =? Z.shiftr block.1 (w - block.2).
Definition in_blocks (w : Z) (a : Z) (blocks : list (Z * Z)) : bool := existsb (in_block w a) blocks.

Definition v4 (a b c d : Z) : Z := a * 2 ^ 24 + b * 2 ^ 16 + c * 2 ^ 8 + d.

(** IANA IPv4 special-purpose address blocks that are not globally reachable, but for
    198.18.0.0/15 (benchmarking). *)
Definition v4_special : list (Z * Z) :=
  [(v4 0 0 0 0, 8); (v4 10 0 0 0, 8); (v4 100 64 0 0, 10); (v4 127 0 0 0, 8); (v4 169 254 0 0, 16);
   (v4 172 16 0 0, 12); (v4 192 0 0 0, 24); (v4 192 0 2 0, 24); (v4 192 168 0 0, 16);
   (v4 198 51 100 0, 24); (v4 203 0 113 0, 24); (v4 240 0 0 0, 4)].
(** Exceptions inside 192.0.0.0/24: port control protocol and TURN anycast. *)
Definition v4_reachable : list (Z * Z) := [(v4 192 0 0 9, 32); (v4 192 0 0 10, 32)].

Definition v6 (s0 s1 s2 s3 s4 s5 s6 s7 : Z) : Z :=
  s0 * 2 ^ 112 + s1 * 2 ^ 96 + s2 * 2 ^ 80 + s3 * 2 ^ 64 + s4 * 2 ^ 48 + s5 * 2 ^ 32 + s6 * 2 ^ 16 + s7.

Definition v6_special : list (Z * Z) :=
  [(v6 0 0 0 0 0 0 0 0, 128); (v6 0 0 0 0 0 0 0 1, 128); (v6 0 0 0 0 0 0xffff 0 0, 96);
   (v6 0x64 0xff9b 1 0 0 0 0 0, 48); (v6 0x100 0 0 0 0 0 0 0, 64); (v6 0x2001 0xdb8 0 0 0 0 0 0, 32);
   (v6 0xfc00 0 0 0 0 0 0 0, 7); (v6 0xfe80 0 0 0 0 0 0 0, 10)].
(** The block 2001::/23 of protocol assignments, and its exceptions. *)
Definition v6_ietf : Z * Z := (v6 0x2001 0 0 0 0 0 0 0, 23).
Definition v6_ietf_reachable : list (Z * Z) :=
  [(v6 0x2001 1 0 0 0 0 0 1, 128); (v6 0x2001 1 0 0 0 0 0 2, 128); (v6 0x2001 3 0 0 0 0 0 0, 32);
   (v6 0x2001 4 0x112 0 0 0 0 0, 48); (v6 0x2001 0x20 0 0 0 0 0 0, 28)].

Lemma land_ones a n : 0 <= n -> Z.land a (2 ^ n - 1) = a mod 2 ^ n.
Proof. intros Hn. rewrite <- Z.land_ones by done. by rewrite Z.ones_equiv, Z.sub_1_r. Qed.

(** A mask of the upper bits compares a quotient. *)
Lemma land_upper a k m w : 0 <= k <= w -> 0 <= a < 2 ^ w ->
  (Z.land a (2 ^ w - 2 ^ k) =? m * 2 ^ k) = (a / 2 ^ k =? m).
Proof.
  intros Hk Ha. replace (Z.land a (2 ^ w - 2 ^ k)) with (a / 2 ^ k * 2 ^ k).
  - destruct (Z.eqb_spec (a / 2 ^ k) m), (Z.eqb_spec (a / 2 ^ k * 2 ^ k) (m * 2 ^ k)); nia.
  - assert (2 ^ w - 2 ^ k = Z.ones (w - k) * 2 ^ k) as ->.
    { rewrite Z.ones_equiv, <- Z.sub_1_r, Z.mul_sub_distr_r, <- Z.pow_add_r by lia.
      replace (w - k + k) with w by lia. lia. }
    rewrite <- !Z.shiftl_mul_pow2, <- Z.shiftr_div_pow2 by lia. apply Z.bits_inj'. intros i Hi.
    rewrite Z.land_spec. destruct (Z.ltb_spec i k).
    + rewrite !Z.shiftl_spec_low by lia. by rewrite andb_false_r.
    + rewrite !Z.shiftl_spec by lia. rewrite Z.shiftr_spec by lia. replace (i - k + k) with i by lia.
      destruct (Z.ltb_spec i w).
      * rewrite Z.ones_spec_low by lia. by rewrite andb_true_r.
      * assert (Z.testbit a i = false) as ->; [|done].
        rewrite <- (Z.mod_small a (2 ^ w)) by lia. apply Z.mod_pow2_bits_high. lia.
Qed.

Lemma octet_spec a i : 0 <= i <= 3 -> octet a i = a / 2 ^ (8 * (3 - i)) mod 256.
Proof.
  intros Hi. unfold octet. rewrite (land_ones _ 8), Z.shiftr_div_pow2 by lia. done.
Qed.

Lemma octets_of a b c d :
  0 <= a < 256 -> 0 <= b < 256 -> 0 <= c < 256 -> 0 <= d < 256 ->
  octet (v4 a b c d) 0 = a /\ octet (v4 a b c d) 1 = b /\ octet (v4 a b c d) 2 = c /\
  octet (v4 a b c d) 3 = d.
Proof. intros. rewrite !octet_spec by lia. unfold v4. cbn. split_and!; Z.to_euclidean_division_equations; lia. Qed.

Lemma v4_octets x : 0 <= x < 2 ^ 32 -> exists a b c d,
  0 <= a < 256 /\ 0 <= b < 256 /\ 0 <= c < 256 /\ 0 <= d < 256 /\ x = v4 a b c d.
Proof.
  intros Hx. exists (x / 2 ^ 24), (x / 2 ^ 16 mod 256), (x / 2 ^ 8 mod 256), (x mod 256).
  unfold v4. split_and!; Z.to_euclidean_division_equations; lia.
Qed.

(** The quotients of an address by its octets. *)
Lemma v4_quotients a b c d :
  0 <= a < 256 -> 0 <= b < 256 -> 0 <= c < 256 -> 0 <= d < 256 ->
  Z.shiftr (v4 a b c d) 28 = a / 16 /\ Z.shiftr (v4 a b c d) 24 = a /\
  Z.shiftr (v4 a b c d) 22 = a * 4 + b / 64 /\ Z.shiftr (v4 a b c d) 20 = a * 16 + b / 16 /\
  Z.shiftr (v4 a b c d) 16 = a * 256 + b /\ Z.shiftr (v4 a b c d) 8 = (a * 256 + b) * 256 + c.
Proof.
  intros. rewrite !Z.shiftr_div_pow2 by lia. unfold v4. cbn.
  split_and!; Z.to_euclidean_division_equations; lia.
Qed.

(** Evaluates the closed address blocks. *)
Ltac eval_closed := repeat match goal with
  | |- context [?w - ?k] => let v := eval vm_compute in (w - k) in
      lazymatch v with Zpos _ => idtac | Z0 => idtac end; change (w - k) with v
  | |- context [?x =? Z.shiftr ?y ?k] => let v := eval vm_compute in (Z.shiftr y k) in
      lazymatch v with Zpos _ => idtac | Z0 => idtac end; change (Z.shiftr y k) with v
  end.

(** Case analysis on the comparisons of a boolean goal, as far as they are not decided by
    the hypotheses. *)
Ltac decide_atoms := repeat (match goal with
  | |- context [?x =? ?y] =>
      first [rewrite (proj2 (Z.eqb_neq x y)) by lia | rewrite (proj2 (Z.eqb_eq x y)) by lia
            | destruct (Z.eqb_spec x y)]
  | |- context [?x <=? ?y] =>
      first [rewrite (proj2 (Z.leb_gt x y)) by lia | rewrite (proj2 (Z.leb_le x y)) by lia
            | destruct (Z.leb_spec x y)]
  | |- context [?x <? ?y] =>
      first [rewrite (proj2 (Z.ltb_ge x y)) by lia | rewrite (proj2 (Z.ltb_lt x y)) by lia
            | destruct (Z.ltb_spec x y)]
  end; cbn [andb orb negb]); try reflexivity.

(** The test of IPv4 addresses accepts exactly the addresses outside the blocks of
    special purpose, and the two anycast addresses that are exceptions. *)
Theorem is_global_ipv4_blocks x : 0 <= x < 2 ^ 32 ->
  is_global_ipv4 x = in_blocks 32 x v4_reachable || negb (in_blocks 32 x v4_special).
Proof.
  intros Hx. destruct (v4_octets x Hx) as (a & b & c & d & Ha & Hb & Hc & Hd & ->).
  destruct (octets_of a b c d Ha Hb Hc Hd) as (H0 & H1 & H2 & H3).
  destruct (v4_quotients a b c d Ha Hb Hc Hd) as (Q4 & Q8 & Q10 & Q12 & Q16 & Q24).
  unfold is_global_ipv4, v4_is_private, v4_is_loopback, v4_is_link_local, v4_is_broadcast,
    v4_is_documentation. rewrite H0, H1, H2.
  assert ((Z.land b 192 =? 64) = (b / 64 =? 1)) as -> by exact (land_upper b 6 1 8 ltac:(lia) Hb).
  assert ((Z.land a 240 =? 240) = (a / 16 =? 15)) as -> by exact (land_upper a 4 15 8 ltac:(lia) Ha).
  unfold in_blocks, v4_reachable, v4_special. cbn [existsb]. unfold in_block. cbn [fst snd].
  eval_closed. rewrite Q4, Q8, Q10, Q12, Q16, Q24, Z.shiftr_0_r.
  clear H0 H1 H2 H3 Q4 Q8 Q10 Q12 Q16 Q24 Hx. unfold v4.
  assert (64 * (b / 64) <= b < 64 * (b / 64) + 64) by (Z.to_euclidean_division_equations; lia).
  assert (16 * (b / 16) <= b < 16 * (b / 16) + 16) by (Z.to_euclidean_division_equations; lia).
  assert (16 * (a / 16) <= a < 16 * (a / 16) + 16) by (Z.to_euclidean_division_equations; lia).
  generalize dependent (b / 64). generalize dependent (b / 16). generalize dependent (a / 16).
  intros a16 ? b16 ? b64 ?. decide_atoms.
Qed.

Lemma segment_spec a i : 0 <= i <= 7 -> segment a i = a / 2 ^ (16 * (7 - i)) mod 65536.
Proof.
  intros Hi. unfold segment. rewrite (land_ones _ 16), Z.shiftr_div_pow2 by lia. done.
Qed.

(** One more segment of an address. *)
Lemma horner_div x y m : 0 <= y < m -> (x * m + y) / m = x.
Proof. intros Hy. rewrite Z.div_add_l by lia. rewrite Z.div_small by lia. lia. Qed.
Lemma horner_mod x y m : 0 <= y < m -> (x * m + y) mod m = y.
Proof. intros Hy. rewrite Z.add_comm, Z.mod_add, Z.mod_small by lia. done. Qed.

Section v6.
Context (s0 s1 s2 s3 s4 s5 s6 s7 : Z).
Hypotheses (H0 : 0 <= s0 < 65536) (H1 : 0 <= s1 < 65536) (H2 : 0 <= s2 < 65536)
  (H3 : 0 <= s3 < 65536) (H4 : 0 <= s4 < 65536) (H5 : 0 <= s5 < 65536) (H6 : 0 <= s6 < 65536)
  (H7 : 0 <= s7 < 65536).

#[local] Definition h1 : Z := s0 * 65536 + s1.
#[local] Definition h2 : Z := h1 * 65536 + s2.
#[local] Definition h3 : Z := h2 * 65536 + s3.
#[local] Definition h4 : Z := h3 * 65536 + s4.
#[local] Definition h5 : Z := h4 * 65536 + s5.
#[local] Definition h6 : Z := h5 * 65536 + s6.

Lemma v6_horner : v6 s0 s1 s2 s3 s4 s5 s6 s7 = h6 * 65536 + s7.
Proof. unfold v6, h6, h5, h4, h3, h2, h1. lia. Qed.

Lemma v6_shift : let x := v6 s0 s1 s2 s3 s4 s5 s6 s7 in
  x / 2 ^ 16 = h6 /\ x / 2 ^ 32 = h5 /\ x / 2 ^ 48 = h4 /\ x / 2 ^ 64 = h3 /\ x / 2 ^ 80 = h2 /\
  x / 2 ^ 96 = h1 /\ x / 2 ^ 112 = s0.
Proof.
  intros x. unfold x. rewrite v6_horner.
  change (2 ^ 16) with 65536. change (2 ^ 32) with (65536 * 65536). change (2 ^ 48) with (65536 * 65536 * 65536).
  change (2 ^ 64) with (65536 * 65536 * 65536 * 65536).
  change (2 ^ 80) with (65536 * 65536 * 65536 * 65536 * 65536).
  change (2 ^ 96) with (65536 * 65536 * 65536 * 65536 * 65536 * 65536).
  change (2 ^ 112) with (65536 * 65536 * 65536 * 65536 * 65536 * 65536 * 65536).
  unfold h6, h5, h4, h3, h2, h1. rewrite <- !Z.div_div by done. rewrite !horner_div by done. done.
Qed.

Lemma segments_of : let s := segment (v6 s0 s1 s2 s3 s4 s5 s6 s7) in
  s 0 = s0 /\ s 1 = s1 /\ s 2 = s2 /\ s 3 = s3 /\ s 4 = s4 /\ s 5 = s5.
Proof.
  destruct v6_shift as (E6 & E5 & E4 & E3 & E2 & E1 & E0). cbn zeta. rewrite !segment_spec by lia.
  change (16 * (7 - 0)) with 112. change (16 * (7 - 1)) with 96. change (16 * (7 - 2)) with 80.
  change (16 * (7 - 3)) with 64. change (16 * (7 - 4)) with 48. change (16 * (7 - 5)) with 32.
  rewrite E0, E1, E2, E3, E4, E5. unfold h5, h4, h3, h2, h1. rewrite !horner_mod by done.
  rewrite Z.mod_small by done. by split_and!.
Qed.

Lemma v6_quotients : let x := v6 s0 s1 s2 s3 s4 s5 s6 s7 in
  Z.shiftr x 121 = s0 / 512 /\ Z.shiftr x 118 = s0 / 64 /\ Z.shiftr x 105 = s0 * 128 + s1 / 512 /\
  Z.shiftr x 100 = s0 * 4096 + s1 / 16 /\ Z.shiftr x 96 = h1 /\ Z.shiftr x 80 = h2 /\
  Z.shiftr x 64 = h3 /\ Z.shiftr x 32 = h5.
Proof.
  destruct v6_shift as (E6 & E5 & E4 & E3 & E2 & E1 & E0). cbn zeta in *.
  rewrite !Z.shiftr_div_pow2 by lia. rewrite E1, E2, E3, E5.
  change (2 ^ 121) with (2 ^ 112 * 512). change (2 ^ 118) with (2 ^ 112 * 64).
  change (2 ^ 105) with (2 ^ 96 * 512). change (2 ^ 100) with (2 ^ 96 * 16).
  rewrite <- !Z.div_div by done. rewrite E0, E1. unfold h1. 
  split_and!; try done; Z.to_euclidean_division_equations; lia.
Qed.
End v6.

Lemma v6_segments x : 0 <= x < 2 ^ 128 -> exists s0 s1 s2 s3 s4 s5 s6 s7,
  0 <= s0 < 65536 /\ 0 <= s1 < 65536 /\ 0 <= s2 < 65536 /\ 0 <= s3 < 65536 /\ 0 <= s4 < 65536 /\
  0 <= s5 < 65536 /\ 0 <= s6 < 65536 /\ 0 <= s7 < 65536 /\ x = v6 s0 s1 s2 s3 s4 s5 s6 s7.
Proof.
  intros Hx.
  pose (q := fun k => x / 65536 ^ k).
  assert (forall k k', 0 <= k -> k' = k + 1 -> q k' * 65536 + q k mod 65536 = q k) as Hq.
  { intros k k' Hk ->. unfold q. rewrite Z.pow_add_r, <- Z.div_div by lia. change (65536 ^ 1) with 65536.
    pose proof (Z.div_mod (x / 65536 ^ k) 65536). lia. }
  exists (q 7), (q 6 mod 65536), (q 5 mod 65536), (q 4 mod 65536), (q 3 mod 65536), (q 2 mod 65536),
    (q 1 mod 65536), (q 0 mod 65536).
  assert (forall k, 0 <= k mod 65536 < 65536) as Hm by (intros; apply Z.mod_pos_bound; lia).
  split_and!; try apply Hm.
  - apply Z.div_pos; lia.
  - apply Z.div_lt_upper_bound; [done|]. cbn. lia.
  - rewrite v6_horner. unfold h6, h5, h4, h3, h2, h1.
    rewrite (Hq 6 7), (Hq 5 6), (Hq 4 5), (Hq 3 4), (Hq 2 3), (Hq 1 2), (Hq 0 1) by lia.
    unfold q. by rewrite Z.pow_0_r, Z.div_1_r.
Qed.

(** The test of IPv6 addresses accepts exactly the addresses outside the blocks of
    special purpose and outside 2001::/23 but for the exceptions in it. *)
Theorem is_global_ipv6_blocks x : 0 <= x < 2 ^ 128 ->
  is_global_ipv6 x =
    negb (in_blocks 128 x v6_special || (in_block 128 x v6_ietf && negb (in_blocks 128 x v6_ietf_reachable))).
Proof.
  intros Hx. destruct (v6_segments x Hx)
    as (s0 & s1 & s2 & s3 & s4 & s5 & s6 & s7 & H0 & H1 & H2 & H3 & H4 & H5 & H6 & H7 & ->).
  destruct (segments_of s0 s1 s2 s3 s4 s5 s6 s7) as (E0 & E1 & E2 & E3 & E4 & E5); [done..|].
  destruct (v6_quotients s0 s1 s2 s3 s4 s5 s6 s7) as (Q7 & Q10 & Q23 & Q28 & Q32 & Q48 & Q64 & Q96); [done..|].
  unfold is_global_ipv6, v6_is_unspecified, v6_is_loopback, is_documentation, is_unique_local,
    is_unicast_link_local. cbn zeta. rewrite E0, E1, E2, E3, E4, E5.
  assert ((Z.land s0 0xfe00 =? 0xfc00) = (s0 / 512 =? 126)) as -> by exact (land_upper s0 9 126 16 ltac:(lia) H0).
  assert ((Z.land s0 0xffc0 =? 0xfe80) = (s0 / 64 =? 1018)) as -> by exact (land_upper s0 6 1018 16 ltac:(lia) H0).
  unfold in_blocks, v6_special, v6_ietf, v6_ietf_reachable. cbn [existsb]. unfold in_block. cbn [fst snd].
  eval_closed. rewrite Q7, Q10, Q23, Q28, Q32, Q48, Q64, Q96, Z.shiftr_0_r, v6_horner.
  clear E0 E1 E2 E3 E4 E5 Q7 Q10 Q23 Q28 Q32 Q48 Q64 Q96 Hx.
  assert (512 * (s0 / 512) <= s0 < 512 * (s0 / 512) + 512) by (Z.to_euclidean_division_equations; lia).
  assert (64 * (s0 / 64) <= s0 < 64 * (s0 / 64) + 64) by (Z.to_euclidean_division_equations; lia).
  assert (512 * (s1 / 512) <= s1 < 512 * (s1 / 512) + 512) by (Z.to_euclidean_division_equations; lia).
  assert (16 * (s1 / 16) <= s1 < 16 * (s1 / 16) + 16) by (Z.to_euclidean_division_equations; lia).
  generalize dependent (s0 / 512). generalize dependent (s0 / 64). generalize dependent (s1 / 512).
  generalize dependent (s1 / 16). intros b16 ? b512 ? a64 ? a512 ?.
  unfold h6, h5, h4, h3, h2, h1. decide_atoms.
Qed.

(** ** Gossip *)

(** Every network load gives gossip options that the builder accepts, so building the
    configuration does not panic; the limit on messages is the one asked for. *)
Theorem gossipsub_config_valid `{GossipsubBuilder} load params :
  100 <= param_gossip_max_size params ->
  is_ret (gossipsub_config load params) = true /\
  max_transmit_size (gossipsub_options load params) = param_gossip_max_size params.
Proof.
  intros Hmax. split; [|done]. unfold gossipsub_config.
  assert (is_ok (gs_build (gossipsub_options load params)) = true) as Hok.
  { assert (exists l, NetworkLoad_from load = l /\ history_gossip l <= 12 /\
      outbound_min l <= mesh_n_low l <= mesh_n l /\ mesh_n l <= mesh_n_high l /\
      2 * outbound_min l <= mesh_n l) as (l & El & ? & ? & ? & ?).
    { eexists. split; [done|]. unfold NetworkLoad_from. destruct load as [|p|p]; [cbn; lia| |cbn; lia].
      destruct p as [[|[]|]|[[]|[]|]|]; cbn; lia. }
    apply gs_build_ok; unfold gossipsub_options; cbn; rewrite ?El; try done; lia. }
  by destruct (gs_build _).
Qed.

(** The identifier of a message is that of its data: messages with the same data on
    different topics have the same identifier. *)
Lemma message_id_ignores_topic `{External} sha256 params (m1 m2 : RawMessage) :
  data m1 = data m2 -> gossip_message_id sha256 params m1 = gossip_message_id sha256 params m2.
Proof. unfold gossip_message_id, prefix. by intros ->. Qed.

(** ** Witnesses *)

Lemma is_global_ipv4_blocks_witness : is_global_ipv4 (v4 8 8 8 8) =
  in_blocks 32 (v4 8 8 8 8) v4_reachable || negb (in_blocks 32 (v4 8 8 8 8) v4_special).
Proof. apply is_global_ipv4_blocks. vm_compute. split; discriminate || done. Defined.

Lemma is_global_ipv6_blocks_witness :
  let a := v6 0x2001 1 0 0 0 0 0 1 in
  is_global_ipv6 a =
    negb (in_blocks 128 a v6_special || (in_block 128 a v6_ietf && negb (in_blocks 128 a v6_ietf_reachable))).
Proof. apply is_global_ipv6_blocks. vm_compute. split; discriminate || done. Defined.

Lemma gossipsub_config_valid_witness :
  is_ret (@gossipsub_config demo_gs_builder 3 (mkGossipsubConfigParams [x01; x00; x00; x00] 10485760)) = true /\
  max_transmit_size (gossipsub_options 3 (mkGossipsubConfigParams [x01; x00; x00; x00] 10485760)) = 10485760.
Proof. apply (@gossipsub_config_valid demo_gs_builder). cbn. lia. Defined.

Example demo_global :
  (is_global_ipv4 (v4 8 8 8 8), is_global_ipv4 (v4 10 1 2 3), is_global_ipv4 (v4 192 0 0 9),
   is_global_ipv4 (v4 198 18 0 1), is_global_ipv6 (v6 0x2001 0x4860 0 0 0 0 0 0x8888),
   is_global_ipv6 (v6 0xfe80 0 0 0 0 0 0 1), is_global_ipv6 (v6 0x2001 0x20 0 0 0 0 0 1)) =
  (true, false, true, true, true, false, true).
Proof. vm_compute. reflexivity. Qed.
