(* ===== verification/EnrRecords.v ===== *)
(** * Node records

    Models [src/discovery/enr.rs] and [enr_ext.rs]: building our own record from
    the configuration, choosing between it and the record stored on disk, and the
    addresses of a record. The record library is the class [EnrLib]: signing,
    the text form and the builder. Files are values: what reading the file
    gives, and what is in it afterwards. The theorems say that the record of a
    node keeps its sequence number or takes the next one, that a second start with the
    same configuration uses the very record of the first, and which addresses a
    record has. *)

From Stdlib.Init Require Import Byte.
From S2P Require Import Prelude RustStr External RpcTypes Wire PeerInfo Topics RateLimiter NetConfig.

Definition QUIC_ENR_KEY : string := "quic".
Definition QUIC6_ENR_KEY : string := "quic6".
Definition CHAIN_ID : string := "chain_id".
Definition ENR_FILENAME : string := "enr.dat".

(** The fields given to [EnrBuilder]. *)
Record EnrBuilder : Type := mkEnrBuilder {
  b_ip4 : option Z; b_ip6 : option Z; b_udp4 : option Z; b_udp6 : option Z; b_tcp4 : option Z;
  b_tcp6 : option Z; b_quic4 : option Z; b_quic6 : option Z; b_chain_id : option bytes;
}.

(** The fields of a record that the code compares. *)
Definition enr_fields `{External} `{!EnrFields} (e : Enr) : EnrBuilder :=
  mkEnrBuilder (enr_ip4 e) (enr_ip6 e) (enr_udp4 e) (enr_udp6 e) (enr_tcp4 e) (enr_tcp6 e)
    (enr_get_port QUIC_ENR_KEY e) (enr_get_port QUIC6_ENR_KEY e) (enr_get CHAIN_ID e).

(** The crate [enr]. *)
Class EnrLib `{External} `{!EnrFields} := {
  NodeId : Type;
  #[global] NodeId_eq_dec :: EqDecision NodeId;
  #[global] NodeId_countable :: Countable NodeId;
  EnrKey : Type;
  enr_node_id : Enr -> NodeId;
  enr_seq : Enr -> Z;
  enr_set_seq : Z -> EnrKey -> Enr -> result Enr string;
  enr_from_str : string -> result Enr string;
  enr_to_base64 : Enr -> string;
  enr_build : EnrBuilder -> EnrKey -> result Enr string;
  enr_seq_u64 : forall e, 0 <= enr_seq e < 2 ^ 64;
  enr_set_seq_spec : forall n k e e', 0 <= n < 2 ^ 64 -> enr_set_seq n k e = Ok e' ->
    enr_seq e' = n /\ enr_node_id e' = enr_node_id e /\ enr_fields e' = enr_fields e;
  enr_text : forall e, enr_from_str (enr_to_base64 e) = Ok e;
  enr_build_fields : forall b k e, enr_build b k = Ok e -> enr_fields e = b;
}.

Section enr.
Context `{External} `{!EnrFields} `{!EnrLib}.

Definition quic4 (e : Enr) : option Z := enr_get_port QUIC_ENR_KEY e.
Definition quic6 (e : Enr) : option Z := enr_get_port QUIC6_ENR_KEY e.

(** ** [enr.rs] *)

Definition create_enr_builder_from_config (config : NetworkConfig) (enable_libp2p : bool) : EnrBuilder :=
  let '(maybe_ipv4_address, maybe_ipv6_address) := enr_address config in
  let l := listen_addresses config in
  let quic := enable_libp2p && negb (disable_quic_support config) in
  mkEnrBuilder maybe_ipv4_address maybe_ipv6_address (enr_udp4_port config) (enr_udp6_port config)
    (if enable_libp2p then option_or (enr_tcp4_port config) (option_map tcp_port (listen_v4 l)) else None)
    (if enable_libp2p then option_or (enr_tcp6_port config) (option_map tcp_port (listen_v6 l)) else None)
    (if quic then option_or (enr_quic4_port config) (option_map quic_port (listen_v4 l)) else None)
    (if quic then option_or (enr_quic6_port config) (option_map quic_port (listen_v6 l)) else None)
    None.

(** The chain id as eight bytes, least significant first, is an RLP string. *)
Context (chain_id_ssz : Z -> bytes).

Definition build_enr (enr_key : EnrKey) (config : NetworkConfig) : result Enr string :=
  let 'mkEnrBuilder ip4 ip6 udp4 udp6 tcp4 tcp6 q4 q6 _ := create_enr_builder_from_config config true in
  let chain_id := 11155111 in
  let builder := mkEnrBuilder ip4 ip6 udp4 udp6 tcp4 tcp6 q4 q6 (Some (chain_id_ssz chain_id)) in
  result_map_err (fun e => "Could not build Local ENR: " +:+ e) (enr_build builder enr_key).

Definition compare_enr (local_enr disk_enr : Enr) : bool :=
  (bool_decide (enr_ip4 local_enr = None) || bool_decide (enr_ip4 local_enr = enr_ip4 disk_enr))
  && (bool_decide (enr_ip6 local_enr = None) || bool_decide (enr_ip6 local_enr = enr_ip6 disk_enr))
  && bool_decide (enr_tcp4 local_enr = enr_tcp4 disk_enr)
  && bool_decide (enr_tcp6 local_enr = enr_tcp6 disk_enr)
  && bool_decide (quic4 local_enr = quic4 disk_enr)
  && bool_decide (quic6 local_enr = quic6 disk_enr)
  && (bool_decide (enr_udp4 local_enr = None) || bool_decide (enr_udp4 local_enr = enr_udp4 disk_enr))
  && (bool_decide (enr_udp6 local_enr = None) || bool_decide (enr_udp6 local_enr = enr_udp6 disk_enr))
  && bool_decide (enr_get CHAIN_ID local_enr = enr_get CHAIN_ID disk_enr).

(** The file of the record: absent, unreadable, or its text. *)
Inductive EnrFile : Type := NoFile | Unreadable | FileText (s : string).

(** The file after the attempt to write the record to it. *)
Definition save_enr_to_disk (write : WriteAttempt) (enr : Enr) (file : EnrFile) : EnrFile :=
  match write with
  | CreateFails => file
  | WriteFails n => FileText (String.substring 0 n (enr_to_base64 enr))
  | Written => FileText (enr_to_base64 enr)
  end.

Definition load_enr_from_disk (file : EnrFile) : result Enr string :=
  match file with
  | NoFile => Err "Failed to open enr file"
  | Unreadable => Err "Could not read ENR from file"
  | FileText s => result_map_err (fun e => "ENR from file could not be decoded: " +:+ e) (enr_from_str s)
  end.

(** The record to use and the file afterwards. *)
Definition use_or_load_enr (write : WriteAttempt) (enr_key : EnrKey) (local_enr : Enr) (file : EnrFile)
  : result (Enr * EnrFile) string :=
  let finish local_enr := Ok (local_enr, save_enr_to_disk write local_enr file) in
  match file with
  | NoFile | Unreadable => finish local_enr
  | FileText enr_string =>
      match enr_from_str enr_string with
      | Err _ => finish local_enr
      | Ok disk_enr =>
          if bool_decide (enr_node_id local_enr = enr_node_id disk_enr) then
            if compare_enr local_enr disk_enr then Ok (disk_enr, file)
            else
              new_seq_no <-? ok_or (checked u64 (enr_seq disk_enr + 1))
                "ENR sequence number on file is too large. Remove it to generate a new NodeId";
              local_enr <-? result_map_err (fun e => "Could not update ENR sequence number: " +:+ e)
                              (enr_set_seq new_seq_no enr_key local_enr);
              finish local_enr
          else finish local_enr
      end
  end.

(** [key] is the result of [CombinedKey::from_libp2p]. *)
Definition build_or_load_enr (write : WriteAttempt) (key : result EnrKey string) (config : NetworkConfig)
    (file : EnrFile) : result (Enr * EnrFile) string :=
  enr_key <-? key;
  local_enr <-? build_enr enr_key config;
  use_or_load_enr write enr_key local_enr file.

(** ** [enr_ext.rs]: addresses *)

(** A component of a multiaddress, with those that name a peer. *)
Inductive MaComponent : Type := Ma (p : MaProtocol) | P2p (peer : PeerId).

(** The addresses of one family for its ports. *)
Definition family (ip : option MaProtocol) (suffixes : list (option (list MaComponent)))
  : list (list MaComponent) :=
  match ip with
  | Some ip => map (fun suffix => Ma ip :: suffix) (omap id suffixes)
  | None => []
  end.

Definition udp_suffix (port : option Z) : option (list MaComponent) :=
  option_map (fun p => [Ma (Udp p)]) port.
Definition tcp_suffix (port : option Z) : option (list MaComponent) :=
  option_map (fun p => [Ma (Tcp p)]) port.
Definition quic_suffix (port : option Z) : option (list MaComponent) :=
  option_map (fun p => [Ma (Udp p); Ma QuicV1]) port.
Definition with_peer (peer : PeerId) (suffix : option (list MaComponent)) : option (list MaComponent) :=
  option_map (fun s => s ++ [P2p peer]) suffix.

Definition multiaddr (e : Enr) : list (list MaComponent) :=
  family (option_map Ip4 (enr_ip4 e))
    [udp_suffix (enr_udp4 e); quic_suffix (quic4 e); tcp_suffix (enr_tcp4 e)] ++
  family (option_map Ip6 (enr_ip6 e))
    [udp_suffix (enr_udp6 e); quic_suffix (quic6 e); tcp_suffix (enr_tcp6 e)].

Definition multiaddr_p2p (e : Enr) : list (list MaComponent) :=
  let peer_id := enr_peer_id e in
  family (option_map Ip4 (enr_ip4 e))
    [with_peer peer_id (udp_suffix (enr_udp4 e)); with_peer peer_id (tcp_suffix (enr_tcp4 e))] ++
  family (option_map Ip6 (enr_ip6 e))
    [with_peer peer_id (udp_suffix (enr_udp6 e)); with_peer peer_id (tcp_suffix (enr_tcp6 e))].

Definition multiaddr_p2p_tcp (e : Enr) : list (list MaComponent) :=
  let peer_id := enr_peer_id e in
  family (option_map Ip4 (enr_ip4 e)) [with_peer peer_id (tcp_suffix (enr_tcp4 e))] ++
  family (option_map Ip6 (enr_ip6 e)) [with_peer peer_id (tcp_suffix (enr_tcp6 e))].

Definition multiaddr_p2p_udp (e : Enr) : list (list MaComponent) :=
  let peer_id := enr_peer_id e in
  family (option_map Ip4 (enr_ip4 e)) [with_peer peer_id (udp_suffix (enr_udp4 e))] ++
  family (option_map Ip6 (enr_ip6 e)) [with_peer peer_id (udp_suffix (enr_udp6 e))].

Definition multiaddr_quic (e : Enr) : list (list MaComponent) :=
  family (option_map Ip4 (enr_ip4 e)) [quic_suffix (quic4 e)] ++
  family (option_map Ip6 (enr_ip6 e)) [quic_suffix (quic6 e)].

Definition multiaddr_tcp (e : Enr) : list (list MaComponent) :=
  family (option_map Ip4 (enr_ip4 e)) [tcp_suffix (enr_tcp4 e)] ++
  family (option_map Ip6 (enr_ip6 e)) [tcp_suffix (enr_tcp6 e)].

(** [service/utils.rs]: an address without a peer id at its end. *)
Definition strip_peer_id (a : list MaComponent) : list MaComponent :=
  match last a with
  | Some (P2p _) => removelast a
  | _ => a
  end.

(** ** The record a node starts with *)

Lemma compare_enr_fields l d : enr_fields l = enr_fields d -> compare_enr l d = true.
Proof.
  intros Hf. unfold compare_enr, quic4, quic6. injection Hf as -> -> -> -> -> -> -> -> ->.
  assert (forall A `{EqDecision A} (x : A), bool_decide (x = x) = true) as Hrefl.
  { intros. by apply bool_decide_eq_true_2. }
  by rewrite !Hrefl, !orb_true_r.
Qed.

(** Starting with the same key and configuration on the file the first start left
    behind uses exactly the record of the first start and leaves the file alone. *)
Theorem enr_restart_stable write key local file e file' :
  use_or_load_enr Written key local file = Ok (e, file') ->
  use_or_load_enr write key local file' = Ok (e, file').
Proof.
  assert (forall e, enr_node_id e = enr_node_id local -> enr_fields e = enr_fields local ->
    use_or_load_enr write key local (FileText (enr_to_base64 e)) = Ok (e, FileText (enr_to_base64 e)))
    as Hload.
  { intros e0 Hid Hf. unfold use_or_load_enr. rewrite enr_text, bool_decide_eq_true_2 by done.
    by rewrite compare_enr_fields. }
  unfold use_or_load_enr at 1. cbn [save_enr_to_disk].
  destruct file as [| |s]; [intros [= <- <-]; by apply Hload..|].
  destruct (enr_from_str s) as [d|err] eqn:Hd; [|intros [= <- <-]; by apply Hload].
  case_bool_decide as Hid; [|intros [= <- <-]; by apply Hload].
  destruct (compare_enr local d) eqn:Hc.
  - intros [= <- <-]. unfold use_or_load_enr. by rewrite Hd, bool_decide_eq_true_2, Hc by done.
  - unfold checked. destruct (in_range u64 (enr_seq d + 1)) eqn:Hr; [|done]. cbn.
    destruct (enr_set_seq (enr_seq d + 1) key local) as [l|] eqn:Hs; [|done]. intros [= <- <-].
    apply in_range_spec in Hr. cbn in Hr.
    apply enr_set_seq_spec in Hs as (_ & Hn & Hf); [by apply Hload|]. pose proof (enr_seq_u64 d). lia.
Qed.

(** When the file holds a record of our node, the node starts with that record, if it
    fits the configuration, or with one of the configuration whose sequence number is the
    next one; the only failures are a sequence number at its maximum and signing. *)
Theorem enr_sequence write key local s d :
  enr_from_str s = Ok d -> enr_node_id local = enr_node_id d ->
  match use_or_load_enr write key local (FileText s) with
  | Ok (e, file) =>
      enr_node_id e = enr_node_id d /\
      (e = d /\ file = FileText s /\ compare_enr local d = true \/
       enr_seq e = enr_seq d + 1 /\ enr_fields e = enr_fields local /\ compare_enr local d = false /\
       file = save_enr_to_disk write e (FileText s))
  | Err _ => compare_enr local d = false /\
      (enr_seq d = 2 ^ 64 - 1 \/ exists err, enr_set_seq (enr_seq d + 1) key local = Err err)
  end.
Proof.
  intros Hd Hid. unfold use_or_load_enr. rewrite Hd, bool_decide_eq_true_2 by done.
  destruct (compare_enr local d) eqn:Hc; [naive_solver|]. pose proof (enr_seq_u64 d) as Hu.
  unfold checked. destruct (in_range u64 (enr_seq d + 1)) eqn:Hr; cbn.
  - apply in_range_spec in Hr. cbn in Hr.
    destruct (enr_set_seq (enr_seq d + 1) key local) as [l|err] eqn:Hs; cbn; [|eauto].
    apply enr_set_seq_spec in Hs as (Hseq & Hn & Hf); [|lia]. split; [congruence|]. right. by split_and!.
  - split; [done|]. left. apply not_true_iff_false in Hr. rewrite in_range_spec in Hr. cbn in Hr. lia.
Qed.

(** ** Addresses of a record *)

Lemma elem_of_family ip l a :
  a ∈ family ip l <-> exists p s, ip = Some p /\ Some s ∈ l /\ a = Ma p :: s.
Proof.
  unfold family. destruct ip as [p|]; [|set_solver]. rewrite list_elem_of_fmap.
  setoid_rewrite list_elem_of_omap. split.
  - intros (s & -> & o & Ho & Hs). unfold id in Hs. subst o. by exists p, s.
  - intros (p' & s & [= <-] & Hs & ->). exists s. split; [done|]. by exists (Some s).
Qed.

Lemma family_strip ip peer l :
  map strip_peer_id (family ip (map (with_peer peer) l)) = family ip l.
Proof.
  unfold family. destruct ip as [p|]; [|done]. induction l as [|[s|] l IH]; cbn; [done| |done].
  f_equal; [|done]. unfold strip_peer_id. rewrite app_comm_cons, last_snoc. by rewrite removelast_last.
Qed.

Lemma multiaddr_length e a : a ∈ multiaddr e -> (2 <= length a)%nat.
Proof.
  unfold multiaddr. rewrite elem_of_app, !elem_of_family.
  intros [(p & s & _ & Hs & ->)|(p & s & _ & Hs & ->)]; rewrite !elem_of_cons in Hs;
    destruct Hs as [Hs|[Hs|[Hs|Hs]]]; try (by apply not_elem_of_nil in Hs);
    symmetry in Hs; apply fmap_Some in Hs as (q & _ & ->); cbn; lia.
Qed.

(** Every address of a record names an IP address and a port, so the second
    component that is looked at before dialing exists; the TCP and QUIC addresses are
    among the addresses of the record; and removing the peer id that the [p2p]
    variants add gives the plain addresses back. *)
Theorem enr_addresses e :
  (forall a, a ∈ multiaddr e -> (2 <= length a)%nat) /\
  (forall a, a ∈ multiaddr_tcp e \/ a ∈ multiaddr_quic e -> a ∈ multiaddr e) /\
  map strip_peer_id (multiaddr_p2p_tcp e) = multiaddr_tcp e /\
  (forall a, a ∈ map strip_peer_id (multiaddr_p2p e) -> a ∈ multiaddr e).
Proof.
  split_and!.
  - apply multiaddr_length.
  - intros a. unfold multiaddr, multiaddr_tcp, multiaddr_quic. rewrite !elem_of_app, !elem_of_family. set_solver.
  - unfold multiaddr_p2p_tcp, multiaddr_tcp. rewrite map_app. f_equal; apply (family_strip _ _ [_]).
  - intros a. unfold multiaddr_p2p, multiaddr. rewrite map_app.
    pose proof (family_strip (option_map Ip4 (enr_ip4 e)) (enr_peer_id e)
      [udp_suffix (enr_udp4 e); tcp_suffix (enr_tcp4 e)]) as E4.
    pose proof (family_strip (option_map Ip6 (enr_ip6 e)) (enr_peer_id e)
      [udp_suffix (enr_udp6 e); tcp_suffix (enr_tcp6 e)]) as E6. cbn [map] in E4, E6. rewrite E4, E6.
    rewrite !elem_of_app, !elem_of_family. set_solver.
Qed.
End enr.

(** ** Witnesses *)

(** A record is an identity, a sequence number and its fields. *)
Definition DemoFields : Type :=
  option Z * option Z * option Z * option Z * option Z * option Z * option Z * option Z * option bytes.
Definition demo_pack (b : EnrBuilder) : DemoFields :=
  let 'mkEnrBuilder i4 i6 u4 u6 t4 t6 q4 q6 c := b in (i4, i6, u4, u6, t4, t6, q4, q6, c).
Definition demo_unpack (t : DemoFields) : EnrBuilder :=
  let '(i4, i6, u4, u6, t4, t6, q4, q6, c) := t in mkEnrBuilder i4 i6 u4 u6 t4 t6 q4 q6 c.
Definition DemoEnr : Type := positive * Z * DemoFields.
#[export] Instance DemoEnr_eq_dec : EqDecision DemoEnr := _.
#[export] Instance DemoEnr_countable : Countable DemoEnr := _.

#[refine] Definition demo_enr_external : External := {|
  PeerId := positive;
  Multiaddr := Z * Z;
  multiaddr_iter := fun a => [Ip4 a.1; Tcp a.2];
  Enr := DemoEnr;
  enr_peer_id := fun e => e.1.1;
  DecodeError := unit;
  variable_list_256 := fun b => take 256 b;
  printable_utf8 := string_of_bytes;
|}.
Proof.
  - intros b. rewrite length_take. lia.
  - intros b Hb. by apply take_ge.
Defined.

Definition demo_fields (e : DemoEnr) : EnrBuilder := demo_unpack e.2.

#[local] Existing Instance demo_enr_external.

Definition demo_enr_fields : @EnrFields demo_enr_external := {|
  enr_ip4 := fun e => b_ip4 (demo_fields e);
  enr_ip6 := fun e => b_ip6 (demo_fields e);
  enr_udp4 := fun e => b_udp4 (demo_fields e);
  enr_udp6 := fun e => b_udp6 (demo_fields e);
  enr_tcp4 := fun e => b_tcp4 (demo_fields e);
  enr_tcp6 := fun e => b_tcp6 (demo_fields e);
  enr_get_port := fun k e => if String.eqb k QUIC_ENR_KEY then b_quic4 (demo_fields e)
                             else b_quic6 (demo_fields e);
  enr_get := fun _ e => b_chain_id (demo_fields e);
|}.

#[local] Existing Instance demo_enr_fields.

Definition demo_enr_lib : @EnrLib demo_enr_external demo_enr_fields.
Proof.
  refine (@Build_EnrLib demo_enr_external demo_enr_fields positive _ _ positive
    (fun e : DemoEnr => e.1.1)
    (fun e : DemoEnr => e.1.2 mod 2 ^ 64)
    (fun n _ (e : DemoEnr) => Ok ((e.1.1, n, e.2) : DemoEnr))
    (fun s => match decode (bytes_pos (as_bytes s)) with
              | Some e => Ok (e : DemoEnr) | None => Err "malformed" end)
    (fun e : DemoEnr => string_of_bytes (pos_bytes (encode e)))
    (fun b k => Ok ((k, 1, demo_pack b) : DemoEnr)) _ _ _ _).
  - intros e. apply Z.mod_pos_bound. done.
  - intros n k e e' Hn [= <-]. split_and!; [by apply Z.mod_small|done|done].
  - intros e. unfold as_bytes, string_of_bytes. rewrite String.list_byte_of_string_of_list_byte, bytes_pos_bytes.
    by rewrite (decode_encode (A := DemoEnr)).
  - intros b k e [= <-]. by destruct b.
Defined.

Definition demo_local : @Enr demo_enr_external :=
  (7%positive, 1, demo_pack (mkEnrBuilder None None None None (Some 9000) None None None None)).
Definition demo_stored : @Enr demo_enr_external :=
  (7%positive, 5, demo_pack (mkEnrBuilder None None None None (Some 9001) None None None None)).

#[local] Existing Instance demo_enr_lib.

Lemma enr_sequence_witness :
  let text := enr_to_base64 demo_stored in
  match use_or_load_enr Written (7%positive : EnrKey) demo_local (FileText text) with
  | Ok (e, file) =>
      enr_node_id e = enr_node_id demo_stored /\
      (e = demo_stored /\ file = FileText text /\ compare_enr demo_local demo_stored = true \/
       enr_seq e = enr_seq demo_stored + 1 /\ enr_fields e = enr_fields demo_local /\
       compare_enr demo_local demo_stored = false /\ file = save_enr_to_disk Written e (FileText text))
  | Err _ => compare_enr demo_local demo_stored = false /\
      (enr_seq demo_stored = 2 ^ 64 - 1 \/
       exists err, enr_set_seq (enr_seq demo_stored + 1) (7%positive : EnrKey) demo_local = Err err)
  end.
Proof.
  intros text. exact (enr_sequence Written (7%positive : EnrKey) demo_local text demo_stored
    (enr_text demo_stored) eq_refl).
Defined.

Lemma enr_restart_stable_witness :
  let text := enr_to_base64 demo_local in
  use_or_load_enr Written (7%positive : EnrKey) demo_local NoFile = Ok (demo_local, FileText text) /\
  use_or_load_enr CreateFails (7%positive : EnrKey) demo_local (FileText text) = Ok (demo_local, FileText text).
Proof.
  intros text. split; [reflexivity|].
  exact (enr_restart_stable CreateFails (7%positive : EnrKey) demo_local NoFile demo_local (FileText text) eq_refl).
Defined.

Example demo_compare : compare_enr demo_local demo_stored = false.
Proof. reflexivity. Qed.
