(* ===== verification/Discovery.v ===== *)
(** * Discovery

    Models [src/discovery/mod.rs]: the queue of subnet queries, the single query for
    peers that may be active, the cache of records, bans in the table of
    discv5, changes of our own record and the poll loop. [discv5] and the
    cache ([lru]) are classes; which queries complete with which results and
    which events the server sends is an argument of [poll]. The peer database
    is shared with the peer manager and read only. The local record that other
    components read and the record file are fields of the state. *)

From Stdlib.Init Require Import Byte.
From S2P Require Import Prelude RustStr External Float64 Score RpcTypes Wire PeerInfo PeerDB Topics RateLimiter NetConfig EnrRecords.

(** ** Interfaces *)

(** [lru::LruCache]: a map of bounded size; inserting may drop an entry. *)
Class LruCacheLib (K V : Type) `{Countable K} := {
  LruCache : Type;
  lc_map : LruCache -> gmap K V;
  lc_cap : LruCache -> Z;
  lc_new : Z -> LruCache;
  lc_put : K -> V -> LruCache -> LruCache;
  lc_pop : K -> LruCache -> option V * LruCache;
  lc_new_spec : forall n, lc_map (lc_new n) = ∅ /\ lc_cap (lc_new n) = n;
  lc_put_spec : forall k v c, 1 <= lc_cap c ->
    lc_cap (lc_put k v c) = lc_cap c /\ lc_map (lc_put k v c) !! k = Some v /\
    (forall k' v', k' <> k -> lc_map (lc_put k v c) !! k' = Some v' -> lc_map c !! k' = Some v') /\
    (Z.of_nat (size (lc_map c)) <= lc_cap c -> Z.of_nat (size (lc_map (lc_put k v c))) <= lc_cap c);
  lc_pop_spec : forall k c, lc_pop k c = (lc_map c !! k, (lc_pop k c).2) /\
    lc_cap (lc_pop k c).2 = lc_cap c /\ lc_map (lc_pop k c).2 = delete k (lc_map c);
}.

(** [discv5::Discv5]. *)
Class Discv5Lib `{External} `{!EnrFields} `{!EnrLib} := {
  Discv5 : Type;
  d5_local_enr : Discv5 -> Enr;
  d5_banned_nodes : Discv5 -> gset NodeId;
  d5_banned_ips : Discv5 -> gset IpAddr;
  d5_table_entries_enr : Discv5 -> list Enr;
  d5_new : Enr -> EnrKey -> result Discv5 string;
  d5_add_enr : Enr -> Discv5 -> result unit string * Discv5;
  d5_enr_insert : string -> Z -> Discv5 -> result unit string * Discv5;
  d5_update_local_enr_socket : SocketAddr -> bool -> Discv5 -> bool * Discv5;
  d5_ban_node : NodeId -> Discv5 -> Discv5;
  d5_remove_node : NodeId -> Discv5 -> Discv5;
  d5_ban_node_remove : NodeId -> Discv5 -> Discv5;
  d5_ban_ip : IpAddr -> Discv5 -> Discv5;
  d5_ban_ip_remove : IpAddr -> Discv5 -> Discv5;
  d5_disconnect_node : NodeId -> Discv5 -> Discv5;
  d5_ban_node_spec : forall n d, d5_banned_nodes (d5_ban_node n d) = {[n]} ∪ d5_banned_nodes d /\
    d5_banned_ips (d5_ban_node n d) = d5_banned_ips d;
  d5_remove_node_spec : forall n d, d5_banned_nodes (d5_remove_node n d) = d5_banned_nodes d /\
    d5_banned_ips (d5_remove_node n d) = d5_banned_ips d;
  d5_ban_node_remove_spec : forall n d,
    d5_banned_nodes (d5_ban_node_remove n d) = d5_banned_nodes d ∖ {[n]} /\
    d5_banned_ips (d5_ban_node_remove n d) = d5_banned_ips d;
  d5_ban_ip_spec : forall ip d, d5_banned_nodes (d5_ban_ip ip d) = d5_banned_nodes d /\
    d5_banned_ips (d5_ban_ip ip d) = {[ip]} ∪ d5_banned_ips d;
  d5_ban_ip_remove_spec : forall ip d, d5_banned_nodes (d5_ban_ip_remove ip d) = d5_banned_nodes d /\
    d5_banned_ips (d5_ban_ip_remove ip d) = d5_banned_ips d ∖ {[ip]};
}.

Definition TARGET_SUBNET_PEERS : Z := 6.
Definition MAX_DISCOVERY_RETRY : Z := 3.
Definition MAX_CONCURRENT_SUBNET_QUERIES : Z := 2.
Definition MAX_SUBNETS_IN_QUERY : Z := 3.
Definition FIND_NODE_QUERY_CLOSEST_PEERS : Z := 16.

(** [types/subnet.rs]. *)
Record SubnetDiscovery : Type := mkSubnetDiscovery { sd_subnet : Subnet; sd_min_ttl : option Instant }.

Record SubnetQuery : Type := mkSubnetQuery {
  sq_subnet : Subnet; sq_min_ttl : option Instant; sq_retries : Z;
}.

Definition expired (now : Instant) (q : SubnetQuery) : bool :=
  match sq_min_ttl q with Some ttl => ttl <? now | None => false end.

Inductive QueryType : Type := FindPeers.

(** A query that has been started: its type and how many peers end it. *)
Record ActiveQuery : Type := mkActiveQuery { aq_type : QueryType; aq_target : Z }.

Inductive EventStream : Type := Awaiting | Present | InActive.

(** [<] of [Option<Instant>]: [None] is the least. *)
Definition ttl_lt (a b : option Instant) : bool :=
  match a, b with
  | None, Some _ => true
  | Some x, Some y => x <? y
  | _, None => false
  end.

Section discovery.
Context `{External} `{!EnrFields} `{!EnrLib} `{!Discv5Lib} `{!LruCacheLib PeerId Enr}
  `{Libm} `{!MapIter PeerId PeerInfo}.

(** [enr_ext.rs]: the node id of a peer id, from the public key in it. *)
Context (peer_id_to_node_id : PeerId -> result NodeId string).

Record Discovery : Type := mkDiscovery {
  cached_enrs : LruCache;
  discv5 : Discv5;
  find_peer_active : bool;
  queued_queries : list SubnetQuery;
  active_queries : list ActiveQuery;
  event_stream : EventStream;
  started : bool;
  update_tcp_port : bool * bool;
  globals_local_enr : Enr;
  enr_file : EnrFile;
}.

(** Field updates. *)
Definition with_cache (x : LruCache) (d : Discovery) : Discovery :=
  let 'mkDiscovery c v f q a e s t g w := d in mkDiscovery x v f q a e s t g w.
Definition with_discv5 (x : Discv5) (d : Discovery) : Discovery :=
  let 'mkDiscovery c v f q a e s t g w := d in mkDiscovery c x f q a e s t g w.
Definition with_find (x : bool) (d : Discovery) : Discovery :=
  let 'mkDiscovery c v f q a e s t g w := d in mkDiscovery c v x q a e s t g w.
Definition with_queue (x : list SubnetQuery) (d : Discovery) : Discovery :=
  let 'mkDiscovery c v f q a e s t g w := d in mkDiscovery c v f x a e s t g w.
Definition with_active (x : list ActiveQuery) (d : Discovery) : Discovery :=
  let 'mkDiscovery c v f q a e s t g w := d in mkDiscovery c v f q x e s t g w.
Definition with_stream (x : EventStream) (d : Discovery) : Discovery :=
  let 'mkDiscovery c v f q a e s t g w := d in mkDiscovery c v f q a x s t g w.
Definition with_globals (x : Enr) (d : Discovery) : Discovery :=
  let 'mkDiscovery c v f q a e s t g w := d in mkDiscovery c v f q a e s t x w.
Definition with_file (x : EnrFile) (d : Discovery) : Discovery :=
  let 'mkDiscovery c v f q a e s t g w := d in mkDiscovery c v f q a e s t g x.

(** ** Creation *)

(** Records are added to the table; a failure is logged. *)
Definition add_boot_nodes (local_node_id : NodeId) (boot_nodes : list Enr) (v : Discv5) : Discv5 :=
  foldl (fun v e => if bool_decide (enr_node_id e = local_node_id) then v else (d5_add_enr e v).2)
    v boot_nodes.

(** [start]: the result of starting the server; [found]: the answers to the requests for
    the records of the multiaddress boot nodes, in the order they arrive. *)
Definition Discovery_new (local_key : result EnrKey string) (config : NetworkConfig) (local_enr : Enr)
    (file : EnrFile) (start : result unit string) (found : list (result Enr string))
  : result Discovery string :=
  enr_key <-? local_key;
  v <-? result_map_err (fun e => "Discv5 service failed. Error: " +:+ e) (d5_new local_enr enr_key);
  let v := add_boot_nodes (enr_node_id local_enr) (boot_nodes_enr config) v in
  event_stream <-? (if negb (disable_discovery config)
                    then _ <-? start; Ok Awaiting else Ok InActive);
  let v := foldl (fun v r => match r with Ok e => (d5_add_enr e v).2 | Err _ => v end) v found in
  let update_tcp_port := (bool_decide (enr_tcp4_port config = None), bool_decide (enr_tcp6_port config = None)) in
  Ok (mkDiscovery (lc_new 50) v false [] [] event_stream (negb (disable_discovery config))
        update_tcp_port local_enr file).

(** ** Queries *)

Definition local_enr (d : Discovery) : Enr := d5_local_enr (discv5 d).

Definition remove_cached_enr (p : PeerId) (d : Discovery) : option Enr * Discovery :=
  let '(r, c) := lc_pop p (cached_enrs d) in (r, with_cache c d).

(** The query is pushed to the active ones; the server answers it later. *)
Definition start_query (query : QueryType) (target_peers : Z) (d : Discovery) : Discovery :=
  with_active (active_queries d ++ [mkActiveQuery query target_peers]) d.

Definition discover_peers (target_peers : Z) (d : Discovery) : Discovery :=
  if negb (started d) || find_peer_active d then d
  else
    let target_peers := Z.min FIND_NODE_QUERY_CLOSEST_PEERS target_peers in
    start_query FindPeers target_peers (with_find true d).

(** The search for a queued query of the subnet, updating the first one. *)
Fixpoint update_query (subnet : Subnet) (min_ttl : option Instant) (retries : Z)
    (queue : list SubnetQuery) : option (list SubnetQuery) :=
  match queue with
  | [] => None
  | q :: queue =>
      if bool_decide (sq_subnet q = subnet)
      then Some (mkSubnetQuery (sq_subnet q)
                   (if ttl_lt (sq_min_ttl q) min_ttl then min_ttl else sq_min_ttl q) retries :: queue)
      else match update_query subnet min_ttl retries queue with
           | Some queue => Some (q :: queue)
           | None => None
           end
  end.

Definition add_subnet_query (subnet : Subnet) (min_ttl : option Instant) (retries : Z) (d : Discovery)
  : Discovery :=
  if MAX_DISCOVERY_RETRY <? retries then d
  else
    match update_query subnet min_ttl retries (queued_queries d) with
    | Some queue => with_queue queue d
    | None => with_queue (queued_queries d ++ [mkSubnetQuery subnet min_ttl retries]) d
    end.

Definition discover_subnet_peers (subnets_to_discover : list SubnetDiscovery) (d : Discovery) : Discovery :=
  if negb (started d) then d
  else foldl (fun d s => add_subnet_query (sd_subnet s) (sd_min_ttl s) 0 d) d subnets_to_discover.

Definition at_capacity (d : Discovery) : bool :=
  MAX_CONCURRENT_SUBNET_QUERIES <=?
    saturating_sub (Z.of_nat (length (active_queries d))) (Z.b2z (find_peer_active d)).

(** Which queries are still needed; the code that would start them is disabled. *)
Definition start_subnet_query (db : PeerDB) (subnet_queries : list SubnetQuery) (d : Discovery)
  : list SubnetQuery * Discovery :=
  (filter (fun _ => (TARGET_SUBNET_PEERS <=? Z.of_nat (length (good_peers_on_subnet db))) = false)
     subnet_queries, d).

(** The loop of [process_queue]: the group so far and whether any was processed. *)
Fixpoint process_loop (fuel : nat) (db : PeerDB) (group : list SubnetQuery) (processed : bool)
    (d : Discovery) : option (bool * Discovery) :=
  if negb (at_capacity d) && negb (bool_decide (queued_queries d = [])) then
    match fuel with
    | O => None
    | S fuel =>
        match queued_queries d with
        | [] => process_loop fuel db group processed d
        | q :: queue =>
            let d := with_queue queue d in
            let group := group ++ [q] in
            if (Z.of_nat (length group) =? MAX_SUBNETS_IN_QUERY) || bool_decide (queued_queries d = [])
            then process_loop fuel db [] true (start_subnet_query db group d).2
            else process_loop fuel db group processed d
        end
    end
  else Some (processed, d).

Definition process_queue (fuel : nat) (now : Instant) (db : PeerDB) (d : Discovery)
  : option (bool * Discovery) :=
  process_loop fuel db [] false
    (with_queue (filter (fun q => expired now q = false) (queued_queries d)) d).

(** ** Completed queries *)

Record QueryResult : Type := mkQueryResult { query_type : QueryType; result_ : result (list Enr) string }.

(** The [HashMap] of discovered records: each once, in some order. *)
Definition process_completed_queries (query : QueryResult) (d : Discovery)
  : option (list (Enr * option Instant)) * Discovery :=
  match query_type query with
  | FindPeers =>
      let d := with_find false d in
      match result_ query with
      | Ok [] => (None, d)
      | Ok r =>
          let d := foldl (fun d e => with_cache (lc_put (enr_peer_id e) e (cached_enrs d)) d) d r in
          (Some (map (fun e => (e, None)) (remove_dups r)), d)
      | Err _ => (None, d)
      end
  end.

(** The active query at a position completes with a result. *)
Record Completion : Type := mkCompletion { c_index : nat; c_result : result (list Enr) string }.

Fixpoint poll_queries (completions : list Completion) (d : Discovery)
  : option (list (Enr * option Instant)) * Discovery :=
  match completions with
  | [] => (None, d)
  | c :: completions =>
      match active_queries d !! c_index c with
      | None => (None, d)
      | Some q =>
          let d := with_active (delete (c_index c) (active_queries d)) d in
          match process_completed_queries (mkQueryResult (aq_type q) (c_result c)) d with
          | (Some r, d) => (Some r, d)
          | (None, d) => poll_queries completions d
          end
      end
  end.

(** ** Our own record *)

Definition publish_enr (write : WriteAttempt) (d : Discovery) : Discovery :=
  let d := with_globals (local_enr d) d in
  with_file (save_enr_to_disk write (local_enr d) (enr_file d)) d.

Definition update_enr_port (key : string) (write : WriteAttempt) (port : Z) (d : Discovery)
  : result unit string * Discovery :=
  match d5_enr_insert key port (discv5 d) with
  | (Err e, v) => (Err e, with_discv5 v d)
  | (Ok _, v) => (Ok tt, publish_enr write (with_discv5 v d))
  end.
Definition update_enr_tcp_port : WriteAttempt -> Z -> Discovery -> result unit string * Discovery :=
  update_enr_port "tcp".
Definition update_enr_quic_port : WriteAttempt -> Z -> Discovery -> result unit string * Discovery :=
  update_enr_port "quic".

Definition update_enr_udp_socket (write : WriteAttempt) (socket_addr : SocketAddr) (d : Discovery)
  : result unit string * Discovery :=
  let '(updated, v) := d5_update_local_enr_socket socket_addr false (discv5 d) in
  let d := with_discv5 v d in
  let d := if updated then with_file (save_enr_to_disk write (local_enr d) (enr_file d)) d else d in
  (Ok tt, with_globals (local_enr d) d).

(** ** The table *)

Definition disc_add_enr (e : Enr) (d : Discovery) : Discovery :=
  let d := with_cache (lc_put (enr_peer_id e) e (cached_enrs d)) d in
  with_discv5 (d5_add_enr e (discv5 d)).2 d.

Definition table_entries_enr (d : Discovery) : list Enr := d5_table_entries_enr (discv5 d).

Definition disc_ban_peer (p : PeerId) (ip_addresses : list IpAddr) (d : Discovery) : Discovery :=
  let v := match peer_id_to_node_id p with
    | Ok node_id => d5_remove_node node_id (d5_ban_node node_id (discv5 d))
    | Err _ => discv5 d
    end in
  with_discv5 (foldl (fun v ip => d5_ban_ip ip v) v ip_addresses) d.

Definition disc_unban_peer (p : PeerId) (ip_addresses : list IpAddr) (d : Discovery) : Discovery :=
  let v := match peer_id_to_node_id p with
    | Ok node_id => d5_ban_node_remove node_id (discv5 d)
    | Err _ => discv5 d
    end in
  with_discv5 (foldl (fun v ip => d5_ban_ip_remove ip v) v ip_addresses) d.

Definition disc_disconnect_peer (p : PeerId) (d : Discovery) : Discovery :=
  let d := match peer_id_to_node_id p with
    | Ok node_id => with_discv5 (d5_disconnect_node node_id (discv5 d)) d
    | Err _ => d
    end in
  with_cache (lc_pop p (cached_enrs d)).2 d.

(** ** The network behaviour *)

Inductive Discv5Event : Type :=
| Discovered (e : Enr)
| SocketUpdated (socket_addr : SocketAddr)
| OtherDiscv5Event.

Definition is_ipv4 (s : SocketAddr) : bool := match sock_ip s with V4 _ => true | V6 _ => false end.

Definition on_discv5_event (write : WriteAttempt) (d : Discovery) (event : Discv5Event) : Discovery :=
  match event with
  | Discovered _ => d
  | SocketUpdated socket_addr =>
      let d := if ((update_tcp_port d).1 && is_ipv4 socket_addr)
                  || ((update_tcp_port d).2 && negb (is_ipv4 socket_addr))
               then with_discv5 (d5_update_local_enr_socket socket_addr true (discv5 d)).2 d else d in
      let enr := local_enr d in
      with_globals enr (with_file (save_enr_to_disk write enr (enr_file d)) d)
  | OtherDiscv5Event => d
  end.

(** What the environment gives during one poll: the clock, the completed queries, what
    polling the future of the event stream gives, and the events of the stream. *)
Record PollEnv : Type := mkPollEnv {
  pe_now : Instant;
  pe_completions : list Completion;
  pe_stream : poll (result unit string);
  pe_events : list Discv5Event;
  pe_write : WriteAttempt;
}.

Definition poll_event_stream (env : PollEnv) (d : Discovery) : Discovery :=
  match event_stream d with
  | Awaiting =>
      match pe_stream env with
      | Ready (Ok _) => with_stream Present d
      | Ready (Err _) => with_stream InActive d
      | Pending => d
      end
  | InActive => d
  | Present => foldl (on_discv5_event (pe_write env)) d (pe_events env)
  end.

(** The fuel is the number of queued queries. *)
Definition disc_poll (env : PollEnv) (db : PeerDB) (d : Discovery)
  : option (poll (list (Enr * option Instant)) * Discovery) :=
  if negb (started d) then Some (Pending, d)
  else
    match process_queue (length (queued_queries d)) (pe_now env) db d with
    | None => None
    | Some (_, d) =>
        match poll_queries (pe_completions env) d with
        | (Some peers, d) => Some (Ready peers, d)
        | (None, d) => Some (Pending, poll_event_stream env d)
        end
    end.

Inductive DialError : Type :=
| LocalPeerId | Denied | NoAddresses | TransportError | WrongPeerId | DialPeerConditionFalse | Aborted.

Definition disc_on_dial_failure (peer_id : option PeerId) (error : DialError) (d : Discovery) : Discovery :=
  match peer_id with
  | Some p =>
      match error with
      | LocalPeerId | Denied | NoAddresses | TransportError | WrongPeerId => disc_disconnect_peer p d
      | DialPeerConditionFalse | Aborted => d
      end
  | None => d
  end.
End discovery.
