(* ===== verification/DiscoveryProps.v ===== *)
(** * Properties of discovery

    At most one query for peers is active, exactly when it is marked as such; the
    queue holds one query per subnet; the cache stays within its size. The loop over the
    queue ends within as many steps as there are queries, and starts
    nothing. A completed query always makes room for the next one. *)

From Stdlib.Init Require Import Byte.
From S2P Require Import Prelude RustStr External Float64 Score RpcTypes Wire PeerInfo PeerDB Topics RateLimiter NetConfig EnrRecords Discovery.

Section discovery.
Context `{External} `{!EnrFields} `{!EnrLib} `{!Discv5Lib} `{!LruCacheLib PeerId Enr}
  `{Libm} `{!MapIter PeerId PeerInfo}.
Context (peer_id_to_node_id : PeerId -> result NodeId string).

(** ** The queue of subnet queries *)

Lemma update_query_None subnet ttl retries queue :
  update_query subnet ttl retries queue = None <-> subnet ∉ map sq_subnet queue.
Proof.
  induction queue as [|q queue IH]; cbn; [set_solver|]. case_bool_decide as Hs; [set_solver|].
  destruct (update_query _ _ _ queue); set_solver.
Qed.

Lemma update_query_Some subnet ttl retries queue queue' :
  update_query subnet ttl retries queue = Some queue' ->
  exists pre q post, queue = pre ++ q :: post /\ sq_subnet q = subnet /\
    queue' = pre ++ mkSubnetQuery subnet (if ttl_lt (sq_min_ttl q) ttl then ttl else sq_min_ttl q)
               retries :: post /\ subnet ∉ map sq_subnet pre.
Proof.
  revert queue'. induction queue as [|q queue IH]; cbn; intros queue'; [done|]. case_bool_decide as Hs.
  - intros [= <-]. exists [], q, queue. subst subnet. split_and!; try done. set_solver.
  - destruct (update_query _ _ _ queue) as [queue1|]; [|done]. intros [= <-].
    destruct (IH queue1 eq_refl) as (pre & q' & post & -> & Hq & -> & Hpre).
    exists (q :: pre), q', post. split_and!; try done. cbn. set_solver.
Qed.

Definition queue_ok (queue : list SubnetQuery) : Prop :=
  NoDup (map sq_subnet queue) /\ Forall (fun q => sq_retries q <= MAX_DISCOVERY_RETRY) queue.

Lemma add_subnet_query_queue subnet ttl retries d : queue_ok (queued_queries d) ->
  queue_ok (queued_queries (add_subnet_query subnet ttl retries d)).
Proof.
  intros [Hnd Hr]. unfold add_subnet_query. destruct (Z.ltb_spec MAX_DISCOVERY_RETRY retries); [done|].
  destruct (update_query _ _ _ _) as [queue|] eqn:Hu; destruct d; cbn in *.
  - apply update_query_Some in Hu as (pre & q & post & -> & <- & -> & _). split.
    + rewrite map_app in *. done.
    + apply Forall_app in Hr as [? Hr]. apply Forall_cons in Hr as [? ?].
      apply Forall_app. split; [done|]. by constructor.
  - apply update_query_None in Hu. split.
    + rewrite map_app. cbn. apply NoDup_app. split_and!; [done| |apply NoDup_singleton]. set_solver.
    + apply Forall_app. split; [done|]. by repeat constructor.
Qed.

(** Only the queue changes. *)
Lemma add_subnet_query_only subnet ttl retries d : add_subnet_query subnet ttl retries d =
  with_queue (queued_queries (add_subnet_query subnet ttl retries d)) d.
Proof.
  unfold add_subnet_query. destruct (_ <? _); [by destruct d|].
  destruct (update_query _ _ _ _); by destruct d.
Qed.

(** Adding a query for a subnet below the retry limit leaves exactly one query for
    it: with the given number of retries and the later of the two times if
    there was one before, as given otherwise; the other queries stay. Above
    the limit nothing changes. *)
Theorem add_subnet_query_spec subnet ttl retries d : queue_ok (queued_queries d) ->
  let d' := add_subnet_query subnet ttl retries d in
  (MAX_DISCOVERY_RETRY < retries -> d' = d) /\
  (retries <= MAX_DISCOVERY_RETRY ->
   forall q, q ∈ queued_queries d' <->
     (q ∈ queued_queries d /\ sq_subnet q <> subnet) \/
     (sq_subnet q = subnet /\ sq_retries q = retries /\
      match list_find (fun q => sq_subnet q = subnet) (queued_queries d) with
      | Some (_, old) => sq_min_ttl q = if ttl_lt (sq_min_ttl old) ttl then ttl else sq_min_ttl old
      | None => sq_min_ttl q = ttl
      end)).
Proof.
  intros [Hnd Hr] d'. unfold d', add_subnet_query.
  destruct (Z.ltb_spec MAX_DISCOVERY_RETRY retries); [split; [done|lia]|]. split; [lia|]. intros _ q.
  destruct (update_query _ _ _ _) as [queue|] eqn:Hu.
  - apply update_query_Some in Hu as (pre & old & post & Hq & Hs & Hq' & Hpre).
    assert (list_find (fun q => sq_subnet q = subnet) (queued_queries d) = Some (length pre, old)) as ->.
    { rewrite Hq. rewrite list_find_app_r by (apply list_find_None, Forall_forall; set_solver).
      cbn. rewrite decide_True by done. done. }
    assert (forall q, q ∈ pre \/ q ∈ post -> sq_subnet q <> subnet) as Hne.
    { intros q0 Hin Heq. rewrite Hq, map_app, NoDup_app in Hnd. cbn in Hnd.
      destruct Hnd as (_ & Hd & Hnd%NoDup_cons). destruct Hin as [Hin|Hin].
      - apply Hpre. rewrite <- Heq. by apply list_elem_of_fmap_2.
      - apply Hnd. rewrite Hs, <- Heq. by apply list_elem_of_fmap_2. }
    destruct d; cbn in *. subst. rewrite !elem_of_app, !elem_of_cons. split.
    + intros [Hin|[->|Hin]]; [left; auto|right; by cbn|left; auto].
    + intros [[[Hin|[->|Hin]] ?]|(? & ? & ?)]; [auto|done|auto|]. right. left. destruct q; cbn in *. by subst.
  - assert (list_find (fun q => sq_subnet q = subnet) (queued_queries d) = None) as ->.
    { apply update_query_None in Hu. apply list_find_None, Forall_forall. set_solver. }
    apply update_query_None in Hu. destruct d; cbn in *. rewrite elem_of_app, list_elem_of_singleton.
    split.
    + intros [Hin| ->]; [left; set_solver|right; by cbn].
    + intros [ [? _]|(? & ? & ?)]; [auto|]. right. destruct q; cbn in *. by subst.
Qed.

(** ** The loop over the queue *)

Lemma at_capacity_queue queue d : at_capacity (with_queue queue d) = at_capacity d.
Proof. by destruct d. Qed.

Lemma with_queue_queue q1 q2 d : with_queue q1 (with_queue q2 d) = with_queue q1 d.
Proof. by destruct d. Qed.

Lemma process_loop_run db queue : forall fuel group processed d,
  (length queue <= fuel)%nat -> at_capacity d = false ->
  exists b, process_loop fuel db group processed (with_queue queue d) = Some (b, with_queue [] d) /\
    (b = true <-> processed = true \/ queue <> []).
Proof.
  induction queue as [|q queue IH]; intros fuel group processed d Hf Hc.
  - exists processed. split; [|naive_solver]. destruct fuel; cbn; rewrite at_capacity_queue, Hc; by destruct d.
  - destruct fuel as [|fuel]; cbn in Hf; [lia|]. cbn [process_loop]. rewrite at_capacity_queue, Hc.
    replace (queued_queries (with_queue (q :: queue) d)) with (q :: queue) by by destruct d.
    cbn [negb andb bool_decide]. rewrite bool_decide_eq_false_2 by done. cbn [negb].
    rewrite with_queue_queue. cbn [start_subnet_query snd].
    replace (queued_queries (with_queue queue d)) with queue by by destruct d.
    destruct (_ || _) eqn:Hg.
    + destruct (IH fuel [] true d) as (b & -> & Hb); [lia|done|]. exists b. split; [done|]. naive_solver.
    + destruct (IH fuel (group ++ [q]) processed d) as (b & Hp & Hb); [lia|done|]. exists b. split; [done|].
      apply orb_false_iff in Hg as [_ Hg]. apply bool_decide_eq_false in Hg. naive_solver.
Qed.

(** C35: Processing the queue ends within as many steps as there are queued queries, from
    every state: below capacity it empties the queue, at capacity it only removes
    expired queries. In both cases nothing but the queue changes: no query is started,
    also when it reports that one was. *)
Theorem process_queue_terminates fuel now db d : (length (queued_queries d) <= fuel)%nat ->
  exists b, process_queue fuel now db d =
    Some (b, with_queue (if at_capacity d then filter (fun q => expired now q = false) (queued_queries d)
                         else []) d) /\
  (b = true <-> at_capacity d = false /\ filter (fun q => expired now q = false) (queued_queries d) <> []).
Proof.
  intros Hf. unfold process_queue.
  assert (length (filter (fun q => expired now q = false) (queued_queries d)) <= fuel)%nat as Hf'.
  { etrans; [apply length_filter|done]. }
  destruct (at_capacity d) eqn:Hc.
  - exists false. split; [|naive_solver]. destruct fuel; cbn [process_loop]; by rewrite at_capacity_queue, Hc.
  - destruct (process_loop_run db _ fuel [] false d Hf' Hc) as (b & Hb & Hp). exists b. split; [done|].
    naive_solver.
Qed.

(** ** The invariant *)

Record disc_inv (d : Discovery) : Prop := {
  di_active : active_queries d = [] /\ find_peer_active d = false \/
    exists t, active_queries d = [mkActiveQuery FindPeers t] /\ find_peer_active d = true /\
      t <= FIND_NODE_QUERY_CLOSEST_PEERS /\ started d = true;
  di_stopped : started d = false -> queued_queries d = [] /\ event_stream d = InActive;
  di_queue : queue_ok (queued_queries d);
  di_cache : lc_cap (cached_enrs d) = 50 /\ Z.of_nat (size (lc_map (cached_enrs d))) <= 50;
}.

Lemma inv_capacity d : disc_inv d -> at_capacity d = false.
Proof. intros [ [ [Ha Hf]|(t & Ha & Hf & _)] _ _ _]; unfold at_capacity; by rewrite Ha, Hf. Qed.

(** Changes of the server, the record and the file do not matter. *)
Lemma inv_other d v g w : disc_inv d -> disc_inv (with_file w (with_globals g (with_discv5 v d))).
Proof. destruct d. by intros [? ? ? ?]. Qed.
Lemma inv_discv5 d v : disc_inv d -> disc_inv (with_discv5 v d).
Proof. destruct d. by intros [? ? ? ?]. Qed.
Lemma inv_globals d g : disc_inv d -> disc_inv (with_globals g d).
Proof. destruct d. by intros [? ? ? ?]. Qed.
Lemma inv_file d w : disc_inv d -> disc_inv (with_file w d).
Proof. destruct d. by intros [? ? ? ?]. Qed.

Lemma inv_put e d : disc_inv d -> disc_inv (with_cache (lc_put (enr_peer_id e) e (cached_enrs d)) d).
Proof.
  intros [Ha Hs Hq [Hc Hz]]. destruct (lc_put_spec (enr_peer_id e) e (cached_enrs d)) as (Hc' & _ & _ & Hz').
  { rewrite Hc. lia. }
  destruct d; cbn in *. split; try done. cbn. rewrite Hc' in *. split; [done|]. rewrite Hc in Hz'. auto.
Qed.

Lemma inv_pop p d : disc_inv d -> disc_inv (with_cache (lc_pop p (cached_enrs d)).2 d).
Proof.
  intros [Ha Hs Hq [Hc Hz]]. destruct (lc_pop_spec p (cached_enrs d)) as (_ & Hc' & Hm).
  destruct d; cbn in *. split; try done. cbn. rewrite Hc', Hm. split; [done|].
  rewrite map_size_delete. destruct (_ !! p); unfold id; lia.
Qed.

Lemma inv_discover n d : disc_inv d -> disc_inv (discover_peers n d).
Proof.
  intros Hd. unfold discover_peers. destruct (started d) eqn:Hst, (find_peer_active d) eqn:Hf; try done.
  destruct Hd as [ [ [Ha _]|(t & _ & Hf' & _)] Hs Hq Hc]; [|congruence].
  destruct d; cbn in *. subst. split; cbn; try done. right. eexists. split_and!; [done|done| |done].
  apply Z.le_min_l.
Qed.

Lemma inv_subnets l d : disc_inv d -> disc_inv (discover_subnet_peers l d).
Proof.
  intros Hd. unfold discover_subnet_peers. destruct (started d) eqn:Hst; [|done]. cbn [negb].
  revert d Hd Hst. induction l as [|s l IH]; intros d Hd Hst; [done|]. cbn [foldl].
  assert (forall q, disc_inv (with_queue q d) <-> queue_ok q) as Hq.
  { intros q. destruct Hd as [Ha Hs Hq Hc]. destruct d; cbn in *. subst. split; [by intros [? ? ? ?]|].
    intros. split; try done. }
  pose proof (add_subnet_query_queue (sd_subnet s) (sd_min_ttl s) 0 d (di_queue d Hd)) as Hok.
  apply IH; rewrite (add_subnet_query_only (sd_subnet s)); [by apply Hq|by destruct d].
Qed.

Lemma inv_completed r d : disc_inv d -> active_queries d = [] ->
  disc_inv (process_completed_queries r d).2.
Proof.
  intros Hd Ha. assert (disc_inv (with_find false d)) as Hd'.
  { destruct Hd as [_ Hs Hq Hc]. destruct d; cbn in *. split; cbn; auto. }
  unfold process_completed_queries. destruct (query_type r), (result_ r) as [[|e l]|]; cbn [snd]; try done.
  generalize dependent (with_find false d). clear. intros d Hd. revert d Hd.
  induction (e :: l) as [|e' l' IH]; intros d Hd; cbn; [done|]. apply IH. by apply inv_put.
Qed.

Lemma completed_queries r d : active_queries (process_completed_queries r d).2 = active_queries d /\
  find_peer_active (process_completed_queries r d).2 = false /\
  started (process_completed_queries r d).2 = started d.
Proof.
  unfold process_completed_queries. destruct (query_type r).
  assert (forall l d, active_queries (foldl (fun d e => with_cache (lc_put (enr_peer_id e) e (cached_enrs d)) d) d l)
      = active_queries d /\
    find_peer_active (foldl (fun d e => with_cache (lc_put (enr_peer_id e) e (cached_enrs d)) d) d l)
      = find_peer_active d /\
    started (foldl (fun d e => with_cache (lc_put (enr_peer_id e) e (cached_enrs d)) d) d l) = started d) as Hfold.
  { clear. induction l as [|e l IH]; intros d; cbn; [done|]. destruct (IH (with_cache (lc_put (enr_peer_id e) e
      (cached_enrs d)) d)) as (-> & -> & ->). by destruct d. }
  destruct (result_ r) as [ [|e l]|]; cbn [snd]; [by destruct d| |by destruct d].
  destruct (Hfold (e :: l) (with_find false d)) as (-> & -> & ->). by destruct d.
Qed.

(** A completion takes its query off the active ones. *)
Lemma inv_complete q c d : disc_inv d -> active_queries d !! c_index c = Some q ->
  let d1 := with_active (delete (c_index c) (active_queries d)) d in
  disc_inv (process_completed_queries (mkQueryResult (aq_type q) (c_result c)) d1).2 /\
  active_queries d1 = [].
Proof.
  intros Hd Hq d1. assert (active_queries d1 = []) as Ha1.
  { destruct (di_active d Hd) as [ [Ha _]|(t & Ha & _)]; rewrite Ha in Hq; [done|].
    unfold d1. rewrite Ha. destruct (c_index c) as [|n]; [by destruct d|done]. }
  split; [|done]. destruct Hd as [_ Hs Hqk Hc].
  assert (disc_inv (with_find false d1)) as Hd1.
  { unfold d1 in *. destruct d; cbn in *. split; cbn; auto. }
  pose proof (inv_completed (mkQueryResult (aq_type q) (c_result c)) _ Hd1) as Hp.
  destruct d; apply Hp. by rewrite <- Ha1.
Qed.

Lemma inv_poll_queries cs : forall d, disc_inv d -> disc_inv (poll_queries cs d).2.
Proof.
  induction cs as [|c cs IH]; intros d Hd; cbn; [done|].
  destruct (active_queries d !! c_index c) as [q|] eqn:Hq; [|done].
  destruct (inv_complete q c d Hd Hq) as [Hp _].
  destruct (process_completed_queries _ _) as [ [r|] d2]; cbn in *; auto.
Qed.

Lemma inv_stream env d : disc_inv d -> started d = true -> disc_inv (poll_event_stream env d).
Proof.
  intros Hd Hst. unfold poll_event_stream. destruct (event_stream d) eqn:He; [| |done].
  - assert (forall x, disc_inv (with_stream x d)) as Hx.
    { intros x. destruct Hd as [Ha Hs Hq Hc]. destruct d; cbn in *. subst. by split. }
    destruct (pe_stream env) as [ [|]|]; auto.
  - clear He Hst. revert d Hd. induction (pe_events env) as [|ev evs IH]; intros d Hd; cbn; [done|].
    apply IH. destruct ev; cbn; [done| |done].
    apply inv_globals, inv_file. destruct (_ || _); [by apply inv_discv5|done].
Qed.

(** What a poll does to a state that satisfies the invariant. *)
Lemma poll_unfold env db d : disc_inv d -> started d = true ->
  disc_poll env db d =
    match poll_queries (pe_completions env) (with_queue [] d) with
    | (Some peers, d) => Some (Ready peers, d)
    | (None, d) => Some (Pending, poll_event_stream env d)
    end.
Proof.
  intros Hd Hst. unfold disc_poll. rewrite Hst. cbn [negb]. unfold process_queue.
  destruct (process_loop_run db (filter (fun q => expired (pe_now env) q = false) (queued_queries d))
    (length (queued_queries d)) [] false d) as (b & -> & _); [apply length_filter|by apply inv_capacity|done].
Qed.

Lemma poll_queries_started cs d : started (poll_queries cs d).2 = started d.
Proof.
  revert d. induction cs as [|c cs IH]; intros d; [done|]. cbn.
  destruct (active_queries d !! c_index c) as [q|]; [|done].
  destruct (completed_queries (mkQueryResult (aq_type q) (c_result c))
    (with_active (delete (c_index c) (active_queries d)) d)) as (_ & _ & Hs).
  destruct (process_completed_queries _ _) as [ [r|] d2]; cbn in *; rewrite ?IH, Hs; by destruct d.
Qed.

Lemma inv_poll env db d : disc_inv d -> exists r d', disc_poll env db d = Some (r, d') /\ disc_inv d'.
Proof.
  intros Hd. destruct (started d) eqn:Hst; [|unfold disc_poll; rewrite Hst; eauto].
  rewrite poll_unfold by done. assert (disc_inv (with_queue [] d)) as Hd'.
  { destruct Hd as [Ha Hs Hq Hc]. destruct d; cbn in *.
    split; cbn; [done|naive_solver|split; [apply NoDup_nil_2|done]|done]. }
  pose proof (inv_poll_queries (pe_completions env) _ Hd') as Hp.
  pose proof (poll_queries_started (pe_completions env) (with_queue [] d)) as Hs.
  destruct (poll_queries _ _) as [ [r|] d2]; cbn in *; [eauto|].
  eexists _, _. split; [done|]. apply inv_stream; [done|]. rewrite Hs. by destruct d.
Qed.

(** ** Histories *)

Inductive DiscOp : Type :=
| OpDiscoverPeers (target_peers : Z)
| OpDiscoverSubnets (subnets : list SubnetDiscovery)
| OpAddEnr (e : Enr)
| OpRemoveCached (p : PeerId)
| OpTcpPort (write : WriteAttempt) (port : Z)
| OpQuicPort (write : WriteAttempt) (port : Z)
| OpUdpSocket (write : WriteAttempt) (s : SocketAddr)
| OpBan (p : PeerId) (ips : list IpAddr)
| OpUnban (p : PeerId) (ips : list IpAddr)
| OpDialFailure (p : option PeerId) (error : DialError)
| OpPoll (env : PollEnv) (db : PeerDB).

Definition disc_step (op : DiscOp) (d : Discovery) : option Discovery :=
  match op with
  | OpDiscoverPeers n => Some (discover_peers n d)
  | OpDiscoverSubnets l => Some (discover_subnet_peers l d)
  | OpAddEnr e => Some (disc_add_enr e d)
  | OpRemoveCached p => Some (remove_cached_enr p d).2
  | OpTcpPort w port => Some (update_enr_tcp_port w port d).2
  | OpQuicPort w port => Some (update_enr_quic_port w port d).2
  | OpUdpSocket w s => Some (update_enr_udp_socket w s d).2
  | OpBan p ips => Some (disc_ban_peer peer_id_to_node_id p ips d)
  | OpUnban p ips => Some (disc_unban_peer peer_id_to_node_id p ips d)
  | OpDialFailure p e => Some (disc_on_dial_failure peer_id_to_node_id p e d)
  | OpPoll env db => r ← disc_poll env db d; Some r.2
  end.

Fixpoint disc_run (ops : list DiscOp) (d : Discovery) : option Discovery :=
  match ops with
  | [] => Some d
  | op :: ops => d ← disc_step op d; disc_run ops d
  end.

Lemma inv_port key w port d : disc_inv d -> disc_inv (update_enr_port key w port d).2.
Proof.
  intros Hd. unfold update_enr_port. destruct (d5_enr_insert key port (discv5 d)) as [ [u|e] v]; cbn [snd].
  - unfold publish_enr. by apply inv_file, inv_globals, inv_discv5.
  - by apply inv_discv5.
Qed.

Lemma disc_step_inv op d : disc_inv d -> exists d', disc_step op d = Some d' /\ disc_inv d'.
Proof.
  intros Hd. destruct op as [n|l|e|p|w port|w port|w s|p ips|p ips|p e|env db]; cbn [disc_step].
  - eauto using inv_discover.
  - eauto using inv_subnets.
  - eexists. split; [done|]. unfold disc_add_enr. by apply inv_discv5, inv_put.
  - eexists. split; [done|]. unfold remove_cached_enr.
    pose proof (inv_pop p d Hd). by destruct (lc_pop p (cached_enrs d)).
  - eexists. split; [done|]. by apply inv_port.
  - eexists. split; [done|]. by apply inv_port.
  - eexists. split; [done|]. unfold update_enr_udp_socket. destruct (d5_update_local_enr_socket _ _ _) as [b v].
    apply inv_globals. destruct b; [by apply inv_file, inv_discv5|by apply inv_discv5].
  - eexists. split; [done|]. by apply inv_discv5.
  - eexists. split; [done|]. by apply inv_discv5.
  - eexists. split; [done|]. unfold disc_on_dial_failure, disc_disconnect_peer.
    destruct p as [p|]; [|done]. destruct e; try done; apply inv_pop; by destruct (peer_id_to_node_id p);
      try apply inv_discv5.
  - destruct (inv_poll env db d Hd) as (r & d' & -> & Hd'). cbn. eauto.
Qed.

(** The fields that changes of the server, the record, the file and the cache keep. *)
Definition same_queries (d d' : Discovery) : Prop :=
  active_queries d' = active_queries d /\ find_peer_active d' = find_peer_active d /\ started d' = started d.

Lemma stream_queries env d : same_queries d (poll_event_stream env d).
Proof.
  unfold poll_event_stream. destruct (event_stream d); [|..].
  - destruct (pe_stream env) as [ [|]|]; by destruct d.
  - revert d. induction (pe_events env) as [|ev evs IH]; intros d; [done|]. cbn [foldl].
    assert (same_queries d (on_discv5_event (pe_write env) d ev)) as (Ha & Hf & Hs).
    { destruct ev; [done| |done]. unfold on_discv5_event. destruct (_ || _); by destruct d. }
    destruct (IH (on_discv5_event (pe_write env) d ev)) as (Ha' & Hf' & Hs').
    unfold same_queries. by rewrite Ha', Hf', Hs'.
  - done.
Qed.

Lemma disc_step_started op d d' : disc_inv d -> disc_step op d = Some d' -> started d' = started d.
Proof.
  intros Hd. destruct op as [n|l|e|p|w port|w port|w s|p ips|p ips|p e|env db]; cbn [disc_step].
  11: { destruct (started d) eqn:Hst.
    - rewrite poll_unfold by done. pose proof (poll_queries_started (pe_completions env) (with_queue [] d)) as Hp.
      destruct (poll_queries _ _) as [ [r|] d2]; cbn in *; intros [= <-].
      + rewrite Hp. by destruct d.
      + destruct (stream_queries env d2) as (_ & _ & ->). rewrite Hp. by destruct d.
    - unfold disc_poll. rewrite Hst. by intros [= <-]. }
  all: intros [= <-].
  - unfold discover_peers. destruct (_ || _); by destruct d.
  - unfold discover_subnet_peers. destruct (negb (started d)); [done|]. clear Hd.
    revert d. induction l as [|s l IH]; intros d; [done|]. cbn [foldl]. rewrite IH, (add_subnet_query_only (sd_subnet s)).
    by destruct d.
  - by destruct d.
  - unfold remove_cached_enr. destruct (lc_pop p (cached_enrs d)). by destruct d.
  - unfold update_enr_tcp_port, update_enr_port. destruct (d5_enr_insert _ _ _) as [ []]; by destruct d.
  - unfold update_enr_quic_port, update_enr_port. destruct (d5_enr_insert _ _ _) as [ []]; by destruct d.
  - unfold update_enr_udp_socket. destruct (d5_update_local_enr_socket _ _ _) as [ []]; by destruct d.
  - by destruct d.
  - by destruct d.
  - unfold disc_on_dial_failure, disc_disconnect_peer. destruct p as [p|]; [|done].
    destruct e; try done; destruct (peer_id_to_node_id p); by destruct d.
Qed.

Lemma disc_run_inv ops d : disc_inv d ->
  exists d', disc_run ops d = Some d' /\ disc_inv d' /\ started d' = started d.
Proof.
  revert d. induction ops as [|op ops IH]; intros d Hd; cbn; [eauto|].
  destruct (disc_step_inv op d Hd) as (d' & Hs & Hd'). apply disc_step_started in Hs as Hst; [|done].
  rewrite Hs. cbn. rewrite <- Hst. auto.
Qed.

Lemma discovery_new_inv key config e file start found d :
  Discovery_new key config e file start found = Ok d ->
  disc_inv d /\ started d = negb (disable_discovery config).
Proof.
  unfold Discovery_new. destruct key as [k|]; [|done]. destruct (d5_new e k) as [v|]; [|done]. cbn.
  destruct (lc_new_spec 50) as [Hm Hc].
  assert (queue_ok []) by (split; [apply NoDup_nil_2|done]).
  destruct (disable_discovery config); [|destruct start; [|done]]; intros [= <-]; (split; [|done]);
    split; cbn; try done; try (by left); by rewrite Hm, map_size_empty, Hc.
Qed.

(** C11: From the creation of discovery on, whatever operations and polls follow: no step
    runs out of its bound, at most one query for peers is active, for at most 16
    peers, and exactly while it is marked as active; there is at most one queued query
    per subnet, within its retries; at most 50 records are cached; and a
    disabled discovery never has queries. *)
Theorem discovery_invariant key config e file start found d ops :
  Discovery_new key config e file start found = Ok d ->
  exists d', disc_run ops d = Some d' /\ disc_inv d' /\ at_capacity d' = false.
Proof.
  intros Hnew. apply discovery_new_inv in Hnew as [Hnew _]. destruct (disc_run_inv ops d Hnew) as (d' & -> & Hd' & _).
  eauto using inv_capacity.
Qed.

(** C22: A search for peers always makes progress: in every state after creation of a
    started discovery, asking for peers leaves one active query; when the server
    answers it, the next poll reports the records found, each once, if there are any,
    and then another search can be started. *)
Theorem find_peers_progress key config e file start found d ops n :
  Discovery_new key config e file start found = Ok d -> disable_discovery config = false ->
  exists d', disc_run ops d = Some d' /\
  exists t, active_queries (discover_peers n d') = [mkActiveQuery FindPeers t] /\
  forall now db stream events w r,
  exists res d2,
    disc_poll (mkPollEnv now [mkCompletion 0 r] stream events w) db (discover_peers n d') = Some (res, d2) /\
    match r with
    | Ok (x :: l) => res = Ready (map (fun e => (e, None)) (remove_dups (x :: l)))
    | _ => res = Pending
    end /\
    find_peer_active d2 = false /\
    active_queries (discover_peers n d2) =
      [mkActiveQuery FindPeers (Z.min FIND_NODE_QUERY_CLOSEST_PEERS n)].
Proof.
  intros Hnew Hcfg. apply discovery_new_inv in Hnew as [Hd Hst]. rewrite Hcfg in Hst.
  destruct (disc_run_inv ops d Hd) as (d' & -> & Hd' & Hst'). exists d'. split; [done|].
  rewrite Hst in Hst'. cbn in Hst'. apply (inv_discover n) in Hd' as Hd1.
  assert (started (discover_peers n d') = true) as Hs1.
  { unfold discover_peers. destruct (_ || _); by destruct d'. }
  assert (find_peer_active (discover_peers n d') = true) as Hf1.
  { unfold discover_peers. rewrite Hst'. destruct (find_peer_active d') eqn:Hf; [done|by destruct d']. }
  destruct (di_active _ Hd1) as [ [_ ?]|(t & Ha & _)]; [congruence|]. exists t. split; [done|].
  intros now db stream events w r. rewrite poll_unfold by done. cbn [pe_completions poll_queries].
  generalize dependent (discover_peers n d'). intros d1 Hd1 Hs1 Hf1 Ha.
  replace (active_queries (with_queue [] d1)) with [mkActiveQuery FindPeers t] by (rewrite <- Ha; by destruct d1).
  cbn [lookup list_lookup c_index aq_type c_result].
  set (d0 := with_active _ _). assert (active_queries d0 = []) as Ha0 by by (unfold d0; destruct d1).
  assert (started d0 = true) as Hs0 by by (unfold d0; destruct d1).
  destruct (completed_queries (mkQueryResult FindPeers r) d0) as (Ha2 & Hf2 & Hs2). rewrite Ha0 in Ha2. rewrite Hs0 in Hs2.
  assert (forall d2, active_queries d2 = [] -> find_peer_active d2 = false -> started d2 = true ->
    active_queries (discover_peers n d2) = [mkActiveQuery FindPeers (Z.min FIND_NODE_QUERY_CLOSEST_PEERS n)]) as Hgo.
  { intros d2 Ha3 Hf3 Hs3. unfold discover_peers. rewrite Hs3, Hf3. destruct d2; cbn in *. by subst. }
  destruct r as [ [|x l]|err]; cbn [process_completed_queries query_type result_] in *.
  - destruct (stream_queries (mkPollEnv now [mkCompletion 0 (Ok [])] stream events w) (with_find false d0)) as (Ea & Ef & Es).
    cbn [snd] in *. eexists _, _. split; [done|]. split_and!; [done|by rewrite Ef|].
    apply Hgo; congruence.
  - eexists _, _. split; [done|]. cbn [snd] in *. split_and!; [done|done|]. by apply Hgo.
  - destruct (stream_queries (mkPollEnv now [mkCompletion 0 (Err err)] stream events w) (with_find false d0)) as (Ea & Ef & Es).
    cbn [snd] in *. eexists _, _. split; [done|]. split_and!; [done|by rewrite Ef|].
    apply Hgo; congruence.
Qed.

(** ** Bans *)

Lemma ban_ips ips v : d5_banned_nodes (foldl (fun v ip => d5_ban_ip ip v) v ips) = d5_banned_nodes v /\
  d5_banned_ips (foldl (fun v ip => d5_ban_ip ip v) v ips) = list_to_set ips ∪ d5_banned_ips v.
Proof.
  revert v. induction ips as [|ip ips IH]; intros v; cbn; [set_solver|].
  destruct (IH (d5_ban_ip ip v)) as [-> ->]. destruct (d5_ban_ip_spec ip v) as [-> ->]. set_solver.
Qed.

Lemma unban_ips ips v : d5_banned_nodes (foldl (fun v ip => d5_ban_ip_remove ip v) v ips) = d5_banned_nodes v /\
  d5_banned_ips (foldl (fun v ip => d5_ban_ip_remove ip v) v ips) = d5_banned_ips v ∖ list_to_set ips.
Proof.
  revert v. induction ips as [|ip ips IH]; intros v; cbn; [set_solver|].
  destruct (IH (d5_ban_ip_remove ip v)) as [-> ->]. destruct (d5_ban_ip_remove_spec ip v) as [-> ->]. set_solver.
Qed.

(** The node of a peer, if its id has one. *)
Definition node_of (p : PeerId) : gset NodeId :=
  match peer_id_to_node_id p with Ok n => {[n]} | Err _ => ∅ end.

Lemma ban_peer_sets p ips d :
  d5_banned_nodes (discv5 (disc_ban_peer peer_id_to_node_id p ips d)) = node_of p ∪ d5_banned_nodes (discv5 d) /\
  d5_banned_ips (discv5 (disc_ban_peer peer_id_to_node_id p ips d)) = list_to_set ips ∪ d5_banned_ips (discv5 d).
Proof.
  unfold disc_ban_peer, node_of. destruct d; cbn. rewrite !(proj1 (ban_ips _ _)), !(proj2 (ban_ips _ _)).
  destruct (peer_id_to_node_id p) as [n|]; [|set_solver].
  destruct (d5_remove_node_spec n (d5_ban_node n discv5)) as [-> ->].
  destruct (d5_ban_node_spec n discv5) as [-> ->]. done.
Qed.

Lemma unban_peer_sets p ips d :
  d5_banned_nodes (discv5 (disc_unban_peer peer_id_to_node_id p ips d)) = d5_banned_nodes (discv5 d) ∖ node_of p /\
  d5_banned_ips (discv5 (disc_unban_peer peer_id_to_node_id p ips d)) = d5_banned_ips (discv5 d) ∖ list_to_set ips.
Proof.
  unfold disc_unban_peer, node_of. destruct d; cbn. rewrite !(proj1 (unban_ips _ _)), !(proj2 (unban_ips _ _)).
  destruct (peer_id_to_node_id p) as [n|]; [|set_solver].
  destruct (d5_ban_node_remove_spec n discv5) as [-> ->]. done.
Qed.
End discovery.

(** ** Witnesses *)

(** A map that drops all other entries when it is full. *)
#[refine] Definition demo_lru (K V : Type) `{Countable K} : LruCacheLib K V := {|
  LruCache := gmap K V * Z;
  lc_map := fst;
  lc_cap := snd;
  lc_new := fun n => (∅, n);
  lc_put := fun k v c =>
    (if Z.of_nat (size (<[k := v]> c.1)) <=? c.2 then <[k := v]> c.1 else {[k := v]}, c.2);
  lc_pop := fun k c => (c.1 !! k, (delete k c.1, c.2));
|}.
Proof.
  - done.
  - intros k v [m n] Hn. cbn in *. destruct (Z.leb_spec (Z.of_nat (size (<[k := v]> m))) n).
    + split_and!; [done|apply lookup_insert_eq| |done]. intros k' v' Hk. by rewrite lookup_insert_ne.
    + split_and!; [done|apply lookup_singleton_eq| |by rewrite map_size_singleton].
      intros k' v' Hk. by rewrite lookup_singleton_ne.
  - done.
Defined.

#[local] Existing Instances demo_enr_external demo_enr_fields demo_enr_lib.

(** The local record and the bans. *)
Definition demo_discv5 : @Discv5Lib demo_enr_external demo_enr_fields demo_enr_lib.
Proof.
  refine (@Build_Discv5Lib demo_enr_external demo_enr_fields demo_enr_lib
    (DemoEnr * gset positive * gset IpAddr) (fun v => v.1.1) (fun v => v.1.2) (fun v => v.2) (fun _ => [])
    (fun e _ => Ok (e, ∅, ∅)) (fun _ v => (Ok tt, v)) (fun _ _ v => (Ok tt, v)) (fun _ _ v => (false, v))
    (fun n v => (v.1.1, {[n]} ∪ v.1.2, v.2)) (fun n v => v) (fun n v => (v.1.1, v.1.2 ∖ {[n]}, v.2))
    (fun ip v => (v.1, {[ip]} ∪ v.2)) (fun ip v => (v.1, v.2 ∖ {[ip]})) (fun n v => v) _ _ _ _ _); done.
Defined.

#[local] Existing Instances demo_discv5.
#[local] Instance demo_cache : LruCacheLib PeerId Enr := demo_lru PeerId Enr.
#[local] Instance demo_infos : MapIter PeerId PeerInfo := canonical_map_iter PeerId PeerInfo.

Definition demo_node (p : PeerId) : result NodeId string := Ok p.
Definition demo_key : result EnrKey string := Ok 7%positive.
Definition demo_discovery : Discovery :=
  mkDiscovery (lc_new 50) (demo_local, ∅, ∅) false [] [] Awaiting true (true, true) demo_local NoFile.
Definition demo_disc_ops : list DiscOp :=
  [OpDiscoverPeers 40; OpDiscoverSubnets [mkSubnetDiscovery (Mempool "main") (Some 5)];
   OpBan (9%positive : PeerId) [V4 1]; OpDiscoverPeers 3].

Lemma demo_discovery_new :
  Discovery_new demo_key (NetworkConfig_in ".") demo_local NoFile (Ok tt) [] = Ok demo_discovery.
Proof. reflexivity. Qed.

Lemma add_subnet_query_spec_witness :
  let d := add_subnet_query (Mempool "main") (Some 5) 1 demo_discovery in
  queue_ok (queued_queries d) /\
  (forall q, q ∈ queued_queries (add_subnet_query (Mempool "main") (Some 7) 2 d) <->
     (q ∈ queued_queries d /\ sq_subnet q <> Mempool "main") \/
     (sq_subnet q = Mempool "main" /\ sq_retries q = 2 /\ sq_min_ttl q = Some 7)).
Proof.
  intros d. assert (Hq : queue_ok (queued_queries d)).
  { split; [apply NoDup_singleton|apply Forall_singleton; done]. }
  split; [done|]. apply (proj2 (add_subnet_query_spec (Mempool "main") (Some 7) 2 d Hq)). done.
Defined.

Lemma process_queue_terminates_witness :
  let d := add_subnet_query (Mempool "main") (Some 5) 1 demo_discovery in
  exists b, process_queue 1 0 (PeerDB_new [] false) d =
    Some (b, with_queue (if at_capacity d then filter (fun q => expired 0 q = false) (queued_queries d)
                         else []) d) /\
  (b = true <-> at_capacity d = false /\ filter (fun q => expired 0 q = false) (queued_queries d) <> []).
Proof. intros d. apply (process_queue_terminates 1 0 (PeerDB_new [] false) d). cbn. lia. Defined.

Lemma discovery_invariant_witness :
  exists d', disc_run demo_node demo_disc_ops demo_discovery = Some d' /\ disc_inv d' /\ at_capacity d' = false.
Proof.
  exact (discovery_invariant demo_node demo_key (NetworkConfig_in ".") demo_local NoFile (Ok tt) []
    demo_discovery demo_disc_ops demo_discovery_new).
Defined.

Lemma find_peers_progress_witness :
  exists d', disc_run demo_node demo_disc_ops demo_discovery = Some d' /\
  exists t, active_queries (discover_peers 5 d') = [mkActiveQuery FindPeers t].
Proof.
  destruct (find_peers_progress demo_node demo_key (NetworkConfig_in ".") demo_local NoFile (Ok tt) []
    demo_discovery demo_disc_ops 5 demo_discovery_new eq_refl) as (d' & Hrun & t & Ha & _).
  exists d'. split; [exact Hrun|]. exists t. exact Ha.
Defined.

(** The first search keeps its target; the second one is not started. *)
Example demo_single_search :
  option_map active_queries (disc_run demo_node demo_disc_ops demo_discovery) =
    Some [mkActiveQuery FindPeers 16].
Proof. reflexivity. Qed.
