(* ===== verification/SelfLimiter.v ===== *)
(** * The limiter of our own requests

    Models [src/rpc/self_limiter.rs]. [next_peer_request] is a [DelayQueue] of
    [tokio_util]: a collection of keys, each yielded once after its delay. Which
    key has expired when the queue is polled is an argument (an index of the
    collection). The theorems show that no request is lost or
    duplicated, that a delayed queue always has exactly one timer running, and
    the order in which requests leave. *)

From S2P Require Import Prelude External RpcTypes RateLimiter.

Section self_limiter.
Context `{External} {Id : Type}.

Record QueuedRequest : Type := mkQueued { q_req : OutboundRequest; q_request_id : Id }.

Abbreviation req_key := (PeerId * Protocol)%type (only parsing).

Record SelfRateLimiter : Type := mkSelf {
  delayed_requests : gmap (PeerId * Protocol) (list QueuedRequest);
  next_peer_request : list ((PeerId * Protocol) * Duration);
  limiter : RPCRateLimiter;
  ready_requests : list (BehaviourAction Id);
}.

Inductive SelfLimiterError : Type := PendingRequests | SelfRateLimited.

Definition SelfRateLimiter_new (now : Instant) (config : RateLimiterConfig)
  : result SelfRateLimiter string :=
  limiter <-? new_with_config now config ;
  Ok (mkSelf ∅ [] limiter []).

(** The event that sends a request. *)
Definition send_event (peer_id : PeerId) (q : QueuedRequest) : BehaviourAction Id :=
  ActNotifyHandler peer_id NotifyAny (SendRequest (q_request_id q) (q_req q)).

Definition try_send_request (now : Instant) (lim : RPCRateLimiter) (peer_id : PeerId)
    (request_id : Id) (req : OutboundRequest)
  : result (BehaviourAction Id) (QueuedRequest * Duration) * RPCRateLimiter :=
  match RPCRateLimiter_allows now peer_id req lim with
  | (Ok _, lim') => (Ok (send_event peer_id (mkQueued req request_id)), lim')
  | (Err e, lim') =>
      match e with
      | TooLarge => (Ok (send_event peer_id (mkQueued req request_id)), lim')
      | TooSoon wait_time => (Err (mkQueued req request_id, wait_time), lim')
      end
  end.

Definition SelfRateLimiter_allows (now : Instant) (peer_id : PeerId) (request_id : Id)
    (req : OutboundRequest) (s : SelfRateLimiter)
  : result (BehaviourAction Id) SelfLimiterError * SelfRateLimiter :=
  let protocol := SupportedProtocol_protocol (Outbound_versioned_protocol req) in
  let key := (peer_id, protocol) in
  match delayed_requests s !! key with
  | Some queued_requests =>
      (Err PendingRequests,
       mkSelf (<[key := queued_requests ++ [mkQueued req request_id]]> (delayed_requests s))
         (next_peer_request s) (limiter s) (ready_requests s))
  | None =>
      match try_send_request now (limiter s) peer_id request_id req with
      | (Err (rate_limited_req, wait_time), lim) =>
          (Err SelfRateLimited,
           mkSelf (<[key := default [] (delayed_requests s !! key) ++ [rate_limited_req]]>
                     (delayed_requests s))
             (next_peer_request s ++ [(key, wait_time)]) lim (ready_requests s))
      | (Ok event, lim) =>
          (Ok event,
           mkSelf (delayed_requests s) (next_peer_request s) lim (ready_requests s))
      end
  end.

(** The [while let Some(..) = queued_requests.pop_front()] loop: what is sent,
    and either the queue ran empty or a request was refused with a wait time and
    put at the back. The limiter reads the clock for each request. *)
Fixpoint drain (clock : nat -> Instant) (peer_id : PeerId) (queue : list QueuedRequest)
    (lim : RPCRateLimiter)
  : list (BehaviourAction Id) * option (Duration * list QueuedRequest) * RPCRateLimiter :=
  match queue with
  | [] => ([], None, lim)
  | q :: queue' =>
      match try_send_request (clock 0%nat) lim peer_id (q_request_id q) (q_req q) with
      | (Err (rate_limited_req, wait_time), lim') =>
          ([], Some (wait_time, queue' ++ [rate_limited_req]), lim')
      | (Ok event, lim') =>
          let '(sent, stopped, lim'') := drain (fun i => clock (S i)) peer_id queue' lim' in
          (event :: sent, stopped, lim'')
      end
  end.

Definition next_peer_request_ready (clock : nat -> Instant) (peer_id : PeerId) (protocol : Protocol)
    (s : SelfRateLimiter) : SelfRateLimiter :=
  let key := (peer_id, protocol) in
  match delayed_requests s !! key with
  | None => s
  | Some queue =>
      match drain clock peer_id queue (limiter s) with
      | (sent, Some (wait_time, queue'), lim) =>
          mkSelf (<[key := queue']> (delayed_requests s))
            (next_peer_request s ++ [(key, wait_time)]) lim (ready_requests s ++ sent)
      | (sent, None, lim) =>
          mkSelf (delete key (delayed_requests s))
            (next_peer_request s) lim (ready_requests s ++ sent)
      end
  end.

(** [poll_ready]: [expired] is the entry the delay queue yields, if any, and [clock] the readings of
    the clock while its queue is drained. *)
Definition poll_ready (clock : nat -> Instant) (expired : option nat) (ticks : list Instant)
    (s : SelfRateLimiter) : poll (BehaviourAction Id) * SelfRateLimiter :=
  let s1 :=
    match expired ≫= (fun i => vec_remove i (next_peer_request s)) with
    | Some ((peer_id, protocol, _), timers) =>
        next_peer_request_ready clock peer_id protocol
          (mkSelf (delayed_requests s) timers (limiter s) (ready_requests s))
    | None => s
    end in
  let '(_, lim) := RPCRateLimiter_poll ticks (limiter s1) in
  match ready_requests s1 with
  | event :: rest =>
      (Ready event, mkSelf (delayed_requests s1) (next_peer_request s1) lim rest)
  | [] => (Pending, mkSelf (delayed_requests s1) (next_peer_request s1) lim [])
  end.

(** ** Steps: a submitted request or a poll, and what comes out *)

Inductive self_call : Type :=
| Submit (now : Instant) (peer_id : PeerId) (request_id : Id) (req : OutboundRequest)
| PollReady (clock : nat -> Instant) (expired : option nat) (ticks : list Instant).

Definition self_step (c : self_call) (s : SelfRateLimiter)
  : list (BehaviourAction Id) * SelfRateLimiter :=
  match c with
  | Submit now p i r =>
      match SelfRateLimiter_allows now p i r s with
      | (Ok e, s') => ([e], s')
      | (Err _, s') => ([], s')
      end
  | PollReady clock x ticks =>
      match poll_ready clock x ticks s with
      | (Ready e, s') => ([e], s')
      | (Pending, s') => ([], s')
      end
  end.

Fixpoint self_run (cs : list self_call) (s : SelfRateLimiter)
  : list (BehaviourAction Id) * SelfRateLimiter :=
  match cs with
  | [] => ([], s)
  | c :: cs' =>
      let '(out, s1) := self_step c s in
      let '(outs, s2) := self_run cs' s1 in
      (out ++ outs, s2)
  end.

(** The requests submitted in a run, as the events that send them. *)
Definition submitted (c : self_call) : list (BehaviourAction Id) :=
  match c with
  | Submit _ p i r => [send_event p (mkQueued r i)]
  | PollReady _ _ _ => []
  end.

(** The requests a limiter holds. *)
Definition delayed_events (m : gmap (PeerId * Protocol) (list QueuedRequest))
  : list (BehaviourAction Id) :=
  map_to_list m ≫= (fun e => map (send_event e.1.1) e.2).
Definition held (s : SelfRateLimiter) : list (BehaviourAction Id) :=
  ready_requests s ++ delayed_events (delayed_requests s).

(** ** Invariant: queues and timers correspond one to one *)

Definition self_inv (s : SelfRateLimiter) : Prop :=
  NoDup (map fst (next_peer_request s)) /\
  (forall k, k ∈ map fst (next_peer_request s) <-> is_Some (delayed_requests s !! k)) /\
  (forall k q, delayed_requests s !! k = Some q ->
    q <> [] /\
    Forall (fun r => SupportedProtocol_protocol (Outbound_versioned_protocol (q_req r)) = k.2) q).

(** *** Lemmas *)

Lemma delayed_events_insert_new m k q :
  m !! k = None ->
  Permutation (delayed_events (<[k := q]> m)) (map (send_event k.1) q ++ delayed_events m).
Proof.
  intros Hk. unfold delayed_events. rewrite map_to_list_insert by done. done.
Qed.

Lemma delayed_events_delete m k q :
  m !! k = Some q ->
  Permutation (delayed_events m) (map (send_event k.1) q ++ delayed_events (delete k m)).
Proof.
  intros Hk. rewrite <- (insert_delete_id m k q Hk) at 1.
  apply delayed_events_insert_new. by rewrite lookup_delete_eq.
Qed.

Lemma delayed_events_update m k q q' :
  m !! k = Some q ->
  Permutation (delayed_events (<[k := q']> m))
    (map (send_event k.1) q' ++ delayed_events (delete k m)).
Proof.
  intros Hk. rewrite <- insert_delete_eq.
  apply delayed_events_insert_new. by rewrite lookup_delete_eq.
Qed.

Lemma try_send_request_spec now lim p i r :
  match (try_send_request now lim p i r).1 with
  | Ok e => e = send_event p (mkQueued r i)
  | Err (q, _) => q = mkQueued r i
  end.
Proof.
  unfold try_send_request. by destruct (RPCRateLimiter_allows now p r lim) as [[|[]] lim'].
Qed.

(** The requests sent are a prefix of the queue; a refused request goes behind
    the rest. *)
Lemma drain_spec clock p queue lim :
  let '(sent, stopped, _) := drain clock p queue lim in
  match stopped with
  | None => sent = map (send_event p) queue
  | Some (_, queue') => exists l1 q l2,
      queue = l1 ++ q :: l2 /\ sent = map (send_event p) l1 /\ queue' = l2 ++ [q]
  end.
Proof.
  revert clock lim. induction queue as [|[r i] queue IH]; intros clock lim; simpl; [done|].
  pose proof (try_send_request_spec (clock 0%nat) lim p i r) as Hs.
  destruct (try_send_request (clock 0%nat) lim p i r) as [[e|[q w]] lim']; simpl in Hs; subst.
  - specialize (IH (fun i => clock (S i)) lim'). destruct (drain (fun i => clock (S i)) p queue lim') as [[sent [[w queue']|]] lim''].
    + destruct IH as (l1 & q & l2 & -> & -> & ->). by exists (mkQueued r i :: l1), q, l2.
    + by rewrite IH.
  - by exists [], (mkQueued r i), queue.
Qed.

Lemma next_peer_request_ready_held clock p proto s :
  Permutation (held (next_peer_request_ready clock p proto s)) (held s).
Proof.
  unfold next_peer_request_ready, held. destruct (delayed_requests s !! _) as [queue|] eqn:Hk; [|done].
  pose proof (drain_spec clock p queue (limiter s)) as Hd.
  destruct (drain clock p queue (limiter s)) as [[sent [[w queue']|]] lim]; simpl.
  - destruct Hd as (l1 & q & l2 & -> & -> & ->).
    rewrite (delayed_events_update _ _ _ _ Hk), (delayed_events_delete _ _ _ Hk). simpl.
    rewrite !map_app. simpl. solve_Permutation.
  - subst sent. rewrite (delayed_events_delete _ _ _ Hk). simpl. solve_Permutation.
Qed.

Lemma vec_remove_perm {A} (i : nat) (l : list A) a l' :
  vec_remove i l = Some (a, l') -> Permutation l (a :: l').
Proof.
  unfold vec_remove. intros Hl. destruct (l !! i) eqn:Hi; simplify_eq.
  by apply delete_Permutation.
Qed.

Lemma self_step_conserves c s :
  Permutation ((self_step c s).1 ++ held (self_step c s).2) (submitted c ++ held s).
Proof.
  destruct c as [now p i r|clock x ticks]; simpl.
  - unfold SelfRateLimiter_allows.
    destruct (delayed_requests s !! _) as [queue|] eqn:Hk.
    + unfold held; simpl.
      rewrite (delayed_events_update _ _ _ _ Hk), (delayed_events_delete _ _ _ Hk). simpl.
      rewrite map_app. simpl. solve_Permutation.
    + pose proof (try_send_request_spec now (limiter s) p i r) as Hs.
      destruct (try_send_request now (limiter s) p i r) as [[e|[q w]] lim]; simpl in *; subst.
      * done.
      * unfold held; simpl. rewrite (delayed_events_insert_new _ _ _ Hk). simpl. solve_Permutation.
  - unfold poll_ready. set (s1 := match _ with Some _ => _ | None => s end).
    assert (Hs1 : Permutation (held s1) (held s)).
    { subst s1. destruct (_ ≫= _) as [[[[p proto] w] timers]|]; [|done].
      by rewrite next_peer_request_ready_held. }
    rewrite <- Hs1. unfold held. destruct (ready_requests s1) as [|e rest]; done.
Qed.

Lemma self_run_conserves cs s :
  Permutation ((self_run cs s).1 ++ held (self_run cs s).2) ((cs ≫= submitted) ++ held s).
Proof.
  revert s. induction cs as [|c cs IH]; intros s; [done|]. simpl.
  pose proof (self_step_conserves c s) as Hc. destruct (self_step c s) as [out s1].
  specialize (IH s1). destruct (self_run cs s1) as [outs s2]. simpl in *.
  rewrite <- !(assoc_L (++)), IH. rewrite !(assoc_L (++)), (comm (++) out). 
  rewrite <- !(assoc_L (++)), Hc. solve_Permutation.
Qed.

(** The queues hold requests of their key's protocol. *)
Definition queue_ok (k : PeerId * Protocol) (q : list QueuedRequest) : Prop :=
  q <> [] /\
  Forall (fun r => SupportedProtocol_protocol (Outbound_versioned_protocol (q_req r)) = k.2) q.

(** [self_inv] while the timer of [k] is out of the queue. *)
Lemma next_peer_request_ready_inv clock k s :
  NoDup (map fst (next_peer_request s)) -> is_Some (delayed_requests s !! k) ->
  (forall k', k' ∈ map fst (next_peer_request s) <-> k' <> k /\ is_Some (delayed_requests s !! k')) ->
  (forall k' q, delayed_requests s !! k' = Some q -> queue_ok k' q) ->
  self_inv (next_peer_request_ready clock k.1 k.2 s).
Proof.
  intros Hnd [queue Hk] Htimers Hok. unfold next_peer_request_ready.
  replace (k.1, k.2) with k by (by destruct k). rewrite Hk.
  pose proof (drain_spec clock k.1 queue (limiter s)) as Hd.
  destruct (drain clock k.1 queue (limiter s)) as [[sent [[w queue']|]] lim]; simpl.
  - destruct Hd as (l1 & q & l2 & -> & -> & ->). split_and!; simpl.
    + rewrite map_app. apply NoDup_app. split_and!; [done| |apply NoDup_singleton].
      intros k' Hk' ->%list_elem_of_singleton. apply Htimers in Hk'. naive_solver.
    + intros k'. rewrite map_app, elem_of_app, Htimers. simpl. rewrite list_elem_of_singleton.
      destruct (decide (k' = k)) as [->|Hne]; [rewrite lookup_insert_eq|rewrite lookup_insert_ne by done].
      * naive_solver.
      * naive_solver.
    + intros k' q' [[<- <-]|[Hne Hk']]%lookup_insert_Some; [|by apply Hok].
      split; [by destruct l2|]. destruct (Hok k _ Hk) as [_ Hf].
      rewrite Forall_app, Forall_cons in Hf. rewrite Forall_app, Forall_singleton. tauto.
  - split_and!; simpl; [done| |].
    + intros k'. rewrite Htimers, lookup_delete_is_Some. naive_solver.
    + intros k' q' [? Hk']%lookup_delete_Some. by apply Hok.
Qed.

Lemma self_step_inv c s : self_inv s -> self_inv (self_step c s).2.
Proof.
  intros (Hnd & Htimers & Hok). destruct c as [now p i r|clock x ticks]; simpl.
  - unfold SelfRateLimiter_allows. set (k := (p, SupportedProtocol_protocol _)).
    destruct (delayed_requests s !! k) as [queue|] eqn:Hk; simpl.
    + split_and!; simpl; [done| |].
      * intros k'. rewrite Htimers, lookup_insert_is_Some. destruct (decide (k = k')) as [<-|]; naive_solver.
      * intros k' q' [[<- <-]|[Hne Hk']]%lookup_insert_Some; [|by apply Hok].
        split; [by destruct queue|]. apply Forall_app. split; [by apply Hok|by constructor].
    + pose proof (try_send_request_spec now (limiter s) p i r) as Hs.
      destruct (try_send_request now (limiter s) p i r) as [[e|[q w]] lim]; simpl in *; subst.
      { by split_and!. }
      split_and!; simpl.
      * rewrite map_app. apply NoDup_app. split_and!; [done| |apply NoDup_singleton].
        intros k' Hk' ->%list_elem_of_singleton. apply Htimers in Hk'. simpl in Hk'.
        rewrite Hk in Hk'. by destruct Hk'.
      * intros k'. rewrite map_app, elem_of_app, Htimers. simpl. rewrite list_elem_of_singleton.
        rewrite lookup_insert_is_Some. destruct (decide (k = k')) as [<-|]; naive_solver.
      * intros k' q' [[<- <-]|[Hne Hk']]%lookup_insert_Some; [|by apply Hok].
        split; [done|by constructor].
  - unfold poll_ready. set (s1 := match _ with Some _ => _ | None => s end).
    assert (Hs1 : self_inv s1).
    { subst s1. destruct (_ ≫= _) as [[[k w] timers]|] eqn:Hx; [|by split_and!].
      destruct x as [j|]; [|done]. simpl in Hx. apply vec_remove_perm in Hx.
      destruct k as [p proto].
      assert (Hperm : Permutation (map fst (next_peer_request s)) ((p, proto) :: map fst timers))
        by (by rewrite Hx).
      rewrite Hperm in Hnd. apply NoDup_cons in Hnd as [Hnot Hnd].
      apply (next_peer_request_ready_inv clock (p, proto)); simpl; [done| | |done].
      - apply Htimers. rewrite Hperm. by left.
      - intros k'. rewrite <- Htimers, Hperm, elem_of_cons. naive_solver. }
    destruct Hs1 as (? & ? & ?). destruct (ready_requests s1); by split_and!.
Qed.

Lemma self_run_inv cs s : self_inv s -> self_inv (self_run cs s).2.
Proof.
  revert s. induction cs as [|c cs IH]; intros s Hs; [done|]. simpl.
  pose proof (self_step_inv c s Hs) as H1. destruct (self_step c s) as [out s1].
  specialize (IH s1 H1). by destruct (self_run cs s1).
Qed.

Lemma SelfRateLimiter_new_Ok now config s :
  SelfRateLimiter_new now config = Ok s ->
  held s = [] /\ self_inv s.
Proof.
  unfold SelfRateLimiter_new. destruct (new_with_config now config); intros [= <-].
  split; [done|]. split_and!; simpl; [constructor| |done].
  intros k. rewrite lookup_empty. split; [by intros ?%not_elem_of_nil|by intros []].
Qed.

End self_limiter.
Arguments SelfRateLimiter {_} Id.
Arguments self_call {_} Id.

(** ** Theorems *)

(** C20: no request is lost, duplicated or altered. After any sequence of
    submissions and polls, for every choice of timers that fire, the
    requests that left plus those still held (ready or delayed) are exactly the
    submitted ones, each addressed to its peer. *)
Theorem self_limiter_conservation `{External} {Id} now config (s : SelfRateLimiter Id) cs :
  SelfRateLimiter_new now config = Ok s ->
  Permutation ((self_run cs s).1 ++ held (self_run cs s).2) (cs ≫= submitted).
Proof.
  intros [Hheld _]%SelfRateLimiter_new_Ok. rewrite self_run_conserves, Hheld.
  by rewrite app_nil_r.
Qed.

(** C29: A delayed queue is never forgotten. In every reachable state the
    delayed keys and the keys with a running timer are the same, each with one
    timer, no delayed queue is empty, and it holds requests of its own
    protocol only. *)
Theorem self_limiter_timers `{External} {Id} now config (s : SelfRateLimiter Id) cs :
  SelfRateLimiter_new now config = Ok s ->
  let s' := (self_run cs s).2 in
  NoDup (map fst (next_peer_request s')) /\
  (forall k, k ∈ map fst (next_peer_request s') <-> is_Some (delayed_requests s' !! k)) /\
  (forall k q, delayed_requests s' !! k = Some q ->
    q <> [] /\
    Forall (fun r => SupportedProtocol_protocol (Outbound_versioned_protocol (q_req r)) = k.2) q).
Proof. intros [_ Hinv]%SelfRateLimiter_new_Ok. by apply self_run_inv. Qed.

(** What happens when the timer of a delayed queue fires: the requests
    the limiter grants are a prefix of the queue and become ready in
    order. If the limiter stops at a request, that request is moved
    behind the ones that were waiting after it and a new timer is started;
    otherwise the key is forgotten. *)
Theorem next_peer_request_ready_spec `{External} {Id} clock p proto (s : SelfRateLimiter Id) queue :
  delayed_requests s !! (p, proto) = Some queue ->
  let s' := next_peer_request_ready clock p proto s in
  (ready_requests s' = ready_requests s ++ map (send_event p) queue /\
   delayed_requests s' = delete (p, proto) (delayed_requests s) /\
   next_peer_request s' = next_peer_request s) \/
  (exists l1 q l2 w, queue = l1 ++ q :: l2 /\
   ready_requests s' = ready_requests s ++ map (send_event p) l1 /\
   delayed_requests s' = <[(p, proto) := l2 ++ [q]]> (delayed_requests s) /\
   next_peer_request s' = next_peer_request s ++ [((p, proto), w)]).
Proof.
  intros Hk. unfold next_peer_request_ready. rewrite Hk.
  pose proof (drain_spec clock p queue (limiter s)) as Hd.
  destruct (drain clock p queue (limiter s)) as [[sent [[w queue']|]] lim]; simpl.
  - destruct Hd as (l1 & q & l2 & -> & -> & ->). right. by exists l1, q, l2, w.
  - subst sent. by left.
Qed.

(** A run with two pings a ten seconds: five pings are submitted at once to the
    same peer, and the timer fires after five, ten and fifteen seconds. *)
Definition demo_ping (n : Z) : OutboundRequest := OutPing (mkPing n).
Definition demo_self : result (@SelfRateLimiter demo_external Z) string :=
  @SelfRateLimiter_new demo_external Z 0 RateLimiterConfig_default.
Definition demo_self_run : list (@self_call demo_external Z) :=
  (map (fun n => @Submit demo_external Z 0 1%positive n (demo_ping n)) [1; 2; 3; 4; 5]) ++
  [@PollReady demo_external Z (fun _ => from_secs 5) (Some 0%nat) [];
   @PollReady demo_external Z (fun _ => from_secs 10) (Some 0%nat) [];
   @PollReady demo_external Z (fun _ => from_secs 15) (Some 0%nat) []].
Definition demo_sent_ids : list Z :=
  match demo_self with
  | Ok s => omap (fun e => match e with
      | @ActNotifyHandler _ _ _ _ (SendRequest i _) => Some i | _ => None end)
      (@self_run demo_external Z demo_self_run s).1
  | Err _ => []
  end.

(** Requests to the same peer and protocol can be reordered: of five
    pings submitted in the order 1 to 5, the fifth is sent before the
    fourth. *)
Theorem self_limiter_reorders : demo_sent_ids = [1; 2; 3; 5; 4].
Proof. vm_compute. reflexivity. Qed.

Lemma self_limiter_conservation_witness :
  match demo_self with
  | Ok s => Permutation ((self_run demo_self_run s).1 ++ held (self_run demo_self_run s).2)
              (demo_self_run ≫= submitted)
  | Err _ => False
  end.
Proof. refine (@self_limiter_conservation demo_external Z 0 RateLimiterConfig_default _ demo_self_run _). reflexivity. Defined.

Lemma self_limiter_timers_witness :
  match demo_self with
  | Ok s => NoDup (map fst (next_peer_request (self_run demo_self_run s).2))
  | Err _ => False
  end.
Proof. refine (proj1 (@self_limiter_timers demo_external Z 0 RateLimiterConfig_default _ demo_self_run _)). reflexivity. Defined.

(** A state with three delayed pings. *)
Definition demo_queue : list (@QueuedRequest Z) :=
  [mkQueued (demo_ping 3) 3; mkQueued (demo_ping 4) 4; mkQueued (demo_ping 5) 5].
Definition demo_delayed : @SelfRateLimiter demo_external Z :=
  let l := mkLimiter 10000000000 5000000000 ∅ in
  mkSelf {[(demo_peer, PingProtocol) := demo_queue]} [] (mkRPCRateLimiter 0 l l l l l l) [].

Lemma next_peer_request_ready_spec_witness :
  let s' := next_peer_request_ready (fun _ => 0) demo_peer PingProtocol demo_delayed in
  (ready_requests s' = ready_requests demo_delayed ++ map (send_event demo_peer) demo_queue /\
   delayed_requests s' = delete (demo_peer, PingProtocol) (delayed_requests demo_delayed) /\
   next_peer_request s' = next_peer_request demo_delayed) \/
  (exists l1 q l2 w, demo_queue = l1 ++ q :: l2 /\
   ready_requests s' = ready_requests demo_delayed ++ map (send_event demo_peer) l1 /\
   delayed_requests s'
     = <[(demo_peer, PingProtocol) := l2 ++ [q]]> (delayed_requests demo_delayed) /\
   next_peer_request s' = next_peer_request demo_delayed ++ [((demo_peer, PingProtocol), w)]).
Proof.
  apply (next_peer_request_ready_spec (fun _ => 0) demo_peer PingProtocol demo_delayed demo_queue).
  apply lookup_singleton_eq.
Defined.
