(* ===== verification/DelayQueue.v ===== *)
(** * Interface of the delay queue

    [tokio_util::time::DelayQueue] as the handler
    and the gossip cache use it. The interface says
    which entries are in the queue under which keys: [insert] uses a key that is
    not in use, [remove] and [reset] panic on a key that is not in the
    queue, and polling yields an entry whose delay has elapsed and removes it.
    Which entry has expired is the choice of the caller of the model. *)

From S2P Require Import Prelude.

Class DelayQueue (V : Type) := {
  Queue : Type;
  dq_entries : Queue -> gmap Z V;
  dq_new : Queue;
  dq_insert : V -> Duration -> Queue -> Z * Queue;
  dq_remove : Z -> Queue -> outcome Queue;
  dq_reset : Z -> Duration -> Queue -> outcome Queue;
  (** The entry of a key expires. *)
  dq_expire : Z -> Queue -> option (V * Queue);

  dq_new_entries : dq_entries dq_new = ∅;
  dq_insert_fresh : forall v d q, dq_entries q !! (dq_insert v d q).1 = None;
  dq_insert_entries : forall v d q,
    dq_entries (dq_insert v d q).2 = <[(dq_insert v d q).1 := v]> (dq_entries q);
  dq_remove_some : forall k q, is_Some (dq_entries q !! k) ->
    exists q', dq_remove k q = Ret q' /\ dq_entries q' = delete k (dq_entries q);
  dq_remove_none : forall k q, dq_entries q !! k = None -> is_ret (dq_remove k q) = false;
  dq_reset_some : forall k d q, is_Some (dq_entries q !! k) ->
    exists q', dq_reset k d q = Ret q' /\ dq_entries q' = dq_entries q;
  dq_reset_none : forall k d q, dq_entries q !! k = None -> is_ret (dq_reset k d q) = false;
  dq_expire_spec : forall k q,
    match dq_expire k q with
    | Some (v, q') => dq_entries q !! k = Some v /\ dq_entries q' = delete k (dq_entries q)
    | None => dq_entries q !! k = None
    end;
}.

(** The entries themselves, with the first unused key for an insertion. *)
#[refine] Definition demo_delay_queue (V : Type) : DelayQueue V := {|
  Queue := gmap Z V;
  dq_entries := fun q => q;
  dq_new := ∅;
  dq_insert := fun v _ q => let k := fresh (dom q) in (k, <[k := v]> q);
  dq_remove := fun k q =>
    match q !! k with Some _ => Ret (delete k q) | None => Panic "invalid key" end;
  dq_reset := fun k _ q =>
    match q !! k with Some _ => Ret q | None => Panic "invalid key" end;
  dq_expire := fun k q => match q !! k with Some v => Some (v, delete k q) | None => None end;
|}.
Proof.
  - done.
  - intros v d q. simpl. apply not_elem_of_dom. apply is_fresh.
  - done.
  - intros k q [v Hk]. simpl. rewrite Hk. eauto.
  - intros k q Hk. simpl. by rewrite Hk.
  - intros k d q [v Hk]. simpl. rewrite Hk. eauto.
  - intros k d q Hk. simpl. by rewrite Hk.
  - intros k q. simpl. by destruct (q !! k).
Defined.

Example demo_delay_queue_keys :
  let '(k1, q1) := @dq_insert Z (demo_delay_queue Z) 7 0 ∅ in
  let '(k2, q2) := @dq_insert Z (demo_delay_queue Z) 8 0 q1 in
  k1 <> k2 /\ @dq_remove Z (demo_delay_queue Z) k1 q2 = Ret {[k2 := 8]}.
Proof. vm_compute. done. Qed.
