(* ===== verification/GossipCache.v ===== *)
(** * The cache of unpublished gossip messages

    Models [src/service/gossip_cache.rs]. Two indices are kept: the delay queue with
    a topic and a message under each key, and per topic the messages with their
    keys. The invariant is that they are inverse to each other and that no topic
    has an empty entry; every operation keeps it, so no key that the cache holds is
    unknown to the queue and nothing panics. [insert] sets no timeout for
    any kind of message, so the cache of the program stays empty. Which
    entry has expired is the choice of the caller of the model. Debug assertions
    are modelled as panics. *)

From Stdlib.Init Require Import Byte.
From S2P Require Import Prelude RustStr External RpcTypes Wire Topics DelayQueue.

Section cache.
Context `{DelayQueue (GossipTopic * bytes)} `{!MapIter bytes Z}.

Record GossipCache : Type := mkGossipCache {
  expirations : Queue;
  topic_msgs : gmap GossipTopic (gmap bytes Z);
}.

Record GossipCacheBuilder : Type := mkGossipCacheBuilder { builder_timeout : option Duration }.
Definition GossipCache_builder : GossipCacheBuilder := mkGossipCacheBuilder None.
Definition default_timeout (b : GossipCacheBuilder) (timeout : Duration) : GossipCacheBuilder :=
  mkGossipCacheBuilder (Some timeout).
Definition build (b : GossipCacheBuilder) : GossipCache := mkGossipCache dq_new ∅.

(** [insert] after its choice of a timeout. *)
Definition insert_with (expire_timeout : option Duration) (topic : GossipTopic) (data : bytes)
    (c : GossipCache) : outcome GossipCache :=
  match expire_timeout with
  | None => Ret c
  | Some expire_timeout =>
      let msgs := default ∅ (topic_msgs c !! topic) in
      match msgs !! data with
      | Some key =>
          q <-! dq_reset key expire_timeout (expirations c);
          Ret (mkGossipCache q (<[topic := msgs]> (topic_msgs c)))
      | None =>
          let '(key, q) := dq_insert (topic, data) expire_timeout (expirations c) in
          Ret (mkGossipCache q (<[topic := <[data := key]> msgs]> (topic_msgs c)))
      end
  end.

Definition insert (topic : GossipTopic) (data : bytes) (c : GossipCache) : outcome GossipCache :=
  let expire_timeout := None in
  insert_with expire_timeout topic data c.

Fixpoint remove_keys (keys : list Z) (q : Queue) : outcome Queue :=
  match keys with
  | [] => Ret q
  | key :: keys => q <-! dq_remove key q; remove_keys keys q
  end.

Definition retrieve (topic : GossipTopic) (c : GossipCache)
  : outcome (option (list bytes) * GossipCache) :=
  match topic_msgs c !! topic with
  | Some msgs =>
      q <-! remove_keys (map snd (map_iter msgs)) (expirations c);
      Ret (Some (map fst (map_iter msgs)), mkGossipCache q (delete topic (topic_msgs c)))
  | None => Ret (None, c)
  end.

(** What polling the queue gives. *)
Inductive Expired : Type := ExpiredKey (key : Z) | ExpiredErr (e : string) | ExpiredNone | ExpiredPending.

Definition poll_next (expired : Expired) (c : GossipCache)
  : outcome (poll (option (result GossipTopic string)) * GossipCache) :=
  match expired with
  | ExpiredKey expected_key =>
      match dq_expire expected_key (expirations c) with
      | None => Ret (Pending, c)
      | Some ((topic, data), q) =>
          match topic_msgs c !! topic with
          | Some msgs =>
              if decide (msgs !! data = Some expected_key) then
                let msgs := delete data msgs in
                let topic_msgs := if decide (msgs = ∅) then delete topic (topic_msgs c)
                                  else <[topic := msgs]> (topic_msgs c) in
                Ret (Ready (Some (Ok topic)), mkGossipCache q topic_msgs)
              else Panic "assertion failed: `(left == right)`"
          | None => Panic "Topic for registered message is not present."
          end
      end
  | ExpiredErr e => Ret (Ready (Some (Err e)), c)
  | ExpiredNone => Ret (Ready None, c)
  | ExpiredPending => Ret (Pending, c)
  end.

(** ** The two indices agree *)

(** The key of a message. *)
Definition key_of (tm : gmap GossipTopic (gmap bytes Z)) (topic : GossipTopic) (data : bytes) : option Z :=
  tm !! topic ≫= lookup data.

Record cache_inv (c : GossipCache) : Prop := {
  inv_index : forall key topic data, dq_entries (expirations c) !! key = Some (topic, data) <->
    key_of (topic_msgs c) topic data = Some key;
  inv_nonempty : forall topic msgs, topic_msgs c !! topic = Some msgs -> msgs <> ∅;
}.

Lemma key_of_insert tm topic msgs topic' data :
  key_of (<[topic := msgs]> tm) topic' data =
  if decide (topic' = topic) then msgs !! data else key_of tm topic' data.
Proof.
  unfold key_of. case_decide as Ht; [subst; by rewrite lookup_insert_eq|by rewrite lookup_insert_ne].
Qed.

Lemma key_of_delete tm topic topic' data :
  key_of (delete topic tm) topic' data =
  if decide (topic' = topic) then None else key_of tm topic' data.
Proof.
  unfold key_of. case_decide as Ht; [subst; by rewrite lookup_delete_eq|by rewrite lookup_delete_ne].
Qed.

Lemma key_of_default tm topic data : default ∅ (tm !! topic) !! data = key_of tm topic data.
Proof. unfold key_of. by destruct (tm !! topic). Qed.

Lemma key_of_inj c : cache_inv c -> forall t1 d1 t2 d2 key,
  key_of (topic_msgs c) t1 d1 = Some key -> key_of (topic_msgs c) t2 d2 = Some key -> t1 = t2 /\ d1 = d2.
Proof. intros [Hi _] * Hk1 Hk2. apply Hi in Hk1. apply Hi in Hk2. rewrite Hk1 in Hk2. by simplify_eq. Qed.

Lemma build_inv b : cache_inv (build b).
Proof.
  split; cbn.
  - intros key topic data. unfold key_of. by rewrite dq_new_entries, !lookup_empty.
  - intros topic msgs. by rewrite lookup_empty.
Qed.

Lemma insert_inv timeout topic data c : cache_inv c ->
  exists c', insert_with timeout topic data c = Ret c' /\ cache_inv c'.
Proof.
  intros Hc. pose proof Hc as [Hi Hn]. unfold insert_with. destruct timeout as [d|]; [|eauto].
  rewrite key_of_default. destruct (key_of _ topic data) as [key|] eqn:Hd.
  - destruct (dq_reset_some key d (expirations c)) as (q & -> & Hq); [exists (topic, data); by apply Hi|].
    eexists. split; [done|]. unfold key_of in Hd. destruct (topic_msgs c !! topic) as [msgs|] eqn:Ht; [|done].
    cbn [default]. rewrite insert_id by done. split; cbn; [|done]. by rewrite Hq.
  - destruct (dq_insert (topic, data) d (expirations c)) as [key q] eqn:Hins.
    pose proof (dq_insert_fresh (topic, data) d (expirations c)) as Hf.
    pose proof (dq_insert_entries (topic, data) d (expirations c)) as He. rewrite Hins in Hf, He. cbn in Hf, He.
    eexists. split; [done|]. split; cbn.
    + intros key' topic' data'. rewrite He, key_of_insert, lookup_insert_Some, Hi.
      assert (key_of (topic_msgs c) topic' data' <> Some key) as Hk.
      { intros Hk. apply Hi in Hk. by rewrite Hf in Hk. }
      case_decide as Ht; [subst topic'|naive_solver].
      destruct (decide (data' = data)) as [->|Hdd].
      * rewrite lookup_insert_eq, Hd. naive_solver.
      * rewrite lookup_insert_ne, key_of_default by done. naive_solver.
    + intros topic' msgs'. rewrite lookup_insert_Some. intros [[<- <-]|[? ?]]; [|by eapply Hn].
      apply insert_non_empty.
Qed.

Lemma remove_keys_entries keys q : NoDup keys ->
  (forall key, key ∈ keys -> is_Some (dq_entries q !! key)) ->
  exists q', remove_keys keys q = Ret q' /\
    forall key, dq_entries q' !! key = if decide (key ∈ keys) then None else dq_entries q !! key.
Proof.
  revert q. induction keys as [|key keys IH]; intros q Hnd Hin; [by exists q|].
  apply NoDup_cons in Hnd as [Hkey Hnd]. cbn [remove_keys].
  destruct (dq_remove_some key q) as (q1 & -> & Hq1); [apply Hin; set_solver|].
  destruct (IH q1 Hnd) as (q2 & -> & Hq2).
  { intros key' Hk. rewrite Hq1, lookup_delete_ne; [apply Hin; set_solver|set_solver]. }
  exists q2. split; [done|]. intros key'. rewrite Hq2, Hq1.
  destruct (decide (key' = key)) as [->|Hne].
  - rewrite lookup_delete_eq. repeat case_decide; set_solver.
  - rewrite lookup_delete_ne by done. repeat case_decide; set_solver.
Qed.

(** The keys of one topic are distinct. *)
Lemma topic_keys_NoDup c topic msgs : cache_inv c -> topic_msgs c !! topic = Some msgs ->
  NoDup (map snd (map_iter msgs)).
Proof.
  intros Hc Ht. apply NoDup_fmap_2_strong; [|eapply NoDup_fmap_1, map_iter_fst_NoDup].
  intros [d1 k1] [d2 k2] H1 H2 Heq. cbn in Heq. subst k2. apply elem_of_map_iter in H1, H2.
  destruct (key_of_inj c Hc topic d1 topic d2 k1) as [_ ->]; [..|done]; unfold key_of; by rewrite Ht.
Qed.

Lemma retrieve_inv topic c : cache_inv c ->
  exists r c', retrieve topic c = Ret (r, c') /\ cache_inv c' /\
    topic_msgs c' = delete topic (topic_msgs c) /\
    match r with
    | Some l => NoDup l /\ forall data, data ∈ l <-> is_Some (key_of (topic_msgs c) topic data)
    | None => topic_msgs c !! topic = None
    end.
Proof.
  intros Hc. pose proof Hc as [Hi Hn]. unfold retrieve. destruct (topic_msgs c !! topic) as [msgs|] eqn:Ht.
  2: { eexists _, _. split_and!; [done..| |done]. by rewrite delete_id. }
  assert (forall key, key ∈ map snd (map_iter msgs) <-> exists data, msgs !! data = Some key) as Hkeys.
  { intros key. rewrite list_elem_of_fmap. split.
    - intros ([data k] & -> & Hk). apply elem_of_map_iter in Hk. eauto.
    - intros [data Hd]. exists (data, key). by rewrite elem_of_map_iter. }
  destruct (remove_keys_entries (map snd (map_iter msgs)) (expirations c)) as (q & -> & Hq).
  { by eapply topic_keys_NoDup. }
  { intros key [data Hd]%Hkeys. exists (topic, data). apply Hi. unfold key_of. by rewrite Ht. }
  eexists _, _. split_and!; [done| |done|split; [apply map_iter_fst_NoDup|]].
  - split; cbn.
    + intros key topic' data'. rewrite Hq, key_of_delete. case_decide as Hk.
      * apply Hkeys in Hk as [data Hd].
        assert (key_of (topic_msgs c) topic data = Some key) as Hko by (unfold key_of; by rewrite Ht).
        case_decide as Ht'; [done|]. split; [done|]. intros Hk'.
        by destruct (key_of_inj c Hc topic data topic' data' key Hko Hk').
      * rewrite Hi. case_decide as Ht'; [subst topic'|done]. split; [|done]. intros Hk'. exfalso. apply Hk, Hkeys.
        unfold key_of in Hk'. rewrite Ht in Hk'. eauto.
    + intros topic' msgs' [_ Hm]%lookup_delete_Some. by eapply Hn.
  - intros data. rewrite list_elem_of_fmap. unfold key_of. rewrite Ht. cbn. split.
    + intros ([d k] & -> & Hk). apply elem_of_map_iter in Hk. eauto.
    + intros [k Hk]. exists (data, k). by rewrite elem_of_map_iter.
Qed.

Lemma poll_inv expired c : cache_inv c ->
  exists r c', poll_next expired c = Ret (r, c') /\ cache_inv c'.
Proof.
  intros Hc. pose proof Hc as [Hi Hn]. destruct expired as [key|e| |]; cbn; eauto.
  pose proof (dq_expire_spec key (expirations c)) as Hx.
  destruct (dq_expire key (expirations c)) as [[[topic data] q]|]; [|eauto].
  destruct Hx as [Hk Hq]. apply Hi in Hk as Hko. unfold key_of in Hko.
  destruct (topic_msgs c !! topic) as [msgs|] eqn:Ht; [|done]. cbn in Hko.
  rewrite decide_True by done. eexists _, _. split; [done|]. split; cbn.
  - intros key' topic' data'.
    assert (key_of (if decide (delete data msgs = ∅) then delete topic (topic_msgs c)
      else <[topic:=delete data msgs]> (topic_msgs c)) topic' data' =
      if decide (topic' = topic) then delete data msgs !! data' else key_of (topic_msgs c) topic' data') as ->.
    { case_decide as He; [|by rewrite key_of_insert]. rewrite key_of_delete, He. by rewrite lookup_empty. }
    rewrite Hq, lookup_delete_Some, Hi.
    assert (key_of (topic_msgs c) topic data = Some key) as Hko' by (unfold key_of; by rewrite Ht).
    pose proof (key_of_inj c Hc topic data topic' data' key Hko') as Hinj.
    case_decide as Ht'; [subst topic'|naive_solver].
    assert (key_of (topic_msgs c) topic data' = msgs !! data') as Heq by (unfold key_of; by rewrite Ht).
    rewrite lookup_delete_Some, Heq in *.
    split; intros [Hne Hm]; (split; [|done]); intros <-; [congruence|by apply Hne, Hinj].
  - intros topic' msgs'. case_decide as He.
    + intros [_ Hm]%lookup_delete_Some. by eapply Hn.
    + rewrite lookup_insert_Some. intros [[<- <-]|[_ Hm]]; [done|by eapply Hn].
Qed.

(** ** Histories *)

Inductive CacheOp : Type :=
| CacheInsert (timeout : option Duration) (topic : GossipTopic) (data : bytes)
| CacheRetrieve (topic : GossipTopic)
| CachePoll (expired : Expired).

Definition cache_step (op : CacheOp) (c : GossipCache) : outcome GossipCache :=
  match op with
  | CacheInsert timeout topic data => insert_with timeout topic data c
  | CacheRetrieve topic => r <-! retrieve topic c; Ret (snd r)
  | CachePoll expired => r <-! poll_next expired c; Ret (snd r)
  end.

Fixpoint cache_run (ops : list CacheOp) (c : GossipCache) : outcome GossipCache :=
  match ops with
  | [] => Ret c
  | op :: ops => c <-! cache_step op c; cache_run ops c
  end.

Lemma cache_step_inv op c : cache_inv c -> exists c', cache_step op c = Ret c' /\ cache_inv c'.
Proof.
  intros Hc. destruct op as [timeout topic data|topic|expired]; cbn.
  - by apply insert_inv.
  - destruct (retrieve_inv topic c Hc) as (r & c' & -> & Hc' & _). eauto.
  - destruct (poll_inv expired c Hc) as (r & c' & -> & Hc'). eauto.
Qed.

Lemma cache_run_inv ops c : cache_inv c -> exists c', cache_run ops c = Ret c' /\ cache_inv c'.
Proof.
  revert c. induction ops as [|op ops IH]; intros c Hc; cbn; [eauto|].
  destruct (cache_step_inv op c Hc) as (c' & -> & Hc'). auto.
Qed.

(** Whatever timeouts are chosen, every history of insertions, retrievals and
    expirations runs without a panic, and afterwards a topic's retrieval gives each of
    its messages once and exactly those whose key is in the delay queue. *)
Theorem gossip_cache_consistent b ops topic :
  exists c, cache_run ops (build b) = Ret c /\
  exists r c', retrieve topic c = Ret (r, c') /\ topic_msgs c' = delete topic (topic_msgs c) /\
    match r with
    | Some l => l <> [] /\ NoDup l /\ forall data, data ∈ l <->
        exists key, dq_entries (expirations c) !! key = Some (topic, data)
    | None => forall key data, dq_entries (expirations c) !! key <> Some (topic, data)
    end.
Proof.
  destruct (cache_run_inv ops (build b) (build_inv b)) as (c & -> & Hc). exists c. split; [done|].
  destruct (retrieve_inv topic c Hc) as (r & c' & Hr & _ & Hd & Hspec). exists r, c'. split_and!; [done..|].
  destruct Hc as [Hi Hn]. destruct r as [l|].
  - destruct Hspec as [Hnd Hl]. split_and!; [|done|].
    + intros ->. unfold retrieve in Hr. destruct (topic_msgs c !! topic) as [msgs|] eqn:Ht; [|done].
      apply Hn in Ht as Hne. apply map_choose in Hne as (data & key & Hk).
      assert (data ∈ []) by (apply Hl; unfold key_of; rewrite Ht; eauto). set_solver.
    + intros data. rewrite Hl. setoid_rewrite Hi. done.
  - intros key data Hk. apply Hi in Hk. unfold key_of in Hk. by rewrite Hspec in Hk.
Qed.

(** The operations of the program. *)
Definition program_op (op : CacheOp) : Prop :=
  match op with CacheInsert timeout _ _ => timeout = None | _ => True end.

(** The program's cache never holds a message: after any history of its own
    operations, which insert without a timeout, it is as built, whatever
    default timeout the builder was given. *)
Theorem gossip_cache_inert b ops topic : Forall program_op ops ->
  cache_run ops (build b) = Ret (build b) /\ retrieve topic (build b) = Ret (None, build b).
Proof.
  intros Hops. split; [|done]. induction Hops as [|op ops Hop _ IH]; cbn [cache_run]; [done|].
  replace (cache_step op (build b)) with (Ret (build b)); [done|].
  destruct op as [timeout t data|t|[key|e| |]]; cbn in *; try done; [by subst|].
  pose proof (dq_expire_spec key dq_new) as Hx. rewrite dq_new_entries in Hx.
  destruct (dq_expire key dq_new) as [[[t data] q]|]; [|done]. destruct Hx as [Hx _]. by rewrite lookup_empty in Hx.
Qed.
End cache.

Lemma gossip_cache_inert_witness :
  let q := demo_delay_queue (GossipTopic * bytes) in
  let it := canonical_map_iter bytes Z in
  let b := default_timeout GossipCache_builder (from_secs 10) in
  let ops := [CacheInsert None demo_topic [x01]; CacheRetrieve demo_topic; CachePoll ExpiredPending] in
  @cache_run _ it ops (@build q b) = Ret (@build q b) /\
  @retrieve q it demo_topic (@build q b) = Ret (None, @build q b).
Proof.
  intros q it b ops. apply (@gossip_cache_inert q it b ops demo_topic). by repeat constructor.
Defined.

(** With a timeout, a message is kept and retrieved once. *)
Example demo_cache_kept :
  let q := demo_delay_queue (GossipTopic * bytes) in
  let it := canonical_map_iter bytes Z in
  let b := GossipCache_builder in
  match @cache_run q it [CacheInsert (Some 5) demo_topic [x01]; CacheInsert (Some 5) demo_topic [x02];
    CacheInsert (Some 5) demo_topic [x01]; CachePoll (ExpiredKey 0)] (@build q b) with
  | Ret c => match @retrieve q it demo_topic c with Ret (r, _) => r | Panic _ => None end
  | Panic _ => None
  end = Some [[x02]].
Proof. vm_compute. reflexivity. Qed.
