(* ===== verification/Handler.v ===== *)
(** * The RPC connection handler

    Models [src/rpc/handler.rs]: the state of [RPCHandler], its shutdown state
    machine, inbound and outbound substreams, and every entry point ([poll],
    [on_behaviour_event], [on_connection_event], [connection_keep_alive]).
    What the substreams, the sleep and the delay queues report when they are
    polled is the argument [PollEnv] of [poll]; wakers and logs are left out.
    Futures that send a response are kept as the call of
    [send_message_to_inbound_substream] they run; what they send goes through
    the encoder of the substream's codec, which may fail or panic. *)

From S2P Require Import Prelude RustStr External RpcTypes Wire Codec DelayQueue.

Definition IO_ERROR_RETRIES : Z := 3.
Definition SHUTDOWN_TIMEOUT_SECS : Z := 15.
Definition MAX_INBOUND_SUBSTREAMS : Z := 32.

(** [Framed<_, InboundCodec>]: a substream with the codec it writes with. *)
Class Framed (Substream : Type) := { framed_codec : Substream -> InboundCodec }.

Section handler.
Context `{External} `{DelayQueue Z}.
Context `{Varint} `{Snappy} `{!SszTypes}.
(** Request ids of the application, and framed substreams. *)
Context {Id Substream : Type} `{!Framed Substream}.

Inductive HandlerState : Type :=
| Active
| ShuttingDown (deadline : Instant)
| Deactivated.

(** [Busy] holds the arguments of the sending future. *)
Inductive InboundState : Type :=
| Idle (substream : Substream)
| Busy (substream : Substream) (message : RPCCodedResponse) (last_chunk : bool)
| InPoisoned.

Record InboundInfo : Type := mkInboundInfo {
  in_state : InboundState;
  pending_items : list RPCCodedResponse;
  in_protocol : Protocol;
  in_remaining_chunks : Z;
  in_delay_key : option Z;
}.

Inductive OutboundSubstreamState : Type :=
| RequestPendingResponse (substream : Substream) (request : OutboundRequest)
| Closing (substream : Substream)
| OutPoisoned.

Record OutboundInfo : Type := mkOutboundInfo {
  out_state : OutboundSubstreamState;
  out_delay_key : Z;
  out_proto : Protocol;
  out_remaining_chunks : option Z;
  out_req_id : Id;
}.

Record RPCHandler : Type := mkRPCHandler {
  listen_protocol : RPCProtocol;
  events_out : list (HandlerEvent Id);
  dial_queue : list (Id * OutboundRequest);
  dial_negotiated : Z;
  inbound_substreams : gmap Z InboundInfo;
  inbound_substreams_delay : Queue;
  outbound_substreams : gmap Z OutboundInfo;
  outbound_substreams_delay : Queue;
  current_inbound_substream_id : Z;
  current_outbound_substream_id : Z;
  max_dial_negotiated : Z;
  state : HandlerState;
  outbound_io_error_retries : Z;
  resp_timeout : Duration;
}.

Definition RPCHandler_new (listen : RPCProtocol) (timeout : Duration) : RPCHandler := {|
  listen_protocol := listen;
  events_out := [];
  dial_queue := [];
  dial_negotiated := 0;
  inbound_substreams := ∅;
  inbound_substreams_delay := dq_new;
  outbound_substreams := ∅;
  outbound_substreams_delay := dq_new;
  current_inbound_substream_id := 0;
  current_outbound_substream_id := 0;
  max_dial_negotiated := 8;
  state := Active;
  outbound_io_error_retries := 0;
  resp_timeout := timeout;
|}.

(** Field updates. *)
Definition push_events (evs : list (HandlerEvent Id)) (h : RPCHandler) : RPCHandler :=
  let 'mkRPCHandler lp e dq dn i id o od ci co mx s r t := h in
  mkRPCHandler lp (e ++ evs) dq dn i id o od ci co mx s r t.
Definition set_events_out (evs : list (HandlerEvent Id)) (h : RPCHandler) : RPCHandler :=
  let 'mkRPCHandler lp e dq dn i id o od ci co mx s r t := h in
  mkRPCHandler lp evs dq dn i id o od ci co mx s r t.
Definition set_dial (q : list (Id * OutboundRequest)) (n : Z) (h : RPCHandler) : RPCHandler :=
  let 'mkRPCHandler lp e dq dn i id o od ci co mx s r t := h in
  mkRPCHandler lp e q n i id o od ci co mx s r t.
Definition set_inbound (m : gmap Z InboundInfo) (q : Queue) (h : RPCHandler) : RPCHandler :=
  let 'mkRPCHandler lp e dq dn i id o od ci co mx s r t := h in
  mkRPCHandler lp e dq dn m q o od ci co mx s r t.
Definition set_outbound (m : gmap Z OutboundInfo) (q : Queue) (h : RPCHandler) : RPCHandler :=
  let 'mkRPCHandler lp e dq dn i id o od ci co mx s r t := h in
  mkRPCHandler lp e dq dn i id m q ci co mx s r t.
Definition set_current_inbound (n : Z) (h : RPCHandler) : RPCHandler :=
  let 'mkRPCHandler lp e dq dn i id o od ci co mx s r t := h in
  mkRPCHandler lp e dq dn i id o od n co mx s r t.
Definition set_current_outbound (n : Z) (h : RPCHandler) : RPCHandler :=
  let 'mkRPCHandler lp e dq dn i id o od ci co mx s r t := h in
  mkRPCHandler lp e dq dn i id o od ci n mx s r t.
Definition set_state (s' : HandlerState) (h : RPCHandler) : RPCHandler :=
  let 'mkRPCHandler lp e dq dn i id o od ci co mx s r t := h in
  mkRPCHandler lp e dq dn i id o od ci co mx s' r t.
Definition set_retries (n : Z) (h : RPCHandler) : RPCHandler :=
  let 'mkRPCHandler lp e dq dn i id o od ci co mx s r t := h in
  mkRPCHandler lp e dq dn i id o od ci co mx s n t.

Definition in_set_state (s : InboundState) (i : InboundInfo) : InboundInfo :=
  mkInboundInfo s (pending_items i) (in_protocol i) (in_remaining_chunks i) (in_delay_key i).
Definition in_set_pending (p : list RPCCodedResponse) (i : InboundInfo) : InboundInfo :=
  mkInboundInfo (in_state i) p (in_protocol i) (in_remaining_chunks i) (in_delay_key i).
Definition out_set_state (s : OutboundSubstreamState) (i : OutboundInfo) : OutboundInfo :=
  mkOutboundInfo s (out_delay_key i) (out_proto i) (out_remaining_chunks i) (out_req_id i).

(** The protocol of an outbound request. *)
Definition request_protocol (r : OutboundRequest) : Protocol :=
  SupportedProtocol_protocol (Outbound_versioned_protocol r).
Definition inbound_protocol (r : InboundRequest) : Protocol :=
  SupportedProtocol_protocol (Inbound_versioned_protocol r).

Definition outbound_err (error : RPCError) (e : Id * OutboundRequest) : HandlerEvent Id :=
  Err (ErrOutbound e.1 (request_protocol e.2) error).

(** [shutdown]: the queue is emptied with [pop], from its end. *)
Definition handler_shutdown (now : Instant) (goodbye_reason : option (Id * GoodbyeReason))
    (h : RPCHandler) : RPCHandler :=
  match state h with
  | Active =>
      let h1 := push_events (map (outbound_err Disconnected_) (rev (dial_queue h))) h in
      let queue := match goodbye_reason with
        | Some (id, reason) => [(id, OutGoodbye reason)]
        | None => []
        end in
      let h2 := set_dial queue (dial_negotiated h1) h1 in
      set_state (ShuttingDown (now + from_secs SHUTDOWN_TIMEOUT_SECS)) h2
  | _ => h
  end.

Definition handler_send_request (id : Id) (req : OutboundRequest) (h : RPCHandler) : RPCHandler :=
  match state h with
  | Active => set_dial (dial_queue h ++ [(id, req)]) (dial_negotiated h) h
  | _ => push_events [outbound_err Disconnected_ (id, req)] h
  end.

Definition handler_send_response (inbound_id : Z) (response : RPCCodedResponse) (h : RPCHandler)
  : RPCHandler :=
  match inbound_substreams h !! inbound_id with
  | None => h
  | Some info =>
      let h1 := match response with
        | CodedError code reason =>
            push_events [Err (ErrInbound inbound_id (in_protocol info)
              (ErrorResponse code (ErrorType_to_string reason)))] h
        | _ => h
        end in
      match state h1 with
      | Deactivated => h1
      | _ => set_inbound (<[inbound_id := in_set_pending (pending_items info ++ [response]) info]>
               (inbound_substreams h1)) (inbound_substreams_delay h1) h1
      end
  end.

Definition on_behaviour_event (now : Instant) (rpc_event : RPCSend Id) (h : RPCHandler)
  : RPCHandler :=
  match rpc_event with
  | SendRequest id req => handler_send_request id req h
  | SendResponse inbound_id response => handler_send_response inbound_id response h
  | SendShutdown id reason => handler_shutdown now (Some (id, reason)) h
  end.

(** Nothing is left to do: the test of [connection_keep_alive] and of the end
    of [poll]. *)
Definition drained (h : RPCHandler) : bool :=
  bool_decide (dial_queue h = []) && bool_decide (outbound_substreams h = ∅)
  && bool_decide (inbound_substreams h = ∅) && bool_decide (events_out h = [])
  && (dial_negotiated h =? 0).

(** [true] is [KeepAlive::Yes]. *)
Definition connection_keep_alive (h : RPCHandler) : bool :=
  let should_shutdown := match state h with
    | ShuttingDown _ => drained h
    | Deactivated => true
    | _ => false
    end in
  negb should_shutdown.

(** What the sink of an inbound substream reports while a message is sent:
    whether it is ready for an item, the flush of the item, and the close. *)
Record SendReport : Type := mkSendReport {
  report_ready : result unit RPCError;
  report_flush : result unit RPCError;
  report_close : result unit RPCError;
}.

(** [start_send]: the encoder of the codec, into the write buffer. *)
Definition encode_message (substream : Substream) (message : RPCCodedResponse)
  : outcome (result unit RPCError) :=
  r <-! InboundCodec_encode (framed_codec substream) message [] ;
  Ret (result_map (fun _ => tt) r).

(** [substream.send(message)]: the sink is ready, encodes the message and
    flushes it. *)
Definition send_item (substream : Substream) (message : RPCCodedResponse) (report : SendReport)
  : outcome (result unit RPCError) :=
  match report_ready report with
  | Err e => Ret (Err e)
  | Ok _ =>
      encoded <-! encode_message substream message ;
      Ret match encoded with
          | Err e => Err e
          | Ok _ => report_flush report
          end
  end.

(** [send_message_to_inbound_substream]: whether the substream was closed. *)
Definition send_message_to_inbound_substream (substream : Substream) (message : RPCCodedResponse)
    (last_chunk : bool) (report : SendReport) : outcome (result bool RPCError) :=
  match message with
  | StreamTermination _ => Ret (result_map (fun _ => true) (report_close report))
  | _ =>
      let is_error := match message with CodedError _ _ => true | _ => false end in
      send_result <-! send_item substream message report ;
      Ret (if last_chunk || is_error || negb (is_ok send_result) then
             match send_result with
             | Err e => Err e
             | Ok _ => result_map (fun _ => true) (report_close report)
             end
           else result_map (fun _ => false) send_result)
  end.

(** What is left of a sending future that is not completed: if its sink has
    been ready, the message has been encoded. A stream termination is never
    encoded. *)
Definition start_message (substream : Substream) (message : RPCCodedResponse) (ready : bool)
  : outcome unit :=
  match message with
  | StreamTermination _ => Ret tt
  | _ => if ready then _ <-! encode_message substream message ; Ret tt else Ret tt
  end.

(** ** Polling *)

(** What the environment reports during one call of [poll]. *)
Record PollEnv : Type := mkPollEnv {
  env_now : Instant;
  (** Keys of the delay queues that expire, in order, or a timer error. *)
  env_in_expired : list (result Z unit);
  env_out_expired : list (result Z unit);
  (** Per inbound substream: what the sink reports to each future that
      completes during the call; the next one is pending, and its sink has
      been ready for the message or not. *)
  env_in_sends : Z -> list SendReport;
  env_in_ready : Z -> bool;
  env_in_close : Z -> poll (result unit RPCError);
  env_out_next : Z -> poll (option (result RPCCodedResponse RPCError));
  env_out_close : Z -> bool;
}.

Inductive ConnectionHandlerEvent : Type :=
| NotifyBehaviour (e : HandlerEvent Id)
| CloseConnection (e : RPCError)
| OutboundSubstreamRequest (req : OutboundRequest) (max_rpc_size : Z) (info : Id * OutboundRequest).

(** The first loop of [poll]: expired inbound substreams. *)
Fixpoint purge_inbound (expired : list (result Z unit)) (h : RPCHandler)
  : option ConnectionHandlerEvent * RPCHandler :=
  match expired with
  | [] => (None, h)
  | Err _ :: _ =>
      (Some (CloseConnection (InternalError "Could not poll inbound stream timer")), h)
  | Ok key :: expired' =>
      match dq_expire key (inbound_substreams_delay h) with
      | None => purge_inbound expired' h
      | Some (inbound_id, queue) =>
          let h1 := set_inbound (inbound_substreams h) queue h in
          match inbound_substreams h1 !! inbound_id with
          | Some info =>
              let pending :=
                if bool_decide (close_after <$> last (pending_items info) = Some false)
                then pending_items info ++
                  [CodedError ServerError (ErrorType_from "Request timed out")]
                else pending_items info in
              let info1 := mkInboundInfo (in_state info) pending (in_protocol info)
                (in_remaining_chunks info) None in
              purge_inbound expired'
                (push_events [Err (ErrInbound inbound_id (in_protocol info) StreamTimeout)]
                  (set_inbound (<[inbound_id := info1]> (inbound_substreams h1)) queue h1))
          | None => purge_inbound expired' h1
          end
      end
  end.

(** The second loop: an expired outbound substream is reported at once. *)
Fixpoint purge_outbound (expired : list (result Z unit)) (h : RPCHandler)
  : option ConnectionHandlerEvent * RPCHandler :=
  match expired with
  | [] => (None, h)
  | Err _ :: _ =>
      (Some (CloseConnection (InternalError "Could not poll outbound stream timer")), h)
  | Ok key :: expired' =>
      match dq_expire key (outbound_substreams_delay h) with
      | None => purge_outbound expired' h
      | Some (outbound_id, queue) =>
          match outbound_substreams h !! outbound_id with
          | Some info =>
              (Some (NotifyBehaviour
                 (Err (ErrOutbound (out_req_id info) (out_proto info) StreamTimeout))),
               set_outbound (delete outbound_id (outbound_substreams h)) queue h)
          | None => purge_outbound expired' (set_outbound (outbound_substreams h) queue h)
          end
      end
  end.

(** [delay_queue.remove(key)] and [reset] under [if let Some(key)]. *)
Definition remove_delay (key : option Z) (q : Queue) : outcome Queue :=
  match key with Some k => dq_remove k q | None => Ret q end.
Definition reset_delay (timeout : Duration) (key : option Z) (q : Queue) : outcome Queue :=
  match key with Some k => dq_reset k timeout q | None => Ret q end.

(** What driving one inbound substream produces: its new record, the delay
    queue, the events it reports and whether it is to be removed. *)
Definition drive_result : Type := InboundInfo * Queue * list (HandlerEvent Id) * bool.

(** The inner loop on a substream whose future is polled. A future runs the
    encoder once; as the encoder is a function of the codec and the message,
    the call that completes the future evaluates it again. *)
Fixpoint drive_busy (deactivated : bool) (timeout : Duration) (id : Z)
    (sends : list SendReport) (ready : bool)
    (substream : Substream) (message : RPCCodedResponse) (last_chunk : bool)
    (info : InboundInfo) (q : Queue) : outcome drive_result :=
  match sends with
  | [] =>
      _ <-! start_message substream message ready ;
      Ret (in_set_state (Busy substream message last_chunk) info, q, [], false)
  | report :: sends' =>
      sent <-! send_message_to_inbound_substream substream message last_chunk report ;
      match sent with
      | Ok false =>
          let info1 := mkInboundInfo InPoisoned (pending_items info) (in_protocol info)
            (saturating_sub (in_remaining_chunks info) 1) (in_delay_key info) in
          q1 <-! reset_delay timeout (in_delay_key info1) q ;
          match (if deactivated then [] else pending_items info1) with
          | message' :: pending' =>
              drive_busy deactivated timeout id sends' ready substream message'
                (in_remaining_chunks info1 <=? 1) (in_set_pending pending' info1) q1
          | [] => Ret (in_set_state (Idle substream) info1, q1, [], false)
          end
      | Ok true =>
          q1 <-! remove_delay (in_delay_key info) q ;
          Ret (in_set_state InPoisoned info, q1, [], true)
      | Err error =>
          q1 <-! remove_delay (in_delay_key info) q ;
          Ret (in_set_state InPoisoned info, q1,
               [Err (ErrInbound id (in_protocol info) error)], true)
      end
  end.

(** The inner [loop] on one inbound substream. *)
Definition drive_inbound1 (env : PollEnv) (deactivated : bool) (timeout : Duration) (id : Z)
    (info : InboundInfo) (q : Queue) : outcome drive_result :=
  match in_state info with
  | Idle substream =>
      if negb deactivated then
        match pending_items info with
        | message :: pending' =>
            drive_busy deactivated timeout id (env_in_sends env id) (env_in_ready env id) substream message
              (in_remaining_chunks info <=? 1) (in_set_pending pending' info) q
        | [] => Ret (info, q, [], false)
        end
      else
        match env_in_close env id with
        | Pending => Ret (info, q, [], false)
        | Ready res =>
            q1 <-! remove_delay (in_delay_key info) q ;
            Ret (in_set_state InPoisoned info, q1,
              match res with
              | Err error => [Err (ErrInbound id (in_protocol info) error)]
              | Ok _ => []
              end ++
              (if bool_decide (close_after <$> last (pending_items info) = Some false)
               then [Err (ErrInbound id (in_protocol info) Disconnected_)] else []),
              true)
        end
  | Busy substream message last_chunk =>
      drive_busy deactivated timeout id (env_in_sends env id) (env_in_ready env id) substream
        message last_chunk info q
  | InPoisoned => Panic "Poisoned inbound substream"
  end.

(** The [for] loop over the inbound substreams; closed ones are collected. *)
Fixpoint drive_inbound (env : PollEnv) (deactivated : bool) (entries : list (Z * InboundInfo))
    (h : RPCHandler) : outcome (list Z * RPCHandler) :=
  match entries with
  | [] => Ret ([], h)
  | (id, info) :: entries' =>
      r <-! drive_inbound1 env deactivated (resp_timeout h) id info (inbound_substreams_delay h) ;
      let '(info', q, evs, removed) := r in
      let h1 := push_events evs (set_inbound (<[id := info']> (inbound_substreams h)) q h) in
      r2 <-! drive_inbound env deactivated entries' h1 ;
      let '(to_remove, h2) := r2 in
      Ret ((if removed then [id] else []) ++ to_remove, h2)
  end.

Definition remove_inbound (ids : list Z) (h : RPCHandler) : RPCHandler :=
  set_inbound (foldl (fun m id => delete id m) (inbound_substreams h) ids)
    (inbound_substreams_delay h) h.
(** One outbound substream: an event to return at once, if any. *)
Definition drive_outbound1 (env : PollEnv) (deactivated : bool) (outbound_id : Z) (h : RPCHandler)
  : outcome (option ConnectionHandlerEvent * RPCHandler) :=
  match outbound_substreams h !! outbound_id with
  | None => Panic "unreachable"
  | Some info =>
      let update s :=
        set_outbound (<[outbound_id := out_set_state s info]> (outbound_substreams h))
          (outbound_substreams_delay h) h in
      match out_state info with
      | RequestPendingResponse substream request =>
          if deactivated then
            Ret (None, push_events
              [Err (ErrOutbound (out_req_id info) (out_proto info) Disconnected_)]
              (update (Closing substream)))
          else
            match env_out_next env outbound_id with
            | Ready (Some (Ok response)) =>
                h1 <-! (if (1 <? Outbound_expected_responses request) && negb (close_after response)
                  then
                    let remaining_chunks :=
                      default 0 ((fun count => saturating_sub count 1) <$> out_remaining_chunks info) in
                    if remaining_chunks =? 0 then Ret (update (Closing substream))
                    else
                      let info1 := mkOutboundInfo (RequestPendingResponse substream request)
                        (out_delay_key info) (out_proto info) (Some remaining_chunks)
                        (out_req_id info) in
                      q <-! dq_reset (out_delay_key info) (resp_timeout h)
                              (outbound_substreams_delay h) ;
                      Ret (set_outbound (<[outbound_id := info1]> (outbound_substreams h)) q h)
                  else Ret (update (Closing substream))) ;
                let received := match response with
                  | StreamTermination t => Ok (EndOfStream (out_req_id info) t)
                  | Success resp => Ok (RecvResponse (out_req_id info) resp)
                  | CodedError code r => Err (ErrOutbound (out_req_id info) (out_proto info)
                      (ErrorResponse code (ErrorType_to_string r)))
                  end in
                Ret (Some (NotifyBehaviour received), h1)
            | Ready None =>
                q <-! dq_remove (out_delay_key info) (outbound_substreams_delay h) ;
                let h1 := set_outbound (delete outbound_id (outbound_substreams h)) q h in
                if 1 <? Outbound_expected_responses request then
                  t <-! Outbound_stream_termination request ;
                  Ret (Some (NotifyBehaviour (Ok (EndOfStream (out_req_id info) t))), h1)
                else
                  Ret (Some (NotifyBehaviour (Err (ErrOutbound (out_req_id info)
                    (request_protocol request) IncompleteStream))), h1)
            | Pending => Ret (None, update (RequestPendingResponse substream request))
            | Ready (Some (Err e)) =>
                q <-! dq_remove (out_delay_key info) (outbound_substreams_delay h) ;
                Ret (Some (NotifyBehaviour (Err (ErrOutbound (out_req_id info) (out_proto info) e))),
                     set_outbound (delete outbound_id (outbound_substreams h)) q h)
            end
      | Closing substream =>
          if env_out_close env outbound_id then
            q <-! dq_remove (out_delay_key info) (outbound_substreams_delay h) ;
            Ret (None, set_outbound (delete outbound_id (outbound_substreams h)) q h)
          else Ret (None, update (Closing substream))
      | OutPoisoned => Panic "Coding Error: Outbound substream is poisoned"
      end
  end.

(** The [for] loop over the outbound substreams. *)
Fixpoint drive_outbound (env : PollEnv) (deactivated : bool) (ids : list Z) (h : RPCHandler)
  : outcome (option ConnectionHandlerEvent * RPCHandler) :=
  match ids with
  | [] => Ret (None, h)
  | id :: ids' =>
      r <-! drive_outbound1 env deactivated id h ;
      match r with
      | (Some e, h1) => Ret (Some e, h1)
      | (None, h1) => drive_outbound env deactivated ids' h1
      end
  end.

(** The end of [poll]: open a queued outbound substream, or finish a
    shutdown. *)
Definition dial_or_close (h : RPCHandler) : poll ConnectionHandlerEvent * RPCHandler :=
  match dial_queue h with
  | (id, req) :: dial_queue' =>
      if dial_negotiated h <? max_dial_negotiated h then
        (Ready (OutboundSubstreamRequest req (rpc_max_rpc_size (listen_protocol h)) (id, req)),
         set_dial dial_queue' (wrap u32 (dial_negotiated h + 1)) h)
      else (Pending, h)
  | [] =>
      match state h with
      | ShuttingDown _ => if drained h then (Ready (CloseConnection Disconnected_), h)
                          else (Pending, h)
      | _ => (Pending, h)
      end
  end.

(** The part of [poll] after the purging loops. *)
Definition poll_streams `{!MapIter Z InboundInfo} `{!MapIter Z OutboundInfo} (env : PollEnv)
    (h : RPCHandler) : outcome (poll ConnectionHandlerEvent * RPCHandler) :=
  let deactivated := match state h with Deactivated => true | _ => false end in
  r <-! drive_inbound env deactivated (map_iter (inbound_substreams h)) h ;
  let '(substreams_to_remove, h1) := r in
  let h2 := remove_inbound substreams_to_remove h1 in
  r2 <-! drive_outbound env deactivated (map fst (map_iter (outbound_substreams h2))) h2 ;
  match r2 with
  | (Some e, h3) => Ret (Ready e, h3)
  | (None, h3) => Ret (dial_or_close h3)
  end.

Definition handler_poll `{!MapIter Z InboundInfo} `{!MapIter Z OutboundInfo} (env : PollEnv)
    (h : RPCHandler) : outcome (poll ConnectionHandlerEvent * RPCHandler) :=
  match events_out h with
  | e :: events' => Ret (Ready (NotifyBehaviour e), set_events_out events' h)
  | [] =>
      let timed_out := match state h with
        | ShuttingDown deadline => deadline <=? env_now env
        | _ => false
        end in
      if timed_out then Ret (Ready (CloseConnection Disconnected_), set_state Deactivated h)
      else
        match purge_inbound (env_in_expired env) h with
        | (Some e, h1) => Ret (Ready e, h1)
        | (None, h1) =>
            match purge_outbound (env_out_expired env) h1 with
            | (Some e, h2) => Ret (Ready e, h2)
            | (None, h2) => poll_streams env h2
            end
        end
  end.

(** ** Connection events *)

(** The end of [on_fully_negotiated_inbound]: shut down on a goodbye and
    report the request. *)
Definition report_inbound (now : Instant) (req : InboundRequest) (h : RPCHandler) : RPCHandler :=
  let h1 := match req with InGoodbye _ => handler_shutdown now None h | _ => h end in
  set_current_inbound (wrap usize (current_inbound_substream_id h1 + 1))
    (push_events [Ok (RecvRequest (current_inbound_substream_id h1) req)] h1).

Definition on_fully_negotiated_inbound (now : Instant) (req : InboundRequest)
    (substream : Substream) (h : RPCHandler) : RPCHandler :=
  match state h with
  | Active =>
      let expected_responses := Inbound_expected_responses req in
      let id := current_inbound_substream_id h in
      if 0 <? expected_responses then
        if Z.of_nat (size (inbound_substreams h)) <? MAX_INBOUND_SUBSTREAMS then
          let '(delay_key, queue) :=
            dq_insert id (resp_timeout h) (inbound_substreams_delay h) in
          let info := mkInboundInfo (Idle substream) [] (inbound_protocol req)
            expected_responses (Some delay_key) in
          report_inbound now req (set_inbound (<[id := info]> (inbound_substreams h)) queue h)
        else
          handler_shutdown now None
            (push_events [Err (ErrInbound id (inbound_protocol req) HandlerRejected)] h)
      else report_inbound now req h
  | _ => h
  end.

Definition on_fully_negotiated_outbound (substream : Substream) (info : Id * OutboundRequest)
    (h : RPCHandler) : RPCHandler :=
  let '(id, request) := info in
  let h1 := set_retries 0 (set_dial (dial_queue h) (wrap u32 (dial_negotiated h - 1)) h) in
  let proto := request_protocol request in
  let h2 := match state h1 with
    | Deactivated => push_events [Err (ErrOutbound id proto Disconnected_)] h1
    | _ => h1
    end in
  let expected_responses := Outbound_expected_responses request in
  if 0 <? expected_responses then
    let sid := current_outbound_substream_id h2 in
    let '(delay_key, queue) := dq_insert sid (resp_timeout h2) (outbound_substreams_delay h2) in
    let chunks := if 1 <? expected_responses then Some expected_responses else None in
    let o := mkOutboundInfo (RequestPendingResponse substream request) delay_key proto chunks id in
    set_current_outbound (wrap usize (sid + 1))
      (set_outbound (<[sid := o]> (outbound_substreams h2)) queue h2)
  else h2.

(** [StreamUpgradeError<RPCError>] of [libp2p]. *)
Inductive StreamUpgradeError : Type :=
| UpgradeTimeout
| UpgradeApply (e : RPCError)
| NegotiationFailed
| UpgradeIo (e : string).

Definition on_dial_upgrade_error (request_info : Id * OutboundRequest) (error : StreamUpgradeError)
    (h : RPCHandler) : RPCHandler :=
  let '(id, req) := request_info in
  let fail error h :=
    push_events [Err (ErrOutbound id (request_protocol req) error)]
      (set_retries 0 (set_dial (dial_queue h) (wrap u32 (dial_negotiated h - 1)) h)) in
  let retry error :=
    let h1 := set_retries (wrap u8 (outbound_io_error_retries h + 1)) h in
    if outbound_io_error_retries h1 <? IO_ERROR_RETRIES then handler_send_request id req h1
    else fail error h1 in
  match error with
  | UpgradeTimeout => fail NegotiationTimeout h
  | UpgradeApply (IoError e) => retry (IoError e)
  | NegotiationFailed => fail UnsupportedProtocol h
  | UpgradeIo e => retry (IoError e)
  | UpgradeApply other => fail other h
  end.

Inductive ConnectionEvent : Type :=
| FullyNegotiatedInbound (req : InboundRequest) (substream : Substream)
| FullyNegotiatedOutbound (substream : Substream) (info : Id * OutboundRequest)
| DialUpgradeError (info : Id * OutboundRequest) (error : StreamUpgradeError)
| ListenUpgradeError
| LocalProtocolsChange
| RemoteProtocolsChange
| AddressChange.

Definition on_connection_event (now : Instant) (event : ConnectionEvent) (h : RPCHandler)
  : RPCHandler :=
  match event with
  | FullyNegotiatedInbound req substream => on_fully_negotiated_inbound now req substream h
  | FullyNegotiatedOutbound substream info => on_fully_negotiated_outbound substream info h
  | DialUpgradeError info error => on_dial_upgrade_error info error h
  | ListenUpgradeError => h
  | LocalProtocolsChange => h
  | RemoteProtocolsChange => h
  | AddressChange => h
  end.
End handler.

Arguments InboundState : clear implicits.
Arguments InboundInfo : clear implicits.
Arguments OutboundSubstreamState : clear implicits.
Arguments OutboundInfo : clear implicits.
Arguments RPCHandler {_ _} Id Substream.
Arguments ConnectionHandlerEvent {_} Id.
Arguments ConnectionEvent {_} Id Substream.
Arguments drive_result {_ _} Id Substream.
