(* ===== verification/HandlerInv.v ===== *)
(** * Correctness of the RPC connection handler

    The invariant of a handler, the effect of each of its operations, and
    the step relation of a connection: the handler together with what its
    environment remembers. The theorems hold in every reachable state of a
    connection. Polling is panic-free as long as metadata are sent only in
    answer to a request for metadata: the encoder is [unreachable!] otherwise. *)

From S2P Require Import Prelude RustStr External RpcTypes Wire Codec DelayQueue Handler.

Section handler.
Context `{External} `{DelayQueue Z}.
Context `{Varint} `{Snappy} `{!SszTypes}.
Context {Id Substream : Type} `{!Framed Substream}.
Abbreviation RPCHandler := (RPCHandler Id Substream).
Abbreviation InboundInfo := (InboundInfo Substream).
Abbreviation OutboundInfo := (OutboundInfo Id Substream).
Abbreviation OutboundSubstreamState := (OutboundSubstreamState Substream).
Abbreviation ConnectionHandlerEvent := (ConnectionHandlerEvent Id).
Abbreviation drive_result := (drive_result Id Substream).
Implicit Types (h : RPCHandler) (st : Substream).

(** ** Invariant

    No substream is left poisoned, the delay keys in use are keys of their delay
    queue with the substream's id under them, and the number of inbound
    substreams is bounded.

    The proposition [asked] stands for what the code relies on elsewhere: that
    the behaviour sends metadata only where metadata were asked for. Where it
    holds, the messages of a substream can be encoded by its codec. *)
Variable asked : Prop.

(** The protocol the codec of a substream was created for. *)
Definition codec_protocol (st : Substream) : SupportedProtocol :=
  match framed_codec st with
  | InboundSSZSnappy codec => versioned_protocol (Codec.in_protocol (bi_inner codec))
  end.

(** Metadata are an answer on the metadata protocol only. *)
Definition kind_fits (protocol : Protocol) (message : RPCCodedResponse) : bool :=
  match message with
  | Success (RMetaData _) => bool_decide (protocol = MetaDataProtocol)
  | _ => true
  end.

Definition messages_fit (protocol : Protocol) (st : Substream) (msgs : list RPCCodedResponse) : Prop :=
  SupportedProtocol_protocol (codec_protocol st) = protocol /\ Forall (kind_fits protocol) msgs.

Definition in_fits (info : InboundInfo) : Prop :=
  match in_state info with
  | Idle st => messages_fit (in_protocol info) st (pending_items info)
  | Busy st message _ => messages_fit (in_protocol info) st (message :: pending_items info)
  | InPoisoned => True
  end.

(** The code returns a value in [P]; it panics only if [asked] is violated. *)
Definition sound {A} (x : outcome A) (P : A -> Prop) : Prop :=
  match x with Ret a => P a | Panic _ => ~ asked end.

Lemma sound_impl {A} (x : outcome A) (P Q : A -> Prop) :
  sound x P -> (forall a, P a -> Q a) -> sound x Q.
Proof. destruct x; simpl; auto. Qed.

Lemma sound_bind {A B} (x : outcome A) (k : A -> outcome B) (P : A -> Prop) (Q : B -> Prop) :
  sound x P -> (forall a, P a -> sound (k a) Q) -> sound (a <-! x ; k a) Q.
Proof. destruct x; simpl; auto. Qed.

(** The encoder panics on metadata for another protocol and on a stream
    termination. *)
Lemma encode_message_sound st message protocol msgs :
  (asked -> messages_fit protocol st (message :: msgs)) ->
  (forall t, message <> StreamTermination t) ->
  sound (encode_message st message) (fun _ => True).
Proof.
  intros Hfit Hterm. unfold encode_message, messages_fit, codec_protocol in *.
  destruct (framed_codec st) as [[c]]. cbn in *.
  destruct message as [[]|code err|t]; cbn; try done; [|by destruct (Hterm t)].
  unfold Inbound_encode. cbn.
  destruct (versioned_protocol (Codec.in_protocol c)) eqn:Hp; cbn; try done;
    intros (<- & Hf)%Hfit; by apply Forall_cons in Hf as [Hf _].
Qed.

Lemma start_message_sound st message ready protocol msgs :
  (asked -> messages_fit protocol st (message :: msgs)) ->
  sound (start_message st message ready) (fun _ => True).
Proof.
  intros Hfit. unfold start_message. destruct message as [r|code err|t]; [| |done];
    (destruct ready; [|done]);
    (eapply sound_bind; [by eapply encode_message_sound|done]).
Qed.

Lemma send_message_sound st message last_chunk report protocol msgs :
  (asked -> messages_fit protocol st (message :: msgs)) ->
  sound (send_message_to_inbound_substream st message last_chunk report) (fun _ => True).
Proof.
  intros Hfit. unfold send_message_to_inbound_substream, send_item.
  destruct message as [r|code err|t]; [| |done];
    (eapply (sound_bind _ _ (fun _ => True)); [|done]);
    (destruct (report_ready report); [|done]);
    (eapply sound_bind; [by eapply encode_message_sound|done]).
Qed.

Definition key_ok (q : Queue) (id : Z) (key : option Z) : Prop :=
  forall k, key = Some k -> dq_entries q !! k = Some id.

Definition in_ok (q : Queue) (id : Z) (info : InboundInfo) : Prop :=
  in_state info <> InPoisoned /\ key_ok q id (in_delay_key info) /\ (asked -> in_fits info).

Definition out_ok (q : Queue) (id : Z) (info : OutboundInfo) : Prop :=
  out_state info <> OutPoisoned /\ dq_entries q !! out_delay_key info = Some id.

Definition handler_inv (h : RPCHandler) : Prop :=
  map_Forall (in_ok (inbound_substreams_delay h)) (inbound_substreams h) /\
  map_Forall (out_ok (outbound_substreams_delay h)) (outbound_substreams h) /\
  Z.of_nat (size (inbound_substreams h)) <= MAX_INBOUND_SUBSTREAMS.

(** The entries of other substreams survive a change of queue. *)
Definition keeps_others (id : Z) (q q' : Queue) : Prop :=
  forall k id', id' <> id -> dq_entries q !! k = Some id' -> dq_entries q' !! k = Some id'.

Lemma keeps_others_refl id q : keeps_others id q q.
Proof. by intros k id'. Qed.
Lemma keeps_others_trans id q1 q2 q3 :
  keeps_others id q1 q2 -> keeps_others id q2 q3 -> keeps_others id q1 q3.
Proof. unfold keeps_others. eauto. Qed.

Lemma keeps_others_delete id k q q' :
  dq_entries q !! k = Some id -> dq_entries q' = delete k (dq_entries q) -> keeps_others id q q'.
Proof.
  intros Hk He k' id' Hne Hk'. rewrite He. rewrite lookup_delete_ne; [done|].
  intros ->. congruence.
Qed.

Lemma keeps_others_insert id v d q : keeps_others id q (dq_insert v d q).2.
Proof.
  intros k id' Hne Hk. rewrite dq_insert_entries.
  rewrite lookup_insert_ne; [done|]. intros <-. by rewrite dq_insert_fresh in Hk.
Qed.

Lemma in_ok_keeps id id' q q' info :
  id' <> id -> keeps_others id q q' -> in_ok q id' info -> in_ok q' id' info.
Proof. intros Hne Hq (? & Hk & ?). split_and!; [done| |done]. intros k Hs. eapply Hq; eauto. Qed.

Lemma out_ok_keeps id id' q q' info :
  id' <> id -> keeps_others id q q' -> out_ok q id' info -> out_ok q' id' info.
Proof. intros Hne Hq [? Hk]. split; [done|]. eapply Hq; eauto. Qed.

Lemma remove_delay_spec id key q :
  key_ok q id key -> exists q', remove_delay key q = Ret q' /\ keeps_others id q q'.
Proof.
  intros Hk. destruct key as [k|]; simpl; [|by eauto using keeps_others_refl].
  specialize (Hk k eq_refl).
  destruct (dq_remove_some k q) as (q' & -> & He); [by eauto|].
  eauto using keeps_others_delete.
Qed.

Lemma reset_delay_spec timeout id key q :
  key_ok q id key ->
  exists q', reset_delay timeout key q = Ret q' /\ dq_entries q' = dq_entries q.
Proof.
  intros Hk. destruct key as [k|]; simpl; [|by eauto].
  specialize (Hk k eq_refl). apply dq_reset_some. by eauto.
Qed.

(** *** Inbound substreams *)

Definition drive_ok (id : Z) (q : Queue) (r : drive_result) : Prop :=
  let '(info', q', evs, removed) := r in
  keeps_others id q q' /\
  (removed = false -> in_ok q' id info') /\
  Forall (fun e => match e with Err (ErrInbound i _ _) => i = id | _ => False end) evs.

Lemma drive_busy_spec deactivated timeout id sends ready st msg last_chunk info q :
  key_ok q id (in_delay_key info) ->
  (asked -> messages_fit (in_protocol info) st (msg :: pending_items info)) ->
  sound (drive_busy deactivated timeout id sends ready st msg last_chunk info q) (drive_ok id q).
Proof.
  revert msg last_chunk info q.
  induction sends as [|report sends IH]; intros msg last_chunk info q Hk Hfit; cbn [drive_busy].
  { eapply sound_bind; [by eapply start_message_sound|]. intros _ _.
    split_and!; [apply keeps_others_refl|by intros _|constructor]. }
  eapply sound_bind; [by eapply send_message_sound|]. intros [[]|error] _; cbn zeta.
  - destruct (remove_delay_spec id (in_delay_key info) q Hk) as (q1 & -> & Hq). by split_and!.
  - destruct (reset_delay_spec timeout id (in_delay_key info) q Hk) as (q1 & Hr & Hq).
    cbn [in_delay_key pending_items]. rewrite Hr.
    assert (Hk1 : key_ok q1 id (in_delay_key info)) by (intros k Hs; rewrite Hq; by apply Hk).
    assert (Hq1 : keeps_others id q q1) by (intros k id' _; by rewrite Hq).
    assert (Hrest : asked -> messages_fit (in_protocol info) st (pending_items info)).
    { intros [Hp Hall]%Hfit. by apply Forall_cons in Hall as [_ Hall]. }
    destruct deactivated; [|destruct (pending_items info) as [|m ms] eqn:Hpend].
    1,2: split_and!; [done| |constructor]; intros _; split_and!; [done|done|];
      intros Ha; unfold in_fits; cbn; by rewrite ?Hpend; apply Hrest.
    eapply sound_impl; [apply IH; [exact Hk1|exact Hrest]|].
    intros [[[info' q'] evs] rem] (Hr1 & Hr2 & Hr3).
    split_and!; [by eapply keeps_others_trans|done|done].
  - destruct (remove_delay_spec id (in_delay_key info) q Hk) as (q1 & -> & Hq).
    split_and!; [done|done|by constructor].
Qed.

Lemma drive_inbound1_spec env deactivated timeout id info q :
  in_ok q id info ->
  sound (drive_inbound1 env deactivated timeout id info q) (drive_ok id q).
Proof.
  intros Hin. pose proof Hin as (Hst & Hk & Hfit). unfold drive_inbound1, in_fits in *.
  assert (Hsame : drive_ok id q (info, q, [], false))
    by (split_and!; [apply keeps_others_refl|by intros _|constructor]).
  destruct (in_state info) as [st|st msg lc|] eqn:Hs; [| |done].
  - destruct deactivated; simpl.
    + destruct (env_in_close env id) as [res|]; [|done].
      destruct (remove_delay_spec id (in_delay_key info) q Hk) as (q1 & -> & Hq).
      split_and!; [done|done|].
      apply Forall_app; split; [destruct res|case_bool_decide]; repeat constructor.
    + destruct (pending_items info) as [|m ms]; [done|]. by apply drive_busy_spec.
  - by apply drive_busy_spec.
Qed.

Lemma push_events_nil h : push_events [] h = h.
Proof. destruct h; simpl. by rewrite app_nil_r. Qed.
Lemma push_events_app e1 e2 h : push_events e2 (push_events e1 h) = push_events (e1 ++ e2) h.
Proof. destruct h; simpl. by rewrite (assoc_L (++)). Qed.
Lemma set_inbound_push m q e h : set_inbound m q (push_events e h) = push_events e (set_inbound m q h).
Proof. by destruct h. Qed.
Lemma set_inbound_set m q m' q' h : set_inbound m q (set_inbound m' q' h) = set_inbound m q h.
Proof. by destruct h. Qed.
Lemma set_outbound_push m q e h : set_outbound m q (push_events e h) = push_events e (set_outbound m q h).
Proof. by destruct h. Qed.
Lemma set_outbound_set m q m' q' h : set_outbound m q (set_outbound m' q' h) = set_outbound m q h.
Proof. by destruct h. Qed.
Lemma set_inbound_id h : set_inbound (inbound_substreams h) (inbound_substreams_delay h) h = h.
Proof. by destruct h. Qed.
Lemma set_outbound_id h : set_outbound (outbound_substreams h) (outbound_substreams_delay h) h = h.
Proof. by destruct h. Qed.

(** The effect of the inbound loop: only inbound state changes, and every
    substream that is not to be removed is in order. *)
Definition inbound_event (e : HandlerEvent Id) : Prop :=
  match e with Err (ErrInbound _ _ _) => True | _ => False end.

Lemma drive_inbound_spec env deactivated entries (R : list Z) h :
  NoDup (map fst entries) ->
  (forall id info, (id, info) ∈ entries ->
    inbound_substreams h !! id = Some info /\ id ∉ R) ->
  (forall id info, inbound_substreams h !! id = Some info ->
    id ∈ R \/ in_ok (inbound_substreams_delay h) id info) ->
  sound (drive_inbound env deactivated entries h) (fun r => exists rem m q evs,
    r = (rem, push_events evs (set_inbound m q h)) /\
    Forall inbound_event evs /\ dom m = dom (inbound_substreams h) /\
    (forall id info, m !! id = Some info -> id ∈ R \/ id ∈ rem \/ in_ok q id info)).
Proof.
  revert R h. induction entries as [|[id info] entries IH]; intros R h Hnd Hin Hok.
  { exists [], (inbound_substreams h), (inbound_substreams_delay h), []. simpl.
    rewrite set_inbound_id, push_events_nil. split_and!; [done|constructor|done|].
    intros i inf Hi. destruct (Hok i inf Hi); auto. }
  apply NoDup_cons in Hnd as [Hid Hnd]. cbn [drive_inbound].
  destruct (Hin id info) as [Hlk HnR]; [by left|].
  assert (Hinfo : in_ok (inbound_substreams_delay h) id info)
    by (destruct (Hok id info Hlk); [done|done]).
  eapply sound_bind; [by apply drive_inbound1_spec|].
  intros [[[info' q] evs] removed] (Hq & Hrem & Hevs).
  set (h1 := push_events evs (set_inbound (<[id := info']> (inbound_substreams h)) q h)).
  assert (Hm1 : inbound_substreams h1 = <[id := info']> (inbound_substreams h)) by (by destruct h).
  assert (Hq1 : inbound_substreams_delay h1 = q) by (by destruct h).
  eapply sound_bind; [apply (IH ((if removed then [id] else []) ++ R) h1)|].
  - done.
  - intros id' info1 Hin1. assert (id' <> id).
    { intros ->. apply Hid. apply list_elem_of_fmap. by exists (id, info1). }
    destruct (Hin id' info1) as [? ?]; [by right|].
    rewrite Hm1, lookup_insert_ne by done. split; [done|]. destruct removed; set_solver.
  - intros id' info1. rewrite Hm1, Hq1. intros [[<- <-]|[Hne Hl]]%lookup_insert_Some.
    + destruct removed; [left; set_solver|]. right. by apply Hrem.
    + destruct (Hok id' info1 Hl) as [?|Hok']; [left; set_solver|].
      right. by apply (in_ok_keeps id id' (inbound_substreams_delay h)).
  - intros ? (rem & m & q' & evs' & -> & He & Hdom & Hall).
    exists ((if removed then [id] else []) ++ rem), m, q', (evs ++ evs').
    subst h1. rewrite set_inbound_push, set_inbound_set, push_events_app.
    split_and!; [done| | |].
    + apply Forall_app; split; [|done]. eapply Forall_impl; [exact Hevs|].
      intros [|[]] Hev; simpl in *; tauto.
    + rewrite Hdom, Hm1, dom_insert_L. apply elem_of_dom_2 in Hlk. set_solver.
    + intros i inf Hi. destruct (Hall i inf Hi) as [HR|[Hr|Hgood]]; [|auto..].
      * apply elem_of_app in HR as [HR|HR]; [|auto]. right; left. apply elem_of_app. auto.
      * right; left. apply elem_of_app. auto.
Qed.

Lemma foldl_delete_lookup {V} (ids : list Z) (m : gmap Z V) id v :
  foldl (fun m id => delete id m) m ids !! id = Some v <-> m !! id = Some v /\ id ∉ ids.
Proof.
  revert m. induction ids as [|i ids IH]; intros m; simpl; [set_solver|].
  rewrite IH, lookup_delete_Some. set_solver.
Qed.

Lemma size_dom_eq {V} (m m' : gmap Z V) : dom m = dom m' -> size m = size m'.
Proof. intros Hd. by rewrite <- !size_dom, Hd. Qed.

Lemma size_dom_sub {V} (m m' : gmap Z V) : dom m ⊆ dom m' -> (size m <= size m')%nat.
Proof. intros Hd. rewrite <- !size_dom. by apply subseteq_size. Qed.

(** The error of a request that timed out can be sent on any protocol. *)
Lemma messages_fit_app p st msgs1 msgs2 :
  messages_fit p st (msgs1 ++ msgs2) <-> messages_fit p st msgs1 /\ Forall (kind_fits p) msgs2.
Proof. unfold messages_fit. rewrite Forall_app. tauto. Qed.

Lemma in_fits_app info msgs key chunks :
  in_fits info -> Forall (kind_fits (in_protocol info)) msgs ->
  in_fits (mkInboundInfo (in_state info) (pending_items info ++ msgs) (in_protocol info) chunks key).
Proof.
  unfold in_fits. destruct (in_state info) as [st|st m lc|]; cbn; [| |done]; intros Hf Hm.
  - by apply messages_fit_app.
  - change (m :: pending_items info ++ msgs) with ((m :: pending_items info) ++ msgs).
    by apply messages_fit_app.
Qed.

Lemma timed_out_fits info chunks (b : bool) code err :
  in_fits info ->
  in_fits (mkInboundInfo (in_state info)
    (if b then pending_items info ++ [CodedError code err] else pending_items info)
    (in_protocol info) chunks None).
Proof.
  intros Hf. destruct b.
  - apply in_fits_app; [done|]. by repeat constructor.
  - rewrite <- (app_nil_r (pending_items info)). by apply in_fits_app.
Qed.

Lemma purge_inbound_spec expired h :
  map_Forall (in_ok (inbound_substreams_delay h)) (inbound_substreams h) ->
  exists e m q evs,
    purge_inbound expired h = (e, push_events evs (set_inbound m q h)) /\
    Forall inbound_event evs /\ dom m = dom (inbound_substreams h) /\
    map_Forall (in_ok q) m /\
    match e with None => True | Some (CloseConnection _) => True | _ => False end.
Proof.
  revert h. induction expired as [|[key|[]] expired IH]; intros h Hok; cbn [purge_inbound].
  - exists None, (inbound_substreams h), (inbound_substreams_delay h), [].
    rewrite set_inbound_id, push_events_nil. by split_and!.
  - pose proof (dq_expire_spec key (inbound_substreams_delay h)) as Hx.
    destruct (dq_expire key _) as [[id q]|]; [|by apply IH]. destruct Hx as [Hkey Hq].
    pose proof (keeps_others_delete id key _ q Hkey Hq) as Hkeep. cbv zeta.
    assert (Hsame : inbound_substreams (set_inbound (inbound_substreams h) q h)
      = inbound_substreams h) by (by destruct h). rewrite Hsame.
    assert (Hothers : forall i inf, inbound_substreams h !! i = Some inf -> i <> id -> in_ok q i inf).
    { intros i inf Hi Hne. eapply in_ok_keeps; [done|done|]. by apply (Hok i). }
    destruct (inbound_substreams h !! id) as [info|] eqn:Hid.
    + set (info1 := mkInboundInfo _ _ _ _ None).
      match goal with |- context [purge_inbound expired ?h1] =>
        destruct (IH h1) as (e & m & q' & evs & -> & He & Hd & Hm & Hev) end.
      * replace (inbound_substreams_delay _) with q by (by destruct h).
        replace (inbound_substreams _) with (<[id := info1]> (inbound_substreams h)) by (by destruct h).
        intros i inf [[<- <-]|[Hne Hi]]%lookup_insert_Some; [|by apply Hothers].
        destruct (Hok id info Hid) as (? & _ & Hfit). split_and!; [done|by intros k|].
        intros Ha. by apply timed_out_fits, Hfit.
      * rewrite set_inbound_push, !set_inbound_set, push_events_app. eexists e, m, q', _.
        split_and!; [done| | |done|done].
        -- by constructor.
        -- rewrite Hd. replace (inbound_substreams _) with (<[id := info1]> (inbound_substreams h))
             by (by destruct h). rewrite dom_insert_L. apply elem_of_dom_2 in Hid. set_solver.
    + match goal with |- context [purge_inbound expired ?h1] =>
        destruct (IH h1) as (e & m & q' & evs & -> & He & Hd & Hm & Hev) end.
      * replace (inbound_substreams_delay _) with q by (by destruct h). rewrite Hsame.
        intros i inf Hi. apply Hothers; [done|]. intros ->. congruence.
      * rewrite set_inbound_set. exists e, m, q', evs. rewrite Hsame in Hd. by split_and!.
  - exists (Some (CloseConnection (InternalError "Could not poll inbound stream timer"))),
      (inbound_substreams h), (inbound_substreams_delay h), [].
    rewrite set_inbound_id, push_events_nil. by split_and!.
Qed.

(** *** Outbound substreams

    The requests awaiting a response, and the requests an event answers. *)

Definition awaiting (m : gmap Z OutboundInfo) (r : Id * OutboundRequest) : Prop :=
  exists oid info st, m !! oid = Some info /\
    out_state info = RequestPendingResponse st r.2 /\ out_req_id info = r.1.

Definition event_id (e : HandlerEvent Id) : option Id :=
  match e with
  | Ok (RecvResponse id _) => Some id
  | Ok (EndOfStream id _) => Some id
  | Err (ErrOutbound id _ _) => Some id
  | _ => None
  end.

Definition output_id (o : option ConnectionHandlerEvent) : option Id :=
  match o with Some (NotifyBehaviour e) => event_id e | _ => None end.

(** [id] is the subject of a queued event or of the output. *)
Definition told (evs : list (HandlerEvent Id)) (o : option ConnectionHandlerEvent) (id : Id) : Prop :=
  Some id ∈ map event_id evs \/ output_id o = Some id.

Definition not_dial (o : option ConnectionHandlerEvent) : Prop :=
  match o with Some (OutboundSubstreamRequest _ _ _) => False | _ => True end.

Lemma map_Forall_out_keeps oid q q' (m : gmap Z OutboundInfo) :
  map_Forall (out_ok q) m -> keeps_others oid q q' -> map_Forall (out_ok q') (delete oid m).
Proof.
  intros Hm Hq i inf [Hne Hi]%lookup_delete_Some. eapply out_ok_keeps; [|done|]; [congruence|].
  by apply Hm.
Qed.

Lemma map_Forall_out_update oid q q' (m : gmap Z OutboundInfo) info :
  map_Forall (out_ok q) m -> keeps_others oid q q' -> out_ok q' oid info ->
  map_Forall (out_ok q') (<[oid := info]> m).
Proof.
  intros Hm Hq Hi i inf [[<- <-]|[Hne Hl]]%lookup_insert_Some; [done|].
  eapply out_ok_keeps; [|done|]; [congruence|]. by apply Hm.
Qed.

Lemma awaiting_delete oid m info r :
  m !! oid = Some info -> awaiting m r ->
  awaiting (delete oid m) r \/ out_req_id info = r.1.
Proof.
  intros Ho (o & inf & st & Hl & Hs & Hid). destruct (decide (o = oid)) as [->|Hne].
  - right. congruence.
  - left. exists o, inf, st. by rewrite lookup_delete_ne.
Qed.

Lemma awaiting_update oid m info info' r :
  m !! oid = Some info -> awaiting m r ->
  awaiting (<[oid := info']> m) r \/ out_req_id info = r.1.
Proof.
  intros Ho (o & inf & st & Hl & Hs & Hid). destruct (decide (o = oid)) as [->|Hne].
  - right. congruence.
  - left. exists o, inf, st. by rewrite lookup_insert_ne.
Qed.

Lemma awaiting_insert_same oid (m : gmap Z OutboundInfo) info info' r :
  m !! oid = Some info -> out_req_id info' = out_req_id info ->
  out_state info' = out_state info -> awaiting m r -> awaiting (<[oid := info']> m) r.
Proof.
  intros Ho Hid Hst (o & inf & st & Hl & Hs & Hr). destruct (decide (o = oid)) as [->|Hne].
  - exists oid, info', st. rewrite lookup_insert_eq. split_and!; congruence.
  - exists o, inf, st. by rewrite lookup_insert_ne.
Qed.

Lemma purge_outbound_spec expired h :
  map_Forall (out_ok (outbound_substreams_delay h)) (outbound_substreams h) ->
  exists e m q,
    purge_outbound expired h = (e, set_outbound m q h) /\
    map_Forall (out_ok q) m /\ not_dial e /\ dom m ⊆ dom (outbound_substreams h) /\
    (forall r, awaiting (outbound_substreams h) r -> awaiting m r \/ told [] e r.1).
Proof.
  revert h. induction expired as [|[key|[]] expired IH]; intros h Hok; cbn [purge_outbound].
  - exists None, (outbound_substreams h), (outbound_substreams_delay h).
    rewrite set_outbound_id. split_and!; by auto.
  - pose proof (dq_expire_spec key (outbound_substreams_delay h)) as Hx.
    destruct (dq_expire key _) as [[oid q]|]; [|by apply IH]. destruct Hx as [Hkey Hq].
    pose proof (keeps_others_delete oid key _ q Hkey Hq) as Hkeep.
    pose proof (map_Forall_out_keeps oid _ q _ Hok Hkeep) as Hdel.
    destruct (outbound_substreams h !! oid) as [info|] eqn:Hid.
    + eexists _, _, _. split_and!; [done|done|done|rewrite dom_delete_L; set_solver|]. intros r Hr.
      destruct (awaiting_delete _ _ _ _ Hid Hr) as [?|Heq]; [by left|].
      right. right. simpl. by rewrite Heq.
    + rewrite delete_id in Hdel by done.
      destruct (IH (set_outbound (outbound_substreams h) q h)) as (e & m & q' & -> & Hm & Hnd & Hdom & Ht).
      * by destruct h.
      * exists e, m, q'. rewrite set_outbound_set. split_and!; [done|done|done|by destruct h|].
        intros r Hr. apply Ht. by destruct h.
  - eexists (Some _), (outbound_substreams h), (outbound_substreams_delay h).
    rewrite set_outbound_id. split_and!; [done|done|done|done|auto].
Qed.

(** What driving outbound substreams may do to a handler. *)
Definition out_effect (h : RPCHandler) (o : option ConnectionHandlerEvent)
    (m : gmap Z OutboundInfo) (q : Queue) (evs : list (HandlerEvent Id)) : Prop :=
  map_Forall (out_ok q) m /\ not_dial o /\ dom m ⊆ dom (outbound_substreams h) /\
  (forall r, awaiting (outbound_substreams h) r -> awaiting m r \/ told evs o r.1).

Lemma told_sub evs evs' o id :
  (Some id ∈ map event_id evs -> Some id ∈ map event_id evs') -> told evs o id -> told evs' o id.
Proof. unfold told. tauto. Qed.

Section drive_outbound.
Variables (env : PollEnv) (oid : Z) (h : RPCHandler) (info : OutboundInfo).
Hypothesis Hok : map_Forall (out_ok (outbound_substreams_delay h)) (outbound_substreams h).
Hypothesis Hlk : outbound_substreams h !! oid = Some info.

Lemma out_update_dom x : dom (<[oid := x]> (outbound_substreams h)) ⊆ dom (outbound_substreams h).
Proof using Hlk. clear Hok. rewrite dom_insert_L. apply elem_of_dom_2 in Hlk. set_solver. Qed.

Lemma out_effect_state s o evs :
  s <> OutPoisoned -> not_dial o ->
  (forall st r, out_state info = RequestPendingResponse st r ->
     s = RequestPendingResponse st r \/ told evs o (out_req_id info)) ->
  out_effect h o (<[oid := out_set_state s info]> (outbound_substreams h))
    (outbound_substreams_delay h) evs.
Proof using Hok Hlk.
  intros Hs Hnd Htold. split_and!; [|done|by apply out_update_dom|].
  - eapply map_Forall_out_update; [done|apply keeps_others_refl|].
    split; [done|]. apply (Hok oid info Hlk).
  - intros r (o' & inf & st & Hl & Hst & Hr). destruct (decide (o' = oid)) as [->|Hne].
    + assert (inf = info) as -> by congruence. rewrite <- Hr.
      destruct (Htold st r.2 Hst) as [->|?]; [left|by right].
      exists oid, (out_set_state (RequestPendingResponse st r.2) info), st.
      by rewrite lookup_insert_eq.
    + left. exists o', inf, st. by rewrite lookup_insert_ne.
Qed.

Lemma out_effect_remove o q evs :
  not_dial o -> keeps_others oid (outbound_substreams_delay h) q ->
  (forall st r, out_state info = RequestPendingResponse st r -> told evs o (out_req_id info)) ->
  out_effect h o (delete oid (outbound_substreams h)) q evs.
Proof using Hok Hlk.
  intros Hnd Hq Htold.
  split_and!; [by eapply map_Forall_out_keeps|done|rewrite dom_delete_L; set_solver|].
  intros r (o' & inf & st & Hl & Hst & Hr). destruct (decide (o' = oid)) as [->|Hne].
  - assert (inf = info) as -> by congruence. rewrite <- Hr. right. by eapply Htold.
  - left. exists o', inf, st. by rewrite lookup_delete_ne.
Qed.

Lemma out_remove_key :
  exists q, dq_remove (out_delay_key info) (outbound_substreams_delay h) = Ret q /\
    keeps_others oid (outbound_substreams_delay h) q.
Proof using Hok Hlk.
  destruct (Hok oid info Hlk) as [_ Hk].
  destruct (dq_remove_some (out_delay_key info) (outbound_substreams_delay h)) as (q & Hq & He);
    [by eauto|]. exists q. split; [done|]. by eapply keeps_others_delete.
Qed.

Lemma drive_outbound1_spec deactivated :
  exists o m q evs,
    drive_outbound1 env deactivated oid h = Ret (o, push_events evs (set_outbound m q h)) /\
    out_effect h o m q evs /\
    (forall i, i <> oid -> m !! i = outbound_substreams h !! i).
Proof using Hok Hlk.
  destruct (Hok oid info Hlk) as [Hpois Hkey].
  assert (Hupd : forall (m : gmap Z OutboundInfo) x i, i <> oid -> <[oid := x]> m !! i = m !! i)
    by (intros; by rewrite lookup_insert_ne).
  assert (Hdel : forall (m : gmap Z OutboundInfo) i, i <> oid -> delete oid m !! i = m !! i)
    by (intros; by rewrite lookup_delete_ne).
  unfold drive_outbound1. rewrite Hlk. cbv zeta.
  destruct out_remove_key as (qr & Hqr & Hkeep). rewrite Hqr.
  destruct (out_state info) as [st req|st|] eqn:Hst; [| |done].
  - destruct deactivated.
    { eexists None, _, _, [_]. split_and!; [done| |by intros; apply Hupd].
      apply out_effect_state; [done|done|]. intros. right. left. by left. }
    destruct (env_out_next env oid) as [[[response|e]|]|].
    + (* a response chunk *)
      set (received := match response with Success _ => _ | _ => _ end).
      assert (Hrec : event_id received = Some (out_req_id info)) by (by destruct response).
      destruct (_ && _); [destruct (_ =? 0)|].
      2: { destruct (dq_reset_some (out_delay_key info) (resp_timeout h)
             (outbound_substreams_delay h)) as (q & -> & Hq); [by eauto|].
           eexists _, _, q, []. rewrite push_events_nil. split_and!; [done| |by intros; apply Hupd].
           split_and!; [|done|by apply out_update_dom|].
           - eapply map_Forall_out_update; [done|intros k i _; by rewrite Hq|].
             split; [done|]. simpl. by rewrite Hq.
           - intros r Hr. left. by eapply awaiting_insert_same. }
      all: eexists _, _, _, []; rewrite push_events_nil; split_and!; [done| |by intros; apply Hupd];
        (apply out_effect_state; [done|done|]); intros; right; right; simpl; by rewrite Hrec.
    + eexists _, _, _, []; rewrite push_events_nil. split_and!; [done| |by intros; apply Hdel].
      apply out_effect_remove; [done|done|]. intros. by right.
    + destruct (1 <? Outbound_expected_responses req) eqn:Hexp; bool_hyps.
      * pose proof (outbound_termination_ret req Hexp) as Hterm.
        destruct (Outbound_stream_termination req) as [t|]; [|done].
        eexists _, _, _, []; rewrite push_events_nil. split_and!; [done| |by intros; apply Hdel].
        apply out_effect_remove; [done|done|]. intros. by right.
      * eexists _, _, _, []; rewrite push_events_nil. split_and!; [done| |by intros; apply Hdel].
        apply out_effect_remove; [done|done|]. intros. by right.
    + eexists None, _, _, []; rewrite push_events_nil. split_and!; [done| |by intros; apply Hupd].
      apply out_effect_state; [done|done|]. intros st' r' Heq. left. congruence.
  - destruct (env_out_close env oid).
    + eexists None, _, _, []; rewrite push_events_nil. split_and!; [done| |by intros; apply Hdel].
      apply out_effect_remove; [done|done|]. intros. congruence.
    + eexists None, _, _, []; rewrite push_events_nil. split_and!; [done| |by intros; apply Hupd].
      apply out_effect_state; [done|done|]. intros. congruence.
Qed.
End drive_outbound.

Lemma drive_outbound_spec env deactivated ids h :
  NoDup ids -> (forall i, i ∈ ids -> is_Some (outbound_substreams h !! i)) ->
  map_Forall (out_ok (outbound_substreams_delay h)) (outbound_substreams h) ->
  exists o m q evs,
    drive_outbound env deactivated ids h = Ret (o, push_events evs (set_outbound m q h)) /\
    out_effect h o m q evs.
Proof.
  revert h. induction ids as [|oid ids IH]; intros h Hnd Hin Hok; cbn [drive_outbound].
  { exists None, (outbound_substreams h), (outbound_substreams_delay h), [].
    rewrite set_outbound_id, push_events_nil. split; [done|]. split_and!; by auto. }
  apply NoDup_cons in Hnd as [Hnot Hnd]. destruct (Hin oid) as [info Hlk]; [by left|].
  destruct (drive_outbound1_spec env oid h info Hok Hlk deactivated)
    as (o & m & q & evs & -> & Heff & Hother).
  destruct o as [e|]; [by exists (Some e), m, q, evs|].
  destruct Heff as (Hm & _ & Hdom & Haw).
  destruct (IH (push_events evs (set_outbound m q h))) as (o & m' & q' & evs' & -> & Heff').
  - done.
  - intros i Hi. replace (outbound_substreams _) with m by (by destruct h).
    rewrite Hother by (intros ->; done). apply Hin. by right.
  - by destruct h.
  - exists o, m', q', (evs ++ evs'). rewrite set_outbound_push, set_outbound_set, push_events_app.
    destruct Heff' as (Hm' & Hnd' & Hdom' & Haw').
    replace (outbound_substreams _) with m in Haw', Hdom' by (by destruct h).
    split; [done|]. split_and!; [done|done|set_solver|]. intros r Hr.
    destruct (Haw r Hr) as [Hr'|[Hin'|[=]]].
    + destruct (Haw' r Hr') as [?|Htold]; [by left|]. right.
      eapply told_sub; [|exact Htold]. rewrite map_app, elem_of_app. auto.
    + right. left. rewrite map_app, elem_of_app. auto.
Qed.

(** *** The effect of [poll] *)

Definition output (o : poll ConnectionHandlerEvent) : option ConnectionHandlerEvent :=
  match o with Ready e => Some e | Pending => None end.

Definition dial_effect (h : RPCHandler) (o : option ConnectionHandlerEvent) (h' : RPCHandler) : Prop :=
  (not_dial o /\ dial_queue h' = dial_queue h /\ dial_negotiated h' = dial_negotiated h) \/
  (exists r, o = Some (OutboundSubstreamRequest r.2 (rpc_max_rpc_size (listen_protocol h)) r) /\
    dial_queue h = r :: dial_queue h' /\ dial_negotiated h < max_dial_negotiated h /\
    dial_negotiated h' = wrap u32 (dial_negotiated h + 1)).

Record poll_effect (h : RPCHandler) (o : option ConnectionHandlerEvent) (h' : RPCHandler) : Prop := {
  pe_inv : handler_inv h';
  pe_max : max_dial_negotiated h' = max_dial_negotiated h;
  pe_retries : outbound_io_error_retries h' = outbound_io_error_retries h;
  pe_state : state h' = state h \/
    (exists d, state h = ShuttingDown d) /\ state h' = Deactivated;
  pe_dial : dial_effect h o h';
  pe_awaiting : forall r, awaiting (outbound_substreams h) r ->
    awaiting (outbound_substreams h') r \/ told (events_out h') o r.1;
  pe_events : forall id, Some id ∈ map event_id (events_out h) -> told (events_out h') o id;
  pe_inbound : dom (inbound_substreams h') ⊆ dom (inbound_substreams h);
  pe_outbound : dom (outbound_substreams h') ⊆ dom (outbound_substreams h);
  pe_current : current_outbound_substream_id h' = current_outbound_substream_id h;
}.

(** A handler that differs in its substreams and events only. *)
Lemma dial_or_close_effect h :
  handler_inv h -> exists o h', dial_or_close h = (o, h') /\ poll_effect h (output o) h'.
Proof.
  intros Hinv. unfold dial_or_close.
  assert (Hid : forall o, not_dial o -> poll_effect h o h).
  { intros o Ho. split; try done; [by left|left; by split_and!|by left|by left]. }
  destruct (dial_queue h) as [|[id req] queue] eqn:Hq.
  - destruct (state h); [|case_match|]; eexists _, _; (split; [done|]); by apply Hid.
  - destruct (_ <? _) eqn:Hlt; bool_hyps; eexists _, _; (split; [done|]); [|by apply Hid].
    destruct Hinv as (Hi & Ho & Hs). destruct h; cbn in *. split; cbn; try done.
    + by left.
    + right. exists (id, req). by split_and!.
    + by left.
    + by left.
Qed.

Lemma poll_effect_frame m q m' q' evs evs' h o h' :
  let h1 := push_events evs' (set_outbound m' q' (push_events evs (set_inbound m q h))) in
  poll_effect h1 o h' -> dom m ⊆ dom (inbound_substreams h) ->
  dom m' ⊆ dom (outbound_substreams h) ->
  (forall r, awaiting (outbound_substreams h) r -> awaiting m' r \/ Some r.1 ∈ map event_id (evs ++ evs')) ->
  poll_effect h o h'.
Proof.
  intros h1 [Hinv Hmax Hret Hst Hdial Haw Hev Hin Hout Hcur] Hdom Hdom' Htrans. subst h1.
  destruct h; cbn in *. rewrite <- (assoc_L (++)) in Hev. split; cbn; try done.
  - intros r Hr. destruct (Htrans r Hr) as [Hr'|Hr']; [by apply Haw|].
    right. apply Hev. rewrite map_app, elem_of_app. by right.
  - intros id Hid. apply Hev. rewrite map_app, elem_of_app. by left.
  - set_solver.
  - set_solver.
Qed.

Lemma set_outbound_events_inv m q m' q' evs evs' h :
  map_Forall (in_ok q) m -> map_Forall (out_ok q') m' ->
  Z.of_nat (size m) <= MAX_INBOUND_SUBSTREAMS ->
  handler_inv (push_events evs' (set_outbound m' q' (push_events evs (set_inbound m q h)))).
Proof. intros. destruct h. by split_and!. Qed.

Section polling.
Context `{!MapIter Z InboundInfo} `{!MapIter Z OutboundInfo}.

Lemma poll_streams_effect env h :
  handler_inv h ->
  sound (poll_streams env h) (fun r => poll_effect h (output r.1) r.2).
Proof.
  intros (Hin & Hout & Hsize). unfold poll_streams. set (d := match state h with Deactivated => true | _ => false end).
  eapply sound_bind; [apply (drive_inbound_spec env d (map_iter (inbound_substreams h)) [] h)|].
  { apply map_iter_fst_NoDup. }
  { intros id info Hi. apply elem_of_map_iter in Hi. split; [done|set_solver]. }
  { intros id info Hi. right. by apply Hin. }
  intros ? (rem & m & q & evs & -> & Hevs & Hdom & Hok).
  set (m2 := foldl (fun m id => delete id m) m rem).
  assert (Hrem : remove_inbound rem (push_events evs (set_inbound m q h))
    = push_events evs (set_inbound m2 q h)) by (by destruct h).
  rewrite Hrem. set (h2 := push_events evs (set_inbound m2 q h)).
  assert (Ho2 : outbound_substreams h2 = outbound_substreams h) by (by destruct h).
  assert (Hq2 : outbound_substreams_delay h2 = outbound_substreams_delay h) by (by destruct h).
  assert (Hm2 : map_Forall (in_ok q) m2).
  { intros id info Hi. apply foldl_delete_lookup in Hi as [Hi Hnot].
    destruct (Hok id info Hi) as [?%not_elem_of_nil|[?|?]]; done. }
  assert (Hdom2 : dom m2 ⊆ dom (inbound_substreams h)).
  { rewrite <- Hdom. intros i [x Hx]%elem_of_dom. apply foldl_delete_lookup in Hx as [Hx _].
    by apply elem_of_dom_2 in Hx. }
  destruct (drive_outbound_spec env d (map fst (map_iter (outbound_substreams h2))) h2)
    as (o & m' & q' & evs' & -> & Hm' & Hnd & Hdom' & Haw).
  { apply map_iter_fst_NoDup. }
  { intros i Hi. apply list_elem_of_fmap in Hi as ([k v] & -> & Hkv).
    apply elem_of_map_iter in Hkv. by eauto. }
  { by rewrite Ho2, Hq2. }
  rewrite Ho2 in Haw, Hdom'.
  assert (Hinv3 : handler_inv (push_events evs' (set_outbound m' q' h2))).
  { apply set_outbound_events_inv; [done|done|]. pose proof (size_dom_sub m2 _ Hdom2). lia. }
  destruct o as [e|].
  - subst h2. destruct h; cbn in *. split; cbn; try done.
    + by left.
    + left. by split_and!.
    + intros r Hr. destruct (Haw r Hr) as [?|[Ht|Ht]]; [by left|right; left|by right; right].
      rewrite !map_app, !elem_of_app. by right.
    + intros id Hid. left. rewrite !map_app, !elem_of_app. auto.
  - destruct (dial_or_close_effect _ Hinv3) as (o & h' & -> & Heff).
    eapply poll_effect_frame; [exact Heff|done|done|].
    intros r Hr. destruct (Haw r Hr) as [?|[Ht|[=]]]; [by left|right].
    rewrite map_app, elem_of_app. by right.
Qed.

Lemma handler_poll_effect env h :
  handler_inv h ->
  sound (handler_poll env h) (fun r => poll_effect h (output r.1) r.2).
Proof.
  intros Hinv. pose proof Hinv as (Hin & Hout & Hsize). unfold handler_poll.
  destruct (events_out h) as [|e events'] eqn:He.
  2: { destruct h; cbn in *. subst. split; cbn; try done.
       - by left.
       - left. by split_and!.
       - by left.
       - intros id [Hid|Hid]%elem_of_cons; [by right|by left]. }
  cbv zeta. destruct (match state h with ShuttingDown deadline => deadline <=? env_now env | _ => false end) eqn:Hto.
  { destruct h; cbn in *. subst. split; cbn; try done.
    - right. split; [|done]. by case_match; eauto.
    - left. by split_and!.
    - by left.
    - by intros id ?%not_elem_of_nil. }
  destruct (purge_inbound_spec (env_in_expired env) h Hin)
    as (e & m & q & evs & -> & Hevs & Hdom & Hok & Hclose).
  assert (Hsz : Z.of_nat (size m) <= MAX_INBOUND_SUBSTREAMS)
    by (rewrite (size_dom_eq m _ Hdom); done).
  destruct e as [e|].
  { replace (push_events evs _) with
      (push_events [] (set_outbound (outbound_substreams h) (outbound_substreams_delay h)
        (push_events evs (set_inbound m q h)))) at 1 by (destruct h; cbn; by rewrite app_nil_r).
    assert (Hi : handler_inv (push_events [] (set_outbound (outbound_substreams h)
        (outbound_substreams_delay h) (push_events evs (set_inbound m q h)))))
      by (by apply set_outbound_events_inv).
    destruct e; try done. destruct h; cbn in *. subst. split; cbn; try done.
    - by left.
    - left. by split_and!.
    - by left.
    - by intros id ?%not_elem_of_nil.
    - by rewrite Hdom. }
  set (h1 := push_events evs (set_inbound m q h)).
  destruct (purge_outbound_spec (env_out_expired env) h1) as (e & m' & q' & -> & Hok' & Hnd & Hdom' & Haw).
  { by destruct h. }
  replace (outbound_substreams h1) with (outbound_substreams h) in Haw, Hdom' by (by destruct h).
  replace (set_outbound m' q' h1) with (push_events [] (set_outbound m' q' h1))
    by apply push_events_nil.
  assert (Hi : handler_inv (push_events [] (set_outbound m' q' h1)))
    by (by apply set_outbound_events_inv).
  destruct e as [e|].
  - subst h1. destruct h; cbn in *. subst. split; cbn; try done.
    + by left.
    + left. by split_and!.
    + intros r Hr. destruct (Haw r Hr) as [?|[?%not_elem_of_nil|?]]; [by left|done|by right; right].
    + by intros id ?%not_elem_of_nil.
    + by rewrite Hdom.
  - eapply sound_impl; [by apply poll_streams_effect|]. intros [o h'] Heff.
    eapply poll_effect_frame; [exact Heff|by rewrite Hdom|done|].
    intros r Hr. destruct (Haw r Hr) as [?|[?%not_elem_of_nil|[=]]]; [by left|done].
Qed.

(** ** Connections

    A handler together with what its environment remembers: the outbound
    substreams it was asked to open and has not answered ([libp2p] answers
    each with a negotiated substream or an error), the requests submitted
    so far, the request ids reported to the behaviour, and the number of
    dial attempts that ended in a retry. A connection opens fewer than [2^64]
    outbound substreams. *)

Record Connection : Type := mkConnection {
  c_handler : RPCHandler;
  c_in_flight : list (Id * OutboundRequest);
  c_submitted : list (Id * OutboundRequest);
  c_told : list Id;
  c_retried : Z;
}.

(** The requests of an event from the behaviour. *)
Definition submitted_by (e : RPCSend Id) : list (Id * OutboundRequest) :=
  match e with SendRequest id req => [(id, req)] | _ => [] end.

Definition dialed (o : option ConnectionHandlerEvent) : list (Id * OutboundRequest) :=
  match o with Some (OutboundSubstreamRequest _ _ info) => [info] | _ => [] end.

(** Whether [on_dial_upgrade_error] takes the retry path. *)
Definition retries_dial (e : StreamUpgradeError) (h : RPCHandler) : bool :=
  match e with
  | UpgradeApply (IoError _) | UpgradeIo _ =>
      wrap u8 (outbound_io_error_retries h + 1) <? IO_ERROR_RETRIES
  | _ => false
  end.

(** Metadata are sent only on a substream on which they were requested. *)
Definition answer_fits (h : RPCHandler) (e : RPCSend Id) : bool :=
  match e with
  | SendResponse id response =>
      match inbound_substreams h !! id with
      | Some info => kind_fits (in_protocol info) response
      | None => true
      end
  | _ => true
  end.

(** The request of an inbound substream is one of the protocol that was
    negotiated, for which its codec was created (by [upgrade_inbound]). *)
Definition request_fits (req : InboundRequest) (st : Substream) : bool :=
  bool_decide (codec_protocol st = Inbound_versioned_protocol req).

(** If [asked], the behaviour and the upgrade keep to these two rules. *)
Inductive conn_step : Connection -> Connection -> Prop :=
| step_behaviour now ev c :
    (asked -> answer_fits (c_handler c) ev) ->
    conn_step c (mkConnection (on_behaviour_event now ev (c_handler c)) (c_in_flight c)
      (submitted_by ev ++ c_submitted c) (c_told c) (c_retried c))
| step_inbound now req st c :
    (asked -> request_fits req st) ->
    conn_step c (mkConnection
      (on_connection_event now (FullyNegotiatedInbound req st) (c_handler c))
      (c_in_flight c) (c_submitted c) (c_told c) (c_retried c))
| step_outbound now st info in_flight c :
    Permutation (c_in_flight c) (info :: in_flight) ->
    current_outbound_substream_id (c_handler c) + 1 < 2 ^ 64 ->
    conn_step c (mkConnection
      (on_connection_event now (FullyNegotiatedOutbound st info) (c_handler c))
      in_flight (c_submitted c) (c_told c) (c_retried c))
| step_dial_error now info err in_flight c :
    Permutation (c_in_flight c) (info :: in_flight) ->
    conn_step c (mkConnection
      (on_connection_event now (DialUpgradeError info err) (c_handler c))
      in_flight (c_submitted c) (c_told c)
      (c_retried c + if retries_dial err (c_handler c) then 1 else 0))
| step_poll env o h' c :
    handler_poll env (c_handler c) = Ret (o, h') ->
    conn_step c (mkConnection h' (c_in_flight c ++ dialed (output o)) (c_submitted c)
      (option_list (output_id (output o)) ++ c_told c) (c_retried c)).

Definition conn_init (listen : RPCProtocol) (timeout : Duration) : Connection :=
  mkConnection (RPCHandler_new listen timeout) [] [] [] 0.

Definition conn_reaches (c : Connection) : Prop :=
  exists listen timeout, rtc conn_step (conn_init listen timeout) c.

(** Where a submitted request can be. *)
Definition accounted (c : Connection) (r : Id * OutboundRequest) : Prop :=
  r ∈ dial_queue (c_handler c) \/ r ∈ c_in_flight c \/
  awaiting (outbound_substreams (c_handler c)) r \/
  Some r.1 ∈ map event_id (events_out (c_handler c)) \/ r.1 ∈ c_told c.

Record conn_inv (c : Connection) : Prop := {
  ci_handler : handler_inv (c_handler c);
  ci_max : max_dial_negotiated (c_handler c) = 8;
  ci_retries : 0 <= outbound_io_error_retries (c_handler c) < IO_ERROR_RETRIES;
  ci_dial : dial_negotiated (c_handler c) = Z.of_nat (length (c_in_flight c)) + c_retried c;
  ci_retried : 0 <= c_retried c;
  ci_bound : dial_negotiated (c_handler c) <= 8;
  ci_current : 0 <= current_outbound_substream_id (c_handler c);
  ci_fresh : forall i, i ∈ dom (outbound_substreams (c_handler c)) ->
    i < current_outbound_substream_id (c_handler c);
  ci_accounted : forall r, r ∈ c_submitted c -> 0 < Outbound_expected_responses r.2 ->
    accounted c r;
}.

Lemma wrap_u32_id x : 0 <= x < 2 ^ 32 -> wrap u32 x = x.
Proof. intros Hx. apply wrap_id; [unfold valid_int; simpl; lia|]. apply in_range_spec. unfold int_min, int_max; cbn [signed bits u32]. lia. Qed.
Lemma wrap_u8_id x : 0 <= x < 2 ^ 8 -> wrap u8 x = x.
Proof. intros Hx. apply wrap_id; [unfold valid_int; simpl; lia|]. apply in_range_spec. unfold int_min, int_max; cbn [signed bits u8]. lia. Qed.

(** *** Effects that concern the dial queue and the events only *)

Definition quiet_effect (h h' : RPCHandler) : Prop :=
  max_dial_negotiated h' = max_dial_negotiated h /\
  dial_negotiated h' = dial_negotiated h /\
  outbound_io_error_retries h' = outbound_io_error_retries h /\
  outbound_substreams h' = outbound_substreams h /\
  outbound_substreams_delay h' = outbound_substreams_delay h /\
  current_outbound_substream_id h' = current_outbound_substream_id h /\
  (exists evs, events_out h' = events_out h ++ evs) /\
  (forall r, r ∈ dial_queue h ->
    r ∈ dial_queue h' \/ Some r.1 ∈ map event_id (events_out h')).

Lemma quiet_refl h : quiet_effect h h.
Proof. split_and!; try done; [|by auto]. exists []. by rewrite app_nil_r. Qed.

Lemma quiet_trans h1 h2 h3 : quiet_effect h1 h2 -> quiet_effect h2 h3 -> quiet_effect h1 h3.
Proof.
  intros (?&?&?&?&?&?&[e1 He1]&Hq1) (?&?&?&?&?&?&[e2 He2]&Hq2).
  split_and!; try congruence.
  - exists (e1 ++ e2). by rewrite He2, He1, (assoc_L (++)).
  - intros r Hr. destruct (Hq1 r Hr) as [Hr'|Hr']; [by apply Hq2|].
    right. rewrite He2, map_app, elem_of_app. by left.
Qed.

Lemma shutdown_quiet now g h : quiet_effect h (handler_shutdown now g h).
Proof.
  unfold handler_shutdown. destruct (state h) eqn:Hs; [|apply quiet_refl..].
  destruct h; cbn in *. split_and!; cbn; try done; [by eexists|].
  intros r Hr. right. rewrite map_app, elem_of_app. right. rewrite map_map.
  apply list_elem_of_fmap. exists r. split; [by destruct r|].
  rewrite list_elem_of_In, <- in_rev, <- list_elem_of_In. done.
Qed.

Lemma shutdown_inbound now g h :
  inbound_substreams (handler_shutdown now g h) = inbound_substreams h /\
  inbound_substreams_delay (handler_shutdown now g h) = inbound_substreams_delay h.
Proof. unfold handler_shutdown. by destruct h as [? ? ? ? ? ? ? ? ? ? ? [] ? ?]. Qed.

Lemma push_quiet evs h : quiet_effect h (push_events evs h).
Proof. destruct h. split_and!; cbn; try done; [by eexists|by left]. Qed.

Lemma set_inbound_quiet m q h : quiet_effect h (set_inbound m q h).
Proof. destruct h. split_and!; cbn; try done; [exists []; by rewrite app_nil_r|by left]. Qed.

Lemma set_current_inbound_quiet n h : quiet_effect h (set_current_inbound n h).
Proof. destruct h. split_and!; cbn; try done; [exists []; by rewrite app_nil_r|by left]. Qed.

Lemma send_request_quiet id req h :
  quiet_effect h (handler_send_request id req h) /\
  ((id, req) ∈ dial_queue (handler_send_request id req h) \/
   Some id ∈ map event_id (events_out (handler_send_request id req h))).
Proof.
  unfold handler_send_request. destruct (state h) eqn:Hs.
  - destruct h; cbn in *. split.
    + split_and!; cbn; try done; [exists []; by rewrite app_nil_r|]. intros r Hr. left. set_solver.
    + left. set_solver.
  - split; [apply push_quiet|]. right. destruct h; cbn. rewrite map_app, elem_of_app. right. by left.
  - split; [apply push_quiet|]. right. destruct h; cbn. rewrite map_app, elem_of_app. right. by left.
Qed.

Lemma send_response_quiet id r h : quiet_effect h (handler_send_response id r h).
Proof.
  unfold handler_send_response. destruct (inbound_substreams h !! id) as [info|]; [|apply quiet_refl].
  cbv zeta. set (h1 := match r with CodedError _ _ => _ | _ => h end).
  assert (quiet_effect h h1) by (subst h1; destruct r; apply quiet_refl || apply push_quiet).
  destruct (state h1); [| |done]; (eapply quiet_trans; [done|]); apply set_inbound_quiet.
Qed.

Lemma report_inbound_quiet now req h : quiet_effect h (report_inbound now req h).
Proof.
  unfold report_inbound. eapply quiet_trans; [|apply set_current_inbound_quiet].
  eapply quiet_trans; [|apply push_quiet].
  destruct req; try apply quiet_refl. apply shutdown_quiet.
Qed.

Lemma negotiated_inbound_quiet now req st h :
  quiet_effect h (on_fully_negotiated_inbound now req st h).
Proof.
  unfold on_fully_negotiated_inbound. destruct (state h); [|apply quiet_refl..]. cbv zeta.
  destruct (0 <? _); [|apply report_inbound_quiet]. destruct (_ <? _).
  - destruct (dq_insert _ _ _). eapply quiet_trans; [apply set_inbound_quiet|apply report_inbound_quiet].
  - eapply quiet_trans; [apply push_quiet|apply shutdown_quiet].
Qed.

(** *** Every operation preserves the invariant of the handler *)

Lemma handler_inv_same h h' :
  inbound_substreams h' = inbound_substreams h ->
  inbound_substreams_delay h' = inbound_substreams_delay h ->
  outbound_substreams h' = outbound_substreams h ->
  outbound_substreams_delay h' = outbound_substreams_delay h ->
  handler_inv h -> handler_inv h'.
Proof. unfold handler_inv. by intros -> -> -> ->. Qed.

Lemma shutdown_inv now g h : handler_inv h -> handler_inv (handler_shutdown now g h).
Proof. apply handler_inv_same; unfold handler_shutdown; by destruct h as [? ? ? ? ? ? ? ? ? ? ? [] ? ?]. Qed.

Lemma push_events_inv evs h : handler_inv h -> handler_inv (push_events evs h).
Proof. by apply handler_inv_same; destruct h. Qed.

Lemma send_request_inv id req h : handler_inv h -> handler_inv (handler_send_request id req h).
Proof. apply handler_inv_same; unfold handler_send_request; by destruct h as [? ? ? ? ? ? ? ? ? ? ? [] ? ?]. Qed.

Lemma size_update (m : gmap Z InboundInfo) id info info' :
  m !! id = Some info -> size (<[id := info']> m) = size m.
Proof. intros Hm. apply size_dom_eq. rewrite dom_insert_L. apply elem_of_dom_2 in Hm. set_solver. Qed.

Lemma set_inbound_inv m q h :
  map_Forall (in_ok q) m -> Z.of_nat (size m) <= MAX_INBOUND_SUBSTREAMS ->
  handler_inv h -> handler_inv (set_inbound m q h).
Proof. intros Hm Hs (_ & Ho & _). destruct h. by split_and!. Qed.

Lemma send_response_inv id r h :
  (asked -> answer_fits h (SendResponse id r)) ->
  handler_inv h -> handler_inv (handler_send_response id r h).
Proof.
  intros Hfit Hinv. unfold answer_fits in Hfit. unfold handler_send_response.
  destruct (inbound_substreams h !! id) as [info|] eqn:Hid; [|done]. cbv zeta.
  set (h1 := match r with CodedError _ _ => _ | _ => h end).
  assert (Hinv1 : handler_inv h1) by (subst h1; destruct r; [done|by apply push_events_inv|done]).
  assert (Hm1 : inbound_substreams h1 = inbound_substreams h) by (subst h1; by destruct r, h).
  assert (Hset : handler_inv (set_inbound (<[id := in_set_pending (pending_items info ++ [r]) info]>
    (inbound_substreams h1)) (inbound_substreams_delay h1) h1)).
  { pose proof Hinv1 as (Hi & _ & Hs). rewrite Hm1 in *. apply set_inbound_inv; [| |done].
    - intros i inf [[<- <-]|[Hne Hl]]%lookup_insert_Some; [|by apply Hi].
      destruct (Hi id info Hid) as (? & ? & Hin). split_and!; [done|done|].
      intros Ha. apply in_fits_app; [by apply Hin|]. constructor; [|done].
      by apply Hfit.
    - by rewrite (size_update _ _ info). }
  by destruct (state h1).
Qed.

Lemma report_inbound_inv now req h : handler_inv h -> handler_inv (report_inbound now req h).
Proof.
  intros Hinv. unfold report_inbound.
  set (h1 := match req with InGoodbye _ => _ | _ => h end).
  assert (handler_inv h1) by (subst h1; destruct req; try done; by apply shutdown_inv).
  eapply (handler_inv_same h1); [by destruct h1..|done].
Qed.

Lemma negotiated_inbound_inv now req st h :
  (asked -> request_fits req st) ->
  handler_inv h -> handler_inv (on_fully_negotiated_inbound now req st h).
Proof.
  intros Hfit Hinv. pose proof Hinv as (Hi & Ho & Hs).
  unfold on_fully_negotiated_inbound. destruct (state h); [|done..]. cbv zeta.
  destruct (0 <? _); [|by apply report_inbound_inv]. destruct (_ <? _) eqn:Hlt; bool_hyps.
  - pose proof (keeps_others_insert (current_inbound_substream_id h) (current_inbound_substream_id h)
      (resp_timeout h) (inbound_substreams_delay h)) as Hkeep.
    pose proof (dq_insert_entries (current_inbound_substream_id h) (resp_timeout h)
      (inbound_substreams_delay h)) as Hent.
    destruct (dq_insert _ _ _) as [k q]; simpl in *. apply report_inbound_inv, set_inbound_inv; [| |done].
    + intros i inf [[<- <-]|[Hne Hl]]%lookup_insert_Some.
      * split_and!; [done| |].
        -- intros k' [= <-]. by rewrite Hent, lookup_insert_eq.
        -- intros Ha%Hfit. apply bool_decide_unpack in Ha. split; [|constructor].
           cbn. by rewrite Ha.
      * eapply in_ok_keeps; [|exact Hkeep|]; [congruence|]. by apply Hi.
    + rewrite map_size_insert. case_match; simpl; lia.
  - by apply shutdown_inv, push_events_inv.
Qed.

(** The handler after the counters of [on_fully_negotiated_outbound] are
    updated and a deactivated handler has reported. *)
Lemma negotiated_outbound_spec st info h :
  handler_inv h ->
  let h' := on_fully_negotiated_outbound st info h in
  handler_inv h' /\
  max_dial_negotiated h' = max_dial_negotiated h /\
  dial_negotiated h' = wrap u32 (dial_negotiated h - 1) /\
  outbound_io_error_retries h' = 0 /\ dial_queue h' = dial_queue h /\
  (exists evs, events_out h' = events_out h ++ evs) /\
  (0 < Outbound_expected_responses info.2 -> awaiting (outbound_substreams h') info) /\
  (forall r, awaiting (outbound_substreams h) r ->
    (forall i o, outbound_substreams h !! i = Some o -> i <> current_outbound_substream_id h) ->
    awaiting (outbound_substreams h') r) /\
  (current_outbound_substream_id h' = current_outbound_substream_id h /\
   outbound_substreams h' = outbound_substreams h \/
   current_outbound_substream_id h' = wrap usize (current_outbound_substream_id h + 1) /\
   dom (outbound_substreams h') = {[current_outbound_substream_id h]} ∪ dom (outbound_substreams h)).
Proof.
  intros (Hi & Ho & Hs). destruct info as [id req]. cbv zeta. unfold on_fully_negotiated_outbound.
  set (h1 := set_retries 0 _).
  set (h2 := match state h1 with Deactivated => _ | _ => h1 end).
  assert (Hpush : exists evs, h2 = push_events evs h1).
  { subst h2. destruct (state h1); [exists []|exists []|by eexists]; by rewrite push_events_nil. }
  destruct Hpush as [evs ->]. subst h1.
  pose proof (keeps_others_insert (current_outbound_substream_id h) (current_outbound_substream_id h)
    (resp_timeout h) (outbound_substreams_delay h)) as Hkeep.
  pose proof (dq_insert_entries (current_outbound_substream_id h) (resp_timeout h)
    (outbound_substreams_delay h)) as Hent.
  destruct h as [lp ev dq dn im iq om oq ci co mx s rt tm]; cbn in *.
  destruct (0 <? Outbound_expected_responses req) eqn:Hexp; bool_hyps.
  - destruct (dq_insert co tm oq) as [k q]; cbn in *.
    split; [split_and!; cbn; try done|split_and!; cbn; try done].
    + intros i o [[<- <-]|[Hne Hl]]%lookup_insert_Some.
      * split; [done|]. cbn. by rewrite Hent, lookup_insert_eq.
      * eapply out_ok_keeps; [|exact Hkeep|]; [congruence|]. by apply Ho.
    + by eexists.
    + intros _. eexists co, _, st. by rewrite lookup_insert_eq.
    + intros r (o & inf & st' & Hl & Hst & Hr) Hfresh. exists o, inf, st'.
      rewrite lookup_insert_ne; [done|]. intros <-. by eapply Hfresh.
    + right. by rewrite dom_insert_L.
  - split; [by split_and!|]. split_and!; cbn; try done; [by eexists|lia|by left].
Qed.

(** [on_dial_upgrade_error]: a retry leaves [dial_negotiated] alone; a
    failure decrements it and reports the request. *)
Lemma dial_error_spec info err h :
  let h' := on_dial_upgrade_error info err h in
  (handler_inv h -> handler_inv h') /\
  max_dial_negotiated h' = max_dial_negotiated h /\
  outbound_substreams h' = outbound_substreams h /\
  current_outbound_substream_id h' = current_outbound_substream_id h /\
  (exists evs, events_out h' = events_out h ++ evs) /\
  (forall r, r ∈ dial_queue h -> r ∈ dial_queue h') /\
  (info ∈ dial_queue h' \/ Some info.1 ∈ map event_id (events_out h')) /\
  (if retries_dial err h
   then dial_negotiated h' = dial_negotiated h /\
        outbound_io_error_retries h' = wrap u8 (outbound_io_error_retries h + 1)
   else dial_negotiated h' = wrap u32 (dial_negotiated h - 1) /\
        outbound_io_error_retries h' = 0).
Proof.
  destruct info as [id req]. cbv zeta. unfold on_dial_upgrade_error, retries_dial.
  destruct h as [lp ev dq dn im iq om oq ci co mx s rt tm].
  destruct err as [|[]| |]; cbn;
    repeat match goal with |- context [if ?b then _ else _] => destruct b end; cbn;
    try destruct s; cbn;
    (split; [done|]); split_and!; try done;
    try (by eexists); try (exists []; by rewrite app_nil_r);
    try (intros; set_solver); try (by left; set_solver);
    right; rewrite map_app, elem_of_app; right; by left.
Qed.

Lemma accounted_mono c c' r :
  (forall r, r ∈ dial_queue (c_handler c) ->
     r ∈ dial_queue (c_handler c') \/ Some r.1 ∈ map event_id (events_out (c_handler c'))) ->
  (r ∈ c_in_flight c -> 0 < Outbound_expected_responses r.2 -> accounted c' r) ->
  (awaiting (outbound_substreams (c_handler c)) r -> awaiting (outbound_substreams (c_handler c')) r) ->
  (exists evs, events_out (c_handler c') = events_out (c_handler c) ++ evs) ->
  c_told c' = c_told c -> 0 < Outbound_expected_responses r.2 ->
  accounted c r -> accounted c' r.
Proof.
  intros Hq Hf Ha [evs He] Ht Hexp [Hr|[Hr|[Hr|[Hr|Hr]]]].
  - destruct (Hq r Hr) as [?|?]; [by left|by right; right; right; left].
  - by apply Hf.
  - right; right; left. by apply Ha.
  - right; right; right; left. rewrite He, map_app, elem_of_app. by left.
  - right; right; right; right. by rewrite Ht.
Qed.

Lemma conn_step_quiet c h' sub :
  conn_inv c -> quiet_effect (c_handler c) h' -> handler_inv h' ->
  (forall r, r ∈ sub -> r ∈ dial_queue h' \/ Some r.1 ∈ map event_id (events_out h')) ->
  conn_inv (mkConnection h' (c_in_flight c) (sub ++ c_submitted c) (c_told c) (c_retried c)).
Proof.
  intros [Hinv Hmax Hret Hdial Hretd Hb Hcur Hfresh Hacc]
    (Hm & Hd & Hr & Ho & Hod & Hc & Hev & Hq) Hinv' Hsub.
  split; cbn; rewrite ?Hm, ?Hr, ?Hd, ?Hc, ?Ho; try done.
  intros r [Hrs|Hrs]%elem_of_app Hexp.
  - destruct (Hsub r Hrs) as [?|?]; [by left|by right; right; right; left].
  - eapply (accounted_mono c); [done| |by cbn; rewrite Ho|done|done|done|by apply Hacc].
      intros Hf _. right; left. done.
Qed.

Lemma conn_step_inv c c' : conn_inv c -> conn_step c c' -> conn_inv c'.
Proof.
  intros Hci Hstep. pose proof Hci as [Hinv Hmax Hret Hdial Hretd Hb Hcur Hfresh Hacc].
  destruct Hstep as [now ev c Hfit|now req st c Hfit|now st info inf c Hperm Hroom|now info err inf c Hperm|env o h' c Hpoll].
  - destruct ev as [id req|iid resp|id reason]; cbn.
    + destruct (send_request_quiet id req (c_handler c)) as [Hq Hin].
      apply (conn_step_quiet c _ [(id, req)]); [done|done|by apply send_request_inv|].
      intros r ->%list_elem_of_singleton. done.
    + apply (conn_step_quiet c _ []); [done|apply send_response_quiet|by apply send_response_inv|].
      by intros r ?%not_elem_of_nil.
    + apply (conn_step_quiet c _ []); [done|apply shutdown_quiet|by apply shutdown_inv|].
      by intros r ?%not_elem_of_nil.
  - apply (conn_step_quiet c _ []); [done|apply negotiated_inbound_quiet|by apply negotiated_inbound_inv|].
    by intros r ?%not_elem_of_nil.
  - pose proof (Permutation_length Hperm) as Hlen. simpl in Hlen.
    destruct (negotiated_outbound_spec st info (c_handler c) Hinv)
      as (Hinv' & Hm & Hd & Hr & Hq & Hev & Haw & Hkeep & Hc).
    assert (Hd' : dial_negotiated (on_fully_negotiated_outbound st info (c_handler c))
      = dial_negotiated (c_handler c) - 1) by (rewrite Hd; apply wrap_u32_id; lia).
    split; cbn -[on_fully_negotiated_outbound]; rewrite ?Hm, ?Hr, ?Hd'; try done || lia.
    + destruct Hc as [[-> _]|[-> _]]; [done|]. rewrite wrap_id; [lia|done|].
      apply in_range_spec. unfold int_min, int_max; cbn [signed bits usize]. lia.
    + destruct Hc as [[-> ->]|[-> ->]]; [done|]. rewrite wrap_id;
        [|done|apply in_range_spec; unfold int_min, int_max; cbn [signed bits usize]; lia].
      intros i [->%elem_of_singleton|Hi]%elem_of_union; [lia|]. specialize (Hfresh i Hi). lia.
    + intros r Hrs Hexp. eapply (accounted_mono c); cbn -[on_fully_negotiated_outbound];
        [| | |done|done|done|by apply Hacc].
      * intros r'. rewrite Hq. by left.
      * intros Hf _. rewrite Hperm, elem_of_cons in Hf. destruct Hf as [->|Hf].
        -- right; right; left. by apply Haw.
        -- right; left. done.
      * intros Hr'. apply Hkeep; [done|]. intros i o Hi ->.
        apply elem_of_dom_2 in Hi. specialize (Hfresh _ Hi). lia.
  - pose proof (Permutation_length Hperm) as Hlen. simpl in Hlen.
    destruct (dial_error_spec info err (c_handler c))
      as (Hinv' & Hm & Ho & Hc & Hev & Hq & Hi & Hd).
    assert (Hd' : dial_negotiated (on_dial_upgrade_error info err (c_handler c))
        = Z.of_nat (length inf) + (c_retried c + if retries_dial err (c_handler c) then 1 else 0)).
    { destruct (retries_dial err (c_handler c)); destruct Hd as [-> _]; [lia|].
      rewrite wrap_u32_id by lia. lia. }
    split; cbn -[on_dial_upgrade_error]; rewrite ?Hm, ?Hc, ?Ho, ?Hd'; try done.
    + by apply Hinv'.
    + destruct (retries_dial err (c_handler c)) eqn:Hrt; destruct Hd as [_ ->];
        [|unfold IO_ERROR_RETRIES; lia].
      unfold retries_dial in Hrt. unfold IO_ERROR_RETRIES in *.
      destruct err as [|[]| |]; try done; bool_hyps; rewrite wrap_u8_id in * by lia; lia.
    + case_match; lia.
    + rewrite Hdial in Hb. case_match; lia.
    + intros r Hrs Hexp. eapply (accounted_mono c); cbn -[on_dial_upgrade_error];
        [| |by rewrite Ho|done|done|done|by apply Hacc].
      * intros r' Hr'. left. by apply Hq.
      * intros Hf _. rewrite Hperm, elem_of_cons in Hf. destruct Hf as [->|Hf].
        -- destruct Hi; [by left|by right; right; right; left].
        -- right; left. done.
  - pose proof (handler_poll_effect env _ Hinv) as Heff. rewrite Hpoll in Heff. cbn in Heff.
    destruct Heff as [Pinv Pmax Pret Pst Pdial Paw Pev Pin Pout Pcur].
    split; cbn; rewrite ?Pmax, ?Pret, ?Pcur; try done.
    + destruct Pdial as [(Hnd & _ & ->)|([id req] & -> & _ & Hlt & ->)].
      * destruct (output o) as [[]|]; try done; rewrite ?app_nil_r; done.
      * rewrite length_app. simpl. rewrite wrap_u32_id by lia. lia.
    + destruct Pdial as [(Hnd & _ & ->)|([id req] & _ & _ & Hlt & ->)]; [done|].
      rewrite wrap_u32_id by lia. lia.
    + intros i Hi. apply Hfresh. by apply Pout.
    + intros r Hrs Hexp. unfold accounted; cbn.
      assert (Htold : told (events_out h') (output o) r.1 ->
        Some r.1 ∈ map event_id (events_out h') \/ r.1 ∈ option_list (output_id (output o)) ++ c_told c).
      { intros [?|Ho]; [by left|]. right. rewrite Ho. simpl. by left. }
      destruct (Hacc r Hrs Hexp) as [Hr|[Hr|[Hr|[Hr|Hr]]]].
      * destruct Pdial as [(_ & -> & _)|(r0 & Ho & Hq & _)]; [by left|].
        rewrite Hq, elem_of_cons in Hr. destruct Hr as [->|Hr]; [|by left].
        right; left. rewrite Ho. destruct r0; simpl. set_solver.
      * right; left. set_solver.
      * destruct (Paw r Hr) as [?|Ht]; [by right; right; left|]. do 3 right. by apply Htold.
      * do 3 right. by apply Htold, Pev.
      * do 4 right. set_solver.
Qed.

Lemma conn_init_inv listen timeout : conn_inv (conn_init listen timeout).
Proof.
  split; cbn; try done; try lia.
  intros r Hr. by apply not_elem_of_nil in Hr.
Qed.

Lemma conn_reaches_inv c : conn_reaches c -> conn_inv c.
Proof.
  intros (listen & timeout & Hr). pose proof (conn_init_inv listen timeout) as Hi.
  induction Hr as [|c c' c'' Hstep _ IH]; [done|]. apply IH. by eapply conn_step_inv.
Qed.

(** The shutdown state machine only moves forward. *)
Definition state_rank (st : HandlerState) : Z :=
  match st with Active => 0 | ShuttingDown _ => 1 | Deactivated => 2 end.

Lemma shutdown_rank now g h :
  state_rank (state h) <= state_rank (state (handler_shutdown now g h)).
Proof. unfold handler_shutdown. destruct h as [? ? ? ? ? ? ? ? ? ? ? [] ? ?]; simpl; lia. Qed.

Lemma conn_step_rank c c' :
  conn_inv c -> conn_step c c' -> state_rank (state (c_handler c)) <= state_rank (state (c_handler c')).
Proof.
  intros Hci Hstep. destruct Hstep as [now ev c Hfit|now req st c Hfit|now st info inf c Hperm Hroom|now info err inf c Hperm|env o h' c Hpoll]; cbn -[on_fully_negotiated_inbound on_fully_negotiated_outbound on_dial_upgrade_error].
  - destruct ev as [id req|iid resp|id reason]; cbn; [| |apply shutdown_rank].
    + unfold handler_send_request. destruct (c_handler c) as [? ? ? ? ? ? ? ? ? ? ? [] ? ?]; simpl; lia.
    + unfold handler_send_response. destruct (c_handler c) as [? ? ? ? ? ? ? ? ? ? ? [] ? ?]; cbn;
        (case_match; [|simpl; lia]); destruct resp; simpl; lia.
  - unfold on_fully_negotiated_inbound, report_inbound.
    destruct (state (c_handler c)) eqn:Hs; simpl; [|rewrite Hs; simpl; lia..].
    match goal with |- 0 <= ?x => assert (forall y, 0 <= state_rank y) as Hp by (intros []; simpl; lia); apply Hp end.
  - destruct info as [id req]. unfold on_fully_negotiated_outbound.
    destruct (c_handler c) as [? ? ? ? ? ? ? ? ? ? ? [] ? ?]; cbn; destruct (0 <? _); cbn;
      try (destruct (dq_insert _ _ _)); simpl; lia.
  - destruct info as [id req]. unfold on_dial_upgrade_error, handler_send_request.
    destruct (c_handler c) as [? ? ? ? ? ? ? ? ? ? ? [] ? ?]; destruct err as [|[]| |]; cbn;
      repeat match goal with |- context [if ?b then _ else _] => destruct b end; simpl; lia.
  - pose proof (handler_poll_effect env _ (ci_handler c Hci)) as Heff. rewrite Hpoll in Heff. cbn in Heff.
    destruct (pe_state _ _ _ Heff) as [->|[[d ->] ->]]; simpl; lia.
Qed.

(** The end of a connection that has leaked all its dial slots. *)
Lemma conn_step_retried c c' : conn_step c c' -> c_retried c <= c_retried c'.
Proof. destruct 1; simpl; try lia. case_match; lia. Qed.

Lemma conn_rtc_retried c c' : rtc conn_step c c' -> c_retried c <= c_retried c'.
Proof. induction 1 as [|c c1 c2 Hs _ IH]; [lia|]. apply conn_step_retried in Hs. lia. Qed.

End polling.
End handler.
Arguments Connection {_ _} Id Substream.

(** ** Theorems *)

Section theorems.
Context `{External} `{DelayQueue Z}.
Context `{Varint} `{Snappy} `{!SszTypes}.
Context {Id Substream : Type} `{!Framed Substream}.
Context `{!MapIter Z (InboundInfo Substream)} `{!MapIter Z (OutboundInfo Id Substream)}.
Abbreviation RPCHandler := (RPCHandler Id Substream).
Abbreviation Connection := (Connection Id Substream).

(** Reachable with any behaviour, and reachable with one that sends metadata
    only on substreams on which they were requested. *)
Definition conn_reachable (c : Connection) : Prop := conn_reaches False c.
Definition conn_served (c : Connection) : Prop := conn_reaches True c.

Lemma conn_reachable_inv c : conn_reachable c -> conn_inv False c.
Proof. apply conn_reaches_inv. Qed.

(** A request is decoded as one of the protocol of its codec. *)
Lemma handle_rpc_request_protocol p b req :
  handle_rpc_request p b = Ok (Some req) -> Inbound_versioned_protocol req = p.
Proof.
  unfold handle_rpc_request, ssz. destruct p; repeat case_match; by intros [= <-].
Qed.

Lemma read_payload_handled {T} length src (handle : bytes -> result (option T) RPCError) v len rest :
  read_payload length src handle = Ret (Ok (Some v), len, rest) ->
  exists b, handle b = Ok (Some v).
Proof.
  unfold read_payload, handle_error.
  destruct (frame_read_exact _ _) as [[b|e] n]; [|destruct e; by repeat case_match].
  destruct (split_to src n); [|done]. intros [= Hh _ _]. by eauto.
Qed.

Lemma decoded_request_protocol c src req c' src' :
  Inbound_decode c src = Ret (Ok (Some req), c', src') ->
  Inbound_versioned_protocol req = versioned_protocol (Codec.in_protocol c).
Proof.
  unfold Inbound_decode. case_decide as Hmeta; [by intros [= <- _ _]; rewrite Hmeta|].
  destruct (handle_length _ _) as [[[[length|]|e] len] src1]; [|done..].
  cbv zeta. destruct (is_out_of_bounds _ _ _); [done|].
  destruct (read_payload _ _ _) as [[[r len'] rest]|] eqn:Hread; [|done]. intros [= -> _ _].
  apply read_payload_handled in Hread as [b Hb]. by apply handle_rpc_request_protocol in Hb.
Qed.

(** The substreams the handler is given fit their requests. *)
Lemma upgraded_request_fits p protocol next req st :
  (upgrade_inbound p protocol next).2 = Ok req -> framed_codec st = (upgrade_inbound p protocol next).1.2 ->
  (forall codec r, next (InboundSSZSnappy (mkBaseInboundCodec codec)) = Some (Some (Ok r)) ->
    exists src c' rest, Inbound_decode codec src = Ret (Ok (Some r), c', rest)) ->
  request_fits req st.
Proof.
  unfold upgrade_inbound, upgrade_codec. intros Hreq Hst Hnext. apply bool_decide_pack.
  unfold codec_protocol. rewrite Hst. destruct (encoding protocol). cbn in *.
  assert (Hdec : forall r, next (InboundSSZSnappy (BaseInboundCodec_new
      (SSZSnappyInboundCodec_new protocol (rpc_max_rpc_size p)))) = Some (Some (Ok r)) ->
    versioned_protocol protocol = Inbound_versioned_protocol r).
  { intros r Hr. apply Hnext in Hr as (src & c' & rest & Hd). by apply decoded_request_protocol in Hd. }
  destruct (decide (versioned_protocol protocol = MetaDataV1)) as [Hp|Hp].
  { rewrite Hp in *. by simplify_eq. }
  apply Hdec. destruct (versioned_protocol protocol); try done;
    destruct (next _) as [[[r|]|]|]; by simplify_eq.
Qed.

Lemma served_poll c env :
  conn_served c -> exists o h', handler_poll env (c_handler c) = Ret (o, h') /\
    poll_effect True (c_handler c) (output o) h'.
Proof.
  intros Hr%conn_reaches_inv.
  pose proof (handler_poll_effect True env _ (ci_handler True c Hr)) as Hp.
  destruct (handler_poll env (c_handler c)) as [[o h']|]; [by eauto|by destruct Hp].
Qed.

(** C2: polling a handler never panics, as long as metadata are sent only where
    they were requested: in every state of a connection that is reachable so,
    whatever the substreams and timers report, [poll] returns. No delay queue is
    asked for a key it does not hold, no poisoned or missing substream is
    reached, [stream_termination] is only called where it is defined, and the
    encoder that sends a response meets none of its [unreachable!] cases. *)
Theorem handler_poll_total c env :
  conn_served c -> exists o h', handler_poll env (c_handler c) = Ret (o, h').
Proof. intros (o & h' & Hp & _)%(served_poll c env). by eauto. Qed.

(** The number of outbound substreams being negotiated. In every reachable
    state at most eight are, [dial_negotiated] does not wrap, and it is the
    number of unanswered requests to open a substream plus the number of dial
    errors that were retried. *)
Theorem handler_dial_accounting c :
  conn_reachable c ->
  (length (c_in_flight c) <= 8)%nat /\ dial_negotiated (c_handler c) <= 8 /\
  dial_negotiated (c_handler c) = Z.of_nat (length (c_in_flight c)) + c_retried c.
Proof.
  intros [Hinv Hmax Hret Hdial Hretd Hb Hcur Hfresh Hacc]%conn_reachable_inv.
  split_and!; [lia|done|done].
Qed.

(** C9: no request disappears silently. In every reachable state, a request
    that was submitted and expects a response is still queued for dialing, being
    negotiated, awaiting a response, or was answered: an event with its id is
    queued or has been reported. *)
Theorem handler_requests_accounted c r :
  conn_reachable c -> r ∈ c_submitted c -> 0 < Outbound_expected_responses r.2 ->
  r ∈ dial_queue (c_handler c) \/ r ∈ c_in_flight c \/
  awaiting (outbound_substreams (c_handler c)) r \/
  Some r.1 ∈ map event_id (events_out (c_handler c)) \/ r.1 ∈ c_told c.
Proof. intros Hr%conn_reachable_inv Hs He. by apply (ci_accounted False c Hr). Qed.

(** The number of inbound substreams is bounded: at most 32 in every
    reachable state, and a request that arrives with 32 open is rejected
    with an error and shuts the handler down. *)
Theorem handler_inbound_bounded c now req st :
  conn_reachable c ->
  Z.of_nat (size (inbound_substreams (c_handler c))) <= MAX_INBOUND_SUBSTREAMS /\
  (state (c_handler c) = Active -> 0 < Inbound_expected_responses req ->
   Z.of_nat (size (inbound_substreams (c_handler c))) = MAX_INBOUND_SUBSTREAMS ->
   on_fully_negotiated_inbound now req st (c_handler c)
   = handler_shutdown now None
       (push_events [Err (ErrInbound (current_inbound_substream_id (c_handler c))
          (inbound_protocol req) HandlerRejected)] (c_handler c))).
Proof.
  intros Hr%conn_reachable_inv. destruct (ci_handler False c Hr) as (_ & _ & Hs).
  split; [done|]. intros Hact Hexp Hfull. unfold on_fully_negotiated_inbound. rewrite Hact. cbv zeta.
  apply Z.ltb_lt in Hexp as ->. by rewrite Hfull, Z.ltb_irrefl.
Qed.

(** Shutting down is irreversible and effective. No step of a reachable
    connection moves the state machine back; once it has left [Active] a
    request from the behaviour is answered with a [Disconnected] error and
    not queued, and a request from the peer is ignored. *)
Theorem handler_shutdown_irreversible c c' now id req ireq st :
  conn_reachable c -> conn_step False c c' ->
  state_rank (state (c_handler c)) <= state_rank (state (c_handler c')) /\
  (state (c_handler c) <> Active ->
   handler_send_request id req (c_handler c)
     = push_events [Err (ErrOutbound id (request_protocol req) Disconnected_)] (c_handler c) /\
   on_fully_negotiated_inbound now ireq st (c_handler c) = c_handler c).
Proof.
  intros Hr%conn_reachable_inv Hstep. split; [by apply (conn_step_rank False)|].
  intros Hs. unfold handler_send_request, on_fully_negotiated_inbound. by destruct (state (c_handler c)).
Qed.

(** Retried dials leak. A dial that fails with an I/O error is retried
    without giving its slot back: once eight dials of a connection have been
    retried, the handler never opens an outbound substream again, whatever
    happens. *)
Theorem dial_retries_exhaust_slots c c' env o h' :
  conn_reachable c -> 8 <= c_retried c -> rtc (conn_step False) c c' ->
  handler_poll env (c_handler c') = Ret (o, h') ->
  c_in_flight c' = [] /\ dialed (output o) = [].
Proof.
  intros Hr H8 Hrtc Hpoll. pose proof (conn_rtc_retried False _ _ Hrtc) as Hmono.
  assert (Hr' : conn_reachable c') by (destruct Hr as (l & t & Hr); exists l, t; by etrans).
  assert (Hlen : forall c2, conn_reachable c2 -> 8 <= c_retried c2 -> c_in_flight c2 = []).
  { intros c2 [_ _ _ Hd _ Hb _ _ _]%conn_reachable_inv H82.
    destruct (c_in_flight c2); [done|]. simpl in Hd. lia. }
  split; [apply Hlen; [done|lia]|].
  pose proof (step_poll False env o h' c' Hpoll) as Hstep.
  destruct Hr' as (l & t & Hr'). 
  assert (Hnil : c_in_flight c' ++ dialed (output o) = []).
  { apply (Hlen _ (ex_intro _ l (ex_intro _ t (rtc_r _ _ _ Hr' Hstep)))). simpl. lia. }
  by apply app_eq_nil in Hnil as [_ ->].
Qed.

(** A substream negotiated after deactivation is reported and kept. The
    request is answered with [Disconnected], and its substream is
    nevertheless stored as awaiting a response (to be reported once more when
    the deactivated handler closes it). *)
Theorem deactivated_outbound_kept (h : RPCHandler) (st : Substream) (info : Id * OutboundRequest) :
  state h = Deactivated -> 0 < Outbound_expected_responses info.2 ->
  events_out (on_fully_negotiated_outbound st info h)
    = events_out h ++ [Err (ErrOutbound info.1 (request_protocol info.2) Disconnected_)] /\
  awaiting (outbound_substreams (on_fully_negotiated_outbound st info h)) info.
Proof.
  destruct info as [id req]. intros Hs Hexp. unfold on_fully_negotiated_outbound.
  destruct h as [lp ev dq dn im iq om oq ci co mx s rt tm]; simpl in *. subst s.
  apply Z.ltb_lt in Hexp as ->. cbn. destruct (dq_insert _ _ _) as [k q]; cbn.
  split; [done|]. eexists co, _, st. by rewrite lookup_insert_eq.
Qed.

(** ** Executable runs *)

Inductive conn_action : Type :=
| DoBehaviour (ev : RPCSend Id)
| DoInbound (req : InboundRequest) (st : Substream)
| DoOutbound (st : Substream)
| DoDialError (err : StreamUpgradeError)
| DoPoll (env : PollEnv).

(** The action at time 0, by a behaviour and an upgrade that keep to the rules;
    an answer concerns the oldest dial in flight. *)
Definition conn_do (a : conn_action) (c : Connection) : option Connection :=
  match a with
  | DoBehaviour ev =>
      if answer_fits (c_handler c) ev then
        Some (mkConnection (on_behaviour_event 0 ev (c_handler c)) (c_in_flight c)
          (submitted_by ev ++ c_submitted c) (c_told c) (c_retried c))
      else None
  | DoInbound req st =>
      if request_fits req st then
        Some (mkConnection (on_connection_event 0 (FullyNegotiatedInbound req st) (c_handler c))
          (c_in_flight c) (c_submitted c) (c_told c) (c_retried c))
      else None
  | DoOutbound st =>
      match c_in_flight c with
      | info :: in_flight =>
          if current_outbound_substream_id (c_handler c) + 1 <? 2 ^ 64
          then Some (mkConnection
            (on_connection_event 0 (FullyNegotiatedOutbound st info) (c_handler c))
            in_flight (c_submitted c) (c_told c) (c_retried c))
          else None
      | [] => None
      end
  | DoDialError err =>
      match c_in_flight c with
      | info :: in_flight => Some (mkConnection
          (on_connection_event 0 (DialUpgradeError info err) (c_handler c))
          in_flight (c_submitted c) (c_told c)
          (c_retried c + if retries_dial err (c_handler c) then 1 else 0))
      | [] => None
      end
  | DoPoll env =>
      match handler_poll env (c_handler c) with
      | Ret (o, h') => Some (mkConnection h' (c_in_flight c ++ dialed (output o)) (c_submitted c)
          (option_list (output_id (output o)) ++ c_told c) (c_retried c))
      | Panic _ => None
      end
  end.

Fixpoint conn_run (acts : list conn_action) (c : Connection) : option Connection :=
  match acts with
  | [] => Some c
  | a :: acts' => match conn_do a c with Some c' => conn_run acts' c' | None => None end
  end.

Lemma conn_do_step asked a c c' : conn_do a c = Some c' -> conn_step asked c c'.
Proof.
  destruct a as [ev|req st|st|err|env]; unfold conn_do; intros Hc.
  - destruct (answer_fits _ _) eqn:Hf; [|done]. injection Hc as <-.
    apply (step_behaviour _ 0). by rewrite Hf.
  - destruct (request_fits _ _) eqn:Hf; [|done]. injection Hc as <-.
    apply (step_inbound _ 0). by rewrite Hf.
  - destruct (c_in_flight c) as [|info l] eqn:Hf; [done|].
    destruct (_ <? _) eqn:Hlt; [|done]. injection Hc as <-. bool_hyps.
    apply (step_outbound _ 0); [by rewrite Hf|lia].
  - destruct (c_in_flight c) as [|info l] eqn:Hf; [done|]. injection Hc as <-.
    apply (step_dial_error _ 0). by rewrite Hf.
  - destruct (handler_poll env (c_handler c)) as [[o h']|] eqn:Hp; [|done].
    injection Hc as <-. by eapply step_poll.
Qed.

Lemma conn_run_reaches asked acts listen timeout c :
  conn_run acts (conn_init listen timeout) = Some c -> conn_reaches asked c.
Proof.
  intros Hrun. exists listen, timeout. revert Hrun.
  match goal with |- conn_run _ ?c0 = _ -> _ => generalize c0 end.
  induction acts as [|a acts IH]; simpl; intros c0 Hrun; simplify_eq; [done|].
  destruct (conn_do a c0) as [c1|] eqn:Ha; [|done].
  eapply rtc_l; [by eapply conn_do_step|]. by apply IH.
Qed.
End theorems.
Arguments conn_action {_} Id Substream.

(** Substreams that are their codecs. *)
Section demo.
#[local] Existing Instance demo_external.
#[local] Existing Instance demo_varint.
#[local] Existing Instance demo_snappy.
#[local] Existing Instance demo_ssz.
#[local] Instance demo_queue : DelayQueue Z := demo_delay_queue Z.
#[local] Instance demo_framed : Framed InboundCodec := {| framed_codec := fun codec => codec |}.
#[local] Instance demo_in_iter : MapIter Z (InboundInfo InboundCodec) := canonical_map_iter Z _.
#[local] Instance demo_out_iter : MapIter Z (OutboundInfo Z InboundCodec) := canonical_map_iter Z _.

(** A quiet environment: no timer fires and no substream makes progress; and
    one in which every message is sent. *)
Definition quiet_env : PollEnv :=
  mkPollEnv 0 [] [] (fun _ => []) (fun _ => false) (fun _ => Pending) (fun _ => Pending)
    (fun _ => false).
Definition sending_env : PollEnv :=
  mkPollEnv 0 [] [] (fun _ => [mkSendReport (Ok tt) (Ok tt) (Ok tt)]) (fun _ => true)
    (fun _ => Pending) (fun _ => Pending) (fun _ => false).

Definition demo_listen : RPCProtocol := mkRPCProtocol 1048576 (from_secs 5).
Definition demo_init : Connection Z InboundCodec := conn_init demo_listen (from_secs 10).
Definition demo_substream (p : SupportedProtocol) : InboundCodec :=
  upgrade_codec demo_listen (ProtocolId_new p SSZSnappy).

(** Each ping is dialed, fails with an I/O error and is retried. *)
Definition leak_actions : list (conn_action Z InboundCodec) :=
  let dial_and_fail := [DoPoll quiet_env; DoDialError (UpgradeIo "connection reset")] in
  let ping n := [DoBehaviour (SendRequest n (OutPing (mkPing n)))] in
  ping 1 ++ dial_and_fail ++ dial_and_fail ++ dial_and_fail ++ [DoPoll quiet_env] ++
  ping 2 ++ dial_and_fail ++ dial_and_fail ++ dial_and_fail ++ [DoPoll quiet_env] ++
  ping 3 ++ dial_and_fail ++ dial_and_fail ++ dial_and_fail ++ [DoPoll quiet_env] ++
  ping 4 ++ dial_and_fail ++ dial_and_fail.

Definition leak_connection : Connection Z InboundCodec :=
  default demo_init (conn_run leak_actions demo_init).

Lemma leak_reaches asked : conn_reaches asked leak_connection.
Proof.
  apply (conn_run_reaches asked leak_actions demo_listen (from_secs 10)).
  assert (Hrun : match conn_run leak_actions demo_init with Some _ => true | None => false end = true)
    by (vm_compute; reflexivity).
  unfold leak_connection, demo_init in *. by destruct (conn_run leak_actions _).
Qed.
Lemma leak_reachable : conn_reachable leak_connection.
Proof. apply leak_reaches. Qed.

(** Metadata are requested on a substream and sent as the answer. *)
Definition metadata_answer : RPCCodedResponse := Success (RMetaData (mkMetaData 3 [])).

Definition served_actions : list (conn_action Z InboundCodec) :=
  [DoInbound InMetaData (demo_substream MetaDataV1);
   DoInbound (InPing (mkPing 7)) (demo_substream PingV1);
   DoPoll quiet_env; DoPoll quiet_env;
   DoBehaviour (SendResponse 0 metadata_answer);
   DoBehaviour (SendResponse 1 (Success (RPong (mkPing 3))))].

Definition served_connection : Connection Z InboundCodec :=
  default demo_init (conn_run served_actions demo_init).

Lemma served_run : conn_run served_actions demo_init = Some served_connection.
Proof. vm_compute. reflexivity. Qed.

Lemma handler_poll_total_witness :
  (exists info, inbound_substreams (c_handler served_connection) !! 0 = Some info /\
     pending_items info = [metadata_answer]) /\
  exists o h', handler_poll sending_env (c_handler served_connection) = Ret (o, h').
Proof.
  split; [eexists; split; vm_compute; reflexivity|].
  apply (handler_poll_total served_connection sending_env).
  apply (conn_run_reaches True served_actions demo_listen (from_secs 10)). exact served_run.
Defined.

(** The answers are sent, and their substreams closed and removed. *)
Example served_answers_sent :
  exists h', handler_poll sending_env (c_handler served_connection) = Ret (Pending, h') /\
    inbound_substreams h' = ∅.
Proof. eexists. split; vm_compute; reflexivity. Qed.

(** Without the rule, polling can panic: metadata sent on the substream of a
    ping reach the [unreachable!] of the encoder, when the message is sent as
    well as when the sink is ready and the flush is pending. *)
Example metadata_for_ping_panics :
  let h := on_behaviour_event 0 (SendResponse 0 metadata_answer)
    (set_events_out [] (on_connection_event 0
      (FullyNegotiatedInbound (InPing (mkPing 7)) (demo_substream PingV1))
      (c_handler demo_init))) in
  let stuck := mkPollEnv 0 [] [] (fun _ => []) (fun _ => true) (fun _ => Pending)
    (fun _ => Pending) (fun _ => false) in
  is_ret (handler_poll sending_env h) = false /\ is_ret (handler_poll stuck h) = false /\
  is_ret (handler_poll quiet_env h) = true.
Proof. vm_compute. done. Qed.

Lemma handler_dial_accounting_witness :
  (length (c_in_flight leak_connection) <= 8)%nat /\
  dial_negotiated (c_handler leak_connection) <= 8 /\
  dial_negotiated (c_handler leak_connection)
    = Z.of_nat (length (c_in_flight leak_connection)) + c_retried leak_connection.
Proof. apply (handler_dial_accounting leak_connection leak_reachable). Defined.

Lemma handler_requests_accounted_witness :
  (4, OutPing (mkPing 4)) ∈ dial_queue (c_handler leak_connection) \/
  (4, OutPing (mkPing 4)) ∈ c_in_flight leak_connection \/
  awaiting (outbound_substreams (c_handler leak_connection)) (4, OutPing (mkPing 4)) \/
  Some 4 ∈ map event_id (events_out (c_handler leak_connection)) \/ 4 ∈ c_told leak_connection.
Proof.
  apply (handler_requests_accounted leak_connection (4, OutPing (mkPing 4)) leak_reachable).
  - vm_compute. by left.
  - done.
Defined.

Lemma handler_inbound_bounded_witness :
  Z.of_nat (size (inbound_substreams (c_handler leak_connection))) <= MAX_INBOUND_SUBSTREAMS.
Proof. apply (handler_inbound_bounded leak_connection 0 (InPing (mkPing 1)) (demo_substream PingV1)
  leak_reachable). Defined.

Lemma handler_shutdown_irreversible_witness :
  let c' := mkConnection (on_behaviour_event 0 (SendShutdown 9 Fault) (c_handler leak_connection))
    (c_in_flight leak_connection) (submitted_by (SendShutdown 9 Fault) ++ c_submitted leak_connection)
    (c_told leak_connection) (c_retried leak_connection) in
  state_rank (state (c_handler leak_connection)) <= state_rank (state (c_handler c')).
Proof.
  apply (handler_shutdown_irreversible leak_connection _ 0 1 (OutPing (mkPing 1))
    (InPing (mkPing 1)) (demo_substream PingV1) leak_reachable
    (step_behaviour False 0 (SendShutdown 9 Fault) leak_connection (fun _ => I))).
Defined.

Lemma dial_retries_exhaust_slots_witness :
  dial_queue (c_handler leak_connection) = [(4, OutPing (mkPing 4))] /\
  exists o h', handler_poll quiet_env (c_handler leak_connection) = Ret (o, h') /\
    c_in_flight leak_connection = [] /\ dialed (output o) = [].
Proof.
  split; [vm_compute; reflexivity|].
  destruct (served_poll leak_connection quiet_env (leak_reaches True)) as (o & h' & Hp & _).
  exists o, h'. split; [exact Hp|].
  apply (dial_retries_exhaust_slots leak_connection leak_connection quiet_env o h' leak_reachable);
    [vm_compute; discriminate|apply rtc_refl|exact Hp].
Defined.

Definition deactivated_handler : RPCHandler Z InboundCodec :=
  set_state Deactivated (set_dial [] 1 (RPCHandler_new demo_listen (from_secs 10))).

Lemma deactivated_outbound_kept_witness :
  let info := (7, OutPing (mkPing 7)) in
  events_out (on_fully_negotiated_outbound (demo_substream PingV1) info deactivated_handler)
    = [Err (ErrOutbound 7 PingProtocol Disconnected_)] /\
  awaiting (outbound_substreams (on_fully_negotiated_outbound (demo_substream PingV1) info deactivated_handler)) info.
Proof. apply (deactivated_outbound_kept deactivated_handler (demo_substream PingV1) (7, OutPing (mkPing 7))); done. Defined.
End demo.
