(* ===== verification/Display.v ===== *)
(** * The texts of RPC messages

    Models the [Display] impls of [rpc/methods.rs], [rpc/protocol.rs], [rpc/outbound.rs] and [rpc/mod.rs], which make the texts of log
    messages, with the check of UTF-8 of the standard library. Texts that libraries derive are
    the class [DebugText]. Formatting a response can panic, and the handler formats
    the response it refuses to send when it is deactivated. *)

From Stdlib.Init Require Import Byte.
From S2P Require Import Prelude RustStr External RpcTypes Wire DelayQueue Handler.

(** ** [std::str::from_utf8] *)

Definition byte_in (lo hi : Z) (b : byte) : bool := let n := Z.of_N (Byte.to_N b) in (lo <=? n) && (n <=? hi).
Definition continuation : byte -> bool := byte_in 0x80 0xbf.

(** Characters of one to four bytes, each written in the shortest way, no surrogates, up to U+10FFFF. *)
Fixpoint utf8_valid (b : list byte) : bool :=
  match b with
  | [] => true
  | b0 :: rest =>
      if byte_in 0 0x7f b0 then utf8_valid rest
      else match rest with
      | b1 :: rest1 =>
          if byte_in 0xc2 0xdf b0 then continuation b1 && utf8_valid rest1
          else match rest1 with
          | b2 :: rest2 =>
              if byte_in 0xe0 0xef b0 then
                (if byte_in 0xe0 0xe0 b0 then byte_in 0xa0 0xbf b1
                 else if byte_in 0xed 0xed b0 then byte_in 0x80 0x9f b1 else continuation b1)
                && continuation b2 && utf8_valid rest2
              else match rest2 with
              | b3 :: rest3 =>
                  byte_in 0xf0 0xf4 b0
                  && (if byte_in 0xf0 0xf0 b0 then byte_in 0x90 0xbf b1
                      else if byte_in 0xf4 0xf4 b0 then byte_in 0x80 0x8f b1 else continuation b1)
                  && continuation b2 && continuation b3 && utf8_valid rest3
              | [] => false
              end
          | [] => false
          end
      | [] => false
      end
  end.

(** [from_utf8(..).unwrap()]. *)
Definition from_utf8_unwrap (b : bytes) : outcome string :=
  if utf8_valid b then Ret (string_of_bytes b) else Panic "called `Result::unwrap()` on an `Err` value: Utf8Error".

(** ** Texts *)

(** Derived [Debug] impls and the text of a hash. *)
Class DebugText `{External} := {
  debug_hashes : list bytes -> string;
  debug_cursor : bytes -> string;
  debug_ops : list UserOperation -> string;
  debug_ops_request : PooledUserOpsByHashRequest -> string;
  debug_decode_error : DecodeError -> string;
  h256_display : Z -> string;
}.

Section display.
Context `{External} `{!DebugText}.

Definition RPCResponseErrorCode_display (c : RPCResponseErrorCode) : string :=
  match c with
  | InvalidRequest => "The request was invalid"
  | ResourceUnavailable => "Resource unavailable"
  | ServerError => "Server error occurred"
  | UnknownCode => "Unknown error occurred"
  | RateLimited => "Rate limited"
  end.

Definition StatusMessage_display (s : StatusMessage) : string :=
  "Status Message: chain_id: " +:+ dec (chain_id s) +:+ " " +:+ h256_display (block_hash s) +:+ " " +:+ dec (block_number s).

Definition RPCResponse_display (r : RPCResponse) : outcome string :=
  match r with
  | RStatus status => Ret (StatusMessage_display status)
  | RPooledUserOpHashes r =>
      c <-! from_utf8_unwrap (next_cursor r);
      Ret ("PooledUserOpHashes: next_cursor: " +:+ c +:+ ", Hashes: " +:+ debug_hashes (hashes r))
  | RPooledUserOpsByHash r => Ret ("PooledUserOpsByHash: List: " +:+ debug_ops (ops_list r))
  | RPong ping => Ret ("Pong: " +:+ dec (ping_data ping))
  | RMetaData metadata => Ret ("Metadata: " +:+ dec (seq_number metadata))
  end.

Definition RPCCodedResponse_display (r : RPCCodedResponse) : outcome string :=
  match r with
  | Success res => RPCResponse_display res
  | CodedError code err => Ret (RPCResponseErrorCode_display code +:+ ": " +:+ ErrorType_to_string err)
  | StreamTermination _ => Ret "Stream Termination"
  end.

Definition GoodbyeReason_display (r : GoodbyeReason) : string :=
  match r with
  | ClientShutdown => "Client Shutdown"
  | IrrelevantNetwork => "Irrelevant Network"
  | Fault => "Fault"
  | UnableToVerifyNetwork => "Unable to verify network"
  | TooManyPeers => "Too many peers"
  | BadScore => "Bad Score"
  | GoodbyeBanned => "Banned"
  | BannedIP => "BannedIP"
  | GoodbyeUnknown => "Unknown Reason"
  end.

Definition PooledUserOpHashesRequest_display (r : PooledUserOpHashesRequest) : string := "Cursor: " +:+ debug_cursor (cursor r).
Definition PooledUserOpsByHashRequest_display (r : PooledUserOpsByHashRequest) : string := "Hashes: " +:+ debug_hashes (req_hashes r).

Definition RPCError_display (e : RPCError) : string :=
  match e with
  | SSZDecodeError err => "Error while decoding ssz: " +:+ debug_decode_error err
  | InvalidData err => "Peer sent unexpected data: " +:+ err
  | IoError err => "IO Error: " +:+ err
  | ErrorResponse code reason =>
      "RPC response was an error: " +:+ RPCResponseErrorCode_display code +:+ " with reason: " +:+ reason
  | StreamTimeout => "Stream Timeout"
  | UnsupportedProtocol => "Peer does not support the protocol"
  | IncompleteStream => "Stream ended unexpectedly"
  | InternalError err => "Internal error: " +:+ err
  | NegotiationTimeout => "Negotiation timeout"
  | HandlerRejected => "Handler rejected the request"
  | Disconnected_ => "Gracefully Disconnected"
  end.

Definition InboundRequest_display (r : InboundRequest) : string :=
  match r with
  | InStatus status => "Status Message: " +:+ StatusMessage_display status
  | InGoodbye reason => "Goodbye: " +:+ GoodbyeReason_display reason
  | InPing ping => "Ping: " +:+ dec (ping_data ping)
  | InMetaData => "MetaData request"
  | InPooledUserOpHashes req => "Pooled UserOp Hashes: " +:+ PooledUserOpHashesRequest_display req
  | InPooledUserOpsByHash req => "Pooled UserOps ByHash: " +:+ debug_ops_request req
  end.

Definition OutboundRequest_display (r : OutboundRequest) : string :=
  match r with
  | OutStatus status => "Status Message: " +:+ StatusMessage_display status
  | OutGoodbye reason => "Goodbye: " +:+ GoodbyeReason_display reason
  | OutPooledUserOpHashes req => "Pooled UserOp Hashes: " +:+ PooledUserOpHashesRequest_display req
  | OutPooledUserOpsByHash req => "Pooled UserOps By Hash: " +:+ debug_ops_request req
  | OutPing ping => "Ping: " +:+ dec (ping_data ping)
  | OutMetaData => "MetaData request"
  end.

(** [RPCSend], given the text of a request id. *)
Definition RPCSend_display {Id} (debug_id : Id -> string) (s : RPCSend Id) : outcome string :=
  match s with
  | SendRequest id req => Ret ("RPC Request(id: " +:+ debug_id id +:+ ", " +:+ OutboundRequest_display req +:+ ")")
  | SendResponse id res => t <-! RPCCodedResponse_display res; Ret ("RPC Response(id: " +:+ dec id +:+ ", " +:+ t +:+ ")")
  | SendShutdown _ reason => Ret ("Sending Goodbye: " +:+ GoodbyeReason_display reason)
  end.

(** ** The handler's log *)

Context `{DelayQueue Z} {Id Substream : Type}.

(** [RPCHandler::send_response] with the messages it logs. The logger of the program drops traces before they are formatted; debug
    messages are formatted by the task that logs them. *)
Definition send_response_logged (inbound_id : Z) (response : RPCCodedResponse) (h : RPCHandler Id Substream)
  : outcome (RPCHandler Id Substream) :=
  match inbound_substreams h !! inbound_id, state h with
  | Some _, Deactivated => _ <-! RPCCodedResponse_display response; Ret (handler_send_response inbound_id response h)
  | _, _ => Ret (handler_send_response inbound_id response h)
  end.

(** Sending a response never panics, except when the handler is deactivated while the substream is still there and the response
    is a list of hashes whose cursor is not UTF-8: then the message that says the response was not sent cannot be
    formatted. In every other case the handler is as [handler_send_response] says. *)
Theorem response_log_panics inbound_id response (h : RPCHandler Id Substream) :
  match send_response_logged inbound_id response h with
  | Ret h' => h' = handler_send_response inbound_id response h
  | Panic _ => state h = Deactivated /\ is_Some (inbound_substreams h !! inbound_id) /\
      exists r, response = Success (RPooledUserOpHashes r) /\ utf8_valid (next_cursor r) = false
  end /\
  (forall r, response = Success (RPooledUserOpHashes r) -> utf8_valid (next_cursor r) = false -> state h = Deactivated ->
     is_Some (inbound_substreams h !! inbound_id) -> is_ret (send_response_logged inbound_id response h) = false).
Proof.
  unfold send_response_logged. split.
  - destruct (inbound_substreams h !! inbound_id) as [info|]; [|done]. destruct (state h); try done.
    destruct response as [ [| r | | |]| |]; cbn; try done. unfold from_utf8_unwrap.
    destruct (utf8_valid (next_cursor r)) eqn:E; cbn; [done|]. split_and!; [done|done|eauto].
  - intros r -> Hu Hs [info ->]. rewrite Hs. cbn. unfold from_utf8_unwrap. by rewrite Hu.
Qed.
End display.

(** Text in ASCII, with an accent, and what a hash may be. *)
Example utf8_examples : map utf8_valid [[x61; x62]; [xc3; xa9]; [xe2; x82; xac]; [xf0; x9f; x98; x80]; replicate 32 x00;
    [xff]; [xc3]; [xc0; x80]; [xed; xa0; x80]; [xf4; x90; x80; x80]] =
  [true; true; true; true; true; false; false; false; false; false].
Proof. vm_compute. reflexivity. Qed.
