(* ===== verification/RpcBehaviour.v ===== *)
(** * The RPC network behaviour

    Models the [RPC] struct of [src/rpc/mod.rs]: it routes requests and
    responses between the application and the connection handlers, checks
    inbound requests against the rate limiter and our own requests against the
    self limiter. The theorems say what becomes of an inbound request, of a
    submitted request, and in which order events leave. *)

From S2P Require Import Prelude RustStr External RpcTypes RateLimiter SelfLimiter DelayQueue Handler.

Section rpc.
Context `{External} `{DelayQueue Z} {Id Substream : Type}.

Record NetworkParams : Type := mkNetworkParams {
  max_chunk_size : Z;
  np_ttfb_timeout : Duration;
  np_resp_timeout : Duration;
}.

Record RPC : Type := mkRPC {
  rpc_limiter : option RPCRateLimiter;
  rpc_self_limiter : option (SelfRateLimiter Id);
  rpc_events : list (BehaviourAction Id);
  rpc_network_params : NetworkParams;
}.

Definition rpc_push (e : BehaviourAction Id) (r : RPC) : RPC :=
  mkRPC (rpc_limiter r) (rpc_self_limiter r) (rpc_events r ++ [e]) (rpc_network_params r).

(** [new] panics on a configuration no limiter can be built from. *)
Definition RPC_new (now : Instant) (inbound outbound : option RateLimiterConfig)
    (params : NetworkParams) : outcome RPC :=
  lim <-! match inbound with
    | Some config =>
        match new_with_config now config with
        | Ok l => Ret (Some l)
        | Err _ => Panic "Inbound limiter configuration parameters are valid"
        end
    | None => Ret None
    end ;
  self <-! match outbound with
    | Some config =>
        match SelfRateLimiter_new now config with
        | Ok l => Ret (Some l)
        | Err _ => Panic "Configuration parameters are valid"
        end
    | None => Ret None
    end ;
  Ret (mkRPC lim self [] params).

Definition rpc_send_response (peer_id : PeerId) (id : Z * Z) (event : RPCCodedResponse) (r : RPC)
  : RPC :=
  rpc_push (ActNotifyHandler peer_id (NotifyOne id.1) (SendResponse id.2 event)) r.

Definition rpc_send_request (now : Instant) (peer_id : PeerId) (request_id : Id)
    (req : OutboundRequest) (r : RPC) : RPC :=
  match rpc_self_limiter r with
  | Some self_limiter =>
      match SelfRateLimiter_allows now peer_id request_id req self_limiter with
      | (Ok event, self') =>
          rpc_push event (mkRPC (rpc_limiter r) (Some self') (rpc_events r) (rpc_network_params r))
      | (Err _, self') =>
          mkRPC (rpc_limiter r) (Some self') (rpc_events r) (rpc_network_params r)
      end
  | None => rpc_push (ActNotifyHandler peer_id NotifyAny (SendRequest request_id req)) r
  end.

Definition rpc_shutdown (peer_id : PeerId) (id : Id) (reason : GoodbyeReason) (r : RPC) : RPC :=
  rpc_push (ActNotifyHandler peer_id NotifyAny (SendShutdown id reason)) r.

(** [handle_established_inbound_connection] and [.._outbound_connection]: a new
    handler with the network parameters. *)
Definition handle_established_connection (r : RPC) : RPCHandler Id Substream :=
  RPCHandler_new
    (mkRPCProtocol (max_rpc_size (max_chunk_size (rpc_network_params r)))
       (np_ttfb_timeout (rpc_network_params r)))
    (np_resp_timeout (rpc_network_params r)).

Definition on_connection_handler_event (now : Instant) (peer_id : PeerId) (conn_id : Z)
    (event : HandlerEvent Id) (r : RPC) : RPC :=
  let forward := ActGenerateEvent (mkRPCMessage peer_id conn_id event) in
  match event with
  | Ok (RecvRequest id req) =>
      match rpc_limiter r with
      | Some lim =>
          let '(answer, lim') := RPCRateLimiter_allows now peer_id req lim in
          let r' := mkRPC (Some lim') (rpc_self_limiter r) (rpc_events r) (rpc_network_params r) in
          match answer with
          | Ok _ => rpc_push forward r'
          | Err TooLarge =>
              rpc_send_response peer_id (conn_id, id)
                (CodedError RateLimited (ErrorType_from "Rate limited. Request too large")) r'
          | Err (TooSoon wait_time) =>
              rpc_send_response peer_id (conn_id, id)
                (CodedError RateLimited
                  (ErrorType_from ("Wait " +:+ duration_debug wait_time))) r'
          end
      | None => rpc_push forward r
      end
  | _ => rpc_push forward r
  end.

(** [poll], with the ticks of the limiters' timers and the delay queue entry
    that has expired; [clock] is read while delayed requests are retried. *)
Definition rpc_poll (clock : nat -> Instant) (ticks self_ticks : list Instant) (expired : option nat)
    (r : RPC) : poll (BehaviourAction Id) * RPC :=
  let lim := (fun l => (RPCRateLimiter_poll ticks l).2) <$> rpc_limiter r in
  let '(self, events) :=
    match rpc_self_limiter r with
    | Some s =>
        match poll_ready clock expired self_ticks s with
        | (Ready event, s') => (Some s', rpc_events r ++ [event])
        | (Pending, s') => (Some s', rpc_events r)
        end
    | None => (None, rpc_events r)
    end in
  match events with
  | e :: events' => (Ready e, mkRPC lim self events' (rpc_network_params r))
  | [] => (Pending, mkRPC lim self [] (rpc_network_params r))
  end.

(** ** Theorems *)

(** The actions that concern an inbound request: handing it to the application,
    or answering it with a rate limit error. *)
Definition request_actions (peer_id : PeerId) (conn_id id : Z) (req : InboundRequest)
    (a : BehaviourAction Id) : Prop :=
  a = ActGenerateEvent (mkRPCMessage peer_id conn_id (Ok (RecvRequest id req))) \/
  exists msg, a = ActNotifyHandler peer_id (NotifyOne conn_id)
    (SendResponse id (CodedError RateLimited msg)).

(** Every event of a handler produces exactly one action, behind those
    already queued. An inbound request is handed to the application
    unchanged exactly when there is no limiter or the limiter grants it, and
    otherwise answered with a rate limit error on its own substream; every other
    event is handed over. The self limiter is not touched. *)
Theorem rpc_inbound_event now peer_id conn_id event r :
  let r' := on_connection_handler_event now peer_id conn_id event r in
  exists a, rpc_events r' = rpc_events r ++ [a] /\
  rpc_self_limiter r' = rpc_self_limiter r /\
  match event with
  | Ok (RecvRequest id req) =>
      request_actions peer_id conn_id id req a /\
      (a = ActGenerateEvent (mkRPCMessage peer_id conn_id event) <->
       match rpc_limiter r with
       | Some lim => is_ok (RPCRateLimiter_allows now peer_id req lim).1 = true
       | None => True
       end)
  | _ => a = ActGenerateEvent (mkRPCMessage peer_id conn_id event)
  end.
Proof.
  unfold on_connection_handler_event, request_actions.
  destruct event as [[id req|id resp|id t]|e]; [|by eexists..].
  destruct (rpc_limiter r) as [lim|]; [|eexists; naive_solver].
  destruct (RPCRateLimiter_allows now peer_id req lim) as [[u|[|w]] lim']; simpl.
  - eexists. split_and!; [done|done|by left|done].
  - eexists. split_and!; [done|done|by right; eexists|done].
  - eexists. split_and!; [done|done|by right; eexists|done].
Qed.

(** The requests the behaviour holds: queued to leave or in the self limiter. *)
Definition rpc_held (r : RPC) : list (BehaviourAction Id) :=
  rpc_events r ++ match rpc_self_limiter r with Some s => held s | None => [] end.

Lemma rpc_send_held now peer_id request_id req r :
  Permutation (rpc_held (rpc_send_request now peer_id request_id req r))
    (ActNotifyHandler peer_id NotifyAny (SendRequest request_id req) :: rpc_held r).
Proof.
  unfold rpc_send_request, rpc_held. destruct (rpc_self_limiter r) as [s|] eqn:Hs; simpl.
  - pose proof (self_step_conserves (Submit now peer_id request_id req) s) as Hc. simpl in Hc.
    unfold send_event in Hc. simpl in Hc.
    destruct (SelfRateLimiter_allows now peer_id request_id req s) as [[e|e] s']; simpl in *.
    + rewrite <- (assoc_L (++)). simpl. rewrite Hc. solve_Permutation.
    + rewrite Hc. solve_Permutation.
  - rewrite Hs, !app_nil_r. solve_Permutation.
Qed.

Lemma rpc_poll_held clock ticks self_ticks expired r :
  let '(out, r') := rpc_poll clock ticks self_ticks expired r in
  Permutation (match out with Ready a => [a] | Pending => [] end ++ rpc_held r') (rpc_held r).
Proof.
  unfold rpc_poll, rpc_held. destruct (rpc_self_limiter r) as [s|] eqn:Hs; simpl.
  - pose proof (self_step_conserves (PollReady clock expired self_ticks) s) as Hc. simpl in Hc.
    destruct (poll_ready clock expired self_ticks s) as [[e|] s']; simpl in *.
    + destruct (rpc_events r) as [|a evs]; simpl; [done|].
      rewrite <- (assoc_L (++)). simpl. by rewrite Hc.
    + destruct (rpc_events r) as [|a evs]; simpl; by rewrite Hc.
  - destruct (rpc_events r) as [|a evs]; done.
Qed.

Lemma rpc_push_held e r : Permutation (rpc_held (rpc_push e r)) (e :: rpc_held r).
Proof. unfold rpc_held, rpc_push; simpl. solve_Permutation. Qed.

(** A submitted request is never lost or duplicated by the behaviour, and
    polling takes exactly the action it returns: what the behaviour holds
    afterwards together with what left is what it held before plus the
    submitted request. *)
Theorem rpc_requests_conserved now clock peer_id request_id req ticks self_ticks expired r :
  Permutation (rpc_held (rpc_send_request now peer_id request_id req r))
    (ActNotifyHandler peer_id NotifyAny (SendRequest request_id req) :: rpc_held r) /\
  let '(out, r') := rpc_poll clock ticks self_ticks expired r in
  Permutation (match out with Ready a => [a] | Pending => [] end ++ rpc_held r') (rpc_held r).
Proof. split; [apply rpc_send_held|apply rpc_poll_held]. Qed.

(** Actions leave in the order in which they were queued: polling returns
    the oldest one. *)
Theorem rpc_poll_fifo clock ticks self_ticks expired r a evs :
  rpc_events r = a :: evs ->
  let '(out, r') := rpc_poll clock ticks self_ticks expired r in
  out = Ready a /\ (rpc_events r' = evs \/ exists b, rpc_events r' = evs ++ [b]).
Proof.
  intros He. unfold rpc_poll. rewrite He. destruct (rpc_self_limiter r) as [s|]; simpl; [|by auto].
  destruct (poll_ready clock expired self_ticks s) as [[e|] s']; simpl; eauto.
Qed.
End rpc.
Arguments RPC {_} Id.

(** A behaviour without limiters, with a goodbye queued. *)
Definition demo_params : NetworkParams := mkNetworkParams 1048576 (from_secs 5) (from_secs 10).
Definition demo_rpc : @RPC demo_external Z :=
  rpc_shutdown demo_peer 1 Fault (mkRPC None None [] demo_params).

Lemma rpc_poll_fifo_witness :
  let '(out, r') := rpc_poll (fun _ => 0) [] [] None demo_rpc in
  out = Ready (ActNotifyHandler demo_peer NotifyAny (SendShutdown 1 Fault)) /\
  (rpc_events r' = [] \/ exists b, rpc_events r' = [] ++ [b]).
Proof.
  apply (rpc_poll_fifo (fun _ => 0) [] [] None demo_rpc
    (ActNotifyHandler demo_peer NotifyAny (SendShutdown 1 Fault)) []).
  reflexivity.
Defined.
