(* ===== verification/Service.v ===== *)
(** * The network service

    Models [src/service/mod.rs], [api_types.rs], [behaviour.rs], the metadata file of
    [utils.rs] and the shared state of [types/globals.rs]: the network combines the
    gossip, RPC, discovery and peer manager behaviours, translates their events into
    events for the application and into calls of each other, and offers the
    application its interface. The peer database that the code shares behind a lock
    is that of the peer manager. Of libp2p, the gossip behaviour and the block list are
    classes; what the swarm reports is an argument of [poll_network], one [SwarmTurn] per
    step of the swarm. A turn that polls one of our own behaviours runs its model and
    delivers the event it generates. Logs and metrics are left out. *)

From Stdlib.Init Require Import Byte.
From S2P Require Import Prelude RustStr External Float64 Score RpcTypes Wire LruTimeCache Client PeerInfo PeerDB Topics.
From S2P Require Import PeerManager RateLimiter NetConfig EnrRecords Discovery SelfLimiter DelayQueue GossipCache Handler RpcBehaviour.

(** ** [api_types.rs] *)

Inductive RequestId (AppReqId : Type) : Type :=
| Application (id : AppReqId)
| Internal.
Arguments Application {_} id.
Arguments Internal {_}.

Inductive Request : Type :=
| ReqStatus (s : StatusMessage)
| ReqPooledUserOpHashes (r : PooledUserOpHashesRequest)
| ReqPooledUserOpsByHash (r : PooledUserOpsByHashRequest).

Definition OutboundRequest_from (req : Request) : OutboundRequest :=
  match req with
  | ReqPooledUserOpHashes r => OutPooledUserOpHashes r
  | ReqPooledUserOpsByHash r => OutPooledUserOpsByHash r
  | ReqStatus s => OutStatus s
  end.

Inductive Response : Type :=
| RespStatus (s : StatusMessage)
| RespPooledUserOpHashes (r : option PooledUserOpHashes)
| RespPooledUserOpsByHash (r : option PooledUserOpsByHash).

Definition RPCCodedResponse_from (resp : Response) : RPCCodedResponse :=
  match resp with
  | RespPooledUserOpHashes r =>
      match r with
      | Some b => Success (RPooledUserOpHashes b)
      | None => StreamTermination TermPooledUserOpHashes
      end
  | RespPooledUserOpsByHash r =>
      match r with
      | Some b => Success (RPooledUserOpsByHash b)
      | None => StreamTermination TermPooledUserOpsByHash
      end
  | RespStatus s => Success (RStatus s)
  end.

(** ** The metadata file ([utils.rs]) *)

(** The readable content of the file, if any. *)
Definition MetaFile : Type := option bytes.

Section metadata.
Context `{External} `{!SszTypes}.

Definition save_metadata_to_disk (write : WriteAttempt) (metadata : MetaData) (file : MetaFile) : MetaFile :=
  match write with
  | CreateFails => file
  | WriteFails n => Some (take n (as_ssz_bytes metadata))
  | Written => Some (as_ssz_bytes metadata)
  end.

Definition load_or_build_metadata (write : WriteAttempt) (file : MetaFile) : MetaData * MetaFile :=
  let meta_data := mkMetaData 0 [] in
  let meta_data :=
    match file with
    | None => meta_data
    | Some metadata_ssz =>
        match from_ssz_bytes metadata_ssz with
        | Ok persisted_metadata =>
            let seq := seq_number persisted_metadata in
            mkMetaData (if bool_decide (supported_mempools persisted_metadata = supported_mempools meta_data)
                        then seq else wrap u64 (seq + 1)) (supported_mempools meta_data)
        | Err _ =>
            match from_ssz_bytes metadata_ssz with
            | Ok persisted_metadata =>
                mkMetaData (wrap u64 (seq_number persisted_metadata + 1)) (supported_mempools meta_data)
            | Err _ => meta_data
            end
        end
    end in
  (meta_data, save_metadata_to_disk write meta_data file).
End metadata.

(** ** Interfaces of libp2p *)

Inductive PublishError : Type :=
| Duplicate | SigningError | InsufficientPeers | MessageTooLarge | TransformFailed.

Inductive MessageAcceptance : Type := Accept | Reject | Ignore.

(** [libp2p::gossipsub::Behaviour], for the function that computes message ids: publishing
    gives the id of the message, and a message whose id has been published
    is a duplicate while its id is remembered, which is the case within one call. *)
Class GossipsubLib `{External} (message_id : RawMessage -> bytes) := {
  Gossipsub : Type;
  gs_published : Gossipsub -> gset bytes;
  gs_subscribe : string -> Gossipsub -> result bool string * Gossipsub;
  gs_publish : string -> bytes -> Gossipsub -> result bytes PublishError * Gossipsub;
  gs_report_validation : bytes -> PeerId -> MessageAcceptance -> Gossipsub -> result bool string * Gossipsub;
  gs_peer_score : PeerId -> Gossipsub -> option f64;
  gs_publish_spec : forall topic data g,
    match gs_publish topic data g with
    | (Ok id, g') => id = message_id (mkRawMessage None data None topic) /\ id ∉ gs_published g /\
        gs_published g' = {[id]} ∪ gs_published g
    | (Err _, g') => gs_published g' = gs_published g
    end;
}.

(** [libp2p::allow_block_list::Behaviour<BlockedPeers>]. *)
Class BlockListLib `{External} := {
  BlockList : Type;
  bl_peers : BlockList -> gset PeerId;
  bl_default : BlockList;
  bl_block : PeerId -> BlockList -> BlockList;
  bl_unblock : PeerId -> BlockList -> BlockList;
  bl_default_peers : bl_peers bl_default = ∅;
  bl_block_peers : forall p l, bl_peers (bl_block p l) = {[p]} ∪ bl_peers l;
  bl_unblock_peers : forall p l, bl_peers (bl_unblock p l) = bl_peers l ∖ {[p]};
}.

(** Functions of external crates: the hash of message ids, the [Debug] output of a
    decoding error and of a topic hash, the node id of the key in a peer id, and the
    components of an address with those that name a peer. *)
Class ExternFns `{External} `{!EnrFields} `{!EnrLib} := {
  sha256 : bytes -> bytes;
  decode_error_debug : DecodeError -> string;
  topic_debug : string -> string;
  peer_id_to_node_id : PeerId -> result NodeId string;
  multiaddr_components : Multiaddr -> list MaComponent;
}.

(** The gossip parameters [Network::new] chooses. *)
Definition service_gossip_params : GossipsubConfigParams := mkGossipsubConfigParams [x01; x00; x00; x00] 10485760.
Definition MAX_IDENTIFY_ADDRESSES : nat := 10.
Definition MAX_CONNECTIONS_PER_PEER : Z := 1.

(** ** The network *)

Section service.
Context `{External} `{!EnrFields} `{!EnrLib} `{!Discv5Lib} `{!LruCacheLib PeerId Enr}
  `{Libm} `{!SetIter Multiaddr} `{!MapIter PeerId PeerInfo} `{!HashSetDelay PeerId}
  `{DelayQueue (GossipTopic * bytes)} `{!MapIter bytes Z} `{!SszTypes} `{!BlockListLib}.
Context `{!ExternFns} `{!GossipsubLib (gossip_message_id sha256 service_gossip_params)}.
Context {AppReqId : Type}.

(** Identifier of requests sent by a peer: connection and substream. *)
Definition PeerRequestId : Type := Z * Z.

Inductive NetworkEvent : Type :=
| NetPeerConnectedOutgoing (p : PeerId)
| NetPeerConnectedIncoming (p : PeerId)
| NetPeerDisconnected (p : PeerId)
| RPCFailed (id : AppReqId) (p : PeerId)
| RequestReceived (p : PeerId) (id : PeerRequestId) (request : Request)
| ResponseReceived (p : PeerId) (id : AppReqId) (response : Response)
| ResponseReceivedFromInternal (p : PeerId) (response : Response)
| NetPubsubMessage (id : bytes) (source : PeerId) (topic : string) (message : PubsubMessage)
| StatusPeer (p : PeerId)
| NewListenAddr (a : Multiaddr)
| ZeroListeners.

(** The behaviours of [behaviour.rs] that have state of ours, the cache and the shared
    variables. *)
Record Network : Type := mkNetwork {
  banned_peers : BlockList;
  gossipsub : Gossipsub;
  eth2_rpc : RPC (RequestId AppReqId);
  discovery : Discovery;
  peer_manager : PeerManager;
  gossip_cache : GossipCache;
  local_metadata : MetaData;
  gossipsub_subscriptions : gset GossipTopic;
}.

(** Field updates. *)
Definition with_banned (x : BlockList) (n : Network) : Network :=
  let 'mkNetwork b g r d m c l s := n in mkNetwork x g r d m c l s.
Definition with_gossipsub (x : Gossipsub) (n : Network) : Network :=
  let 'mkNetwork b g r d m c l s := n in mkNetwork b x r d m c l s.
Definition with_rpc (x : RPC (RequestId AppReqId)) (n : Network) : Network :=
  let 'mkNetwork b g r d m c l s := n in mkNetwork b g x d m c l s.
Definition with_discovery (x : Discovery) (n : Network) : Network :=
  let 'mkNetwork b g r d m c l s := n in mkNetwork b g r x m c l s.
Definition with_pm (x : PeerManager) (n : Network) : Network :=
  let 'mkNetwork b g r d m c l s := n in mkNetwork b g r d x c l s.
Definition with_gossip_cache (x : GossipCache) (n : Network) : Network :=
  let 'mkNetwork b g r d m c l s := n in mkNetwork b g r d m x l s.
Definition with_subscriptions (x : gset GossipTopic) (n : Network) : Network :=
  let 'mkNetwork b g r d m c l s := n in mkNetwork b g r d m c l x.

(** ** Gossip *)

Definition subscribe (topic : GossipTopic) (n : Network) : bool * Network :=
  let n := with_subscriptions ({[topic]} ∪ gossipsub_subscriptions n) n in
  match gs_subscribe (GossipTopic_to_string topic) (gossipsub n) with
  | (Err _, g) => (false, with_gossipsub g n)
  | (Ok _, g) => (true, with_gossipsub g n)
  end.

Definition subscribe_kind (kind : GossipKind) (mempool_id : string) (n : Network) : bool * Network :=
  subscribe (GossipTopic_new kind GossipEncoding_default mempool_id) n.

(** The inner loop of [publish], with what publishing on each topic gave. *)
Fixpoint publish_topics (message : PubsubMessage) (topics : list GossipTopic) (n : Network)
  : outcome (list (result bytes PublishError) * Network) :=
  match topics with
  | [] => Ret ([], n)
  | topic :: topics =>
      let message_data := PubsubMessage_encode message GossipEncoding_default in
      let '(r, g) := gs_publish (GossipTopic_to_string topic) message_data (gossipsub n) in
      let n := with_gossipsub g n in
      n <-! match r with
            | Err InsufficientPeers =>
                c <-! insert topic message_data (gossip_cache n);
                Ret (with_gossip_cache c n)
            | _ => Ret n
            end;
      rest <-! publish_topics message topics n;
      Ret (r :: fst rest, snd rest)
  end.

Fixpoint publish (messages : list PubsubMessage) (mempool_ids : list string) (n : Network)
  : outcome Network :=
  match messages with
  | [] => Ret n
  | message :: messages =>
      let topics := map (GossipTopic_new (PubsubMessage_kind message) GossipEncoding_default) mempool_ids in
      r <-! publish_topics message topics n;
      publish messages mempool_ids (snd r)
  end.

Definition report_message_validation_result (propagation_source : PeerId) (message_id : bytes)
    (validation_result : MessageAcceptance) (n : Network) : Network :=
  with_gossipsub (gs_report_validation message_id propagation_source validation_result (gossipsub n)).2 n.

(** ** RPC *)

Definition send_request (now : Instant) (p : PeerId) (request_id : AppReqId) (request : Request)
    (n : Network) : Network :=
  with_rpc (rpc_send_request now p (Application request_id) (OutboundRequest_from request) (eth2_rpc n)) n.

Definition get_all_peers (n : Network) : list PeerId := map fst (map_iter (peers (pm_peers (peer_manager n)))).

Definition send_outbound_pooled_user_op_hashes_request_to_all_peers (now : Instant) (n : Network) : Network :=
  let request := OutPooledUserOpHashes (mkPooledUserOpHashesRequest (replicate 32 x00)) in
  foldl (fun n p => with_rpc (rpc_send_request now p Internal request (eth2_rpc n)) n) n (get_all_peers n).

Definition send_response (p : PeerId) (id : PeerRequestId) (response : Response) (n : Network) : Network :=
  with_rpc (rpc_send_response p id (RPCCodedResponse_from response) (eth2_rpc n)) n.

Definition send_error_reponse (p : PeerId) (id : PeerRequestId) (error : RPCResponseErrorCode)
    (reason : string) (n : Network) : Network :=
  with_rpc (rpc_send_response p id (CodedError error (ErrorType_from reason)) (eth2_rpc n)) n.

(** ** Peers *)

Definition Network_report_peer (now : Instant) (p : PeerId) (action : PeerAction) (n : Network)
  : outcome Network :=
  m <-! pm_report_peer now p action None (peer_manager n); Ret (with_pm m n).

Definition Network_goodbye_peer (now : Instant) (p : PeerId) (reason : GoodbyeReason) (n : Network)
  : outcome Network :=
  m <-! goodbye_peer now p reason (peer_manager n); Ret (with_pm m n).

Definition enr_entries (n : Network) : list Enr := table_entries_enr (discovery n).

Definition add_enr (e : Enr) (n : Network) : Network := with_discovery (disc_add_enr e (discovery n)) n.

Definition Network_discover_subnet_peers (subnets_to_discover : list SubnetDiscovery) (n : Network)
  : Network :=
  if negb (started (discovery n)) then n
  else
    let filtered := filter (fun _ => (TARGET_SUBNET_PEERS <=?
      Z.of_nat (length (good_peers_on_subnet (pm_peers (peer_manager n))))) = false) subnets_to_discover in
    if negb (bool_decide (filtered = []))
    then with_discovery (discover_subnet_peers filtered (discovery n)) n else n.

(** ** Pings and metadata *)

Definition ping (now : Instant) (p : PeerId) (n : Network) : Network :=
  let ping := mkPing (seq_number (local_metadata n)) in
  with_rpc (rpc_send_request now p Internal (OutPing ping) (eth2_rpc n)) n.

Definition pong (id : PeerRequestId) (p : PeerId) (n : Network) : Network :=
  let ping := mkPing (seq_number (local_metadata n)) in
  with_rpc (rpc_send_response p id (Success (RPong ping)) (eth2_rpc n)) n.

Definition send_meta_data_request (now : Instant) (p : PeerId) (n : Network) : Network :=
  with_rpc (rpc_send_request now p Internal OutMetaData (eth2_rpc n)) n.

Definition send_meta_data_response (id : PeerRequestId) (p : PeerId) (n : Network) : Network :=
  with_rpc (rpc_send_response p id (Success (RMetaData (local_metadata n))) (eth2_rpc n)) n.

Definition build_response (id : RequestId AppReqId) (p : PeerId) (response : Response)
  : option NetworkEvent :=
  match id with
  | Application id => Some (ResponseReceived p id response)
  | Internal =>
      match response with
      | RespStatus _ => None
      | RespPooledUserOpHashes _ => Some (ResponseReceivedFromInternal p response)
      | RespPooledUserOpsByHash _ => Some (ResponseReceivedFromInternal p response)
      end
  end.

Definition build_request (id : PeerRequestId) (p : PeerId) (request : Request) : NetworkEvent :=
  RequestReceived p id request.

(** ** Events of the behaviours *)

Inductive GossipsubEvent : Type :=
| GsMessage (propagation_source : PeerId) (message_id : bytes) (topic : string) (data : bytes)
| GsSubscribed (p : PeerId) (topic : string)
| GsUnsubscribed (p : PeerId) (topic : string)
| GossipsubNotSupported (p : PeerId).

(** The cached messages of a topic are published; failures are logged. *)
Definition publish_cached (topic : GossipTopic) (msgs : list bytes) (n : Network) : Network :=
  foldl (fun n data => with_gossipsub (gs_publish (GossipTopic_to_string topic) data (gossipsub n)).2 n) n msgs.

Definition inject_gs_event (now : Instant) (event : GossipsubEvent) (n : Network)
  : outcome (option NetworkEvent * Network) :=
  match event with
  | GsMessage propagation_source id topic data =>
      r <-! PubsubMessage_decode decode_error_debug topic_debug topic data;
      match r with
      | Err _ =>
          Ret (None, with_gossipsub (gs_report_validation id propagation_source Reject (gossipsub n)).2 n)
      | Ok msg => Ret (Some (NetPubsubMessage id propagation_source topic msg), n)
      end
  | GsSubscribed _ topic =>
      r <-! GossipTopic_decode topic;
      match r with
      | Ok topic =>
          c <-! retrieve topic (gossip_cache n);
          let n := with_gossip_cache (snd c) n in
          Ret (None, match fst c with Some msgs => publish_cached topic msgs n | None => n end)
      | Err _ => Ret (None, n)
      end
  | GsUnsubscribed _ topic => _ <-! subnet_from_topic_hash topic; Ret (None, n)
  | GossipsubNotSupported p =>
      m <-! pm_report_peer now p Fatal (Some GoodbyeUnknown) (peer_manager n);
      Ret (None, with_pm m n)
  end.

Definition inject_rpc_event (now : Instant) (event : RPCMessage (RequestId AppReqId)) (n : Network)
  : outcome (option NetworkEvent * Network) :=
  let peer_id := msg_peer_id event in
  if negb (db_is_connected (pm_peers (peer_manager n)) peer_id) then Ret (None, n)
  else
    let handler_id := msg_conn_id event in
    match msg_event event with
    | Err (ErrInbound _ proto error) =>
        m <-! handle_rpc_error now peer_id proto error Incoming (peer_manager n);
        Ret (None, with_pm m n)
    | Err (ErrOutbound id proto error) =>
        m <-! handle_rpc_error now peer_id proto error Outgoing (peer_manager n);
        Ret (match id with Application id => Some (RPCFailed id peer_id) | Internal => None end, with_pm m n)
    | Ok (RecvRequest id request) =>
        let peer_request_id := (handler_id, id) in
        match request with
        | InPing p =>
            let n := with_pm (ping_request peer_id (ping_data p) (peer_manager n)) n in
            Ret (None, pong peer_request_id peer_id n)
        | InMetaData => Ret (None, send_meta_data_response (handler_id, id) peer_id n)
        | InGoodbye _ => Ret (None, n)
        | InStatus msg =>
            let n := with_pm (peer_statusd peer_id (peer_manager n)) n in
            Ret (Some (build_request peer_request_id peer_id (ReqStatus msg)), n)
        | InPooledUserOpHashes msg =>
            Ret (Some (build_request peer_request_id peer_id (ReqPooledUserOpHashes msg)), n)
        | InPooledUserOpsByHash msg =>
            Ret (Some (build_request peer_request_id peer_id (ReqPooledUserOpsByHash msg)), n)
        end
    | Ok (RecvResponse id resp) =>
        match resp with
        | RPong p => Ret (None, with_pm (pong_response peer_id (ping_data p) (peer_manager n)) n)
        | RMetaData md => Ret (None, with_pm (meta_data_response peer_id md (peer_manager n)) n)
        | RStatus msg =>
            let n := with_pm (peer_statusd peer_id (peer_manager n)) n in
            Ret (build_response id peer_id (RespStatus msg), n)
        | RPooledUserOpHashes r => Ret (build_response id peer_id (RespPooledUserOpHashes (Some r)), n)
        | RPooledUserOpsByHash r => Ret (build_response id peer_id (RespPooledUserOpsByHash (Some r)), n)
        end
    | Ok (EndOfStream id _) =>
        Ret (build_response id peer_id (RespStatus (mkStatusMessage 0 0 0)), n)
    end.

Inductive IdentifyEvent : Type :=
| IdentifyReceived (p : PeerId) (listen_addrs : list Multiaddr) (info : IdentifyInfo)
| IdentifyOther.

Definition inject_identify_event (event : IdentifyEvent) (n : Network) : option NetworkEvent * Network :=
  match event with
  | IdentifyReceived p listen_addrs info =>
      let listen_addrs := if (MAX_IDENTIFY_ADDRESSES <? length listen_addrs)%nat
                          then take MAX_IDENTIFY_ADDRESSES listen_addrs else listen_addrs in
      (None, with_pm (identify p listen_addrs info (peer_manager n)) n)
  | IdentifyOther => (None, n)
  end.

Definition inject_pm_event (now : Instant) (event : PeerManagerEvent) (n : Network)
  : option NetworkEvent * Network :=
  match event with
  | PeerConnectedIncoming p => (Some (NetPeerConnectedIncoming p), n)
  | PeerConnectedOutgoing p => (Some (NetPeerConnectedOutgoing p), n)
  | PeerDisconnected p => (Some (NetPeerDisconnected p), n)
  | EvBanned p associated_ips =>
      let n := with_banned (bl_block p (banned_peers n)) n in
      (None, with_discovery (disc_ban_peer peer_id_to_node_id p associated_ips (discovery n)) n)
  | EvUnBanned p associated_ips =>
      let n := with_banned (bl_unblock p (banned_peers n)) n in
      (None, with_discovery (disc_unban_peer peer_id_to_node_id p associated_ips (discovery n)) n)
  | EvStatus p => (Some (StatusPeer p), n)
  | DiscoverPeers peers_to_find => (None, with_discovery (discover_peers peers_to_find (discovery n)) n)
  | DiscoverSubnetPeers subnets_to_discover =>
      (None, Network_discover_subnet_peers (map (fun s => mkSubnetDiscovery s.1 s.2) subnets_to_discover) n)
  | EvPing p => (None, ping now p n)
  | EvMetaData p => (None, send_meta_data_request now p n)
  | DisconnectPeer p reason => (None, with_rpc (rpc_shutdown p Internal reason (eth2_rpc n)) n)
  end.

(** ** Polling *)

(** What the swarm does next. The first five poll a behaviour: gossip and identify are
    external and give their event; ours are polled with what their timers and
    queries report. The next two deliver what happened on a connection to our
    behaviours. The rest are events of the swarm itself. *)
Inductive SwarmTurn : Type :=
| TurnGossipsub (event : GossipsubEvent)
| TurnIdentify (event : IdentifyEvent)
| TurnRpc (clock : nat -> Instant) (ticks self_ticks : list Instant) (expired : option nat)
| TurnDiscovery (env : Discovery.PollEnv)
| TurnPeerManager (ticks : list HeartbeatEnv) (inbound outbound : list (result PeerId string))
| TurnConnection (event : FromSwarm) (error : DialError)
| TurnHandlerEvent (p : PeerId) (conn_id : Z) (event : HandlerEvent (RequestId AppReqId))
| TurnNewListenAddr (a : Multiaddr)
| TurnListenerFailed (listeners : Z)
| TurnOther.

(** The events of the behaviours and of the swarm. *)
Inductive SwarmEvent : Type :=
| SwGossipsub (event : GossipsubEvent)
| SwEth2Rpc (event : RPCMessage (RequestId AppReqId))
| SwDiscovery (peers : list (Enr * option Instant))
| SwIdentify (event : IdentifyEvent)
| SwPeerManager (event : PeerManagerEvent)
| SwNewListenAddr (a : Multiaddr)
| SwListenerFailed (listeners : Z)
| SwOther.

(** A step of the swarm: the event it yields, if any, and the behaviours afterwards. *)
Definition swarm_turn (now : Instant) (turn : SwarmTurn) (n : Network)
  : outcome (option SwarmEvent * Network) :=
  match turn with
  | TurnGossipsub event => Ret (Some (SwGossipsub event), n)
  | TurnIdentify event => Ret (Some (SwIdentify event), n)
  | TurnRpc clock ticks self_ticks expired =>
      let '(a, r) := rpc_poll clock ticks self_ticks expired (eth2_rpc n) in
      Ret (match a with Ready (ActGenerateEvent msg) => Some (SwEth2Rpc msg) | _ => None end, with_rpc r n)
  | TurnDiscovery env =>
      r <-! expect (disc_poll env (pm_peers (peer_manager n)) (discovery n)) "out of fuel";
      Ret (match fst r with Ready peers => Some (SwDiscovery peers) | Pending => None end,
           with_discovery (snd r) n)
  | TurnPeerManager ticks inbound outbound =>
      r <-! pm_poll now ticks inbound outbound (peer_manager n);
      Ret (match fst r with Ready (GenerateEvent e) => Some (SwPeerManager e) | _ => None end,
           with_pm (snd r) n)
  | TurnConnection event error =>
      m <-! on_swarm_event now event (peer_manager n);
      let n := with_pm m n in
      Ret (Some SwOther,
           match event with
           | DialFailure p => with_discovery (disc_on_dial_failure peer_id_to_node_id p error (discovery n)) n
           | _ => n
           end)
  | TurnHandlerEvent p conn_id event =>
      Ret (None, with_rpc (on_connection_handler_event now p conn_id event (eth2_rpc n)) n)
  | TurnNewListenAddr a => Ret (Some (SwNewListenAddr a), n)
  | TurnListenerFailed listeners => Ret (Some (SwListenerFailed listeners), n)
  | TurnOther => Ret (Some SwOther, n)
  end.

(** The body of the loop over the events of the swarm. *)
Definition handle_swarm_event (now : Instant) (event : SwarmEvent) (n : Network)
  : outcome (option NetworkEvent * Network) :=
  match event with
  | SwGossipsub ge => inject_gs_event now ge n
  | SwEth2Rpc re => inject_rpc_event now re n
  | SwDiscovery peers => Ret (None, with_pm (peers_discovered now peers (peer_manager n)) n)
  | SwIdentify ie => Ret (inject_identify_event ie n)
  | SwPeerManager pe => Ret (inject_pm_event now pe n)
  | SwNewListenAddr a => Ret (Some (NewListenAddr a), n)
  | SwListenerFailed listeners => Ret (if listeners =? 0 then Some ZeroListeners else None, n)
  | SwOther => Ret (None, n)
  end.

(** The loop, over the turns of the swarm until it is pending. *)
Fixpoint poll_swarm (turns : list (Instant * SwarmTurn)) (n : Network)
  : outcome (option NetworkEvent * Network) :=
  match turns with
  | [] => Ret (None, n)
  | (now, turn) :: turns =>
      r <-! swarm_turn now turn n;
      let '(event, n) := r in
      match event with
      | None => poll_swarm turns n
      | Some event =>
          r <-! handle_swarm_event now event n;
          let '(maybe_event, n) := r in
          match maybe_event with
          | Some ev => Ret (Some ev, n)
          | None => poll_swarm turns n
          end
      end
  end.

(** The ticks of the score interval; a tick comes with the order of the scored peers. *)
Fixpoint update_all_scores (now : Instant) (ticks : list (list (PeerId * f64) -> list (PeerId * f64)))
    (n : Network) : outcome Network :=
  match ticks with
  | [] => Ret n
  | sort :: ticks =>
      m <-! pm_update_gossipsub_scores now (fun p => gs_peer_score p (gossipsub n)) sort (peer_manager n);
      update_all_scores now ticks (with_pm m n)
  end.

(** The cache is polled until it is pending or ends. *)
Fixpoint poll_cache (polls : list Expired) (n : Network) : outcome Network :=
  match polls with
  | [] => Ret n
  | expired :: polls =>
      r <-! poll_next expired (gossip_cache n);
      let n := with_gossip_cache (snd r) n in
      match fst r with
      | Ready (Some _) => poll_cache polls n
      | _ => Ret n
      end
  end.

Definition poll_network (now : Instant) (turns : list (Instant * SwarmTurn))
    (ticks : list (list (PeerId * f64) -> list (PeerId * f64))) (polls : list Expired) (n : Network)
  : outcome (poll NetworkEvent * Network) :=
  r <-! poll_swarm turns n;
  match r with
  | (Some ev, n) => Ret (Ready ev, n)
  | (None, n) =>
      n <-! update_all_scores now ticks n;
      n <-! poll_cache polls n;
      Ret (Pending, n)
  end.

(** ** Starting *)

(** What the network asks the swarm to do. *)
Inductive SwarmCommand : Type :=
| ListenOn (a : list MaProtocol)
| DialAddress (a : list MaComponent).

(** The loop over the listen addresses: the first that is not skipped, and whether
    listening on it failed. *)
Fixpoint listen_loop (disable_quic : bool) (listen_on : list MaProtocol -> result unit string)
    (addresses : list (list MaProtocol)) : result (list SwarmCommand) string :=
  match addresses with
  | [] => Ok []
  | a :: addresses =>
      if disable_quic && existsb (fun v => match v with QuicV1 => true | _ => false end) a
      then listen_loop disable_quic listen_on addresses
      else
        match listen_on a with
        | Ok _ => Ok [ListenOn a]
        | Err _ => Err "Libp2p was unable to listen on the given listen address."
        end
  end.

Definition dial (a : list MaComponent) : SwarmCommand := DialAddress (strip_peer_id a).

(** [Vec::dedup]: equal neighbours are removed. *)
Fixpoint dedup (l : list Enr) : list Enr :=
  match l with
  | x :: (y :: _) as rest => if bool_decide (x = y) then dedup rest else x :: dedup rest
  | l => l
  end.

(** The addresses of a boot node that are dialed. *)
Fixpoint dial_boot_addresses (connected : bool) (addresses : list (list MaComponent))
  : outcome (list SwarmCommand) :=
  match addresses with
  | [] => Ret []
  | a :: addresses =>
      second <-! expect (a !! 1%nat) "index out of bounds";
      rest <-! dial_boot_addresses connected addresses;
      Ret match second with
          | Ma (Udp _) => rest
          | _ => if negb connected then dial a :: rest else rest
          end
  end.

Fixpoint dial_boot_nodes (disable_quic : bool) (db : PeerDB) (boot_nodes : list Enr)
  : outcome (list SwarmCommand) :=
  match boot_nodes with
  | [] => Ret []
  | e :: boot_nodes =>
      let connected := db_is_connected_or_dialing db (enr_peer_id e) in
      let quic := if negb disable_quic && negb connected then map dial (multiaddr_quic e) else [] in
      rest <-! dial_boot_addresses connected (multiaddr e);
      others <-! dial_boot_nodes disable_quic db boot_nodes;
      Ret (quic ++ rest ++ others)
  end.

Definition is_tcp (c : MaComponent) : bool := match c with Ma (Tcp _) => true | _ => false end.

(** The commands for the swarm and the network subscribed to its topics. *)
Definition start (config : NetworkConfig) (listen_on : list MaProtocol -> result unit string) (n : Network)
  : outcome (result (list SwarmCommand * Network) string) :=
  match listen_loop (disable_quic_support config) listen_on (libp2p_addresses (listen_addresses config)) with
  | Err e => Ret (Err e)
  | Ok listening =>
      let nodes := map (fun a => dial (multiaddr_components a)) (libp2p_nodes config) in
      boot <-! dial_boot_nodes (disable_quic_support config) (pm_peers (peer_manager n))
                 (dedup (boot_nodes_enr config));
      let tcp := map (fun a => dial (multiaddr_components a))
        (filter (fun a => existsb is_tcp (multiaddr_components a) = true) (boot_nodes_multiaddr config)) in
      let n := foldl (fun n topic => (subscribe_kind VerifiedUserOperationKind topic n).2) n (topics config) in
      Ret (Ok (listening ++ nodes ++ boot ++ tcp, n))
  end.

(** The limits given to [libp2p::connection_limits], as [u32]. *)
Record ConnectionLimits : Type := mkConnectionLimits {
  max_pending_incoming : Z; max_pending_outgoing : Z; max_established_incoming : Z;
  max_established_outgoing : Z; max_established : Z; max_established_per_peer : Z;
}.

Definition connection_limits (target_peers : Z) : ConnectionLimits :=
  let target := f32_of_Z target_peers in
  let limit factor := saturate u32 (f32_ceil_usize (f32_mul target factor)) in
  mkConnectionLimits 5 16
    (limit (f32_sub (f32_add (f32_of_Z 1) PEER_EXCESS_FACTOR) MIN_OUTBOUND_ONLY_FACTOR))
    (limit (f32_add (f32_of_Z 1) PEER_EXCESS_FACTOR))
    (limit (f32_add (f32_add (f32_of_Z 1) PEER_EXCESS_FACTOR) PRIORITY_PEER_EXCESS))
    MAX_CONNECTIONS_PER_PEER.

(** What [Network::new] gets from outside: keys, files, the results of starting the
    libraries. *)
Record NewEnv : Type := mkNewEnv {
  ne_now : Instant;
  ne_key : result EnrKey string;
  ne_write : WriteAttempt;
  ne_enr_file : EnrFile;
  ne_meta_file : MetaFile;
  ne_gossipsub : result Gossipsub string;
  ne_discv5_start : result unit string;
  ne_boot_records : list (result Enr string);
  ne_transport : result unit string;
  ne_listen_on : list MaProtocol -> result unit string;
}.

Definition Network_new `{GossipsubBuilder} (config : NetworkConfig) (env : NewEnv)
  : outcome (result (list SwarmCommand * Network) string) :=
  match build_or_load_enr (fun chain_id : Z => as_ssz_bytes chain_id) (ne_write env) (ne_key env) config (ne_enr_file env) with
  | Err e => Ret (Err e)
  | Ok (enr, enr_file) =>
      let meta_data := (load_or_build_metadata (ne_write env) (ne_meta_file env)).1 in
      let db := PeerDB_new (nc_trusted_peers config) (nc_disable_peer_scoring config) in
      let gossip_cache := build GossipCache_builder in
      _ <-! gossipsub_config (network_load config) service_gossip_params;
      match ne_gossipsub env with
      | Err e => Ret (Err ("Could not construct gossipsub: " +:+ e))
      | Ok gossipsub =>
          let network_params := mkNetworkParams 1048576 (from_secs 1000 + 1000) (from_secs 1000 + 1000) in
          eth2_rpc <-! RPC_new (ne_now env) (inbound_rate_limiter_config config)
                         (outbound_rate_limiter_config config) network_params;
          match Discovery_new (ne_key env) config enr enr_file (ne_discv5_start env) (ne_boot_records env) with
          | Err e => Ret (Err e)
          | Ok discovery =>
              let discovery := discover_peers FIND_NODE_QUERY_CLOSEST_PEERS discovery in
              let peer_manager_cfg := mkConfig (negb (disable_discovery config)) (nc_metrics_enabled config)
                (nc_target_peers config) (cfg_status_interval Config_default)
                (cfg_ping_interval_inbound Config_default) (cfg_ping_interval_outbound Config_default) in
              let peer_manager := PeerManager_new peer_manager_cfg db in
              match ne_transport env with
              | Err e => Ret (Err ("Failed to build transport: " +:+ e))
              | Ok _ =>
                  start config (ne_listen_on env)
                    (mkNetwork bl_default gossipsub eth2_rpc discovery peer_manager gossip_cache meta_data ∅)
              end
          end
      end
  end.
End service.
