(* ===== verification/ServiceProps.v ===== *)
(** * Theorems about the network service

    The composition is safe: in every state the network reaches from its creation,
    every call of its interface and every poll returns without a panic, and the
    invariants of the peer manager and of discovery hold, because each handler of the
    service touches them through their own operations. Answers to
    requests are neither invented nor duplicated on their way from a connection to the
    application, and which event reaches it for each message. The bans of the peer manager
    are replayed in order to the block list and to discovery. A message is
    published on at most one of its topics, the node listens on one address, and its
    metadata survive a restart. *)

From Stdlib.Init Require Import Byte.
From S2P Require Import Prelude RustStr External Float64 Score RpcTypes Wire LruTimeCache Client PeerInfo PeerDB Topics.
From S2P Require Import PeerDBProps PeerManager PeerManagerInv PeerManagerProps RateLimiter NetConfig EnrRecords Discovery.
From S2P Require Import DiscoveryProps SelfLimiter DelayQueue GossipCache Handler RpcBehaviour Service.

Section theorems.
Context `{External} `{!EnrFields} `{!EnrLib} `{!Discv5Lib} `{!LruCacheLib PeerId Enr}
  `{Libm} `{!SetIter Multiaddr} `{!MapIter PeerId PeerInfo} `{!HashSetDelay PeerId}
  `{DelayQueue (GossipTopic * bytes)} `{!MapIter bytes Z} `{!SszTypes} `{!BlockListLib}.
Context `{!ExternFns} `{!GossipsubLib (gossip_message_id sha256 service_gossip_params)}.
Context {AppReqId : Type}.
Implicit Types (n : Network (AppReqId := AppReqId)) (p : PeerId).

(** ** Field updates and the invariant *)

Record net_inv (t : Instant) n : Prop := {
  ni_pm : pm_inv t (peer_manager n);
  ni_disc : disc_inv (discovery n);
  ni_cache : gossip_cache n = build GossipCache_builder;
}.

Lemma net_later t t' n : net_inv t n -> t <= t' -> net_inv t' n.
Proof. intros [Hp Hd Hc] Ht. split; [|done..]. by eapply inv_later. Qed.
Lemma net_banned t x n : net_inv t n -> net_inv t (with_banned x n).
Proof. destruct n. by intros []. Qed.
Lemma net_gossipsub t x n : net_inv t n -> net_inv t (with_gossipsub x n).
Proof. destruct n. by intros []. Qed.
Lemma net_rpc t x n : net_inv t n -> net_inv t (with_rpc x n).
Proof. destruct n. by intros []. Qed.
Lemma net_subs t x n : net_inv t n -> net_inv t (with_subscriptions x n).
Proof. destruct n. by intros []. Qed.
Lemma net_discovery t x n : net_inv t n -> disc_inv x -> net_inv t (with_discovery x n).
Proof. destruct n. intros [] ?. by split. Qed.
Lemma net_pm t t' m n : net_inv t n -> pm_inv t' m -> net_inv t' (with_pm m n).
Proof. destruct n. intros [] ?. by split. Qed.
Lemma net_cache_same t n : net_inv t n -> net_inv t (with_gossip_cache (gossip_cache n) n).
Proof. destruct n. by intros []. Qed.
Hint Resolve net_later net_banned net_gossipsub net_rpc net_subs net_discovery net_pm net_cache_same : network.
Hint Resolve ni_pm ni_disc ni_cache : network.

(** The state after a call satisfies the invariant, and the call returned. *)
Definition returns {A} (t : Instant) (o : outcome (A * Network)) : Prop :=
  exists a n, o = Ret (a, n) /\ net_inv t n.

Lemma returns_ret {A} t (a : A) n : net_inv t n -> returns t (Ret (a, n)).
Proof. by exists a, n. Qed.
Hint Resolve returns_ret : network.

(** A call of the peer manager, stored back. *)
Lemma pm_call {A} t n o (f : PeerManager -> A) : net_inv t n -> keeps t o ->
  returns t (m <-! o; Ret (f m, with_pm m n)).
Proof. intros Hn (m & -> & Hm). apply returns_ret. by eapply net_pm. Qed.

Lemma disc_op t n op d' : net_inv t n -> disc_step peer_id_to_node_id op (discovery n) = Some d' ->
  net_inv t (with_discovery d' n).
Proof.
  intros Hn Hs. apply net_discovery; [done|].
  destruct (disc_step_inv peer_id_to_node_id op (discovery n) (ni_disc _ _ Hn)) as (d & Hd & Hi). congruence.
Qed.

(** ** Gossip *)

Lemma subscribe_inv t topic n : net_inv t n -> net_inv t (subscribe topic n).2.
Proof. intros Hn. unfold subscribe. destruct (gs_subscribe _ _) as [ [|] g]; cbn; eauto with network. Qed.

Lemma publish_topics_returns t message topics : forall n, net_inv t n ->
  returns t (publish_topics message topics n).
Proof.
  induction topics as [|topic topics IH]; intros n Hn; cbn [publish_topics]; [by apply returns_ret|].
  destruct (gs_publish _ _ _) as [r g]. set (n1 := with_gossipsub g n).
  assert (Hn1 : net_inv t n1) by (by apply net_gossipsub).
  replace (match r with Err InsufficientPeers => _ | _ => _ end)
    with (Ret (match r with Err InsufficientPeers => with_gossip_cache (gossip_cache n1) n1 | _ => n1 end))
    by (by destruct r as [|[]]).
  destruct (IH (match r with Err InsufficientPeers => with_gossip_cache (gossip_cache n1) n1 | _ => n1 end))
    as (rs & n2 & -> & Hn2).
  { destruct r as [|[]]; by try apply net_cache_same. }
  by apply returns_ret.
Qed.

Lemma publish_returns t messages ids : forall n, net_inv t n ->
  exists n', publish messages ids n = Ret n' /\ net_inv t n'.
Proof.
  induction messages as [|m messages IH]; intros n Hn; cbn [publish]; [eauto|].
  destruct (publish_topics_returns t m (map (GossipTopic_new (PubsubMessage_kind m) GossipEncoding_default) ids) n Hn)
    as (rs & n1 & -> & Hn1). eauto.
Qed.

Lemma publish_cached_inv t topic msgs : forall n, net_inv t n -> net_inv t (publish_cached topic msgs n).
Proof. induction msgs as [|d msgs IH]; intros n Hn; cbn; [done|]. apply IH. eauto with network. Qed.

(** The topic of a gossip event. *)
Definition gs_event_topic (e : GossipsubEvent) : option string :=
  match e with
  | GsMessage _ _ topic _ | GsSubscribed _ topic | GsUnsubscribed _ topic => Some topic
  | GossipsubNotSupported _ => None
  end.

(** Documented of the subscription filter: events are of topics it lets through. *)
Definition gs_event_ok (ids : list string) (e : GossipsubEvent) : Prop :=
  forall topic, gs_event_topic e = Some topic -> topic ∈ create_whitelist_filter ids.

Lemma retrieve_inert topic n t : net_inv t n -> retrieve topic (gossip_cache n) = Ret (None, gossip_cache n).
Proof. intros [_ _ ->]. done. Qed.

Lemma gs_event_returns now ids e n : net_inv now n -> gs_event_ok ids e -> returns now (inject_gs_event now e n).
Proof.
  intros Hn Hok.
  assert (Hdec : forall topic, gs_event_topic e = Some topic -> exists r, GossipTopic_decode topic = Ret r).
  { intros topic Ht. pose proof (whitelist_decode_ret ids topic (Hok topic Ht)) as Hr.
    destruct (GossipTopic_decode topic) as [r|]; [by exists r|done]. }
  destruct e as [p id topic data|p topic|p topic|p]; cbn [inject_gs_event].
  - destruct (Hdec topic eq_refl) as [r Hr]. unfold PubsubMessage_decode. rewrite Hr.
    destruct r as [ [enc mid []]|]; [cbn; destruct (from_ssz_bytes data)|]; apply returns_ret; eauto with network.
  - destruct (Hdec topic eq_refl) as [ [gt|] ->]; [|by apply returns_ret].
    rewrite (retrieve_inert gt n now Hn). apply returns_ret. by apply net_cache_same.
  - destruct (Hdec topic eq_refl) as [r Hr]. unfold subnet_from_topic_hash. rewrite Hr.
    destruct r; by apply returns_ret.
  - apply (pm_call now n _ (fun _ => None)); [done|]. apply report_ok, Hn.
Qed.

(** ** The other handlers *)

Lemma rpc_event_returns now e n : net_inv now n -> returns now (inject_rpc_event now e n).
Proof.
  intros Hn. pose proof (ni_pm _ _ Hn) as Hm. unfold inject_rpc_event. destruct (negb _); [by apply returns_ret|].
  destruct (msg_event e) as [ [id req|id resp|id t]|[id proto err|id proto err] ].
  - destruct req; apply returns_ret; try done; unfold pong, send_meta_data_response; try apply net_rpc;
      try done; eapply net_pm; try done; [by apply inv_set_status|by apply ping_ok].
  - destruct resp; apply returns_ret; try done; eapply net_pm; try done;
      [by apply inv_set_status|by apply pong_ok|by apply metadata_ok].
  - by apply returns_ret.
  - apply (pm_call now n _ (fun _ => None)); [done|]. by apply rpc_error_ok.
  - apply (pm_call now n _ (fun _ => match id with Application id => Some (RPCFailed id (msg_peer_id e)) | Internal => None end));
      [done|]. by apply rpc_error_ok.
Qed.

Lemma identify_event_inv t e n : net_inv t n -> net_inv t (inject_identify_event e n).2.
Proof. intros Hn. destruct e; cbn; [|done]. eapply net_pm; [done|]. apply identify_ok, Hn. Qed.

Lemma discover_subnets_inv t l n : net_inv t n -> net_inv t (Network_discover_subnet_peers l n).
Proof.
  intros Hn. unfold Network_discover_subnet_peers. destruct (negb (started _)); [done|].
  destruct (negb (bool_decide _)); [|done]. apply net_discovery; [done|]. apply inv_subnets, Hn.
Qed.

Lemma pm_event_inv t now e n : net_inv t n -> net_inv t (inject_pm_event now e n).2.
Proof.
  intros Hn. destruct e; cbn [inject_pm_event snd]; try done; try (by apply net_rpc).
  - eapply (disc_op _ _ (OpBan _ _)); [by apply net_banned|done].
  - eapply (disc_op _ _ (OpUnban _ _)); [by apply net_banned|done].
  - eapply (disc_op _ _ (OpDiscoverPeers _)); done.
  - by apply discover_subnets_inv.
Qed.

(** ** Polling *)

(** The turn starts at [t] and ends at [now]; gossip events are of the configured topics. *)
Definition turn_ok (ids : list string) (t : Instant) (turn : SwarmTurn (AppReqId := AppReqId)) (now : Instant)
  : Prop :=
  match turn with
  | TurnPeerManager ticks _ _ => ticks_ok t ticks now
  | TurnGossipsub e => t <= now /\ gs_event_ok ids e
  | _ => t <= now
  end.

Fixpoint turns_ok (ids : list string) (t : Instant) (turns : list (Instant * SwarmTurn)) (last : Instant) : Prop :=
  match turns with
  | [] => t <= last
  | (now, turn) :: turns => turn_ok ids t turn now /\ turns_ok ids now turns last
  end.

Lemma swarm_turn_returns ids t now turn n : net_inv t n -> turn_ok ids t turn now ->
  exists e n', swarm_turn now turn n = Ret (e, n') /\ net_inv now n' /\
    (forall ge, e = Some (SwGossipsub ge) -> gs_event_ok ids ge).
Proof.
  intros Hn Ht. destruct turn as [ge|ie|clock ticks st x|env|ticks inb outb|ev err|p c e|a|l|]; cbn [swarm_turn turn_ok] in *.
  - destruct Ht as [Ht Hge]. eexists _, _. split_and!; [done|by eapply net_later|naive_solver].
  - eexists _, _. split_and!; [done|by eapply net_later|done].
  - destruct (rpc_poll _ _ _ _ _) as [a r]. eexists _, _.
    split_and!; [done|by eapply net_rpc, net_later|by destruct a as [ []|]].
  - destruct (inv_poll env (pm_peers (peer_manager n)) (discovery n) (ni_disc _ _ Hn)) as (r & d & -> & Hd).
    eexists _, _. split_and!; [done|by eapply net_later; [apply net_discovery|]|by destruct r].
  - destruct (pm_poll_ok t now ticks inb outb (peer_manager n) (ni_pm _ _ Hn) Ht) as (r & m & -> & Hm).
    eexists _, _. split_and!; [done|by eapply net_pm|by destruct r as [ []|]].
  - assert (net_inv now n) as Hn' by (by eapply net_later).
    destruct (swarm_ok now ev (peer_manager n) (ni_pm _ _ Hn')) as (m & -> & Hm).
    assert (net_inv now (with_pm m n)) as Hn2 by (by eapply net_pm).
    eexists _, _. split_and!; [done| |done]. destruct ev; try done.
    by eapply (disc_op _ _ (OpDialFailure _ _)).
  - eexists _, _. split_and!; [done|by eapply net_rpc, net_later|done].
  - eexists _, _. split_and!; [done|by eapply net_later|done].
  - eexists _, _. split_and!; [done|by eapply net_later|done].
  - eexists _, _. split_and!; [done|by eapply net_later|done].
Qed.

Lemma swarm_event_returns ids now e n : net_inv now n ->
  (forall ge, e = SwGossipsub ge -> gs_event_ok ids ge) -> returns now (handle_swarm_event now e n).
Proof.
  intros Hn Hok. destruct e as [ge|re|ps|ie|pe|a|l|]; cbn [handle_swarm_event].
  - eapply gs_event_returns; eauto.
  - by apply rpc_event_returns.
  - apply returns_ret. eapply net_pm; [done|]. apply discovered_ok, Hn.
  - pose proof (identify_event_inv now ie n Hn). destruct (inject_identify_event ie n). by apply returns_ret.
  - pose proof (pm_event_inv now now pe n Hn). destruct (inject_pm_event now pe n). by apply returns_ret.
  - by apply returns_ret.
  - by apply returns_ret.
  - by apply returns_ret.
Qed.

Lemma ticks_ok_le ticks : forall t now, ticks_ok t ticks now -> t <= now.
Proof. induction ticks as [|env ticks IH]; intros t now; cbn; [done|]. intros [? ?%IH]. lia. Qed.

Lemma turns_ok_le ids turns : forall t last, turns_ok ids t turns last -> t <= last.
Proof.
  induction turns as [|[now turn] turns IH]; intros t last; cbn; [done|]. intros [Ht Hts%IH].
  assert (t <= now); [|lia]. destruct turn; cbn in Ht; try tauto. by eapply ticks_ok_le.
Qed.

Lemma poll_swarm_returns ids turns : forall t last n, net_inv t n -> turns_ok ids t turns last ->
  returns last (poll_swarm turns n).
Proof.
  induction turns as [|[now turn] turns IH]; intros t last n Hn Hts; cbn [poll_swarm turns_ok] in *.
  { apply returns_ret. by eapply net_later. }
  destruct Hts as [Ht Hts]. destruct (swarm_turn_returns ids t now turn n Hn Ht) as (e & n1 & -> & Hn1 & Hge).
  destruct e as [e|]; [|by eapply IH].
  destruct (swarm_event_returns ids now e n1 Hn1) as (out & n2 & -> & Hn2); [naive_solver|].
  destruct out; [|by eapply IH]. apply returns_ret. eapply net_later; [done|]. by eapply turns_ok_le.
Qed.

Lemma scores_return now ticks : forall n, net_inv now n ->
  exists n', update_all_scores now ticks n = Ret n' /\ net_inv now n'.
Proof.
  induction ticks as [|sort ticks IH]; intros n Hn; cbn [update_all_scores]; [eauto|].
  destruct (gossip_ok now (fun p => gs_peer_score p (gossipsub n)) sort (peer_manager n) (ni_pm _ _ Hn))
    as (m & -> & Hm). apply IH. by eapply net_pm.
Qed.

Lemma poll_cache_returns t polls : forall n, net_inv t n ->
  exists n', poll_cache polls n = Ret n' /\ net_inv t n'.
Proof.
  induction polls as [|x polls IH]; intros n Hn; cbn [poll_cache]; [eauto|].
  assert (exists r, poll_next x (gossip_cache n) = Ret (r, gossip_cache n)) as [r ->].
  { rewrite (ni_cache _ _ Hn). destruct x as [key|e| |]; cbn; [|by eexists..].
    pose proof (dq_expire_spec key dq_new) as Hx. rewrite dq_new_entries in Hx.
    destruct (dq_expire key dq_new) as [[[tp data] q]|]; [|by eexists].
    destruct Hx as [Hx _]. by rewrite lookup_empty in Hx. }
  cbn. destruct r as [ [r|]|]; eauto using net_cache_same.
Qed.

Lemma poll_network_returns ids t now turns ticks polls n : net_inv t n -> turns_ok ids t turns now ->
  returns now (poll_network now turns ticks polls n).
Proof.
  intros Hn Hts. unfold poll_network.
  destruct (poll_swarm_returns ids turns t now n Hn Hts) as ([ev|] & n1 & -> & Hn1); [by apply returns_ret|].
  destruct (scores_return now ticks n1 Hn1) as (n2 & -> & Hn2).
  destruct (poll_cache_returns now polls n2 Hn2) as (n3 & -> & Hn3). by apply returns_ret.
Qed.

(** ** Histories *)

(** The calls of the application and of the executor. *)
Inductive NetOp : Type :=
| NetPoll (turns : list (Instant * SwarmTurn (AppReqId := AppReqId)))
    (ticks : list (list (PeerId * f64) -> list (PeerId * f64))) (polls : list Expired)
| NetSubscribe (topic : GossipTopic)
| NetPublish (messages : list PubsubMessage) (mempool_ids : list string)
| NetReportValidation p (message_id : bytes) (validation : MessageAcceptance)
| NetSendRequest p (request_id : AppReqId) (request : Request)
| NetSendHashesRequests
| NetSendResponse p (id : PeerRequestId) (response : Response)
| NetSendError p (id : PeerRequestId) (error : RPCResponseErrorCode) (reason : string)
| NetReportPeer p (action : PeerAction)
| NetGoodbye p (reason : GoodbyeReason)
| NetAddEnr (e : Enr)
| NetDiscoverSubnets (subnets : list SubnetDiscovery).

(** A call with the events it hands to the application. *)
Definition net_do (now : Instant) (op : NetOp) n : outcome (list NetworkEvent * Network) :=
  match op with
  | NetPoll turns ticks polls =>
      r <-! poll_network now turns ticks polls n;
      Ret (match fst r with Ready ev => [ev] | Pending => [] end, snd r)
  | NetSubscribe topic => Ret ([], (subscribe topic n).2)
  | NetPublish messages ids => n <-! publish messages ids n; Ret ([], n)
  | NetReportValidation p id v => Ret ([], report_message_validation_result p id v n)
  | NetSendRequest p id request => Ret ([], send_request now p id request n)
  | NetSendHashesRequests => Ret ([], send_outbound_pooled_user_op_hashes_request_to_all_peers now n)
  | NetSendResponse p id response => Ret ([], send_response p id response n)
  | NetSendError p id error reason => Ret ([], send_error_reponse p id error reason n)
  | NetReportPeer p action => n <-! Network_report_peer now p action n; Ret ([], n)
  | NetGoodbye p reason => n <-! Network_goodbye_peer now p reason n; Ret ([], n)
  | NetAddEnr e => Ret ([], add_enr e n)
  | NetDiscoverSubnets l => Ret ([], Network_discover_subnet_peers l n)
  end.

Definition op_ok (ids : list string) (t : Instant) (op : NetOp) (now : Instant) : Prop :=
  match op with NetPoll turns _ _ => turns_ok ids t turns now | _ => t <= now end.

Lemma send_all_inv t now n : net_inv t n ->
  net_inv t (send_outbound_pooled_user_op_hashes_request_to_all_peers now n).
Proof.
  intros Hn. unfold send_outbound_pooled_user_op_hashes_request_to_all_peers. generalize (get_all_peers n).
  intros l. revert n Hn. induction l as [|p l IH]; intros n Hn; cbn; [done|]. apply IH. by apply net_rpc.
Qed.

Lemma net_do_returns ids t now op n : net_inv t n -> op_ok ids t op now -> returns now (net_do now op n).
Proof.
  intros Hn Ho. assert (Hn' : (forall a b c, op <> NetPoll a b c) -> net_inv now n).
  { intros Hne. eapply net_later; [done|]. destruct op; done || by destruct (Hne turns ticks polls). }
  destruct op; cbn [net_do op_ok] in *.
  1: { destruct (poll_network_returns ids t now turns ticks polls n Hn Ho) as (r & n1 & -> & Hn1).
       by apply returns_ret. }
  all: specialize (Hn' ltac:(done)).
  - by apply returns_ret, subscribe_inv.
  - destruct (publish_returns now messages mempool_ids n Hn') as (n1 & -> & Hn1). by apply returns_ret.
  - by apply returns_ret, net_gossipsub.
  - by apply returns_ret, net_rpc.
  - by apply returns_ret, send_all_inv.
  - by apply returns_ret, net_rpc.
  - by apply returns_ret, net_rpc.
  - unfold Network_report_peer.
    destruct (report_ok now p action None _ (ni_pm _ _ Hn')) as (m & -> & Hm). by eapply returns_ret, net_pm.
  - unfold Network_goodbye_peer, goodbye_peer.
    destruct (report_ok now p Fatal (Some reason) _ (ni_pm _ _ Hn')) as (m & -> & Hm). by eapply returns_ret, net_pm.
  - apply returns_ret. by eapply (disc_op _ _ (OpAddEnr _)).
  - by apply returns_ret, discover_subnets_inv.
Qed.

(** ** Creation *)

Lemma start_network config listen_on n r : start config listen_on n = Ret r ->
  match r with
  | Ok (_, n') => n' = foldl (fun n topic => (subscribe_kind VerifiedUserOperationKind topic n).2) n (topics config)
  | Err _ => True
  end.
Proof. unfold start. repeat case_match; naive_solver. Qed.

Lemma subscribe_all_inv t ids : forall n, net_inv t n ->
  net_inv t (foldl (fun n topic => (subscribe_kind VerifiedUserOperationKind topic n).2) n ids).
Proof. induction ids as [|id ids IH]; intros n Hn; cbn [foldl]; [done|]. by apply IH, subscribe_inv. Qed.

Lemma network_new_inv `{GossipsubBuilder} config env cmds n t :
  Network_new config env = Ret (Ok (cmds, n)) -> net_inv t n.
Proof.
  unfold Network_new. destruct (build_or_load_enr _ _ _ _ _) as [ [e f]|]; [|done].
  destruct (gossipsub_config _ _); [|done]. destruct (ne_gossipsub env) as [g|]; [|done].
  destruct (RPC_new _ _ _ _) as [r|]; [|done].
  destruct (Discovery_new _ _ _ _ _ _) as [d|] eqn:Hd; [|done].
  destruct (ne_transport env) as [u|]; [|done]. intros Hs%start_network. cbn in Hs. subst n.
  apply subscribe_all_inv. split; cbn; [apply new_inv| |done].
  apply discovery_new_inv in Hd as [Hd _]. by apply inv_discover.
Qed.

(** The turns a poll of the swarm takes: it stops at the first event for the application. *)
Fixpoint taken (turns : list (Instant * SwarmTurn (AppReqId := AppReqId))) n : list SwarmTurn :=
  match turns with
  | [] => []
  | (now, turn) :: turns =>
      turn :: match swarm_turn now turn n with
              | Ret (None, n1) => taken turns n1
              | Ret (Some e, n1) =>
                  match handle_swarm_event now e n1 with Ret (None, n2) => taken turns n2 | _ => [] end
              | Panic _ => []
              end
  end.

Definition op_turns (op : NetOp) n : list SwarmTurn :=
  match op with NetPoll turns _ _ => taken turns n | _ => [] end.

(** The states of a network, with their time, the turns of the swarm so far and the
    events handed to the application. *)
Inductive net_reachable `{GossipsubBuilder} (config : NetworkConfig) (env : NewEnv)
  : Instant -> list SwarmTurn -> list NetworkEvent -> Network -> Prop :=
| net_start t cmds n : Network_new config env = Ret (Ok (cmds, n)) -> net_reachable config env t [] [] n
| net_step t now op turns evs n evs' n' :
    net_reachable config env t turns evs n -> op_ok (topics config) t op now -> net_do now op n = Ret (evs', n') ->
    net_reachable config env now (turns ++ op_turns op n) (evs ++ evs') n'.

Lemma net_reachable_inv `{GossipsubBuilder} config env t turns evs n :
  net_reachable config env t turns evs n -> net_inv t n.
Proof.
  induction 1 as [t cmds n Hnew|t now op turns evs n evs' n' _ IH Ho Hd]; [by eapply network_new_inv|].
  destruct (net_do_returns _ t now op n IH Ho) as (e & n1 & Hn1 & Hi). congruence.
Qed.

(** C4: In every state the network reaches from its creation, the next call or poll returns
    without a panic, whatever the swarm, the peers and the timers report as long as gossip
    events are of the configured topics; afterwards the connection limit
    holds, every connected peer has a ping timer, discovery has its
    invariant and the cache of unsent messages is empty. *)
Theorem network_safe `{GossipsubBuilder} config env t turns evs now op n :
  net_reachable config env t turns evs n -> op_ok (topics config) t op now ->
  exists evs' n', net_do now op n = Ret (evs', n') /\
    connected_count (pm_peers (peer_manager n')) <=
      Z.max (max_peers (target_peers (peer_manager n')))
            (max_outbound_dialing_peers (target_peers (peer_manager n'))) /\
    (forall p i, peers (pm_peers (peer_manager n')) !! p = Some i -> is_connected i = true ->
       p ∈ ds_keys (inbound_ping_peers (peer_manager n')) ∪ ds_keys (outbound_ping_peers (peer_manager n'))) /\
    disc_inv (discovery n') /\
    gossip_cache n' = build GossipCache_builder.
Proof.
  intros Hr Ho. destruct (net_do_returns _ t now op n (net_reachable_inv _ _ _ _ _ _ Hr) Ho)
    as (evs' & n' & Hd & [ [_ Hl Hp] Hdi Hc]). by exists evs', n'.
Qed.

(** ** Answers to our requests *)

Section answers.
Context `{EqDecision AppReqId}.
Abbreviation key := (PeerId * AppReqId)%type (only parsing).

(** The request of ours that a handler event, an action, an event of the swarm or an event
    for the application answers. *)
Definition event_answers (k : key) p (e : HandlerEvent (RequestId AppReqId)) : bool :=
  match e with
  | Ok (RecvResponse (Application id) _) | Ok (EndOfStream (Application id) _)
  | Err (ErrOutbound (Application id) _ _) => bool_decide ((p, id) = k)
  | _ => false
  end.
Definition action_answers (k : key) (a : BehaviourAction (RequestId AppReqId)) : bool :=
  match a with
  | ActGenerateEvent msg => event_answers k (msg_peer_id msg) (msg_event msg)
  | ActNotifyHandler _ _ _ => false
  end.
Definition turn_answers (k : key) (turn : SwarmTurn (AppReqId := AppReqId)) : bool :=
  match turn with TurnHandlerEvent p _ e => event_answers k p e | _ => false end.
Definition swarm_answers (k : key) (e : SwarmEvent (AppReqId := AppReqId)) : bool :=
  match e with SwEth2Rpc msg => event_answers k (msg_peer_id msg) (msg_event msg) | _ => false end.
Definition answers (k : key) (ev : NetworkEvent (AppReqId := AppReqId)) : bool :=
  match ev with
  | ResponseReceived p id _ | RPCFailed id p => bool_decide ((p, id) = k)
  | _ => false
  end.

Definition number {A} (f : A -> bool) (l : list A) : Z := foldr (fun a c => Z.b2z (f a) + c) 0 l.

Lemma number_perm {A} (f : A -> bool) l l' : Permutation l l' -> number f l = number f l'.
Proof. unfold number. induction 1; cbn; lia. Qed.
Lemma number_app {A} (f : A -> bool) l l' : number f (l ++ l') = number f l + number f l'.
Proof. unfold number. induction l; cbn; lia. Qed.

(** The answers the RPC behaviour still holds. *)
Definition pending (k : key) n : Z := number (action_answers k) (rpc_held (eth2_rpc n)).

Lemma number_cons {A} (f : A -> bool) a l : number f (a :: l) = Z.b2z (f a) + number f l.
Proof. done. Qed.
Lemma number_option {A} (f : A -> bool) (o : option A) :
  number f (option_list o) = match o with Some a => Z.b2z (f a) | None => 0 end.
Proof. destruct o; cbn; lia. Qed.

(** Field updates that leave the RPC behaviour alone. *)
Lemma rpc_fields n b g d m c s :
  eth2_rpc (with_banned b n) = eth2_rpc n /\ eth2_rpc (with_gossipsub g n) = eth2_rpc n /\
  eth2_rpc (with_discovery d n) = eth2_rpc n /\ eth2_rpc (with_pm m n) = eth2_rpc n /\
  eth2_rpc (with_gossip_cache c n) = eth2_rpc n /\ eth2_rpc (with_subscriptions s n) = eth2_rpc n.
Proof. by destruct n. Qed.

Lemma rpc_field r n : eth2_rpc (with_rpc r n) = r.
Proof. by destruct n. Qed.

Lemma pending_send now p id req k n :
  pending k (with_rpc (rpc_send_request now p id req (eth2_rpc n)) n) = pending k n.
Proof. unfold pending. rewrite rpc_field, (number_perm _ _ _ (rpc_send_held now p id req _)). done. Qed.

Lemma pending_push e k n : action_answers k e = false ->
  pending k (with_rpc (rpc_push e (eth2_rpc n)) n) = pending k n.
Proof. intros He. unfold pending. rewrite rpc_field, (number_perm _ _ _ (rpc_push_held e _)). cbn. rewrite He. done. Qed.

(** A pure update of other fields. *)
Lemma pending_eq k n n' : eth2_rpc n' = eth2_rpc n -> pending k n' = pending k n.
Proof. unfold pending. by intros ->. Qed.

Lemma publish_topics_rpc message topics : forall n rs n', publish_topics message topics n = Ret (rs, n') ->
  eth2_rpc n' = eth2_rpc n.
Proof.
  induction topics as [|topic topics IH]; intros n rs n'; cbn [publish_topics]; [naive_solver|].
  destruct (gs_publish _ _ _) as [r g]. cbn [insert insert_with]. intros He.
  assert (exists n1 rs', publish_topics message topics n1 = Ret (rs', n') /\ eth2_rpc n1 = eth2_rpc n) as (n1 & rs' & Hp & <-).
  { destruct r as [|[]]; (destruct (publish_topics message topics _) as [[]|] eqn:Hp; [|done]);
      injection He as <- <-; eexists _, _; (split; [exact Hp|]); by destruct n. }
  by eapply IH.
Qed.

Lemma publish_rpc messages ids : forall n n', publish messages ids n = Ret n' -> eth2_rpc n' = eth2_rpc n.
Proof.
  induction messages as [|m messages IH]; intros n n'; cbn [publish]; [naive_solver|].
  destruct (publish_topics _ _ _) as [ [rs n1]|] eqn:Hp; [|done]. intros ->%IH. by eapply publish_topics_rpc.
Qed.

Lemma publish_cached_rpc topic msgs : forall n, eth2_rpc (publish_cached topic msgs n) = eth2_rpc n.
Proof. induction msgs as [|d msgs IH]; intros n; cbn; [done|]. unfold publish_cached in IH. rewrite IH. by destruct n. Qed.

Lemma gs_event_rpc now e n o n' : inject_gs_event now e n = Ret (o, n') ->
  eth2_rpc n' = eth2_rpc n /\ (forall k, number (answers k) (option_list o) = 0).
Proof.
  destruct e as [p id topic data|p topic|p topic|p]; cbn [inject_gs_event].
  - destruct (PubsubMessage_decode _ _ _ _) as [ []|]; intros [= <- <-]; [done|]. by destruct n.
  - destruct (GossipTopic_decode topic) as [ [gt|]|]; [|by intros [= <- <-]|done].
    destruct (retrieve gt _) as [ [ [ms|] c]|]; [|by intros [= <- <-]; destruct n|done].
    intros [= <- <-]. rewrite publish_cached_rpc. by destruct n.
  - destruct (subnet_from_topic_hash topic); [|done]. by intros [= <- <-].
  - destruct (pm_report_peer _ _ _ _ _); [|done]. intros [= <- <-]. by destruct n.
Qed.

Lemma pm_event_pending now e n k :
  number (answers k) (option_list (inject_pm_event now e n).1) + pending k (inject_pm_event now e n).2 = pending k n.
Proof.
  destruct e; cbn [inject_pm_event fst snd option_list number foldr answers Z.b2z]; rewrite ?Z.add_0_l; try done;
    try (apply pending_eq; by destruct n); try apply pending_send; [by apply pending_push|].
  apply pending_eq. unfold Network_discover_subnet_peers. destruct (negb _); [done|]. destruct (negb _); [|done]. by destruct n.
Qed.

Lemma rpc_event_pending now msg n o n' k : inject_rpc_event now msg n = Ret (o, n') ->
  number (answers k) (option_list o) + pending k n' <=
  Z.b2z (event_answers k (msg_peer_id msg) (msg_event msg)) + pending k n.
Proof.
  assert (Hb : forall b, 0 <= Z.b2z b) by (intros []; done).
  unfold inject_rpc_event. destruct (negb _); [intros [= <- <-]; cbn; specialize (Hb (event_answers k (msg_peer_id msg) (msg_event msg))); lia|].
  destruct (msg_event msg) as [ [id req|id resp|id t]|[id proto err|id proto err] ]; cbn [event_answers].
  - assert (Hpong : forall m r, pending k (with_rpc (rpc_send_response (msg_peer_id msg) (msg_conn_id msg, id) r
      (eth2_rpc (with_pm m n))) (with_pm m n)) = pending k n).
    { intros m r. unfold rpc_send_response. rewrite pending_push by done. apply pending_eq. by destruct n. }
    destruct req; intros [= <- <-].
    + rewrite (pending_eq k n (with_pm _ n)) by (by destruct n). cbn. lia.
    + cbn. lia.
    + unfold pong. rewrite Hpong. cbn. lia.
    + unfold send_meta_data_response, rpc_send_response. rewrite pending_push by done. cbn. lia.
    + cbn. lia.
    + cbn. lia.
  - destruct resp; intros [= <- <-]; rewrite ?(pending_eq k n (with_pm _ n)) by (by destruct n);
      destruct id as [id|]; cbn; try (specialize (Hb (bool_decide ((msg_peer_id msg, id) = k)))); lia.
  - intros [= <- <-]. destruct id as [id|]; cbn; lia.
  - destruct (handle_rpc_error _ _ _ _ _ _) as [m|]; [|done]. intros [= <- <-].
    rewrite (pending_eq k n (with_pm _ n)) by (by destruct n). cbn. lia.
  - destruct (handle_rpc_error _ _ _ _ _ _) as [m|]; [|done]. intros [= <- <-].
    rewrite (pending_eq k n (with_pm _ n)) by (by destruct n). destruct id; cbn; lia.
Qed.

Lemma turn_pending now turn n o n' k : swarm_turn now turn n = Ret (o, n') ->
  number (swarm_answers k) (option_list o) + pending k n' <= Z.b2z (turn_answers k turn) + pending k n.
Proof.
  assert (Hb : forall b, 0 <= Z.b2z b) by (intros []; done).
  destruct turn as [ge|ie|clock ticks st x|env|ticks inb outb|ev err|p c e|a|l|]; cbn [swarm_turn turn_answers].
  - intros [= <- <-]. cbn. lia.
  - intros [= <- <-]. cbn. lia.
  - pose proof (rpc_poll_held clock ticks st x (eth2_rpc n)) as Hp. destruct (rpc_poll _ _ _ _ _) as [a r].
    intros [= <- <-]. unfold pending. rewrite rpc_field. apply (number_perm (action_answers k)) in Hp.
    rewrite number_app in Hp. rewrite <- Hp. destruct a as [ [q h e|msg]|]; cbn; lia.
  - destruct (disc_poll _ _ _) as [ [r d]|]; [|done]. intros [= <- <-].
    rewrite (pending_eq k n (with_discovery d n)) by (by destruct n). destruct r; cbn; lia.
  - destruct (pm_poll _ _ _ _ _) as [ [r m]|]; [|done]. intros [= <- <-]. cbn [fst snd].
    rewrite (pending_eq k n (with_pm m n)) by (by destruct n). destruct r as [ []|]; cbn; lia.
  - destruct (on_swarm_event _ _ _) as [m|]; [|done]. intros [= <- <-].
    rewrite (pending_eq k n) by (by destruct n; destruct ev). cbn. lia.
  - intros [= <- <-]. cbn. rewrite Z.add_0_l. unfold pending. rewrite rpc_field.
    unfold on_connection_handler_event, rpc_send_response.
    assert (Hpush : forall r, number (action_answers k) (rpc_held (rpc_push
      (ActGenerateEvent (mkRPCMessage p c e)) r)) = Z.b2z (event_answers k p e) + number (action_answers k) (rpc_held r)).
    { intros r. by rewrite (number_perm _ _ _ (rpc_push_held _ r)). }
    assert (Hlim : forall lim (r : RPC (RequestId AppReqId)), rpc_held (mkRPC lim (rpc_self_limiter r) (rpc_events r) (rpc_network_params r)) = rpc_held r)
      by done.
    destruct e as [ [id req|id resp|id t]|e]; try (rewrite Hpush; lia).
    destruct (rpc_limiter (eth2_rpc n)) as [lim|]; [|rewrite Hpush; lia].
    destruct (RPCRateLimiter_allows now p req lim) as [ [u|[|w] ] lim'];
      [by rewrite Hpush, Hlim|rewrite (number_perm _ _ _ (rpc_push_held _ _)), Hlim; reflexivity..].
  - intros [= <- <-]. cbn. lia.
  - intros [= <- <-]. cbn. lia.
  - intros [= <- <-]. cbn. lia.
Qed.

Lemma swarm_event_pending now e n o n' k : handle_swarm_event now e n = Ret (o, n') ->
  number (answers k) (option_list o) + pending k n' <= Z.b2z (swarm_answers k e) + pending k n.
Proof.
  destruct e as [ge|re|ps|ie|pe|a|l|]; cbn [handle_swarm_event swarm_answers].
  - intros Hg. apply gs_event_rpc in Hg as [Hr Hz]. rewrite Hz, (pending_eq k n n' Hr). cbn. lia.
  - by apply rpc_event_pending.
  - intros [= <- <-]. rewrite (pending_eq k n (with_pm _ n)) by (by destruct n). cbn. lia.
  - intros [= Hi]. destruct ie; injection Hi as <- <-; rewrite ?(pending_eq k n (with_pm _ n)) by (by destruct n); cbn; lia.
  - intros [= Hi]. pose proof (pm_event_pending now pe n k) as Hp. rewrite Hi in Hp. cbn in Hp. cbn. lia.
  - intros [= <- <-]. cbn. lia.
  - intros [= <- <-]. destruct (l =? 0); cbn; lia.
  - intros [= <- <-]. cbn. lia.
Qed.

Lemma poll_swarm_pending k turns : forall n o n', poll_swarm turns n = Ret (o, n') ->
  number (answers k) (option_list o) + pending k n' <= number (turn_answers k) (taken turns n) + pending k n.
Proof.
  induction turns as [|[now turn] turns IH]; intros n o n'; cbn [poll_swarm taken]; [by intros [= <- <-]|].
  rewrite number_cons.
  destruct (swarm_turn now turn n) as [ [e n1]|] eqn:Ht; [|done]. apply (turn_pending _ _ _ _ _ k) in Ht.
  rewrite number_option in Ht. destruct e as [e|].
  - destruct (handle_swarm_event now e n1) as [ [out n2]|] eqn:He; [|done].
    apply (swarm_event_pending _ _ _ _ _ k) in He. rewrite number_option in He. destruct out as [ev|].
    + intros [= <- <-]. rewrite number_option. change (number _ []) with 0. lia.
    + intros Hp%IH. lia.
  - intros Hp%IH. lia.
Qed.

Lemma scores_rpc now ticks : forall n n', update_all_scores now ticks n = Ret n' -> eth2_rpc n' = eth2_rpc n.
Proof.
  induction ticks as [|sort ticks IH]; intros n n'; cbn [update_all_scores]; [naive_solver|].
  destruct (pm_update_gossipsub_scores _ _ _ _) as [m|]; [|done]. intros ->%IH. by destruct n.
Qed.

Lemma poll_cache_rpc polls : forall n n', poll_cache polls n = Ret n' -> eth2_rpc n' = eth2_rpc n.
Proof.
  induction polls as [|x polls IH]; intros n n'; cbn [poll_cache]; [naive_solver|].
  destruct (poll_next _ _) as [ [r c]|]; [|done]. cbn.
  destruct r as [ [r|]|]; [intros ->%IH|intros [= <-]..]; by destruct n.
Qed.

Lemma send_all_pending now n k :
  pending k (send_outbound_pooled_user_op_hashes_request_to_all_peers now n) = pending k n.
Proof.
  unfold send_outbound_pooled_user_op_hashes_request_to_all_peers. generalize (get_all_peers n). intros l.
  revert n. induction l as [|p l IH]; intros n; cbn [foldl]; [done|]. rewrite IH. apply pending_send.
Qed.

Lemma net_do_pending now op n evs n' k : net_do now op n = Ret (evs, n') ->
  number (answers k) evs + pending k n' <= number (turn_answers k) (op_turns op n) + pending k n.
Proof.
  assert (Heq : forall n1, eth2_rpc n1 = eth2_rpc n -> Ret (@nil NetworkEvent, n1) = Ret (evs, n') ->
    number (answers k) evs + pending k n' <= 0 + pending k n).
  { intros n1 Hr [= <- <-]. rewrite (pending_eq k n n1 Hr). cbn. lia. }
  destruct op; cbn [net_do op_turns]; try (by apply Heq; destruct n).
  - unfold poll_network. destruct (poll_swarm turns n) as [ [ [ev|] n1]|] eqn:Hp; [| |done];
      apply (poll_swarm_pending k) in Hp; rewrite number_option in Hp.
    + intros [= <- <-]. cbn [fst snd]. rewrite number_cons. change (number _ []) with 0. lia.
    + destruct (update_all_scores _ _ _) as [n2|] eqn:Hs; [|done]. apply scores_rpc in Hs.
      destruct (poll_cache _ _) as [n3|] eqn:Hc; [|done]. apply poll_cache_rpc in Hc.
      intros [= <- <-]. cbn [fst snd]. rewrite (pending_eq k n1 n3) by congruence. done.
  - apply Heq. unfold subscribe. destruct (gs_subscribe _ _) as [ [] ?]; by destruct n.
  - destruct (publish messages mempool_ids n) as [n1|] eqn:Hp; [|done]. apply publish_rpc in Hp. by apply Heq.
  - intros [= <- <-]. unfold send_request. rewrite pending_send. cbn. lia.
  - intros [= <- <-]. rewrite send_all_pending. cbn. lia.
  - intros [= <- <-]. unfold send_response, rpc_send_response. rewrite pending_push by done. cbn. lia.
  - intros [= <- <-]. unfold send_error_reponse, rpc_send_response. rewrite pending_push by done. cbn. lia.
  - unfold Network_report_peer. destruct (pm_report_peer _ _ _ _ _); [|done]. apply Heq. by destruct n.
  - unfold Network_goodbye_peer. destruct (goodbye_peer _ _ _ _); [|done]. apply Heq. by destruct n.
  - apply Heq. unfold Network_discover_subnet_peers. destruct (negb _); [done|]. destruct (negb _); [|done]. by destruct n.
Qed.

Lemma subscribe_all_rpc ids : forall n,
  eth2_rpc (foldl (fun n topic => (subscribe_kind VerifiedUserOperationKind topic n).2) n ids) = eth2_rpc n.
Proof.
  induction ids as [|id ids IH]; intros n; cbn [foldl]; [done|]. rewrite IH. unfold subscribe_kind, subscribe.
  destruct (gs_subscribe _ _) as [ [] ?]; by destruct n.
Qed.

Lemma network_new_pending `{GossipsubBuilder} config env cmds n k :
  Network_new config env = Ret (Ok (cmds, n)) -> pending k n = 0.
Proof.
  unfold Network_new. destruct (build_or_load_enr _ _ _ _ _) as [ [e f]|]; [|done].
  destruct (gossipsub_config _ _); [|done]. destruct (ne_gossipsub env) as [g|]; [|done].
  destruct (RPC_new _ _ _ _) as [r|] eqn:Hr; [|done].
  destruct (Discovery_new _ _ _ _ _ _) as [d|]; [|done].
  destruct (ne_transport env) as [u|]; [|done]. intros Hs%start_network. cbn in Hs. subst n.
  unfold pending. rewrite subscribe_all_rpc. cbn. revert Hr. unfold RPC_new, SelfRateLimiter_new.
  repeat case_match; try done; intros [= <-]; simplify_eq; done.
Qed.

(** C8: Answers are neither invented nor multiplied: in every history of the network and
    for every request, the application is told of at most as many answers (a response, the
    end of a stream or a failure) as the connections to that peer reported for that
    request; the network never gives an answer to another request or for another peer. *)
Theorem answers_conserved `{GossipsubBuilder} config env t turns evs n p id :
  net_reachable config env t turns evs n ->
  number (answers (p, id)) evs <= number (turn_answers (p, id)) turns.
Proof.
  intros Hr. assert (number (answers (p, id)) evs + pending (p, id) n <= number (turn_answers (p, id)) turns) as Hc.
  { induction Hr as [t cmds n Hnew|t now op turns evs n evs' n' _ IH Ho Hd].
    - by rewrite (network_new_pending _ _ _ _ _ Hnew).
    - apply (net_do_pending _ _ _ _ _ (p, id)) in Hd. rewrite !number_app. lia. }
  assert (forall l, 0 <= number (action_answers (p, id)) l) as Hpos.
  { induction l as [|a l IHl]; [done|]. rewrite number_cons. destruct (action_answers (p, id) a); cbn; lia. }
  specialize (Hpos (rpc_held (eth2_rpc n))). unfold pending in Hc. lia.
Qed.
End answers.

(** ** Requests of peers *)

(** A request as the peer sent it. *)
Definition InboundRequest_of (r : Request) : InboundRequest :=
  match r with
  | ReqStatus s => InStatus s
  | ReqPooledUserOpHashes r => InPooledUserOpHashes r
  | ReqPooledUserOpsByHash r => InPooledUserOpsByHash r
  end.

(** C27: A request of a connected peer is answered where it came from. Pings and metadata
    requests are answered at once, with our own sequence number or metadata; a goodbye
    is not answered; every other request reaches the application unchanged, and
    whatever it responds under the id it was given goes to the connection and
    the substream of the request. *)
Theorem requests_answered now p conn sub req n :
  db_is_connected (pm_peers (peer_manager n)) p = true ->
  exists out n', inject_rpc_event now (mkRPCMessage p conn (Ok (RecvRequest sub req))) n = Ret (out, n') /\
  let reply r := ActNotifyHandler p (NotifyOne conn) (SendResponse sub r) in
  match req with
  | InPing _ => out = None /\ rpc_events (eth2_rpc n') =
      rpc_events (eth2_rpc n) ++ [reply (Success (RPong (mkPing (seq_number (local_metadata n)))))]
  | InMetaData => out = None /\ rpc_events (eth2_rpc n') =
      rpc_events (eth2_rpc n) ++ [reply (Success (RMetaData (local_metadata n)))]
  | InGoodbye _ => out = None /\ n' = n
  | _ => exists id r, out = Some (RequestReceived p id r) /\ InboundRequest_of r = req /\
      forall response, rpc_events (eth2_rpc (send_response p id response n')) =
        rpc_events (eth2_rpc n) ++ [reply (RPCCodedResponse_from response)]
  end.
Proof.
  intros Hc. unfold inject_rpc_event. cbn [msg_peer_id msg_conn_id msg_event]. rewrite Hc. cbn [negb].
  destruct req; eexists _, _; (split; [done|]); try (by destruct n);
    (eexists _, _; split_and!; [done|done|]; by destruct n).
Qed.

(** The rule under which a connection handler can send what it is given: the
    network sends metadata only on the substream on which a peer requested
    them, and a response of the application is never metadata. *)
Lemma metadata_only_asked now msg n out n' q h sub md :
  let action := ActNotifyHandler q h (SendResponse sub (Success (RMetaData md))) in
  inject_rpc_event now msg n = Ret (out, n') -> action ∈ rpc_events (eth2_rpc n') ->
  action ∈ rpc_events (eth2_rpc n) \/
  q = msg_peer_id msg /\ h = NotifyOne (msg_conn_id msg) /\
  msg_event msg = Ok (RecvRequest sub InMetaData).
Proof.
  assert (Hpm : forall m, eth2_rpc (with_pm m n) = eth2_rpc n) by (by destruct n).
  cbv zeta. unfold inject_rpc_event. destruct (negb _); [intros [= <- <-]; by left|].
  destruct (msg_event msg) as [ [id [ | | | | | ]|id []|id t]|[id proto err|id proto err] ];
    try (intros [= <- <-]; rewrite ?Hpm; by left);
    try (destruct (handle_rpc_error _ _ _ _ _ _) as [m|]; [|done]; intros [= <- <-]; rewrite Hpm; by left);
    intros [= <- <-]; unfold pong, send_meta_data_response; rewrite rpc_field;
    unfold rpc_send_response, rpc_push; cbn [rpc_events]; rewrite ?Hpm; cbn [fst snd]; intros [?|[= -> -> -> _]%list_elem_of_singleton]%elem_of_app;
    by auto.
Qed.

Lemma response_not_metadata r md : RPCCodedResponse_from r <> Success (RMetaData md).
Proof. by destruct r as [s|[]|[]]. Qed.

(** ** Bans *)

(** Polling the peer manager [k] times, with no timer due. *)
Fixpoint drain_events (k : nat) (now : Instant) n : outcome (list NetworkEvent * Network) :=
  match k with
  | O => Ret ([], n)
  | S k =>
      r <-! poll_swarm [(now, TurnPeerManager [] [] [])] n;
      rest <-! drain_events k now (snd r);
      Ret (option_list (fst r) ++ fst rest, snd rest)
  end.

(** The bans in a list of events, applied in order to a set. *)
Fixpoint replay {A} `{Countable A} (f : PeerId -> list IpAddr -> gset A) (events : list PeerManagerEvent)
    (s : gset A) : gset A :=
  match events with
  | [] => s
  | EvBanned p ips :: events => replay f events (f p ips ∪ s)
  | EvUnBanned p ips :: events => replay f events (s ∖ f p ips)
  | _ :: events => replay f events s
  end.

Lemma replay_app {A} `{Countable A} (f : PeerId -> list IpAddr -> gset A) events events' s :
  replay f (events ++ events') s = replay f events' (replay f events s).
Proof. revert s. induction events as [|[] events IH]; intros s; cbn; auto. Qed.

Lemma replay_stays {A} `{Countable A} (f : PeerId -> list IpAddr -> gset A) events s a :
  a ∈ s -> (forall p ips, EvUnBanned p ips ∈ events -> a ∉ f p ips) -> a ∈ replay f events s.
Proof.
  revert s. induction events as [|e events IH]; intros s Ha Hu; [done|].
  assert (forall p ips, EvUnBanned p ips ∈ events -> a ∉ f p ips) as Hu' by (intros; eapply Hu; by right).
  destruct e as [| | | | | | |p ips|p ips| |]; cbn; apply IH; try done; [set_solver|].
  specialize (Hu p ips ltac:(by left)). set_solver.
Qed.

Lemma drain_step now e events n : pm_events (peer_manager n) = e :: events ->
  poll_swarm [(now, TurnPeerManager [] [] [])] n =
  Ret (inject_pm_event now e (with_pm (set_events events (peer_manager n)) n)).
Proof.
  intros He. cbn [poll_swarm swarm_turn]. unfold pm_poll. cbn [heartbeats poll_pings].
  destruct n as [b g r d m c l s], m as [db ev ip op sp tp pd tb sc de me]. cbn in *. subst ev. cbn. rewrite !app_nil_r. cbn.
  destruct (inject_pm_event _ _ _) as [ [ev|] n']; done.
Qed.

(** The three sets of bans, and what an event makes of them. *)
Definition bans n : gset PeerId * gset NodeId * gset IpAddr :=
  (bl_peers (banned_peers n), d5_banned_nodes (discv5 (discovery n)), d5_banned_ips (discv5 (discovery n))).
Definition replay_bans (events : list PeerManagerEvent) (s : gset PeerId * gset NodeId * gset IpAddr)
  : gset PeerId * gset NodeId * gset IpAddr :=
  (replay (fun p _ => {[p]}) events s.1.1, replay (fun p _ => node_of peer_id_to_node_id p) events s.1.2,
   replay (fun _ ips => list_to_set ips) events s.2).

Lemma discv5_add_subnet subnet ttl retries d : discv5 (add_subnet_query subnet ttl retries d) = discv5 d.
Proof. rewrite add_subnet_query_only. by destruct d. Qed.

Lemma discv5_discover k d : discv5 (discover_peers k d) = discv5 d.
Proof. unfold discover_peers. destruct (_ || _); [done|]. by destruct d. Qed.

Lemma discv5_subnets l d : discv5 (discover_subnet_peers l d) = discv5 d.
Proof.
  unfold discover_subnet_peers. destruct (negb _); [done|]. revert d.
  induction l as [|x l IH]; intros d; cbn [foldl]; [done|]. by rewrite IH, discv5_add_subnet.
Qed.

Lemma inject_pm_bans now e n : peer_manager (inject_pm_event now e n).2 = peer_manager n /\
  bans (inject_pm_event now e n).2 = replay_bans [e] (bans n).
Proof.
  unfold bans, replay_bans. destruct e as [| | | | | | |p ips|p ips|k|l]; cbn [inject_pm_event snd replay fst];
    try (by destruct n).
  - destruct n; cbn. rewrite bl_block_peers.
    by destruct (ban_peer_sets peer_id_to_node_id p ips discovery) as [-> ->].
  - destruct n; cbn. rewrite bl_unblock_peers.
    by destruct (unban_peer_sets peer_id_to_node_id p ips discovery) as [-> ->].
  - destruct n; cbn. by rewrite discv5_discover.
  - unfold Network_discover_subnet_peers. destruct (negb _); [done|]. destruct (negb _); [|done].
    destruct n; cbn. by rewrite discv5_subnets.
Qed.

Lemma drain_events_bans now : forall k n, length (pm_events (peer_manager n)) = k ->
  exists out n', drain_events k now n = Ret (out, n') /\ pm_events (peer_manager n') = [] /\
    bans n' = replay_bans (pm_events (peer_manager n)) (bans n).
Proof.
  induction k as [|k IH]; intros n Hk; destruct (pm_events (peer_manager n)) as [|e events] eqn:He; try done.
  { eexists _, _. split_and!; [done|done|]. by unfold replay_bans, bans. }
  cbn [drain_events]. rewrite (drain_step now e events n He).
  set (n0 := with_pm (set_events events (peer_manager n)) n).
  destruct (inject_pm_bans now e n0) as [Hpm Hb]. destruct (inject_pm_event now e n0) as [o n1]. cbn [fst snd] in *.
  assert (pm_events (peer_manager n1) = events) as He1 by (rewrite Hpm; by destruct n, peer_manager).
  destruct (IH n1) as (out & n' & -> & Hn' & Hbans); [by rewrite He1; injection Hk|].
  exists (option_list o ++ out), n'. split_and!; [done|done|]. rewrite Hbans, He1, Hb.
  replace (bans n0) with (bans n) by (by destruct n). unfold replay_bans. cbn [fst snd].
  by rewrite <- !(replay_app _ [e] events).
Qed.

(** C24: Every event the peer manager has queued is handled, one per poll and in order: the
    block list of the swarm and the banned nodes and addresses of discovery end up
    with exactly the bans of the events replayed in order. So a peer whose
    last ban was not lifted by a later event is blocked. *)
Theorem bans_replayed now n : let events := pm_events (peer_manager n) in
  exists out n', drain_events (length events) now n = Ret (out, n') /\
    pm_events (peer_manager n') = [] /\ bans n' = replay_bans events (bans n) /\
    forall p ips before after, events = before ++ EvBanned p ips :: after ->
      (forall ips', EvUnBanned p ips' ∉ after) -> p ∈ bl_peers (banned_peers n').
Proof.
  intros events. destruct (drain_events_bans now (length events) n eq_refl) as (out & n' & Hd & He & Hb).
  exists out, n'. split_and!; [done..|]. intros p ips before after Hev Hun.
  apply (f_equal (fun s => s.1.1)) in Hb. cbn in Hb. rewrite Hb. fold events. rewrite Hev, replay_app. cbn.
  apply replay_stays; [set_solver|]. intros q ips' Hq Hpq. apply elem_of_singleton in Hpq. subst q. by apply (Hun ips').
Qed.

(** ** Publishing *)

(** The id of a message, the same on all topics. *)
Definition content_id (message : PubsubMessage) : bytes :=
  gossip_message_id sha256 service_gossip_params
    (mkRawMessage None (PubsubMessage_encode message GossipEncoding_default) None "").

Lemma publish_same_id message topics : forall n, exists rs n',
  publish_topics message topics n = Ret (rs, n') /\
  number is_ok rs + Z.b2z (bool_decide (content_id message ∈ gs_published (gossipsub n))) <= 1.
Proof.
  induction topics as [|topic topics IH]; intros n; cbn [publish_topics].
  { eexists _, _. split; [done|]. cbn. destruct (bool_decide _); cbn; lia. }
  pose proof (gs_publish_spec (GossipTopic_to_string topic) (PubsubMessage_encode message GossipEncoding_default)
    (gossipsub n)) as Hs.
  destruct (gs_publish _ _ _) as [r g]. cbn [insert insert_with].
  replace (match r with Err InsufficientPeers => _ | _ => _ end)
    with (Ret (match r with Err InsufficientPeers => with_gossip_cache (gossip_cache n) (with_gossipsub g n)
                       | _ => with_gossipsub g n end)) by (destruct r as [|[]]; by destruct n).
  set (n1 := match r with Err InsufficientPeers => _ | _ => _ end).
  assert (gossipsub n1 = g) as Hg by (subst n1; destruct r as [|[]]; by destruct n).
  destruct (IH n1) as (rs & n' & -> & Hc). eexists _, _. split; [done|]. cbn [fst]. rewrite number_cons.
  rewrite Hg in Hc. destruct r as [i|e].
  - destruct Hs as (Hi & Hni & Hg'). change (i = content_id message) in Hi. subst i.
    rewrite Hg', (bool_decide_eq_true_2 (content_id message ∈ _)) in Hc by set_solver.
    rewrite bool_decide_eq_false_2 by done. change (Z.b2z (is_ok (Ok (content_id message)))) with 1.
    change (Z.b2z true) with 1 in Hc. change (Z.b2z false) with 0. lia.
  - rewrite Hs in Hc. change (Z.b2z (is_ok (Err e))) with 0. lia.
Qed.

(** Publishing a message on any list of topics returns a result for each, and at most
    one of them is a success: the ids of its copies are the same, so once one topic
    accepted it, it is refused as a duplicate on all others. *)
Theorem published_once message topics n :
  exists rs n', publish_topics message topics n = Ret (rs, n') /\ length rs = length topics /\
    number is_ok rs <= 1.
Proof.
  destruct (publish_same_id message topics n) as (rs & n' & Hp & Hc). exists rs, n'. split_and!; [done| |].
  - clear Hc. revert n rs n' Hp. induction topics as [|topic topics IH]; intros n rs n'; cbn [publish_topics];
      [by intros [= <- <-]|].
    destruct (gs_publish _ _ _) as [r g]. destruct (match r with Err InsufficientPeers => _ | _ => _ end); [|done].
    destruct (publish_topics _ _ _) as [ [rs' n2]|] eqn:Hp; [|done]. intros [= <- <-]. cbn. f_equal. by eapply IH.
  - destruct (bool_decide _); cbn in Hc; lia.
Qed.

(** ** Starting *)

Definition has_quic (a : list MaProtocol) : bool :=
  existsb (fun v => match v with QuicV1 => true | _ => false end) a.
Definition listening (cmds : list SwarmCommand) : list (list MaProtocol) :=
  omap (fun c => match c with ListenOn a => Some a | DialAddress _ => None end) cmds.

Lemma listen_loop_spec disable_quic listen_on addresses :
  let candidates := filter (fun a => disable_quic && has_quic a = false) addresses in
  match listen_loop disable_quic listen_on addresses with
  | Ok cmds => listening cmds = take 1 candidates
  | Err _ => exists a, head candidates = Some a /\ is_ok (listen_on a) = false
  end.
Proof.
  induction addresses as [|a addresses IH]; cbn [listen_loop]; [done|]. fold (has_quic a).
  rewrite filter_cons. destruct (disable_quic && has_quic a) eqn:Ha.
  - rewrite decide_False by done. exact IH.
  - rewrite decide_True by done. destruct (listen_on a) eqn:Hl; [done|]. exists a. by rewrite Hl.
Qed.

Lemma listening_dials cmds : Forall (fun c => exists a, c = dial a) cmds -> listening cmds = [].
Proof. induction 1 as [|c cmds [a ->] _ IH]; [done|exact IH]. Qed.

Lemma dial_boot_spec connected l : Forall (fun a => (2 <= length a)%nat) l ->
  exists cmds, dial_boot_addresses connected l = Ret cmds /\ Forall (fun c => exists a, c = dial a) cmds.
Proof.
  induction 1 as [|a l Ha _ (cmds & IH & Hc)]; cbn [dial_boot_addresses]; [eauto|].
  destruct (lookup_lt_is_Some_2 a 1) as [x ->]; [lia|]. cbn [expect]. rewrite IH. eexists. split; [done|].
  destruct x as [ []|], connected; cbn; eauto.
Qed.

Lemma dial_nodes_spec disable_quic db l :
  exists cmds, dial_boot_nodes disable_quic db l = Ret cmds /\ Forall (fun c => exists a, c = dial a) cmds.
Proof.
  induction l as [|e l (others & IH & Ho)]; cbn [dial_boot_nodes]; [eauto|].
  destruct (dial_boot_spec (db_is_connected_or_dialing db (enr_peer_id e)) (multiaddr e)) as (cmds & -> & Hc).
  { apply Forall_forall. intros a. apply multiaddr_length. }
  rewrite IH. eexists. split; [done|]. rewrite !Forall_app. split_and!; [|done|done].
  destruct (negb _ && negb _); [|done]. apply Forall_fmap, Forall_true. eauto.
Qed.

Lemma subscribe_subs ids : forall n,
  gossipsub_subscriptions (foldl (fun n topic => (subscribe_kind VerifiedUserOperationKind topic n).2) n ids) =
  list_to_set (map (GossipTopic_new VerifiedUserOperationKind GossipEncoding_default) ids) ∪ gossipsub_subscriptions n.
Proof.
  induction ids as [|id ids IH]; intros n; cbn [foldl map list_to_set]; [set_solver|]. rewrite IH.
  unfold subscribe_kind, subscribe. destruct (gs_subscribe _ _) as [ [] g]; destruct n; cbn; set_solver.
Qed.

(** Starting never panics. It fails only when listening fails on the first address that
    is not skipped, and listens on that address alone, also when the configuration
    has more of them; everything else it asks of the swarm is to dial. It
    subscribes to the topic of every configured mempool. *)
Theorem start_listens_once config listen_on n :
  let candidates := filter (fun a => disable_quic_support config && has_quic a = false)
    (libp2p_addresses (listen_addresses config)) in
  exists r, start config listen_on n = Ret r /\
  match r with
  | Err _ => exists a, head candidates = Some a /\ is_ok (listen_on a) = false
  | Ok (cmds, n') => listening cmds = take 1 candidates /\
      gossipsub_subscriptions n' =
        list_to_set (map (GossipTopic_new VerifiedUserOperationKind GossipEncoding_default) (topics config))
        ∪ gossipsub_subscriptions n
  end.
Proof.
  intros candidates. unfold start.
  pose proof (listen_loop_spec (disable_quic_support config) listen_on (libp2p_addresses (listen_addresses config))) as Hl.
  destruct (listen_loop _ _ _) as [cmds|]; [|eexists; split; [done|exact Hl] ].
  destruct (dial_nodes_spec (disable_quic_support config) (pm_peers (peer_manager n)) (dedup (boot_nodes_enr config)))
    as (boot & -> & Hb). eexists. split; [done|]. split; [|apply subscribe_subs].
  unfold listening in *. rewrite !omap_app, Hl. fold listening.
  change (omap _ boot) with (listening boot). rewrite (listening_dials boot Hb).
  rewrite <- (app_nil_r (take 1 candidates)). f_equal.
  assert (Hd : forall l : list Multiaddr, listening (map (fun a => dial (multiaddr_components a)) l) = []).
  { intros l. apply listening_dials, Forall_fmap, Forall_true. cbn. eauto. }
  change (listening (map (fun a => dial (multiaddr_components a)) (libp2p_nodes config)) ++ [] ++
    listening (map (fun a => dial (multiaddr_components a)) (filter (fun a => existsb is_tcp (multiaddr_components a) = true)
      (boot_nodes_multiaddr config))) = []). by rewrite !Hd.
Qed.

(** ** Metadata *)

(** Metadata written to disk come back: a start on the file of an earlier one does not
    lower the sequence number, keeps it when no mempools had been stored, and the next
    start finds exactly the same metadata and leaves the file as it is, unless it fails
    while it writes the file again. *)
Theorem metadata_restart write m : MetaData_wf m -> seq_number m < 2 ^ 64 - 1 ->
  let '(m1, file) := load_or_build_metadata Written (Some (as_ssz_bytes m)) in
  seq_number m <= seq_number m1 <= seq_number m + 1 /\ (supported_mempools m = [] -> m1 = m) /\
  load_or_build_metadata write file =
    (m1, match write with WriteFails n => Some (take n (as_ssz_bytes m1)) | _ => file end).
Proof.
  intros Hwf Hs. unfold load_or_build_metadata at 1. rewrite ssz_roundtrip by done. cbn [save_metadata_to_disk].
  destruct Hwf as ([Hlo Hhi] & _ & _).
  set (seq := if bool_decide _ then _ else _).
  assert (seq_number m <= seq <= seq_number m + 1) as Hseq.
  { subst seq. case_bool_decide; [lia|]. rewrite wrap_u64_id; lia. }
  cbn [seq_number supported_mempools]. split_and!; [lia|lia| |].
  - intros He. subst seq. rewrite bool_decide_eq_true_2 by done. by destruct m; cbn in *; subst.
  - unfold load_or_build_metadata. rewrite ssz_roundtrip.
    + cbn. by destruct write.
    + split_and!; cbn; [|done|done]. unfold is_u64. lia.
Qed.
End theorems.

(** ** Witnesses *)

#[local] Existing Instances demo_enr_external demo_enr_fields demo_enr_lib demo_discv5 demo_libm.
#[local] Instance demo_cache : LruCacheLib PeerId Enr := demo_lru PeerId Enr.
#[local] Instance demo_addr_iter : SetIter Multiaddr := canonical_set_iter Multiaddr.
#[local] Instance demo_infos : MapIter PeerId PeerInfo := canonical_map_iter PeerId PeerInfo.
#[local] Instance demo_delays : HashSetDelay PeerId := demo_delay_set PeerId.
#[local] Instance demo_expirations : DelayQueue (GossipTopic * bytes) := demo_delay_queue (GossipTopic * bytes).
#[local] Instance demo_msgs : MapIter bytes Z := canonical_map_iter bytes Z.
#[local] Existing Instance demo_gs_builder.

(** The encodings of [Wire], for these external types. *)
Definition reindex {A wf} (s : @Ssz demo_external A wf) : @Ssz demo_enr_external A wf :=
  @Build_Ssz demo_enr_external A wf (@as_ssz_bytes _ _ _ s) (@from_ssz_bytes _ _ _ s) (@ssz_roundtrip _ _ _ s).
Definition demo_enr_ssz : @SszTypes demo_enr_external :=
  @Build_SszTypes demo_enr_external (reindex (@ssz_u64 _ demo_ssz)) (reindex (@ssz_status _ demo_ssz))
    (reindex (@ssz_ping _ demo_ssz)) (reindex (@ssz_metadata _ demo_ssz)) (reindex (@ssz_hashes _ demo_ssz))
    (reindex (@ssz_hashes_request _ demo_ssz)) (reindex (@ssz_ops _ demo_ssz))
    (reindex (@ssz_ops_request _ demo_ssz)) (reindex (@ssz_error _ demo_ssz)) (reindex (@ssz_verified _ demo_ssz))
    (@ssz_u64_length _ demo_ssz) (@ssz_ping_u64 _ demo_ssz) (@ssz_error_bytes _ demo_ssz).
#[local] Existing Instance demo_enr_ssz.

(** Blocked peers are a set. *)
#[refine, local] Instance demo_block_list : BlockListLib := {|
  BlockList := gset PeerId; bl_peers := fun l => l; bl_default := ∅;
  bl_block := fun p l => {[p]} ∪ l; bl_unblock := fun p l => l ∖ {[p]};
|}.
Proof. all: done. Defined.

#[local] Instance demo_fns : ExternFns := {|
  sha256 := fun b => b; decode_error_debug := fun _ => ""; topic_debug := fun t => t;
  peer_id_to_node_id := fun p => Ok p;
  multiaddr_components := fun a => [Ma (Ip4 a.1); Ma (Tcp a.2)];
|}.

(** Gossip that remembers the ids of published messages. *)
Definition demo_gossipsub : GossipsubLib (gossip_message_id sha256 service_gossip_params).
Proof.
  refine (@Build_GossipsubLib demo_enr_external (gossip_message_id sha256 service_gossip_params)
    (gset bytes) (fun g => g) (fun _ g => (Ok true, g))
    (fun topic data g => let id := gossip_message_id sha256 service_gossip_params (mkRawMessage None data None topic) in
       if decide (id ∈ g) then (Err Duplicate, g) else (Ok id, {[id]} ∪ g))
    (fun _ _ _ g => (Ok true, g)) (fun _ _ => None) _).
  intros topic data g. lazy beta zeta. by case_decide.
Defined.
#[local] Existing Instance demo_gossipsub.

Definition demo_new_env : NewEnv :=
  mkNewEnv 0 (Ok 7%positive) CreateFails NoFile None (Ok ∅) (Ok tt) [] (Ok tt) (fun _ => Ok tt).

Lemma demo_network : exists cmds n,
  Network_new (AppReqId := Z) (NetworkConfig_in ".") demo_new_env = Ret (Ok (cmds, n)).
Proof. eexists _, _. reflexivity. Qed.

(** A peer connects, and its connection reports the failure of a request. *)
Definition demo_net_peer : PeerId := 9%positive.
Definition demo_poll : NetOp (AppReqId := Z) :=
  NetPoll [(1, TurnConnection (ConnectionEstablished demo_net_peer (Listener (1, 2)) 0) Aborted);
           (2, TurnHandlerEvent demo_net_peer 1 (Err (ErrOutbound (Application 5) Status StreamTimeout)));
           (3, TurnRpc (fun _ => 3) [] [] None)] [] [].

Lemma network_safe_witness : exists cmds (n : Network (AppReqId := Z)),
  Network_new (NetworkConfig_in ".") demo_new_env = Ret (Ok (cmds, n)) /\
  exists evs n', net_do 3 demo_poll n = Ret (evs, n') /\ disc_inv (discovery n').
Proof.
  destruct demo_network as (cmds & n & Hn). exists cmds, n. split; [done|].
  destruct (network_safe (NetworkConfig_in ".") demo_new_env 0 [] [] 3 demo_poll n
    (net_start _ _ 0 cmds n Hn)) as (evs & n' & Hd & _ & _ & Hi & _); [cbn; lia|]. by exists evs, n'.
Defined.

Lemma answers_conserved_witness : exists turns evs (n : Network (AppReqId := Z)),
  net_reachable (NetworkConfig_in ".") demo_new_env 3 turns evs n /\ turns <> [] /\
  number (answers (demo_net_peer, 5)) evs <= number (turn_answers (demo_net_peer, 5)) turns.
Proof.
  destruct demo_network as (cmds & n & Hn).
  destruct (net_do_returns [] 0 3 demo_poll n (network_new_inv _ _ _ _ 0 Hn)) as (evs & n' & Hd & _); [cbn; lia|].
  assert (net_reachable (NetworkConfig_in ".") demo_new_env 3 ([] ++ op_turns demo_poll n) ([] ++ evs) n') as Hr.
  { eapply net_step; [by eapply (net_start _ _ 0)| |done]. cbn. lia. }
  eexists _, _, n'. split_and!; [exact Hr|done|].
  exact (answers_conserved (NetworkConfig_in ".") demo_new_env 3 _ _ n' demo_net_peer 5 Hr).
Defined.

(** A network in which that peer is connected. *)
Definition demo_connected : Network (AppReqId := Z) :=
  mkNetwork ∅ ∅ (mkRPC None None [] demo_params) demo_discovery
    (inject_connect_ingoing 1 demo_net_peer (1, 2) None (PeerManager_new Config_default (PeerDB_new [] false)))
    (build GossipCache_builder) (mkMetaData 3 []) ∅.

Lemma requests_answered_witness : exists out n',
  inject_rpc_event 2 (mkRPCMessage demo_net_peer 1 (Ok (RecvRequest 4 (InPing (mkPing 8))))) demo_connected = Ret (out, n') /\
  out = None /\ rpc_events (eth2_rpc n') =
    [ActNotifyHandler demo_net_peer (NotifyOne 1) (SendResponse 4 (Success (RPong (mkPing 3))))].
Proof.
  exact (requests_answered 2 demo_net_peer 1 4 (InPing (mkPing 8)) demo_connected eq_refl).
Defined.

Lemma metadata_restart_witness :
  let '(m1, file) := load_or_build_metadata Written (Some (as_ssz_bytes (mkMetaData 4 []))) in
  4 <= seq_number m1 <= 4 + 1 /\ (supported_mempools (mkMetaData 4 []) = [] -> m1 = mkMetaData 4 []) /\
  load_or_build_metadata CreateFails file = (m1, file).
Proof.
  refine (metadata_restart CreateFails (mkMetaData 4 []) _ _); [|done].
  split_and!; cbn; [|done|done]. unfold is_u64. lia.
Defined.

(** The same operation on two topics: the second publication is refused. *)
Example demo_published_once :
  match publish_topics (PubsubVerifiedUserOperation demo_op)
    (map (GossipTopic_new VerifiedUserOperationKind GossipSSZSnappy) ["main"; "other"]) demo_connected with
  | Ret (rs, _) => map is_ok rs = [true; false]
  | Panic _ => False
  end.
Proof. vm_compute. reflexivity. Qed.

(** With two addresses configured, one is listened on. *)
Example demo_start_dual_stack :
  match start (set_listening_addr (DualStack (mkListenAddr 0 9000 9001 9000) (mkListenAddr 0 9090 9091 9090))
    (NetworkConfig_in ".")) (fun _ => Ok tt) demo_connected with
  | Ret (Ok (cmds, _)) => listening cmds = [ [Ip4 0; Tcp 9000] ]
  | _ => False
  end.
Proof. reflexivity. Qed.
