(* ===== verification/SharedTypes.v ===== *)
(** * Shared types, scoring parameters and the key of the node

    Models the crate [types] ([eth_spec.rs], [chain_spec.rs], [subnet_id.rs], [sync_subnet_id.rs], [enr_fork_id.rs]),
    [service/gossipsub_scoring_parameters.rs], and the key file of [service/utils.rs]. *)

From Stdlib Require Import Ascii.
From Stdlib.Init Require Import Byte.
From S2P Require Import Prelude RustStr SafeArith Float64 Score.

(** ** Specifications *)

Inductive EthSpecId : Type := Mainnet | Minimal | Gnosis.
Definition MAINNET : string := "mainnet".
Definition MINIMAL : string := "minimal".
Definition GNOSIS : string := "gnosis".

Definition EthSpecId_from_str (s : string) : result EthSpecId string :=
  if String.eqb s MAINNET then Ok Mainnet
  else if String.eqb s MINIMAL then Ok Minimal
  else if String.eqb s GNOSIS then Ok Gnosis
  else Err ("Unknown eth spec: " +:+ s).
Definition EthSpecId_display (i : EthSpecId) : string :=
  match i with Mainnet => MAINNET | Minimal => MINIMAL | Gnosis => GNOSIS end.

Record ChainSpec : Type := mkChainSpec { seconds_per_slot : Z }.
Definition ChainSpec_minimal : ChainSpec := mkChainSpec 6.
Definition ChainSpec_mainnet : ChainSpec := mkChainSpec 6.

(** The trait, with its associated constants. *)
Record EthSpec : Type := mkEthSpec {
  GenesisEpoch : Z; MempoolNetsBitfieldLength : Z; SyncCommitteeSubnetCount : Z;
  default_spec : ChainSpec; spec_name : EthSpecId;
}.
Definition MainnetEthSpec : EthSpec := mkEthSpec 0 64 4 ChainSpec_mainnet Mainnet.
Definition MinimalEthSpec : EthSpec := mkEthSpec 0 64 4 ChainSpec_minimal Minimal.

(** Exactly the printed names are specifications. *)
Theorem eth_spec_id_text s i : EthSpecId_from_str s = Ok i <-> s = EthSpecId_display i.
Proof.
  unfold EthSpecId_from_str. split.
  - destruct (String.eqb_spec s MAINNET) as [->|]; [by intros [= <-]|]. destruct (String.eqb_spec s MINIMAL) as [->|]; [by intros [= <-]|].
    destruct (String.eqb_spec s GNOSIS) as [->|]; [by intros [= <-]|done].
  - intros ->. by destruct i.
Qed.

(** ** Subnets *)

Definition MAX_SUBNET_ID : Z := 64.
Definition SYNC_COMMITTEE_SUBNET_COUNT : Z := 4.
(** The lazily built tables of names. *)
Definition SUBNET_ID_TO_STRING : list string := map (fun i => dec (Z.of_nat i)) (List.seq 0 64).
Definition SYNC_SUBNET_ID_TO_STRING : list string := map (fun i => dec (Z.of_nat i)) (List.seq 0 4).

Definition subnet_id_to_string (i : Z) : outcome string :=
  if i <? MAX_SUBNET_ID then expect (SUBNET_ID_TO_STRING !! Z.to_nat i) "index below MAX_SUBNET_ID"
  else Ret "subnet id out of range".
Definition sync_subnet_id_to_string (i : Z) : outcome string :=
  if i <? SYNC_COMMITTEE_SUBNET_COUNT then
    expect (SYNC_SUBNET_ID_TO_STRING !! Z.to_nat i) "index below SYNC_COMMITTEE_SUBNET_COUNT"
  else Ret "sync subnet id out of range".

(** [SyncSubnetId::compute_subnets_for_sync_committee]: the first failing division is the error. *)
Fixpoint compute_subnets (indices : list Z) : result (gset Z) ArithError :=
  match indices with
  | [] => Ok ∅
  | index :: indices =>
      id <-? @safe_div Z (impl_safe_arith u64) index 100;
      ids <-? compute_subnets indices;
      Ok ({[id]} ∪ ids)
  end.

(** The name of an id of the range is its number, no name is used twice, and looking one up never panics. *)
Theorem subnet_names i : 0 <= i -> exists s, subnet_id_to_string i = Ret s /\
  (i < MAX_SUBNET_ID -> s = dec i) /\ (MAX_SUBNET_ID <= i -> s = "subnet id out of range").
Proof.
  intros Hi. unfold subnet_id_to_string, MAX_SUBNET_ID. destruct (Z.ltb_spec i 64); [|eexists; split_and!; [done|lia|done] ].
  assert (SUBNET_ID_TO_STRING !! Z.to_nat i = Some (dec i)) as ->.
  { unfold SUBNET_ID_TO_STRING. rewrite (list_lookup_fmap (fun i => dec (Z.of_nat i))), lookup_seq_lt by lia. cbn. by rewrite Z2Nat.id by lia. }
  eexists. split_and!; [done|done|lia].
Qed.

(** The committees of indices: their quotients by 100; the division never fails. *)
Theorem compute_subnets_spec indices : Forall (fun i => 0 <= i < 2 ^ 64) indices ->
  exists ids, compute_subnets indices = Ok ids /\ forall v, v ∈ ids <-> exists i, i ∈ indices /\ v = i / 100.
Proof.
  induction 1 as [|i indices Hi _ IH]; cbn [compute_subnets].
  { exists ∅. split; [done|]. set_solver. }
  destruct IH as (ids & -> & Hids). cbn [safe_div impl_safe_arith].
  assert (checked_div u64 i 100 = Some (i / 100)) as ->.
  { unfold checked_div. cbn. rewrite Z.quot_div_nonneg by lia. unfold checked.
    cbn [Z.eqb]. assert (in_range u64 (i / 100) = true) as ->; [|done]. apply in_range_spec. unfold int_min, int_max. cbn. Z.to_euclidean_division_equations; lia. }
  eexists. split; [done|]. set_solver.
Qed.

(** ** Gossip scores *)

Definition MAX_IN_MESH_SCORE : f64 := f64_of_Z 10.
Definition MAX_FIRST_MESSAGE_DELIVERIES_SCORE : f64 := f64_of_Z 40.
Definition half : f64 := f64_div (f64_of_Z 1) (f64_of_Z 2).
Definition BEACON_BLOCK_WEIGHT : f64 := half.
Definition BEACON_AGGREGATE_PROOF_WEIGHT : f64 := half.
(** The literal [0.05]. *)
Definition VOLUNTARY_EXIT_WEIGHT : f64 := f64_div (f64_of_Z 5) (f64_of_Z 100).
Definition PROPOSER_SLASHING_WEIGHT : f64 := VOLUNTARY_EXIT_WEIGHT.
Definition ATTESTER_SLASHING_WEIGHT : f64 := VOLUNTARY_EXIT_WEIGHT.

(** [libp2p::gossipsub::PeerScoreThresholds]. *)
Record PeerScoreThresholds : Type := mkThresholds {
  gossip_threshold : f64; publish_threshold : f64; graylist_threshold : f64;
  accept_px_threshold : f64; opportunistic_graft_threshold : f64;
}.
Definition voltaire_gossip_thresholds : PeerScoreThresholds :=
  mkThresholds (f64_of_Z (-4000)) (f64_of_Z (-8000)) GREYLIST_THRESHOLD (f64_of_Z 100) (f64_of_Z 5).

Record PeerScoreSettings : Type := mkPeerScoreSettings { max_positive_score : f64 }.
Definition PeerScoreSettings_new : PeerScoreSettings :=
  mkPeerScoreSettings (f64_mul (f64_add MAX_IN_MESH_SCORE MAX_FIRST_MESSAGE_DELIVERIES_SCORE)
    (f64_add (f64_add (f64_add (f64_add BEACON_BLOCK_WEIGHT BEACON_AGGREGATE_PROOF_WEIGHT) VOLUNTARY_EXIT_WEIGHT)
       PROPOSER_SLASHING_WEIGHT) ATTESTER_SLASHING_WEIGHT)).

(** The first field of the parameters is a [todo!]. *)
Definition get_peer_score_params (settings : PeerScoreSettings) (active_validators : Z) (thresholds : PeerScoreThresholds)
  : outcome (result unit string) := Panic "not yet implemented".

(** The conditions [PeerScoreThresholds::validate] is documented to check. *)
Definition thresholds_valid (t : PeerScoreThresholds) : bool :=
  f64_le (gossip_threshold t) (f64_of_Z 0) && f64_le (publish_threshold t) (gossip_threshold t)
  && f64_le (graylist_threshold t) (publish_threshold t) && f64_le (f64_of_Z 0) (accept_px_threshold t)
  && f64_le (f64_of_Z 0) (opportunistic_graft_threshold t).

(** The thresholds of the program are valid. *)
Fact gossip_thresholds_ok : thresholds_valid voltaire_gossip_thresholds = true.
Proof. vm_compute. reflexivity. Qed.
(** The greatest score is computed with rounding: fifty times the sum of the weights. *)
Example max_positive_score_value : f64_lt (f64_of_Z 57) (max_positive_score PeerScoreSettings_new)
  && f64_lt (max_positive_score PeerScoreSettings_new) (f64_of_Z 58) = true.
Proof. vm_compute. reflexivity. Qed.

(** ** The key of the node *)

(** [libp2p::identity::secp256k1]. *)
Class Secp256k1 := {
  Keypair : Type;
  secret_to_bytes : Keypair -> list byte;
  (** [SecretKey::try_from_bytes] and the key pair of the secret. *)
  keypair_try_from_bytes : list byte -> option Keypair;
  keypair_roundtrip : forall k, keypair_try_from_bytes (secret_to_bytes k) = Some k;
}.

Section key.
Context `{Secp256k1}.

Definition NETWORK_KEY_FILENAME : string := "key".

(** What a start meets: whether the file can be read, what becomes of writing it, and the key that would be
    generated. *)
Record Start : Type := mkStart { read_ok : bool; write : WriteAttempt; generated : Keypair }.

(** The file, absent or its contents, after the attempt. *)
Definition write_key (file : option (list byte)) (w : WriteAttempt) (k : Keypair) : option (list byte) :=
  match w with
  | CreateFails => file
  | WriteFails n => Some (take n (secret_to_bytes k))
  | Written => Some (secret_to_bytes k)
  end.

Definition load_private_key (file : option (list byte)) (s : Start) : Keypair * option (list byte) :=
  let generate := (generated s, write_key file (write s) (generated s)) in
  match file with
  | Some key_bytes =>
      if read_ok s then
        match keypair_try_from_bytes key_bytes with
        | Some kp => (kp, file)
        | None => generate
        end
      else generate
  | None => generate
  end.

Definition keypair_from_bytes (b : list byte) : result Keypair string :=
  ok_or (keypair_try_from_bytes b) "Unable to parse p2p secret key".

(** The keys of starts one after the other, and the file at the end. *)
Fixpoint restarts (file : option (list byte)) (starts : list Start) : list Keypair * option (list byte) :=
  match starts with
  | [] => ([], file)
  | s :: starts =>
      let '(k, file) := load_private_key file s in
      let '(ks, file) := restarts file starts in (k :: ks, file)
  end.

(** A start finds a key in the file. *)
Definition key_found (file : option (list byte)) (s : Start) : bool :=
  match file with
  | Some b => read_ok s && bool_decide (is_Some (keypair_try_from_bytes b))
  | None => false
  end.

(** The file holds the key. *)
Definition stores (file : option (list byte)) (k : Keypair) : Prop :=
  exists b, file = Some b /\ keypair_try_from_bytes b = Some k.

Lemma load_found file s k : stores file k -> read_ok s = true -> load_private_key file s = (k, file).
Proof. intros (b & -> & Hb) Hr. unfold load_private_key. by rewrite Hr, Hb. Qed.

Lemma load_stores file s k file' : load_private_key file s = (k, file') ->
  key_found file s = true \/ write s = Written -> stores file' k.
Proof.
  assert (forall k, stores (write_key file Written k) k) as Hwrite.
  { intros k0. eexists. split; [done|apply keypair_roundtrip]. }
  unfold load_private_key, key_found. intros Hl Hw.
  destruct file as [b|]; [destruct (read_ok s); [destruct (keypair_try_from_bytes b) eqn:E|]|]; injection Hl as <- <-;
    [by exists b|..]; (destruct Hw as [Hw|Hw]; [done|rewrite Hw; apply Hwrite]).
Qed.

Lemma restarts_stored file k starts : stores file k -> Forall (fun s => read_ok s = true) starts ->
  restarts file starts = (replicate (length starts) k, file).
Proof.
  intros Hs Hr. induction Hr as [|s starts Hr _ IH]; [done|]. cbn. by rewrite (load_found file s k), IH.
Qed.

Lemma restarts_app file starts1 starts2 : restarts file (starts1 ++ starts2) =
  let '(ks1, file1) := restarts file starts1 in let '(ks2, file2) := restarts file1 starts2 in (ks1 ++ ks2, file2).
Proof.
  revert file. induction starts1 as [|s starts1 IH]; intros file; cbn.
  - by destruct (restarts file starts2).
  - destruct (load_private_key file s) as [k file1]. rewrite IH. destruct (restarts file1 starts1) as [ks1 file2].
    by destruct (restarts file2 starts2).
Qed.

Lemma load_unreadable file s : read_ok s = false ->
  load_private_key file s = (generated s, write_key file (write s) (generated s)).
Proof. intros Hr. unfold load_private_key. destruct file; [by rewrite Hr|done]. Qed.

(** C36: The node keeps its identity as long as it can read its key file. Once a start has found its key in the file or has
    written it completely, all starts that follow have that key and leave the file alone, up to the first
    that cannot read the file. That one has a new key; if it cannot create the file the old key is back with the
    next start that can read, if it writes the file the new key stays, and if it fails while writing, the file
    holds only the first bytes of the new key. *)
Theorem node_key_persists file s k file' starts bad rest :
  load_private_key file s = (k, file') -> key_found file s = true \/ write s = Written ->
  Forall (fun s => read_ok s = true) starts -> read_ok bad = false -> Forall (fun s => read_ok s = true) rest ->
  restarts file' starts = (replicate (length starts) k, file') /\
  restarts file' (starts ++ bad :: rest) =
    let '(ks, file) := match write bad with
      | CreateFails => (replicate (length rest) k, file')
      | Written => (replicate (length rest) (generated bad), Some (secret_to_bytes (generated bad)))
      | WriteFails n => restarts (Some (take n (secret_to_bytes (generated bad)))) rest
      end in
    (replicate (length starts) k ++ generated bad :: ks, file).
Proof.
  intros Hl Hw Hs Hb Hr. pose proof (load_stores _ _ _ _ Hl Hw) as Hst. split; [by apply restarts_stored|].
  rewrite restarts_app, (restarts_stored file' k) by done. cbn [restarts]. rewrite load_unreadable by done.
  destruct (write bad); cbn [write_key].
  - by rewrite (restarts_stored file' k).
  - by destruct (restarts _ rest).
  - rewrite (restarts_stored _ (generated bad)); [done|eexists; split; [done|apply keypair_roundtrip]|done].
Qed.
End key.

(** Keys that are their bytes. *)
#[local] Instance demo_secp : Secp256k1 := {|
  Keypair := byte; secret_to_bytes := fun b => [b]; keypair_try_from_bytes := fun l => match l with [b] => Some b | _ => None end;
  keypair_roundtrip := fun k => eq_refl |}.
Definition demo_start (r : bool) (w : WriteAttempt) (k : byte) : Start := @mkStart demo_secp r w k.

(** The key is written to a file that holds none and found again; a start that cannot read the file replaces it. *)
Lemma node_key_persists_witness :
  restarts (Some [x07]) [demo_start true Written x01; demo_start true CreateFails x02] = ([x07; x07], Some [x07]) /\
  restarts (Some [x07]) ([demo_start true Written x01; demo_start true CreateFails x02] ++
    demo_start false Written x03 :: [demo_start true Written x04]) = ([x07; x07; x03; x03], Some [x03]).
Proof.
  apply (node_key_persists (Some [x00; x00]) (demo_start true Written x07) x07 (Some [x07])
    [demo_start true Written x01; demo_start true CreateFails x02] (demo_start false Written x03) [demo_start true Written x04]);
    [reflexivity|right; reflexivity|repeat constructor|reflexivity|repeat constructor].
Defined.

(** A write that fails half way: the next start finds no key and generates another. *)
Example half_written_key :
  restarts (Some [x07]) [demo_start false (WriteFails 0) x03; demo_start true Written x04; demo_start true Written x05]
  = ([x03; x04; x04], Some [x04]).
Proof. reflexivity. Qed.
