(* ===== verification/Keys.v ===== *)
(** * Keys, peer ids and node ids

    Models the conversions of [src/discovery/enr_ext.rs] between the keys of libp2p and those of discv5, and
    [keypair_from_hex] of [src/service/utils.rs]. The cryptographic libraries are the class [KeyLib], with what they
    document about encodings: a compressed public key can be read back, a public key of at most 42 bytes is kept in
    the peer id as it is, and the node id of a record is the hash of its uncompressed public key. *)

From Stdlib Require Import Ascii String.
From Stdlib.Init Require Import Byte.
From S2P Require Import Prelude RustStr External Wire SharedTypes.

(** ** The libraries *)

Class KeyLib `{External} := {
  (** [k256] and [ed25519_dalek], the keys of node records. *)
  K256Signing : Type;
  K256Public : Type;
  k256_from_slice : list byte -> option K256Signing;
  k256_verifying_key : K256Signing -> K256Public;
  to_sec1_bytes : K256Public -> list byte;
  k256_uncompressed : K256Public -> list byte;
  DalekSigning : Type;
  DalekPublic : Type;
  dalek_from_bytes : list byte -> DalekSigning;
  dalek_verifying_key : DalekSigning -> DalekPublic;
  dalek_to_bytes : DalekPublic -> list byte;

  (** [libp2p::identity]: secrets and public keys of the two kinds, and the other kinds. *)
  SecpSecret : Type;
  SecpPublic : Type;
  secp_secret_to_bytes : SecpSecret -> list byte;
  secp_public : SecpSecret -> SecpPublic;
  secp_try_from_bytes : list byte -> option SecpPublic;
  secp_to_bytes_uncompressed : SecpPublic -> list byte;
  EdKeypair : Type;
  EdPublic : Type;
  ed_keypair_to_bytes : EdKeypair -> list byte;
  ed_public : EdKeypair -> EdPublic;
  ed_try_from_bytes : list byte -> option EdPublic;
  ed_to_bytes : EdPublic -> list byte;
  OtherPublic : Type;
  encode_protobuf : (SecpPublic + EdPublic + OtherPublic) -> list byte;
  try_decode_protobuf : list byte -> result (SecpPublic + EdPublic + OtherPublic) string;
  from_public_key : (SecpPublic + EdPublic + OtherPublic) -> PeerId;
  peer_id_to_bytes : PeerId -> list byte;
  peer_id_text : PeerId -> string;

  (** [tiny_keccak] and the node ids of discv5. *)
  keccak256 : list byte -> list byte;
  EnrNodeId : Type;
  node_id_parse : list byte -> option EnrNodeId;
  node_id_of_k256 : K256Public -> EnrNodeId;
  node_id_of_dalek : DalekPublic -> EnrNodeId;

  (** Both libraries take the bytes of a secret key, and have the same public key for it. *)
  k256_accepts : forall s, is_Some (k256_from_slice (secp_secret_to_bytes s));
  k256_agrees : forall s sk, k256_from_slice (secp_secret_to_bytes s) = Some sk ->
    secp_try_from_bytes (to_sec1_bytes (k256_verifying_key sk)) = Some (secp_public s);
  sec1_accepted : forall k, is_Some (secp_try_from_bytes (to_sec1_bytes k));
  sec1_same_point : forall k k', secp_try_from_bytes (to_sec1_bytes k) = Some k' ->
    exists tag, secp_to_bytes_uncompressed k' = tag :: k256_uncompressed k;
  ed_keypair_length : forall k, length (ed_keypair_to_bytes k) = 64%nat;
  dalek_agrees : forall k,
    ed_try_from_bytes (dalek_to_bytes (dalek_verifying_key (dalek_from_bytes (take 32 (ed_keypair_to_bytes k))))) = Some (ed_public k);
  dalek_accepted : forall k, is_Some (ed_try_from_bytes (dalek_to_bytes k));
  dalek_same_point : forall k k', ed_try_from_bytes (dalek_to_bytes k) = Some k' -> ed_to_bytes k' = dalek_to_bytes k;
  protobuf_roundtrip : forall k, try_decode_protobuf (encode_protobuf k) = Ok k;
  protobuf_short : forall k, (length (encode_protobuf (inl k)) <= 42)%nat;
  (** The multihash of a short key is the identity: its code, the length, and the key. *)
  peer_id_identity : forall k, (length (encode_protobuf k) <= 42)%nat ->
    exists len, peer_id_to_bytes (from_public_key k) = x00 :: len :: encode_protobuf k;
  peer_id_bytes : forall p, (2 <= length (peer_id_to_bytes p))%nat;
  secp_uncompressed_bytes : forall k, (1 <= length (secp_to_bytes_uncompressed k))%nat;
  keccak256_parses : forall b, is_Some (node_id_parse (keccak256 b));
  node_id_k256 : forall k, node_id_parse (keccak256 (k256_uncompressed k)) = Some (node_id_of_k256 k);
  node_id_dalek : forall k, node_id_parse (keccak256 (dalek_to_bytes k)) = Some (node_id_of_dalek k);
}.

Section keys.
Context `{KeyLib}.

Definition PublicKey : Type := SecpPublic + EdPublic + OtherPublic.

Inductive CombinedPublicKey : Type := PublicSecp256k1 (pk : K256Public) | PublicEd25519 (pk : DalekPublic).
Inductive CombinedKey : Type := CombinedSecp256k1 (k : K256Signing) | CombinedEd25519 (k : DalekSigning).
(** [libp2p::identity::Keypair], by its [key_type]. *)
Inductive LibKeypair : Type := KeypairSecp256k1 (s : SecpSecret) | KeypairEd25519 (k : EdKeypair) | KeypairOther (pk : OtherPublic).

(** [&bytes[n..]], which panics when there are fewer bytes. *)
Definition slice_from (n : nat) (b : list byte) : outcome (list byte) :=
  if (n <=? length b)%nat then Ret (drop n b) else Panic "range start index out of range for slice".

Definition as_peer_id (k : CombinedPublicKey) : outcome PeerId :=
  match k with
  | PublicSecp256k1 pk =>
      libp2p_pk <-! expect (secp_try_from_bytes (to_sec1_bytes pk)) "valid public key";
      Ret (from_public_key (inl (inl libp2p_pk)))
  | PublicEd25519 pk =>
      libp2p_pk <-! expect (ed_try_from_bytes (dalek_to_bytes pk)) "valid public key";
      Ret (from_public_key (inl (inr libp2p_pk)))
  end.

Definition from_secp256k1 (s : SecpSecret) : outcome CombinedKey :=
  secret <-! expect (k256_from_slice (secp_secret_to_bytes s)) "libp2p key must be valid";
  Ret (CombinedSecp256k1 secret).

Definition from_libp2p (key : LibKeypair) : outcome (result CombinedKey string) :=
  match key with
  | KeypairSecp256k1 s =>
      secret <-! expect (k256_from_slice (secp_secret_to_bytes s)) "libp2p key must be valid";
      Ret (Ok (CombinedSecp256k1 secret))
  | KeypairEd25519 k =>
      let bytes := ed_keypair_to_bytes k in
      if (32 <=? length bytes)%nat then Ret (Ok (CombinedEd25519 (dalek_from_bytes (take 32 bytes))))
      else Panic "range end index out of range for slice"
  | KeypairOther _ => Ret (Err "Unsupported keypair kind")
  end.

Definition peer_id_to_node_id (peer_id : PeerId) : outcome (result EnrNodeId string) :=
  pk_bytes <-! slice_from 2 (peer_id_to_bytes peer_id);
  match try_decode_protobuf pk_bytes with
  | Err e => Ret (Err (" Cannot parse libp2p public key public key from peer id: " +:+ e))
  | Ok (inl (inl pk)) =>
      uncompressed_key_bytes <-! slice_from 1 (secp_to_bytes_uncompressed pk);
      n <-! expect (node_id_parse (keccak256 uncompressed_key_bytes)) "Must be correct length";
      Ret (Ok n)
  | Ok (inl (inr pk)) =>
      n <-! expect (node_id_parse (keccak256 (ed_to_bytes pk))) "Must be correct length";
      Ret (Ok n)
  | Ok (inr _) => Ret (Err ("Unsupported public key from peer " +:+ peer_id_text peer_id))
  end.

(** What the libraries make of the keys: the public key of a key pair, and of the key of a record with its node id. *)
Definition keypair_public (k : LibKeypair) : PublicKey :=
  match k with
  | KeypairSecp256k1 s => inl (inl (secp_public s))
  | KeypairEd25519 k => inl (inr (ed_public k))
  | KeypairOther pk => inr pk
  end.
Definition combined_public (k : CombinedKey) : CombinedPublicKey :=
  match k with
  | CombinedSecp256k1 k => PublicSecp256k1 (k256_verifying_key k)
  | CombinedEd25519 k => PublicEd25519 (dalek_verifying_key k)
  end.
Definition record_node_id (k : CombinedPublicKey) : EnrNodeId :=
  match k with PublicSecp256k1 pk => node_id_of_k256 pk | PublicEd25519 pk => node_id_of_dalek pk end.

(** Cutting off what is there; the rest of the computation goes on with what is left. *)
Lemma slice_two {A} a b l (f : list byte -> outcome A) : (x <-! slice_from 2 (a :: b :: l); f x) = f l.
Proof. done. Qed.
Lemma slice_one {A} a l (f : list byte -> outcome A) : (x <-! slice_from 1 (a :: l); f x) = f l.
Proof. done. Qed.

Lemma peer_id_decodes k : exists len,
  peer_id_to_bytes (from_public_key (inl k)) = x00 :: len :: encode_protobuf (inl k).
Proof. apply peer_id_identity, protobuf_short. Qed.

(** The node id found from the peer id of a record's key is that of the record. *)
Lemma node_id_of_record k : exists p, as_peer_id k = Ret p /\ peer_id_to_node_id p = Ret (Ok (record_node_id k)).
Proof.
  destruct k as [pk|pk]; cbn [as_peer_id record_node_id].
  - destruct (sec1_accepted pk) as [k' Hk]. rewrite Hk. cbn. eexists. split; [done|]. unfold peer_id_to_node_id.
    destruct (peer_id_decodes (inl k')) as [len ->]. rewrite slice_two, protobuf_roundtrip.
    destruct (sec1_same_point _ _ Hk) as [tag ->]. rewrite slice_one. cbn. by rewrite node_id_k256.
  - destruct (dalek_accepted pk) as [k' Hk]. rewrite Hk. cbn. eexists. split; [done|]. unfold peer_id_to_node_id.
    destruct (peer_id_decodes (inr k')) as [len ->]. rewrite slice_two, protobuf_roundtrip.
    rewrite (dalek_same_point _ _ Hk). cbn. by rewrite node_id_dalek.
Qed.

(** C37: The peer id, the node record and the node id of the node belong to one key: for a key pair of either supported kind
    the key of the record is found without a panic, the peer id computed from the record is that of the key
    pair, and the node id computed from the peer id is that of the record. Key pairs of other kinds are refused,
    and no peer id makes the computation of a node id panic. *)
Theorem one_identity kp :
  match from_libp2p kp with
  | Ret (Ok ck) =>
      as_peer_id (combined_public ck) = Ret (from_public_key (keypair_public kp)) /\
      peer_id_to_node_id (from_public_key (keypair_public kp)) = Ret (Ok (record_node_id (combined_public ck)))
  | Ret (Err _) => exists pk, kp = KeypairOther pk
  | Panic _ => False
  end /\
  forall p, is_ret (peer_id_to_node_id p) = true.
Proof.
  split.
  - destruct kp as [s|k|pk]; cbn [from_libp2p keypair_public]; [| |by eexists].
    + destruct (k256_accepts s) as [sk Hs]. rewrite Hs. cbn [expect combined_public].
      destruct (node_id_of_record (PublicSecp256k1 (k256_verifying_key sk))) as (p & Hp & Hn).
      cbn [as_peer_id] in *. rewrite (k256_agrees _ _ Hs) in *. cbn in Hp |- *. injection Hp as <-. done.
    + rewrite ed_keypair_length. cbn [Nat.leb combined_public].
      destruct (node_id_of_record (PublicEd25519 (dalek_verifying_key (dalek_from_bytes (take 32 (ed_keypair_to_bytes k)))))) as (p & Hp & Hn).
      cbn [as_peer_id] in *. rewrite dalek_agrees in *. cbn in Hp |- *. injection Hp as <-. done.
  - intros p. unfold peer_id_to_node_id, slice_from. pose proof (peer_id_bytes p) as Hp. apply Nat.leb_le in Hp. rewrite Hp.
    destruct (try_decode_protobuf _) as [ [ [pk|pk]|pk]|e]; try done.
    + pose proof (secp_uncompressed_bytes pk) as Hu. apply Nat.leb_le in Hu. rewrite Hu.
      destruct (keccak256_parses (drop 1 (secp_to_bytes_uncompressed pk))) as [n Hn]. cbn -[drop]. by rewrite Hn.
    + destruct (keccak256_parses (ed_to_bytes pk)) as [n Hn]. cbn. by rewrite Hn.
Qed.
End keys.

(** ** Keys as text *)

(** The crate [hex]; encoded bytes are digits and the letters from [a] to [f]. *)
Class HexLib := {
  hex_encode : list byte -> string;
  hex_decode : string -> result (list byte) string;
  hex_roundtrip : forall b, hex_decode (hex_encode b) = Ok b;
  hex_digits : forall b, str_mem "x"%char (hex_encode b) = false;
}.

Section hex.
Context `{Secp256k1} `{HexLib}.

(** [str::strip_prefix("0x")]. *)
Definition strip_0x (s : string) : option string :=
  match s with
  | String.String c (String.String c' s') => if Ascii.eqb c "0"%char && Ascii.eqb c' "x"%char then Some s' else None
  | _ => None
  end.

Definition keypair_from_hex (hex_bytes : string) : result Keypair string :=
  let hex_bytes := match strip_0x hex_bytes with Some stripped => stripped | None => hex_bytes end in
  b <-? result_map_err (fun e => "Failed to parse p2p secret key bytes: " +:+ e) (hex_decode hex_bytes);
  keypair_from_bytes b.

Lemma strip_0x_spec s : strip_0x ("0x" +:+ s) = Some s /\ (str_mem "x"%char s = false -> strip_0x s = None).
Proof.
  split; [done|]. destruct s as [|c [|c' s]]; [done..|]. intros Hm. cbn [strip_0x]. destruct (Ascii.eqb_spec c' "x"%char) as [->|]; [|by rewrite andb_false_r].
  cbn [str_mem] in Hm. by rewrite Ascii.eqb_refl, orb_true_r in Hm.
Qed.

(** A key written as hexadecimal digits is read back, with the prefix [0x] and without it. *)
Theorem hex_key_roundtrip k :
  keypair_from_hex (hex_encode (secret_to_bytes k)) = Ok k /\
  keypair_from_hex ("0x" +:+ hex_encode (secret_to_bytes k)) = Ok k.
Proof.
  unfold keypair_from_hex. destruct (strip_0x_spec (hex_encode (secret_to_bytes k))) as [-> Hn]. rewrite (Hn (hex_digits _)).
  rewrite hex_roundtrip. cbn. unfold keypair_from_bytes. by rewrite keypair_roundtrip.
Qed.
End hex.

(** ** A library that evaluates *)

(** Secrets are bytes and their own public keys; the hash pads. *)
Definition demo_protobuf (k : byte + byte + byte) : list byte :=
  match k with inl (inl b) => [x08; x02; b] | inl (inr b) => [x08; x01; b] | inr b => [x08; x00; b] end.
Definition demo_from_protobuf (l : list byte) : result (byte + byte + byte) string :=
  match l with
  | [x08; x02; b] => Ok (inl (inl b))
  | [x08; x01; b] => Ok (inl (inr b))
  | [x08; x00; b] => Ok (inr b)
  | _ => Err "invalid"
  end.
Definition demo_last (l : list byte) : byte := match last l with Some b => b | None => x00 end.
Definition demo_peer_bytes (p : @PeerId demo_external) : list byte :=
  match decode (A := N * N) (p : positive) with
  | Some (k, b) =>
      let b := match Byte.of_N b with Some b => b | None => x00 end in
      x00 :: x03 :: demo_protobuf (match k with 0%N => inl (inl b) | 1%N => inl (inr b) | _ => inr b end)
  | None => [x00; x00]
  end.
Definition demo_peer_of (k : byte + byte + byte) : @PeerId demo_external :=
  match k with
  | inl (inl b) => (encode (0%N, Byte.to_N b) : positive)
  | inl (inr b) => (encode (1%N, Byte.to_N b) : positive)
  | inr b => (encode (2%N, Byte.to_N b) : positive)
  end.

#[refine] Definition demo_keys : @KeyLib demo_external := {|
  K256Signing := byte; K256Public := byte;
  k256_from_slice l := Some (demo_last l); k256_verifying_key b := b; to_sec1_bytes b := [x02; b]; k256_uncompressed b := [b; b];
  DalekSigning := byte; DalekPublic := byte;
  dalek_from_bytes l := demo_last l; dalek_verifying_key b := b; dalek_to_bytes b := [b];
  SecpSecret := byte; SecpPublic := byte; secp_secret_to_bytes b := [b]; secp_public b := b;
  secp_try_from_bytes l := Some (demo_last l); secp_to_bytes_uncompressed b := [x04; b; b];
  EdKeypair := byte; EdPublic := byte; ed_keypair_to_bytes b := replicate 64 b; ed_public b := b;
  ed_try_from_bytes l := Some (demo_last l); ed_to_bytes b := [b];
  OtherPublic := byte;
  encode_protobuf := demo_protobuf; try_decode_protobuf := demo_from_protobuf;
  from_public_key k := demo_peer_of k; peer_id_to_bytes := demo_peer_bytes; peer_id_text _ := "";
  keccak256 l := l; EnrNodeId := list byte; node_id_parse l := Some l;
  node_id_of_k256 b := [b; b]; node_id_of_dalek b := [b];
|}.
Proof.
  - by eexists.
  - intros s sk [= <-]. done.
  - by eexists.
  - intros k k' [= <-]. by exists x04.
  - done.
  - done.
  - by eexists.
  - intros k k' [= <-]. done.
  - by intros [ [ | ]|].
  - intros [ | ]; cbn; lia.
  - intros k _. exists x03. destruct k as [ [b|b]|b]; unfold demo_peer_bytes, demo_peer_of; by rewrite decode_encode, Byte.of_to_N.
  - intros p. unfold demo_peer_bytes. destruct (decode p) as [ [k b]|]; cbn; lia.
  - intros k. cbn. lia.
  - by eexists.
  - done.
  - done.
Defined.

(** The node id of a key pair through all conversions. *)
Example demo_identity : match @from_libp2p _ demo_keys (@KeypairSecp256k1 _ demo_keys x07) with
  | Ret (Ok ck) => @peer_id_to_node_id _ demo_keys (@from_public_key _ demo_keys (inl (inl x07))) = Ret (Ok [x07; x07])
  | _ => False
  end.
Proof. vm_compute. reflexivity. Qed.

(** Hexadecimal digits. *)
Definition hex_digit (n : N) : ascii := ascii_of_N (if N.ltb n 10 then 48 + n else 87 + n).
Definition hex_value (c : ascii) : N := let n := N_of_ascii c in if N.ltb n 58 then n - 48 else n - 87.
Fixpoint demo_hex_encode (l : list byte) : string :=
  match l with
  | [] => ""
  | b :: l => String.String (hex_digit (Byte.to_N b / 16)) (String.String (hex_digit (Byte.to_N b mod 16)) (demo_hex_encode l))
  end.
Fixpoint demo_hex_decode (s : string) : result (list byte) string :=
  match s with
  | EmptyString => Ok []
  | String.String c (String.String c' s') =>
      match Byte.of_N (16 * hex_value c + hex_value c') with
      | Some b => l <-? demo_hex_decode s'; Ok (b :: l)
      | None => Err "InvalidHexCharacter"
      end
  | _ => Err "OddLength"
  end.
Lemma hex_byte b : Byte.of_N (16 * hex_value (hex_digit (Byte.to_N b / 16)) + hex_value (hex_digit (Byte.to_N b mod 16))) = Some b /\
  Ascii.eqb (hex_digit (Byte.to_N b / 16)) "x" = false /\ Ascii.eqb (hex_digit (Byte.to_N b mod 16)) "x" = false.
Proof. destruct b; vm_compute; done. Qed.
#[refine] Definition demo_hex : HexLib := {| hex_encode := demo_hex_encode; hex_decode := demo_hex_decode |}.
Proof.
  - induction b as [|b l IH]; cbn [demo_hex_encode demo_hex_decode]; [done|]. destruct (hex_byte b) as [-> _]. by rewrite IH.
  - induction b as [|b l IH]; cbn [demo_hex_encode str_mem]; [done|]. destruct (hex_byte b) as (_ & -> & ->). by rewrite IH.
Defined.
