(* ===== verification/Bundler.v ===== *)
(** * Messages between the node and the main bundler

    Models [network_manager/src/main_bundler.rs]. The node and the Python bundler are
    two processes that exchange messages over Unix sockets: four bytes with the
    length of a message, little endian, and the pickled message. The node accepts one connection at
    a time on its own socket ([listen_to_main_bundler]) and opens one for each
    message it sends.

    What the operating system does is an argument. A connection is the list of bytes the
    other side writes to it; each iteration of the read loop meets one
    [ReadAttempt]. The listening function is asynchronous and is dropped when another
    branch of the select loop completes, so it is a state machine that can be polled
    ([poll_listen]) with the state it has reached. Pickle is the class [Pickle]. *)

From Stdlib.Init Require Import Byte.
From coqutil Require Import Byte Word.LittleEndianList.
From S2P Require Import Prelude RustStr External RpcTypes Wire.

(** ** Messages *)

Record GossibMessageToReceiveFromMainBundler : Type := mkGossibFromBundler {
  gm_topics : list string;
  gm_useroperation : VerifiedUserOperation;
}.

(** [PooledUserOpHashesRequestFromBundler]. *)
Record HashesRequestFromBundler : Type := mkHashesFromBundler {
  hr_id : string;
  hr_peer_id : string;
  hr_request : PooledUserOpHashesRequest;
}.

(** [PooledUserOpsByHashRequestFromBundler]. *)
Record OpsRequestFromBundler : Type := mkOpsFromBundler {
  or_id : string;
  or_peer_id : string;
  or_request : PooledUserOpsByHashRequest;
}.

Inductive MessageTypeFromBundler : Type :=
| GossibMessageFromBundler (m : GossibMessageToReceiveFromMainBundler)
| PooledUserOpHashesRequestFromBundler (m : HashesRequestFromBundler)
| PooledUserOpsByHashRequestFromBundler (m : OpsRequestFromBundler).

Record GossibMessageToSendToMainBundler : Type := mkGossibToBundler {
  gs_peer_id : string;
  gs_topic : string;
  gs_useroperation : VerifiedUserOperation;
}.

Record PooledUserOpHashesAndPeerId : Type := mkHashesAndPeerId {
  hp_peer_id : string;
  hp_hashes : PooledUserOpHashes;
}.

Inductive MessageTypeToBundler : Type :=
| GossibMessageToBundler (m : GossibMessageToSendToMainBundler)
| PooledUserOpHashesRequestToBundler (r : PooledUserOpHashesRequest)
| PooledUserOpsByHashRequestToBundler (r : PooledUserOpsByHashRequest)
| PooledUserOpHashesResponseToBundler (r : PooledUserOpHashesAndPeerId)
| PooledUserOpsByHashResponseToBundler (r : PooledUserOpsByHash)
| StatusToBundler.

Record BundlerGossibRequest : Type := mkBundlerRequest {
  request_type : string;
  request_arguments : MessageTypeToBundler;
}.

(** [serde_pickle]: messages can be serialised, and what deserialising some bytes gives. *)
Class Pickle := {
  PickleError : Type;
  pickle_to_vec : BundlerGossibRequest -> result bytes PickleError;
  pickle_message : bytes -> result MessageTypeFromBundler PickleError;
  pickle_hashes : bytes -> result PooledUserOpHashes PickleError;
  pickle_ops : bytes -> result PooledUserOpsByHash PickleError;
  pickle_status : bytes -> result StatusMessage PickleError;
  pickle_total : forall m, is_ok (pickle_to_vec m) = true;
}.

(** [Result::unwrap]. *)
Definition unwrap {A E} (r : result A E) : outcome A :=
  match r with Ok a => Ret a | Err _ => Panic "called `Result::unwrap()` on an `Err` value" end.

(** ** Reading *)

(** One iteration of the read loop: waiting for readiness fails, or reports something else; the
    read fails; or it is given the bytes that have arrived by now, [arrived] many. *)
Inductive ReadAttempt : Type :=
| ReadyError
| NotReadable
| TryReadError
| TryRead (arrived : nat).

(** The buffer after a read: what is read, in a vector of zeros. *)
Definition fill_buffer (result_length : nat) (read : bytes) : bytes :=
  read ++ replicate (result_length - length read) x00.

(** [None] while no iteration has returned; else the result, the
    iterations that are left and the bytes of the connection that have not been read. *)
Fixpoint listen_to_stream (result_length : nat) (attempts : list ReadAttempt) (unread : bytes)
  : option (result bytes IoErr * list ReadAttempt * bytes) :=
  match attempts with
  | [] => None
  | attempt :: attempts =>
      match attempt with
      | ReadyError => listen_to_stream result_length attempts unread
      | NotReadable => listen_to_stream result_length attempts unread
      | TryReadError => listen_to_stream result_length attempts unread
      | TryRead arrived =>
          let read := take (Nat.min result_length arrived) unread in
          Some (Ok (fill_buffer result_length read), attempts, drop (length read) unread)
      end
  end.

Definition u32_from_le_bytes (b : bytes) : Z := le_combine b.
Definition u32_to_le_bytes (n : Z) : bytes := le_split 4 n.

(** [<[u8; 4]>::try_from(Vec<u8>)]. *)
Definition four_bytes (b : bytes) : result bytes bytes :=
  if (length b =? 4)%nat then Ok b else Err b.

(** Where [listen_to_main_bundler] waits: not polled yet, for a connection, for the length, for
    the message. *)
Inductive ListenState : Type :=
| ListenStart
| ListenAccept
| ListenLength (unread : bytes)
| ListenMessage (message_length : nat) (unread : bytes).

(** What the operating system answers in one poll. *)
Record ListenEnv : Type := mkListenEnv {
  le_socket_exists : bool;
  le_remove : result unit IoErr;
  le_bind : result unit IoErr;
  le_accept : option (result bytes IoErr);
  le_attempts : list ReadAttempt;
}.

Section bundler.
Context `{Pickle}.

Definition read_message (message_length : nat) (attempts : list ReadAttempt) (unread : bytes)
  : outcome (poll (result MessageTypeFromBundler PickleError) * ListenState) :=
  match listen_to_stream message_length attempts unread with
  | None => Ret (Pending, ListenMessage message_length unread)
  | Some (r, _, unread) =>
      main_message_read_result <-! unwrap r;
      Ret (Ready (pickle_message main_message_read_result), ListenStart)
  end.

Definition read_length (attempts : list ReadAttempt) (unread : bytes)
  : outcome (poll (result MessageTypeFromBundler PickleError) * ListenState) :=
  match listen_to_stream 4 attempts unread with
  | None => Ret (Pending, ListenLength unread)
  | Some (r, attempts, unread) =>
      b <-! unwrap r;
      message_length_read_result <-! unwrap (four_bytes b);
      read_message (Z.to_nat (u32_from_le_bytes message_length_read_result)) attempts unread
  end.

Definition accept (env : ListenEnv)
  : outcome (poll (result MessageTypeFromBundler PickleError) * ListenState) :=
  match le_accept env with
  | None => Ret (Pending, ListenAccept)
  | Some r => unread <-! unwrap r; read_length (le_attempts env) unread
  end.

(** One poll of the future of [listen_to_main_bundler]. *)
Definition poll_listen (env : ListenEnv) (st : ListenState)
  : outcome (poll (result MessageTypeFromBundler PickleError) * ListenState) :=
  match st with
  | ListenStart =>
      _ <-! if le_socket_exists env then unwrap (le_remove env) else Ret tt;
      _ <-! unwrap (le_bind env);
      accept env
  | ListenAccept => accept env
  | ListenLength unread => read_length (le_attempts env) unread
  | ListenMessage message_length unread => read_message message_length (le_attempts env) unread
  end.

(** ** Writing *)

(** The operating system and the bundler, for one message: whether connecting and
    writing succeed, what the bundler writes back, and the iterations of the read loop. *)
Record BundlerIo : Type := mkBundlerIo {
  io_connect : result unit IoErr;
  io_write : result unit IoErr;
  io_reply : bytes;
  io_attempts : list ReadAttempt;
}.

Definition frame (main_message_bytes : bytes) : bytes :=
  let message_length := wrap u32 (blen main_message_bytes) in
  u32_to_le_bytes message_length ++ main_message_bytes.

(** The bytes written. *)
Definition broadcast_to_main_bundler (io : BundlerIo) (message_to_send : BundlerGossibRequest)
  : outcome bytes :=
  match io_connect io with
  | Err _ => Panic "server is not running"
  | Ok _ =>
      serialized <-! unwrap (pickle_to_vec message_to_send);
      let whole := frame serialized in
      _ <-! unwrap (io_write io);
      Ret whole
  end.

(** The bytes written and the answer; [None] while it waits for the answer. *)
Definition broadcast_and_listen_for_response_from_main_bundler (io : BundlerIo)
    (message_to_send : BundlerGossibRequest) : outcome (bytes * option (result bytes IoErr)) :=
  match io_connect io with
  | Err _ => Panic "server is not running"
  | Ok _ =>
      serialized <-! unwrap (pickle_to_vec message_to_send);
      let whole := frame serialized in
      _ <-! unwrap (io_write io);
      match listen_to_stream 4 (io_attempts io) (io_reply io) with
      | None => Ret (whole, None)
      | Some (r, attempts, unread) =>
          b <-! unwrap r;
          result <-! unwrap (four_bytes b);
          let result_length := Z.to_nat (u32_from_le_bytes result) in
          Ret (whole,
            match listen_to_stream result_length attempts unread with
            | None => None
            | Some (r, _, _) => Some r
            end)
      end
  end.
End bundler.

(** ** Frames *)

Lemma length_u32_le n : length (u32_to_le_bytes n) = 4%nat.
Proof. apply length_le_split. Qed.

Lemma u32_le_roundtrip n : u32_from_le_bytes (u32_to_le_bytes n) = n mod 2 ^ 32.
Proof. apply le_combine_split. Qed.

(** The length in a frame is that of the message modulo [2^32]; the message follows. *)
Lemma frame_parts b :
  u32_from_le_bytes (take 4 (frame b)) = blen b mod 2 ^ 32 /\ drop 4 (frame b) = b.
Proof.
  unfold frame. rewrite take_app_length' by (by rewrite length_u32_le).
  rewrite drop_app_length' by (by rewrite length_u32_le). split; [|done].
  rewrite u32_le_roundtrip. unfold wrap, int_min. cbn [u32 signed bits].
  rewrite Z.sub_0_r, Z.add_0_r, Z.mod_mod; lia.
Qed.

Lemma fill_buffer_exact b : fill_buffer (length b) b = b.
Proof. unfold fill_buffer. rewrite Nat.sub_diag. apply app_nil_r. Qed.

Lemma length_fill n b : (length b <= n)%nat -> length (fill_buffer n b) = n.
Proof. unfold fill_buffer. rewrite length_app, length_replicate. lia. Qed.

(** ** The read loop *)

(** The reads among the iterations: how many bytes had arrived at each. *)
Definition arrivals (attempts : list ReadAttempt) : list nat :=
  omap (fun a => match a with TryRead k => Some k | _ => None end) attempts.

Lemma listen_app n a1 a2 unread : listen_to_stream n (a1 ++ a2) unread =
  match listen_to_stream n a1 unread with
  | None => listen_to_stream n a2 unread
  | Some (r, rest, u) => Some (r, rest ++ a2, u)
  end.
Proof. induction a1 as [|[] a1 IH]; cbn; auto. Qed.

(** The loop returns at the first read, never with an error, and never before. *)
Lemma listen_spec n attempts unread :
  match arrivals attempts with
  | [] => listen_to_stream n attempts unread = None
  | k :: ks => exists rest, arrivals rest = ks /\
      listen_to_stream n attempts unread = Some (Ok (fill_buffer n (take (Nat.min n k) unread)), rest,
        drop (length (take (Nat.min n k) unread)) unread)
  end.
Proof.
  induction attempts as [|[] attempts IH]; cbn; auto. exists attempts. done.
Qed.

Section theorems.
Context `{Pickle}.
Implicit Types (env : ListenEnv) (st : ListenState).

(** Polling until the future is ready or the polls are over. *)
Fixpoint run_listen (envs : list ListenEnv) st
  : outcome (poll (result MessageTypeFromBundler PickleError) * ListenState) :=
  match envs with
  | [] => Ret (Pending, st)
  | env :: envs =>
      r <-! poll_listen env st;
      match fst r with Ready m => Ret (Ready m, snd r) | Pending => run_listen envs (snd r) end
  end.

(** The iterations of all polls together. *)
Definition all_attempts (envs : list ListenEnv) : list ReadAttempt := mjoin (map le_attempts envs).

Lemma run_message envs : forall n unread,
  run_listen envs (ListenMessage n unread) = read_message n (all_attempts envs) unread.
Proof.
  induction envs as [|env envs IH]; intros n unread; cbn; [done|]. unfold read_message.
  change (all_attempts (env :: envs)) with (le_attempts env ++ all_attempts envs). rewrite listen_app.
  destruct (listen_to_stream n (le_attempts env) unread) as [ [ [r rest] u]|] eqn:Hl; cbn; [|apply IH].
  by destruct r.
Qed.

Lemma run_length envs : forall unread,
  run_listen envs (ListenLength unread) = read_length (all_attempts envs) unread.
Proof.
  induction envs as [|env envs IH]; intros unread; cbn; [done|]. unfold read_length.
  change (all_attempts (env :: envs)) with (le_attempts env ++ all_attempts envs). rewrite listen_app.
  destruct (listen_to_stream 4 (le_attempts env) unread) as [ [ [r rest] u]|] eqn:Hl; cbn; [|apply IH].
  destruct r as [b|e]; cbn; [|done]. destruct (four_bytes b) as [l|]; cbn; [|done].
  unfold read_message. rewrite listen_app.
  destruct (listen_to_stream _ rest u) as [ [ [r2 rest2] u2]|]; cbn; [by destruct r2|apply run_message].
Qed.

(** The two reads of a connection that carries one frame. *)
Lemma read_frame_length attempts b k1 ks : blen b < 2 ^ 32 -> arrivals attempts = k1 :: ks -> (4 <= k1)%nat ->
  exists l rest, arrivals rest = ks /\ listen_to_stream 4 attempts (frame b) = Some (Ok l, rest, b) /\
    four_bytes l = Ok l /\ Z.to_nat (u32_from_le_bytes l) = length b.
Proof.
  intros Hb Ha Hk. destruct (frame_parts b) as [Hlen Hmsg].
  assert (length (take 4 (frame b)) = 4%nat) as H4.
  { rewrite length_take. unfold frame. rewrite length_app, length_u32_le. lia. }
  pose proof (listen_spec 4 attempts (frame b)) as Hl. rewrite Ha, Nat.min_l, H4, Hmsg in Hl by lia.
  destruct Hl as (rest & Hr & Hl). exists (take 4 (frame b)), rest. split_and!; [done| | |].
  - rewrite Hl. do 4 f_equal.
  - unfold four_bytes. by rewrite H4.
  - rewrite Hlen, Z.mod_small, Nat2Z.id; lia.
Qed.

Lemma read_frame_message attempts b k2 ks : arrivals attempts = k2 :: ks -> exists rest u,
  listen_to_stream (length b) attempts b = Some (Ok (fill_buffer (length b) (take k2 b)), rest, u).
Proof.
  intros Ha. pose proof (listen_spec (length b) attempts b) as Hl. rewrite Ha in Hl.
  destruct Hl as (rest & _ & Hl). rewrite Hl. eexists _, _. do 5 f_equal.
  destruct (Nat.le_ge_cases (length b) k2).
  - rewrite Nat.min_l, !take_ge by lia. done.
  - by rewrite Nat.min_r by lia.
Qed.

(** C17: A message is received over a connection that carries its frame, however the reads are
    distributed over polls of the listening future and whatever errors and spurious
    wake-ups come between them: once two reads have happened and the four bytes of the length had
    arrived at the first, what is deserialised is the message cut off after the
    bytes that had arrived at the second read and padded with zeros to its length. It is the
    message itself exactly when all of it had arrived, or what had not is zeros. *)
Theorem bundler_message_read envs b k1 k2 ks :
  blen b < 2 ^ 32 -> arrivals (all_attempts envs) = k1 :: k2 :: ks -> (4 <= k1)%nat ->
  run_listen envs (ListenLength (frame b)) =
    Ret (Ready (pickle_message (fill_buffer (length b) (take k2 b))), ListenStart) /\
  ((fill_buffer (length b) (take k2 b) = b) <-> (drop k2 b = replicate (length b - k2) x00)).
Proof.
  intros Hb Ha Hk. split.
  - rewrite run_length. destruct (read_frame_length _ b k1 (k2 :: ks) Hb Ha Hk) as (l & rest & Hr & Hl & H4 & Hn).
    unfold read_length. rewrite Hl. cbn [unwrap]. rewrite H4. cbn [unwrap]. unfold read_message. rewrite Hn.
    by destruct (read_frame_message rest b k2 ks Hr) as (rest' & u & ->).
  - assert (fill_buffer (length b) (take k2 b) = take k2 b ++ replicate (length b - k2) x00) as ->.
    { unfold fill_buffer. rewrite length_take. do 2 f_equal. lia. }
    split; [|intros <-; apply take_drop].
    intros Hx. apply (app_inv_head (take k2 b)). by rewrite take_drop.
Qed.

(** What the node writes for a message is a frame the bundler can cut off the
    stream: four bytes with a length, then the serialised message, and the length is that of the
    message as long as it is below [2^32] and wraps beyond. Without a listening bundler, or when
    the write fails, the node panics. *)
Theorem broadcast_framing io m :
  match broadcast_to_main_bundler io m with
  | Ret w => exists b, pickle_to_vec m = Ok b /\ drop 4 w = b /\ length (take 4 w) = 4%nat /\
      u32_from_le_bytes (take 4 w) = blen b mod 2 ^ 32
  | Panic _ => is_ok (io_connect io) && is_ok (io_write io) = false
  end.
Proof.
  unfold broadcast_to_main_bundler. destruct (io_connect io); [|done].
  pose proof (pickle_total m) as Hp. destruct (pickle_to_vec m) as [b|]; [|done]. cbn [unwrap].
  destruct (io_write io); [|done]. cbn [unwrap]. exists b. destruct (frame_parts b) as [Hl Hm].
  split_and!; [done|done| |done]. rewrite length_take. unfold frame. rewrite length_app, length_u32_le. lia.
Qed.

(** The answer of the bundler to a message, when it writes one frame and all of it arrives in time. *)
Lemma broadcast_answer io m b k1 k2 ks w : blen b < 2 ^ 32 -> io_connect io = Ok tt -> io_write io = Ok tt ->
  io_reply io = frame b -> arrivals (io_attempts io) = k1 :: k2 :: ks -> (4 <= k1)%nat -> (length b <= k2)%nat ->
  pickle_to_vec m = Ok w ->
  broadcast_and_listen_for_response_from_main_bundler io m = Ret (frame w, Some (Ok b)).
Proof.
  intros Hb Hc Hw Hr Ha Hk1 Hk2 Hp. unfold broadcast_and_listen_for_response_from_main_bundler.
  rewrite Hc, Hp, Hw, Hr. cbn [unwrap].
  destruct (read_frame_length _ b k1 (k2 :: ks) Hb Ha Hk1) as (l & rest & Hrest & -> & H4 & Hn).
  cbn [unwrap]. rewrite H4. cbn [unwrap]. rewrite Hn.
  destruct (read_frame_message rest b k2 ks Hrest) as (rest' & u & ->).
  by rewrite take_ge, fill_buffer_exact by lia.
Qed.
End theorems.
