(* ===== verification/IpText.v ===== *)
(** * Addresses as text

    The parser of [std::net::IpAddr]: four decimal numbers separated by dots, or groups of hexadecimal
    digits separated by colons with at most one [::] and possibly an IPv4 address at the
    end. Used for the addresses on the command line. *)

From Stdlib Require Import Ascii String.
From S2P Require Import Prelude RustStr External.

(** [char::to_digit]. *)
Definition to_digit (radix : Z) (c : ascii) : option Z :=
  let n := Z.of_nat (nat_of_ascii c) in
  let d := if (48 <=? n) && (n <=? 57) then Some (n - 48)
           else if (97 <=? n) && (n <=? 122) then Some (n - 87)
           else if (65 <=? n) && (n <=? 90) then Some (n - 55)
           else None in
  match d with Some d => if d <? radix then Some d else None | None => None end.

(** A parser gives a value and the rest of its input, or nothing and leaves the input alone. *)
Definition parser (A : Type) : Type := string -> option (A * string).

Definition read_given_char (c : ascii) : parser unit := fun s =>
  match s with String c' s' => if Ascii.eqb c c' then Some (tt, s') else None | EmptyString => None end.

(** The digits of a number: how many there are, and their value if it never exceeds [max]. *)
Fixpoint read_digits (radix max : Z) (count : nat) (acc : option Z) (s : string) : nat * option Z * string :=
  match s with
  | String c s' =>
      match to_digit radix c with
      | Some d =>
          read_digits radix max (S count)
            (match acc with Some a => if a * radix + d <=? max then Some (a * radix + d) else None | None => None end) s'
      | None => (count, acc, s)
      end
  | EmptyString => (count, acc, s)
  end.

Definition read_number (radix max : Z) (max_digits : nat) (allow_zero_prefix : bool) : parser Z := fun s =>
  let has_leading_zero := match s with String c _ => Ascii.eqb c "0" | EmptyString => false end in
  let '(count, acc, rest) := read_digits radix max 0 (Some 0) s in
  if (count =? 0)%nat then None
  else if (max_digits <? count)%nat then None
  else if negb allow_zero_prefix && has_leading_zero && (1 <? count)%nat then None
  else match acc with Some n => Some (n, rest) | None => None end.

(** All but the first of a sequence are preceded by a separator. *)
Definition read_separator {A} (sep : ascii) (index : nat) (inner : parser A) : parser A := fun s =>
  if (index =? 0)%nat then inner s
  else match read_given_char sep s with Some (_, s') => inner s' | None => None end.

Definition read_octet (index : nat) : parser Z :=
  read_separator "."%char index (read_number 10 255 3 false).

Definition read_ipv4_addr : parser Z := fun s =>
  match read_octet 0 s with
  | None => None
  | Some (a, s) =>
      match read_octet 1 s with
      | None => None
      | Some (b, s) =>
          match read_octet 2 s with
          | None => None
          | Some (c, s) =>
              match read_octet 3 s with
              | None => None
              | Some (d, s) => Some (((a * 256 + b) * 256 + c) * 256 + d, s)
              end
          end
      end
  end.

(** Up to [limit] groups, of which [index] have been read; whether they end with an IPv4 address. *)
Fixpoint read_groups (fuel : nat) (limit index : nat) (s : string) : list Z * bool * string :=
  match fuel with
  | O => ([], false, s)
  | S fuel =>
      if (limit <=? index)%nat then ([], false, s)
      else
        let ipv4 := if (index <? limit - 1)%nat then read_separator ":"%char index read_ipv4_addr s else None in
        match ipv4 with
        | Some (a, s) => ([a / 65536; a mod 65536], true, s)
        | None =>
            match read_separator ":"%char index (read_number 16 65535 4 true) s with
            | Some (g, s) => let '(gs, v4, s) := read_groups fuel limit (S index) s in (g :: gs, v4, s)
            | None => ([], false, s)
            end
        end
  end.

Definition groups_value (gs : list Z) : Z := fold_left (fun a g => a * 65536 + g) gs 0.

Definition read_ipv6_addr : parser Z := fun s =>
  let '(head, head_ipv4, s) := read_groups 8 8 0 s in
  if (length head =? 8)%nat then Some (groups_value head, s)
  else if head_ipv4 then None
  else
    match read_given_char ":" s with
    | None => None
    | Some (_, s) =>
        match read_given_char ":" s with
        | None => None
        | Some (_, s) =>
            let limit := (8 - (length head + 1))%nat in
            let '(tail, _, s) := read_groups 8 limit 0 s in
            Some (groups_value (head ++ replicate (8 - length head - length tail) 0 ++ tail), s)
        end
    end.

(** [IpAddr::from_str]: all of the input is read. *)
Definition IpAddr_from_str (s : string) : option IpAddr :=
  let whole {A} (r : option (A * string)) := match r with Some (a, EmptyString) => Some a | _ => None end in
  match read_ipv4_addr s with
  | Some (a, EmptyString) => Some (V4 a)
  | Some _ => None
  | None => option_map V6 (whole (read_ipv6_addr s))
  end.

(** ** The text of an IPv4 address is read back *)

(** [Ipv4Addr::to_string]. *)
Definition ipv4_display (a b c d : Z) : string :=
  dec a +:+ "." +:+ dec b +:+ "." +:+ dec c +:+ "." +:+ dec d.

Lemma str_cons_app c a b : String c a +:+ b = String c (a +:+ b).
Proof. done. Qed.
Lemma str_app_nil_l a : ""%string +:+ a = a.
Proof. done. Qed.
Lemma str_app_nil a : a +:+ "" = a.
Proof. induction a as [|c a IH]; [done|]. by rewrite str_cons_app, IH. Qed.

Lemma read_digits_app radix max a rest : forall count acc k acc',
  read_digits radix max count acc a = (k, acc', ""%string) ->
  read_digits radix max count acc (a +:+ rest) = read_digits radix max k acc' rest.
Proof.
  induction a as [|c a IH]; intros count acc k acc'; [by intros [= -> ->]|].
  rewrite str_cons_app. cbn [read_digits]. destruct (to_digit radix c); [apply IH|done].
Qed.

Lemma read_digits_stop radix max count acc s :
  match s with String c _ => to_digit radix c = None | EmptyString => True end ->
  read_digits radix max count acc s = (count, acc, s).
Proof. destruct s as [|c s]; cbn; [done|]. by intros ->. Qed.

(** What [read_number] asks of the digits of a number, checked for every octet. *)
Definition octet_text_ok (n : nat) : bool :=
  let '(count, acc, rest) := read_digits 10 255 0 (Some 0) (dec (Z.of_nat n)) in
  bool_decide (acc = Some (Z.of_nat n)) && bool_decide (rest = ""%string) && negb (count =? 0)%nat && negb (3 <? count)%nat
  && match dec (Z.of_nat n) with String c _ => negb (Ascii.eqb c "0" && (1 <? count)%nat) | EmptyString => false end.

Lemma octets_text_ok : forallb octet_text_ok (List.seq 0 256) = true.
Proof. vm_compute. reflexivity. Qed.

Lemma read_number_dec n rest : 0 <= n <= 255 ->
  match rest with String c _ => to_digit 10 c = None | EmptyString => True end ->
  read_number 10 255 3 false (dec n +:+ rest) = Some (n, rest).
Proof.
  intros Hn Hr. pose proof octets_text_ok as Hall. rewrite forallb_forall in Hall.
  specialize (Hall (Z.to_nat n) ltac:(apply in_seq; lia)). unfold octet_text_ok in Hall. rewrite Z2Nat.id in Hall by lia.
  unfold read_number. destruct (read_digits 10 255 0 (Some 0) (dec n)) as [ [count acc] r] eqn:E.
  destruct (dec n) as [|c d] eqn:Ed; [by rewrite !andb_false_r in Hall|].
  apply andb_true_iff in Hall as [ [ [ [Ha Hre]%andb_true_iff H0]%andb_true_iff H3]%andb_true_iff Hc].
  apply bool_decide_eq_true in Ha, Hre. subst acc r.
  rewrite (read_digits_app _ _ _ rest _ _ _ _ E), read_digits_stop by done. rewrite str_cons_app. apply negb_true_iff in H0, H3, Hc. rewrite H0, H3. cbn [negb andb]. by rewrite Hc.
Qed.

(** The text of every IPv4 address is read as that address. *)
Lemma ipv4_text_roundtrip a b c d : 0 <= a <= 255 -> 0 <= b <= 255 -> 0 <= c <= 255 -> 0 <= d <= 255 ->
  IpAddr_from_str (ipv4_display a b c d) = Some (V4 (((a * 256 + b) * 256 + c) * 256 + d)).
Proof.
  intros Ha Hb Hc Hd. unfold IpAddr_from_str, ipv4_display, read_ipv4_addr, read_octet, read_separator. cbn [Nat.eqb].
  rewrite (read_number_dec a) by done. rewrite str_cons_app, str_app_nil_l. cbn [read_given_char Ascii.eqb Bool.eqb].
  rewrite (read_number_dec b) by done. rewrite str_cons_app, str_app_nil_l. cbn [read_given_char Ascii.eqb Bool.eqb].
  rewrite (read_number_dec c) by done. rewrite str_cons_app, str_app_nil_l. cbn [read_given_char Ascii.eqb Bool.eqb].
  rewrite <- (str_app_nil (dec d)). by rewrite (read_number_dec d).
Qed.

(** ** Addresses are in range *)

Lemma to_digit_range radix c d : to_digit radix c = Some d -> 0 <= d.
Proof. unfold to_digit. repeat case_match; intros [= <-]; simplify_eq; bool_hyps; lia. Qed.

Lemma read_digits_range radix max s : 0 <= radix -> forall count acc k n rest,
  (forall a, acc = Some a -> 0 <= a <= max) -> read_digits radix max count acc s = (k, Some n, rest) -> 0 <= n <= max.
Proof.
  intros Hr. induction s as [|c s IH]; intros count acc k n rest Ha; cbn.
  { intros [= <- -> <-]. by apply Ha. }
  destruct (to_digit radix c) as [d|] eqn:Hd; [|intros [= <- -> <-]; by apply Ha].
  apply IH. intros a' Ha'. destruct acc as [a|]; [|done]. apply to_digit_range in Hd.
  specialize (Ha a eq_refl). destruct (Z.leb_spec (a * radix + d) max); simplify_eq. nia.
Qed.

Lemma read_number_range radix max md z s n rest : 0 <= radix -> 0 <= max ->
  read_number radix max md z s = Some (n, rest) -> 0 <= n <= max.
Proof.
  intros Hr Hm. unfold read_number. destruct (read_digits radix max 0 (Some 0) s) as [ [count acc] r] eqn:E.
  repeat case_match; intros [= -> ->]. subst acc.
  all: eapply (read_digits_range radix max _ Hr); [|exact E]; intros ? [= <-]; lia.
Qed.

Lemma read_octet_range i s n rest : read_octet i s = Some (n, rest) -> 0 <= n <= 255.
Proof.
  unfold read_octet, read_separator. destruct (i =? 0)%nat; [apply read_number_range; lia|].
  destruct (read_given_char "." s) as [ [? s']|]; [apply read_number_range; lia|done].
Qed.

Lemma read_ipv4_range s a rest : read_ipv4_addr s = Some (a, rest) -> 0 <= a < 2 ^ 32.
Proof.
  unfold read_ipv4_addr. destruct (read_octet 0 s) as [ [a0 s0]|] eqn:E0; [|done].
  destruct (read_octet 1 s0) as [ [a1 s1]|] eqn:E1; [|done]. destruct (read_octet 2 s1) as [ [a2 s2]|] eqn:E2; [|done].
  destruct (read_octet 3 s2) as [ [a3 s3]|] eqn:E3; [|done]. intros [= <- <-].
  apply read_octet_range in E0, E1, E2, E3. lia.
Qed.

Lemma read_groups_range fuel limit : forall index s gs v4 rest, read_groups fuel limit index s = (gs, v4, rest) ->
  Forall (fun g => 0 <= g < 65536) gs /\ (length gs <= limit - index)%nat.
Proof.
  induction fuel as [|fuel IH]; intros index s gs v4 rest; cbn [read_groups]; [intros [= <- _ _]; cbn; split; [done|lia]|].
  destruct (Nat.leb_spec limit index); [intros [= <- _ _]; cbn; split; [done|lia]|].
  destruct (if (index <? limit - 1)%nat then _ else _) as [ [a s1]|] eqn:E4.
  - intros [= <- _ _]. destruct (Nat.ltb_spec index (limit - 1)); [|done]. cbn [length].
    assert (0 <= a < 2 ^ 32) as Ha.
    { revert E4. unfold read_separator. destruct (index =? 0)%nat; [apply read_ipv4_range|].
      destruct (read_given_char ":" s) as [ [? s']|]; [apply read_ipv4_range|done]. }
    split; [|lia]. repeat constructor; Z.to_euclidean_division_equations; lia.
  - destruct (read_separator ":" index (read_number 16 65535 4 true) s) as [ [g s1]|] eqn:Eg;
      [|intros [= <- _ _]; cbn; split; [done|lia] ].
    destruct (read_groups fuel limit (S index) s1) as [ [gs' v4'] s2] eqn:Er. intros [= <- _ _].
    destruct (IH _ _ _ _ _ Er) as [Hf Hl]. cbn [length]. split; [|lia]. constructor; [|done].
    revert Eg. unfold read_separator. destruct (index =? 0)%nat; [|destruct (read_given_char ":" s) as [ [? s']|]; [|done] ];
      (intros Hn; apply read_number_range in Hn; lia).
Qed.

Lemma groups_value_range gs : Forall (fun g => 0 <= g < 65536) gs -> 0 <= groups_value gs < 65536 ^ Z.of_nat (length gs).
Proof.
  unfold groups_value. intros Hf.
  enough (forall a k, 0 <= a < 65536 ^ Z.of_nat k ->
    0 <= fold_left (fun a g => a * 65536 + g) gs a < 65536 ^ Z.of_nat (k + length gs)) as Hx by (apply (Hx 0 0%nat); cbn; lia).
  induction Hf as [|g gs Hg _ IH]; intros a k Ha; cbn [fold_left length].
  { by rewrite Nat.add_0_r. }
  replace (k + S (length gs))%nat with (S k + length gs)%nat by lia. apply IH.
  rewrite Nat2Z.inj_succ, Z.pow_succ_r by lia. lia.
Qed.

Lemma read_ipv6_range s a rest : read_ipv6_addr s = Some (a, rest) -> 0 <= a < 2 ^ 128.
Proof.
  unfold read_ipv6_addr. destruct (read_groups 8 8 0 s) as [ [head v4] s1] eqn:Eh.
  apply read_groups_range in Eh as [Hh Hl]. change (2 ^ 128) with (65536 ^ Z.of_nat 8).
  destruct (Nat.eqb_spec (length head) 8) as [E8|Hn].
  { intros [= <- _]. rewrite <- E8. by apply groups_value_range. }
  destruct v4; [done|]. destruct (read_given_char ":" s1) as [ [? s2]|]; [|done].
  destruct (read_given_char ":" s2) as [ [? s3]|]; [|done].
  destruct (read_groups 8 (8 - (length head + 1)) 0 s3) as [ [tail v4'] s4] eqn:Et. apply read_groups_range in Et as [Ht Hlt].
  intros [= <- _]. set (gs := head ++ _ ++ tail). assert (length gs = 8%nat) as <-.
  { unfold gs. rewrite !length_app, length_replicate. lia. }
  apply groups_value_range. unfold gs. rewrite !Forall_app. split_and!; [done| |done].
  apply Forall_replicate. lia.
Qed.

Definition ip_in_range (ip : IpAddr) : Prop := match ip with V4 a => 0 <= a < 2 ^ 32 | V6 a => 0 <= a < 2 ^ 128 end.
Lemma IpAddr_from_str_range s ip : IpAddr_from_str s = Some ip -> ip_in_range ip.
Proof.
  unfold IpAddr_from_str. destruct (read_ipv4_addr s) as [ [a rest]|] eqn:E4.
  { destruct rest; intros [= <-]. by apply read_ipv4_range in E4. }
  destruct (read_ipv6_addr s) as [ [a rest]|] eqn:E6; [|done]. destruct rest; intros [= <-]. by apply read_ipv6_range in E6.
Qed.

Example parse_addresses :
  (IpAddr_from_str "0.0.0.0", IpAddr_from_str "::", IpAddr_from_str "::1", IpAddr_from_str "2001:db8::ff",
   IpAddr_from_str "::ffff:1.2.3.4") =
  (Some (V4 0), Some (V6 0), Some (V6 1), Some (V6 0x20010db80000000000000000000000ff), Some (V6 0xffff01020304)).
Proof. reflexivity. Qed.
Example parse_addresses_bad :
  Forall (fun s => IpAddr_from_str s = None)
    [""; "1.2.3"; "1.2.3.4.5"; "256.0.0.1"; "01.2.3.4"; "1:2:3:4:5:6:7"; "::1::"; "localhost"; "0.0.0.0 "].
Proof. repeat constructor. Qed.
