(* ===== verification/Nat.v ===== *)
(** * Port mappings

    Models [network_manager/src/nat.rs]: at the start the node asks the gateway of
    its network to forward its ports (UPnP), and when it ends it asks to remove what was
    established. The gateway library ([igd]) is the class [IgdLib], a table of mappings; what the
    search for a gateway and the list of network interfaces give are arguments. The
    theorems say that exactly what is reported was added to the table, that nothing else
    is touched, and that removing undoes it. *)

From S2P Require Import Prelude RustStr External RpcTypes RateLimiter NetConfig.

Inductive PortMappingProtocol : Type := MapTcp | MapUdp.
#[export] Instance PortMappingProtocol_eq_dec : EqDecision PortMappingProtocol.
Proof. solve_decision. Defined.
#[export] Instance PortMappingProtocol_countable : Countable PortMappingProtocol.
Proof.
  refine (inj_countable' (fun p => match p with MapTcp => true | MapUdp => false end)
    (fun b : bool => if b then MapTcp else MapUdp) _). by intros [].
Defined.

Inductive AddPortError : Type := PortInUse | OtherAddPortError (msg : string).

(** [igd::Gateway]: a table of mappings from an external port to a local socket. An operation that
    fails leaves it as it was. *)
Class IgdLib := {
  Gateway : Type;
  gw_mappings : Gateway -> gmap (PortMappingProtocol * Z) SocketAddr;
  gw_add_port : PortMappingProtocol -> Z -> SocketAddr -> Z -> string -> Gateway -> result unit AddPortError * Gateway;
  gw_remove_port : PortMappingProtocol -> Z -> Gateway -> result unit string * Gateway;
  gw_add_spec : forall proto port sock lease desc g,
    gw_mappings (gw_add_port proto port sock lease desc g).2 =
    match (gw_add_port proto port sock lease desc g).1 with
    | Ok _ => <[(proto, port) := sock]> (gw_mappings g)
    | Err _ => gw_mappings g
    end;
  gw_remove_spec : forall proto port g,
    gw_mappings (gw_remove_port proto port g).2 =
    match (gw_remove_port proto port g).1 with
    | Ok _ => delete (proto, port) (gw_mappings g)
    | Err _ => gw_mappings g
    end;
}.

(** ** Configuration and mappings *)

Record UPnPConfig : Type := mkUPnPConfig {
  up_tcp_port : Z; up_disc_port : Z; up_quic_port : Z;
  up_disable_discovery : bool; up_disable_quic_support : bool;
}.

Record EstablishedUPnPMappings : Type := mkMappings {
  map_tcp_port : option Z; map_udp_quic_port : option Z; map_udp_disc_port : option Z;
}.

Definition Mappings_default : EstablishedUPnPMappings := mkMappings None None None.

Definition mappings_is_some (m : EstablishedUPnPMappings) : bool :=
  bool_decide (is_Some (map_tcp_port m)) || bool_decide (is_Some (map_udp_quic_port m))
  || bool_decide (is_Some (map_udp_disc_port m)).

Definition udp_ports (m : EstablishedUPnPMappings) : list Z :=
  option_list (map_udp_quic_port m) ++ option_list (map_udp_disc_port m).

Definition from_config `{External} `{!EnrFields} (config : NetworkConfig) : option UPnPConfig :=
  option_map (fun v4_addr => mkUPnPConfig (tcp_port v4_addr) (disc_port v4_addr) (quic_port v4_addr)
    (disable_discovery config) (disable_quic_support config)) (listen_v4 (listen_addresses config)).

(** A network interface. *)
Record Interface : Type := mkInterface { if_loopback : bool; if_ip : IpAddr }.

(** The first address of an interface that is neither a loopback nor IPv6. *)
Fixpoint find_local_ip (interfaces : list Interface) : option IpAddr :=
  match interfaces with
  | [] => None
  | i :: interfaces =>
      if negb (if_loopback i) then
        match if_ip i with V4 a => Some (V4 a) | V6 _ => find_local_ip interfaces end
      else find_local_ip interfaces
  end.

Section nat.
Context `{IgdLib}.

(** [attempts] iterations of the loop over [0..2]. *)
Fixpoint add_port_attempts (attempts : nat) (protocol : PortMappingProtocol) (socket : SocketAddr)
    (mapping_string : string) (g : Gateway) : result unit unit * Gateway :=
  match attempts with
  | O => (Err tt, g)
  | S attempts =>
      match gw_add_port protocol (sock_port socket) socket 0 mapping_string g with
      | (Err PortInUse, g) =>
          match gw_remove_port protocol (sock_port socket) g with
          | (Ok _, g) => add_port_attempts attempts protocol socket mapping_string g
          | (Err _, g) => (Err tt, g)
          end
      | (Err (OtherAddPortError _), g) => (Err tt, g)
      | (Ok _, g) => (Ok tt, g)
      end
  end.

Definition add_port_mapping (protocol : PortMappingProtocol) (socket : SocketAddr) (protocol_string : string)
    (g : Gateway) : result unit unit * Gateway :=
  add_port_attempts 2 protocol socket ("voltaire-" +:+ protocol_string) g.

(** The port a mapping of which was asked for and established, if any. *)
Definition set_mapping (wanted : bool) (protocol : PortMappingProtocol) (name : string) (address port : Z)
    (g : Gateway) : option Z * Gateway :=
  if wanted then
    let '(r, g) := add_port_mapping protocol (mkSocketAddr (V4 address) port) name g in
    (if is_ok r then Some port else None, g)
  else (None, g).

(** The mappings reported to the network service, if any, and the gateway. *)
Definition construct_upnp_mappings (config : UPnPConfig) (search_gateway : result Gateway string)
    (get_if_addrs : result (list Interface) string)
  : option EstablishedUPnPMappings * option Gateway :=
  match search_gateway with
  | Err _ => (None, None)
  | Ok gateway =>
      match get_if_addrs with
      | Err _ => (None, Some gateway)
      | Ok interfaces =>
          match find_local_ip interfaces with
          | None => (None, Some gateway)
          | Some (V4 address) =>
              let '(mapped_tcp, gateway) := set_mapping true MapTcp "tcp" address (up_tcp_port config) gateway in
              let '(mapped_disc, gateway) :=
                set_mapping (negb (up_disable_discovery config)) MapUdp "udp" address (up_disc_port config) gateway in
              let '(mapped_quic, gateway) :=
                set_mapping (negb (up_disable_quic_support config)) MapUdp "udp" address (up_quic_port config) gateway in
              let mappings := mkMappings mapped_tcp mapped_quic mapped_disc in
              (if mappings_is_some mappings then Some mappings else None, Some gateway)
          | Some (V6 _) => (None, Some gateway)
          end
      end
  end.

(** Failures are logged. *)
Definition remove_mappings (mappings : EstablishedUPnPMappings) (search_gateway : result Gateway string)
  : option Gateway :=
  if mappings_is_some mappings then
    match search_gateway with
    | Ok gateway =>
        let gateway := match map_tcp_port mappings with
                       | Some tcp_port => (gw_remove_port MapTcp tcp_port gateway).2
                       | None => gateway
                       end in
        Some (foldl (fun g udp_port => (gw_remove_port MapUdp udp_port g).2) gateway (udp_ports mappings))
    | Err _ => None
    end
  else match search_gateway with Ok g => Some g | Err _ => None end.

(** ** Theorems *)

(** What a failed attempt can leave behind: the table without the mapping it wanted to replace. *)
Lemma add_attempts_spec n proto sock desc : forall g,
  match add_port_attempts n proto sock desc g with
  | (Ok _, g') => gw_mappings g' = <[(proto, sock_port sock) := sock]> (gw_mappings g)
  | (Err _, g') => gw_mappings g' = gw_mappings g \/ gw_mappings g' = delete (proto, sock_port sock) (gw_mappings g)
  end.
Proof.
  induction n as [|n IH]; intros g; cbn [add_port_attempts]; [by left|].
  pose proof (gw_add_spec proto (sock_port sock) sock 0 desc g) as Ha.
  destruct (gw_add_port _ _ _ _ _ g) as [ [u|[|msg] ] g1]; cbn in Ha; [done| |by left].
  pose proof (gw_remove_spec proto (sock_port sock) g1) as Hr.
  destruct (gw_remove_port _ _ g1) as [ [v|e] g2]; cbn in Hr; [|left; by rewrite Hr].
  specialize (IH g2). destruct (add_port_attempts n _ _ _ g2) as [ [w|w] g3].
  - by rewrite IH, Hr, insert_delete_eq, Ha.
  - right. destruct IH as [->| ->]; rewrite Hr, Ha; [done|apply delete_delete_eq].
Qed.

(** The mappings with their protocols. *)
Definition reported (m : EstablishedUPnPMappings) : list (PortMappingProtocol * Z) :=
  map (pair MapTcp) (option_list (map_tcp_port m)) ++ map (pair MapUdp) (udp_ports m).

Lemma mappings_none m : mappings_is_some m = false -> reported m = [].
Proof. destruct m as [ [] [] []]; done. Qed.

(** The mapping of one port: reported when it was added; other entries are left alone. *)
Lemma set_mapping_spec want proto name address port g :
  let '(o, g') := set_mapping want proto name address port g in
  (forall key, (want = true -> key <> (proto, port)) -> gw_mappings g' !! key = gw_mappings g !! key) /\
  (forall x, o = Some x -> x = port /\ want = true /\
     gw_mappings g' !! (proto, port) = Some (mkSocketAddr (V4 address) port)).
Proof.
  unfold set_mapping. destruct want; [|done].
  pose proof (add_attempts_spec 2 proto (mkSocketAddr (V4 address) port) ("voltaire-" +:+ name) g) as Hs.
  unfold add_port_mapping. destruct (add_port_attempts _ _ _ _ g) as [ [u|u] g']; cbn in *; split; try done.
  - intros key Hk. rewrite Hs. apply lookup_insert_ne. intros <-. by apply Hk.
  - intros x [= <-]. by rewrite Hs, lookup_insert_eq.
  - intros key Hk. destruct Hs as [->| ->]; [done|]. apply lookup_delete_ne. intros <-. by apply Hk.
Qed.

(** The ports the configuration asks for. *)
Definition wanted (c : UPnPConfig) : list (PortMappingProtocol * Z) :=
  (MapTcp, up_tcp_port c)
  :: (if up_disable_discovery c then [] else [(MapUdp, up_disc_port c)])
  ++ (if up_disable_quic_support c then [] else [(MapUdp, up_quic_port c)]).

Lemma wanted_spec c key : key ∈ wanted c <->
  key = (MapTcp, up_tcp_port c) \/ negb (up_disable_discovery c) = true /\ key = (MapUdp, up_disc_port c) \/
  negb (up_disable_quic_support c) = true /\ key = (MapUdp, up_quic_port c).
Proof.
  unfold wanted. rewrite elem_of_cons, elem_of_app.
  destruct (up_disable_discovery c), (up_disable_quic_support c); cbn;
    rewrite ?list_elem_of_singleton, ?elem_of_nil; naive_solver.
Qed.

(** Whatever the gateway answers, what is reported as established is in its table
    afterwards, pointing to our own address and port, is among the ports the configuration asks for
    (none for discovery or QUIC when they are disabled), and no other entry of the table is
    touched. It is assumed that discovery and QUIC use different ports. *)
Theorem upnp_reported config g interfaces m og :
  up_disc_port config <> up_quic_port config ->
  construct_upnp_mappings config (Ok g) interfaces = (m, og) ->
  exists g', og = Some g' /\
    (forall key, key ∉ wanted config -> gw_mappings g' !! key = gw_mappings g !! key) /\
    (forall ms, m = Some ms -> reported ms <> [] /\
       exists address, forall proto port, (proto, port) ∈ reported ms -> (proto, port) ∈ wanted config /\
         gw_mappings g' !! (proto, port) = Some (mkSocketAddr (V4 address) port)).
Proof.
  intros Hne. unfold construct_upnp_mappings. destruct interfaces as [ifs|]; [|naive_solver].
  destruct (find_local_ip ifs) as [ [address|a6]|]; [|naive_solver..].
  pose proof (set_mapping_spec true MapTcp "tcp" address (up_tcp_port config) g) as H1.
  destruct (set_mapping true _ _ _ _ g) as [t g1]. destruct H1 as [L1 O1].
  pose proof (set_mapping_spec (negb (up_disable_discovery config)) MapUdp "udp" address (up_disc_port config) g1) as H2.
  destruct (set_mapping _ _ _ _ _ g1) as [d g2]. destruct H2 as [L2 O2].
  pose proof (set_mapping_spec (negb (up_disable_quic_support config)) MapUdp "udp" address (up_quic_port config) g2) as H3.
  destruct (set_mapping _ _ _ _ _ g2) as [q g3]. destruct H3 as [L3 O3].
  intros [= <- <-]. exists g3. setoid_rewrite wanted_spec. split_and!; [done| |].
  { intros key Hk. rewrite L3, L2, L1; [done|..]; intros; intros ->; tauto. }
  intros ms Hms. destruct (mappings_is_some _) eqn:Hsome; [|done]. injection Hms as <-. split.
  { intros He. revert Hsome He. destruct t, d, q; done. }
  exists address. intros proto port. unfold reported, udp_ports. cbn [map_tcp_port map_udp_quic_port map_udp_disc_port].
  rewrite elem_of_app, !list_elem_of_fmap. setoid_rewrite elem_of_app. setoid_rewrite elem_of_option_list.
  intros [ (x & [= -> ->] & Hx)|(x & [= -> ->] & [Hx|Hx]) ].
  - destruct (O1 x Hx) as (-> & _ & Hg). split; [by left|]. by rewrite L3, L2.
  - destruct (O3 x Hx) as (-> & Hq & Hg). tauto.
  - destruct (O2 x Hx) as (-> & Hd & Hg). split; [tauto|]. rewrite L3; [done|]. intros _. congruence.
Qed.

Lemma remove_ports ports : forall g, let g' := foldl (fun g p => (gw_remove_port MapUdp p g).2) g ports in
  forall key, gw_mappings g' !! key = gw_mappings g !! key \/ key.1 = MapUdp /\ key.2 ∈ ports /\ gw_mappings g' !! key = None.
Proof.
  induction ports as [|p ports IH]; intros g; cbn; [by left|]. intros key.
  destruct (IH (gw_remove_port MapUdp p g).2 key) as [Hk|(? & ? & ?)]; [|right; split_and!; [done|by right|done] ].
  rewrite Hk, gw_remove_spec. destruct (gw_remove_port MapUdp p g) as [ [u|e] g1]; cbn; [|by left].
  destruct (decide (key = (MapUdp, p))) as [->|Hne]; [|left; by apply lookup_delete_ne].
  right. cbn. split_and!; [done|by left|apply lookup_delete_eq].
Qed.

Lemma remove_ports_all ports : (forall proto port g, is_ok (gw_remove_port proto port g).1 = true) ->
  forall g p, p ∈ ports -> gw_mappings (foldl (fun g p => (gw_remove_port MapUdp p g).2) g ports) !! (MapUdp, p) = None.
Proof.
  intros Hok. induction ports as [|q ports IH]; intros g p Hp; [by apply not_elem_of_nil in Hp|]. cbn.
  apply elem_of_cons in Hp as [->|Hp]; [|by apply IH].
  destruct (remove_ports ports (gw_remove_port MapUdp q g).2 (MapUdp, q)) as [->|(_ & _ & ->) ]; [|done].
  pose proof (Hok MapUdp q g) as Hq. rewrite gw_remove_spec.
  destruct (gw_remove_port MapUdp q g) as [ [u|e] g1]; [|done]. apply lookup_delete_eq.
Qed.

(** Removing the mappings at the end touches no entry of the table but the reported
    ones, and when the gateway accepts removals none of the reported mappings is
    left: with [upnp_reported], the table is what it was before the start except for
    entries of our own ports. *)
Theorem upnp_removed m g :
  exists g', remove_mappings m (Ok g) = Some g' /\
    (forall key, key ∉ reported m -> gw_mappings g' !! key = gw_mappings g !! key) /\
    ((forall proto port g0, is_ok (gw_remove_port proto port g0).1 = true) ->
     forall key, key ∈ reported m -> gw_mappings g' !! key = None).
Proof.
  unfold remove_mappings. destruct (mappings_is_some m) eqn:Hm.
  2: { apply mappings_none in Hm as ->. exists g. split_and!; [done..|]. by intros _ key ?%not_elem_of_nil. }
  eexists. split; [done|]. set (g1 := match map_tcp_port m with Some _ => _ | None => _ end). unfold reported.
  assert (H1 : forall key, key ∉ map (pair MapTcp) (option_list (map_tcp_port m)) ->
    gw_mappings g1 !! key = gw_mappings g !! key).
  { intros key Hk. subst g1. destruct (map_tcp_port m) as [p|]; [|done]. rewrite gw_remove_spec.
    destruct (gw_remove_port MapTcp p g) as [ [] g2]; [|done]. apply lookup_delete_ne. set_solver. }
  split.
  - intros key Hk. rewrite not_elem_of_app in Hk. destruct Hk as [Ht Hu]. rewrite <- H1 by done.
    destruct (remove_ports (udp_ports m) g1 key) as [->|(Hp & Hin & _)]; [done|]. destruct Hu.
    apply list_elem_of_fmap. exists key.2. destruct key; cbn in *. by subst.
  - intros Hok key. rewrite elem_of_app, !list_elem_of_fmap. intros [(p & -> & Hp)|(p & -> & Hp)].
    + destruct (remove_ports (udp_ports m) g1 (MapTcp, p)) as [->|(? & _)]; [|done].
      apply elem_of_option_list in Hp. subst g1. rewrite Hp, gw_remove_spec. pose proof (Hok MapTcp p g) as Hr.
      destruct (gw_remove_port MapTcp p g) as [ [] g2]; [|done]. apply lookup_delete_eq.
    + by apply remove_ports_all.
Qed.
End nat.

(** A gateway on which ports of other hosts are in use. *)
#[refine] Definition demo_igd : IgdLib := {|
  Gateway := gmap (PortMappingProtocol * Z) SocketAddr;
  gw_mappings := fun g => g;
  gw_add_port := fun proto port sock _ _ g =>
    match g !! (proto, port) with
    | Some _ => (Err PortInUse, g)
    | None => (Ok tt, <[(proto, port) := sock]> g)
    end;
  gw_remove_port := fun proto port g => (Ok tt, delete (proto, port) g);
|}.
Proof. { intros. by destruct (g !! (proto, port)). } { done. } Defined.

Definition demo_upnp : UPnPConfig := mkUPnPConfig 9000 9000 9001 false true.

Definition demo_busy : @Gateway demo_igd := {[(MapUdp, 9000) := mkSocketAddr (V4 1) 9000]}.
Definition demo_construct := construct_upnp_mappings (H := demo_igd) demo_upnp (Ok demo_busy)
  (Ok [mkInterface true (V4 5); mkInterface false (V4 7)]).

Lemma upnp_reported_witness : exists m g', demo_construct = (m, Some g') /\
  (forall ms, m = Some ms -> reported ms <> []).
Proof.
  destruct demo_construct as [m og] eqn:Hr.
  destruct (upnp_reported (H := demo_igd) demo_upnp _ _ m og ltac:(done) Hr) as (g' & -> & _ & Hm).
  exists m, g'. split; [done|]. intros ms Hms. by destruct (Hm ms Hms).
Defined.

(** The discovery port is in use by another host and is mapped anew. *)
Example demo_remapped : fst demo_construct = Some (mkMappings (Some 9000) None (Some 9000)).
Proof. vm_compute. reflexivity. Qed.
