(* ===== verification/UnusedPort.v ===== *)
(** * Unused ports

    Models [p2p_network/unused_port/src/lib.rs]: finding ports nobody listens on by binding port 0 on the
    local host and reading back which port was given, with a cache of the ports found in the last five
    minutes, so that a port is not found twice. The cache is that of [LruTimeCache]; what
    the operating system answers to each attempt, and the clock during it, is an argument. *)

From S2P Require Import Prelude RustStr External LruTimeCache RateLimiter NetConfig.

Inductive Transport : Type := TransportTcp | TransportUdp.
Inductive IpVersion : Type := VersionIpv4 | VersionIpv6.

Definition CACHED_PORTS_TTL : Duration := from_secs 300.

(** One iteration of the loop: the answers to binding a socket and to asking for its local port, and
    the clock when the cache looks for the port, when it is purged before the insertion and when the port is
    inserted. *)
Record BindAttempt : Type := mkBindAttempt {
  ba_bind : SocketAddr -> result unit string;
  ba_local_port : result Z string;
  ba_contains : Instant; ba_purge : Instant; ba_insert : Instant;
}.

Definition find_unused_port (transport : Transport) (socket_addr : SocketAddr) (a : BindAttempt)
  : result Z string :=
  match transport with
  | TransportTcp =>
      _ <-? result_map_err (fun e => "Failed to create TCP listener to find unused port: " +:+ e) (ba_bind a socket_addr);
      result_map_err (fun e => "Failed to read TCP listener local_addr to find unused port: " +:+ e) (ba_local_port a)
  | TransportUdp =>
      _ <-? result_map_err (fun e => "Failed to create UDP socket to find unused port: " +:+ e) (ba_bind a socket_addr);
      result_map_err (fun e => "Failed to read UDP socket local_addr to find unused port: " +:+ e) (ba_local_port a)
  end.

(** The loop; no result while every port was cached. *)
Fixpoint zero_port_loop (transport : Transport) (socket_addr : SocketAddr) (attempts : list BindAttempt)
    (cache : LRUTimeCache Z) : outcome (option (result Z string) * LRUTimeCache Z) :=
  match attempts with
  | [] => Ret (None, cache)
  | a :: attempts =>
      match find_unused_port transport socket_addr a with
      | Err e => Ret (Some (Err e), cache)
      | Ok unused_port =>
          let '(cache, cached) := lru_contains (ba_contains a) unused_port cache in
          if negb cached then
            r <-! lru_insert (ba_purge a) (ba_insert a) unused_port cache;
            Ret (Some (Ok unused_port), fst r)
          else zero_port_loop transport socket_addr attempts cache
      end
  end.

Definition zero_port (transport : Transport) (ipv : IpVersion) (attempts : list BindAttempt)
    (cache : LRUTimeCache Z) : outcome (option (result Z string) * LRUTimeCache Z) :=
  let localhost := match ipv with VersionIpv4 => V4 0x7f000001 | VersionIpv6 => V6 1 end in
  zero_port_loop transport (mkSocketAddr localhost 0) attempts cache.

Definition unused_tcp4_port := zero_port TransportTcp VersionIpv4.
Definition unused_udp4_port := zero_port TransportUdp VersionIpv4.
Definition unused_tcp6_port := zero_port TransportTcp VersionIpv6.
Definition unused_udp6_port := zero_port TransportUdp VersionIpv6.

(** ** Distinct ports *)

(** A sequence of calls, with the ports that were found. *)
Fixpoint zero_ports (calls : list (Transport * IpVersion * list BindAttempt)) (cache : LRUTimeCache Z)
  : outcome (list Z * LRUTimeCache Z) :=
  match calls with
  | [] => Ret ([], cache)
  | (transport, ipv, attempts) :: calls =>
      r <-! zero_port transport ipv attempts cache;
      rest <-! zero_ports calls (snd r);
      Ret (match fst r with Some (Ok port) => port :: fst rest | _ => fst rest end, snd rest)
  end.

(** The clock goes on, from [t] up to [last]. *)
Fixpoint attempts_ok (t : Instant) (attempts : list BindAttempt) (last : Instant) : Prop :=
  match attempts with
  | [] => t <= last
  | a :: attempts => t <= ba_contains a /\ ba_contains a <= ba_purge a /\ ba_purge a <= ba_insert a /\
      attempts_ok (ba_insert a) attempts last
  end.
Fixpoint calls_ok (t : Instant) (calls : list (Transport * IpVersion * list BindAttempt)) (last : Instant) : Prop :=
  match calls with
  | [] => t <= last
  | (_, _, attempts) :: calls => exists t', attempts_ok t attempts t' /\ calls_ok t' calls last
  end.

(** The ports found since [t0] that are still in the cache. *)
Definition kept (t0 : Instant) (ports : list Z) (c : LRUTimeCache Z) : Prop :=
  forall p, p ∈ ports -> exists t, lru_abs c !! p = Some t /\ t0 <= t.

Lemma attempts_le attempts : forall t last, attempts_ok t attempts last -> t <= last.
Proof. induction attempts as [|a attempts IH]; intros t last; cbn; [done|]. intros (? & ? & ? & ?%IH). lia. Qed.
Lemma calls_le calls : forall t last, calls_ok t calls last -> t <= last.
Proof.
  induction calls as [|[ [tr ip] at'] calls IH]; intros t last; cbn; [done|].
  intros (t' & ?%attempts_le & ?%IH). lia.
Qed.

Lemma kept_update t0 now t ports c : lru_inv t c -> now < t0 + lru_ttl c -> kept t0 ports c ->
  kept t0 ports (lru_update now c).
Proof.
  intros Hi Hn Hk p Hp. destruct (Hk p Hp) as (tp & Ht & Hle). exists tp. split; [|done].
  rewrite (lru_update_abs now t c Hi). unfold spec_purge. apply map_lookup_filter_Some. cbn. split; [done|lia].
Qed.

Lemma zero_port_fresh transport sock t0 attempts : forall t last ports c,
  lru_inv t c -> kept t0 ports c -> attempts_ok t attempts last -> last < t0 + lru_ttl c -> t0 <= t ->
  exists o c', zero_port_loop transport sock attempts c = Ret (o, c') /\ lru_inv last c' /\ lru_ttl c' = lru_ttl c /\
    match o with
    | Some (Ok port) => port ∉ ports /\ kept t0 (port :: ports) c'
    | _ => kept t0 ports c'
    end.
Proof.
  induction attempts as [|a attempts IH]; intros t last ports c Hi Hk Ha Hlast Ht0; cbn [zero_port_loop].
  { eexists _, _. split_and!; [done|by eapply lru_inv_later|done|done]. }
  destruct Ha as (H1 & H2 & H3 & Ha). pose proof (attempts_le _ _ _ Ha) as Hle.
  destruct (find_unused_port transport sock a) as [port|e].
  2: { eexists _, _. split_and!; [done|eapply lru_inv_later; [done|lia]|done|done]. }
  unfold lru_contains. set (c1 := lru_update (ba_contains a) c).
  destruct (lru_update_shape (ba_contains a) t c Hi) as (_ & _ & Httl1 & Hi1). fold c1 in Hi1, Httl1.
  assert (kept t0 ports c1) as Hk1 by (eapply kept_update; [done|lia|done]).
  case_bool_decide as Hin; cbn [negb].
  - destruct (IH (ba_insert a) last ports c1) as (o & c' & Ho & Hi' & Httl & Hp); [|done|done|lia|lia|].
    { eapply lru_inv_later; [done|lia]. }
    exists o, c'. split_and!; [done|done|congruence|done].
  - unfold lru_insert. set (c2 := lru_update (ba_purge a) c1).
    destruct (lru_update_shape (ba_purge a) t c1 Hi1) as (_ & _ & Httl2 & Hi2). fold c2 in Hi2, Httl2.
    assert (kept t0 ports c2) as Hk2 by (eapply kept_update; [done|lia|done]).
    destruct (lru_raw_insert_spec t (ba_insert a) port c2 Hi2 ltac:(lia)) as (c' & -> & Hi' & Habs & Httl').
    eexists _, _. split_and!; [done|by eapply lru_inv_later|cbn [fst]; congruence|split].
    + intros Hp. destruct (Hk1 port Hp) as (tp & Htp & _). apply Hin, (lru_abs_domain c1 t port Hi1). eauto.
    + intros p Hp. cbn [fst]. rewrite Habs. destruct (decide (p = port)) as [->|Hne].
      * rewrite lookup_insert_eq. eexists. split; [done|lia].
      * rewrite lookup_insert_ne by done. apply Hk2. set_solver.
Qed.

Lemma zero_ports_fresh t0 calls : forall t last ports c,
  lru_inv t c -> kept t0 ports c -> calls_ok t calls last -> last < t0 + lru_ttl c -> t0 <= t ->
  exists found c', zero_ports calls c = Ret (found, c') /\ NoDup found /\ forall p, p ∈ found -> p ∉ ports.
Proof.
  induction calls as [|[ [tr ip] attempts] calls IH]; intros t last ports c Hi Hk Hc Hlast Ht0; cbn [zero_ports].
  { eexists [], c. split_and!; [done|constructor|]. by intros p ?%not_elem_of_nil. }
  destruct Hc as (t' & Ha & Hc). pose proof (calls_le _ _ _ Hc). pose proof (attempts_le _ _ _ Ha).
  unfold zero_port. destruct (zero_port_fresh tr (mkSocketAddr (match ip with VersionIpv4 => V4 0x7f000001 | VersionIpv6 => V6 1 end) 0)
    t0 attempts t t' ports c Hi Hk Ha ltac:(lia) Ht0) as (o & c1 & -> & Hi1 & Httl & Ho). cbn [fst snd].
  destruct o as [ [port|e]|].
  2,3: (destruct (IH t' last ports c1 Hi1 Ho Hc) as (found & c' & -> & Hnd & Hp); [by rewrite Httl|lia|by exists found, c']).
  destruct Ho as [Hnew Hk1]. destruct (IH t' last (port :: ports) c1 Hi1 Hk1 Hc) as (found & c' & -> & Hnd & Hp);
    [by rewrite Httl|lia|]. exists (port :: found), c'. split_and!; [done| |].
  - constructor; [|done]. intros Hin. apply (Hp port Hin). by left.
  - intros p [->|Hin]%elem_of_cons; [done|]. specialize (Hp p Hin). set_solver.
Qed.

(** However often the operating system offers the same port, the ports that calls within five minutes
    return are different from each other, for any mixture of transports and address
    families; and no call panics. *)
Theorem unused_ports_distinct t0 t last c calls :
  lru_reachable CACHED_PORTS_TTL (t, c) -> lru_ttl c = CACHED_PORTS_TTL -> t0 <= t -> calls_ok t calls last ->
  last < t0 + CACHED_PORTS_TTL ->
  exists ports c', zero_ports calls c = Ret (ports, c') /\ NoDup ports.
Proof.
  intros Hr Httl Ht0 Hc Hlast. apply lru_reachable_inv in Hr. cbn in Hr.
  destruct (zero_ports_fresh t0 calls t last [] c Hr ltac:(by intros ? ?%not_elem_of_nil) Hc ltac:(lia) Ht0)
    as (ports & c' & Hz & Hnd & _). by exists ports, c'.
Qed.

(** Two calls; the second is offered the port of the first once more. *)
Definition demo_offer (port now : Z) : BindAttempt := mkBindAttempt (fun _ => Ok tt) (Ok port) now now now.
Definition demo_calls : list (Transport * IpVersion * list BindAttempt) :=
  [(TransportTcp, VersionIpv4, [demo_offer 4000 1]); (TransportUdp, VersionIpv6, [demo_offer 4000 2; demo_offer 4001 3])].

Lemma unused_ports_distinct_witness : exists ports c',
  zero_ports demo_calls (lru_new CACHED_PORTS_TTL) = Ret (ports, c') /\ NoDup ports.
Proof.
  apply (unused_ports_distinct 0 0 3 (lru_new CACHED_PORTS_TTL) demo_calls); [by exists 0|done|lia| |done].
  exists 1. split; [cbn; lia|]. exists 3. cbn. lia.
Defined.

Example demo_ports : match zero_ports demo_calls (lru_new CACHED_PORTS_TTL) with
  Ret (ports, _) => ports = [4000; 4001] | Panic _ => False end.
Proof. vm_compute. reflexivity. Qed.
