(* ===== verification/Router.v ===== *)
(** * The router

    Models [network_manager/src/router.rs] and [status.rs], with the messages of
    [service.rs] that the router and the network service exchange. The router is a task of its
    own: it takes one message after the other from its channel and sends messages to the
    channel of the network service, which the model returns as a list. It reads the peer database to drop
    requests of peers that are no longer connected. Logs are left out. *)

From S2P Require Import Prelude RustStr External Float64 Score RpcTypes Wire PeerInfo PeerDB Topics.
From S2P Require Import Service Bundler Nat.

(** [service.rs], [RequestId]: the requests the application sends. *)
Inductive AppRequestId : Type :=
| FromMainBundler (id : Z)
| FromRouter.
#[export] Instance AppRequestId_eq_dec : EqDecision AppRequestId.
Proof. solve_decision. Defined.

Section router.
Context `{External}.

(** The messages the network service receives. *)
Inductive NetworkMessage : Type :=
| MsgSubscribeCoreTopics
| MsgSendRequest (p : PeerId) (request : Request) (request_id : AppRequestId)
| MsgSendResponse (p : PeerId) (response : Response) (id : PeerRequestId)
| MsgSendErrorResponse (p : PeerId) (error : RPCResponseErrorCode) (reason : string) (id : PeerRequestId)
| MsgPublish (messages : list PubsubMessage) (mempool_ids : list string)
| MsgValidationResult (propagation_source : PeerId) (message_id : bytes) (validation : MessageAcceptance)
| MsgUPnPMappingEstablished (mappings : EstablishedUPnPMappings)
| MsgReportPeer (p : PeerId) (action : PeerAction)
| MsgGoodbyePeer (p : PeerId) (reason : GoodbyeReason)
| MsgHashesRequestToAllPeers (r : PooledUserOpHashesRequest)
| MsgHashesRequest (id : Z) (peer_id : string) (r : PooledUserOpHashesRequest)
| MsgOpsByHashRequest (id : Z) (peer_id : string) (r : PooledUserOpsByHashRequest)
| MsgHashesRequestS (p : PeerId) (request_id : PeerRequestId) (r : PooledUserOpHashesRequest)
| MsgOpsByHashRequestS (p : PeerId) (request_id : PeerRequestId) (r : PooledUserOpsByHashRequest)
| MsgHashesResponseS (p : PeerId) (request_id : AppRequestId) (r : PooledUserOpHashes)
| MsgOpsByHashResponseS (p : PeerId) (request_id : AppRequestId) (r : PooledUserOpsByHash)
| MsgStatus (p : PeerId) (request_id : PeerRequestId).

(** The messages the router receives. *)
Inductive RouterMessage : Type :=
| RtPeerDisconnected (p : PeerId)
| RtRPCRequestReceived (p : PeerId) (id : PeerRequestId) (request : Request)
| RtRPCResponseReceived (p : PeerId) (request_id : AppRequestId) (response : Response)
| RtRPCFailed (p : PeerId) (request_id : AppRequestId)
| RtPubsubMessage (id : bytes) (p : PeerId) (message : PubsubMessage) (should_process : bool)
| RtStatusPeer (p : PeerId)
| RtHashesRequest (id : AppRequestId) (p : PeerId) (r : PooledUserOpHashesRequest)
| RtOpsByHashRequest (id : AppRequestId) (p : PeerId) (r : PooledUserOpsByHashRequest).

(** ** [HandlerNetworkContext] *)

Definition send_processor_request (p : PeerId) (request : Request) : list NetworkMessage :=
  [MsgSendRequest p request FromRouter].

Definition router_send_request (request_id : AppRequestId) (p : PeerId) (request : Request)
  : list NetworkMessage := [MsgSendRequest p request request_id].

Definition router_send_response (p : PeerId) (response : Response) (id : PeerRequestId)
  : list NetworkMessage := [MsgSendResponse p response id].

(** ** Handlers *)

(** [status.rs]. *)
Definition status_message (chain_id block_hash block_number : Z) : StatusMessage :=
  mkStatusMessage chain_id block_hash block_number.

Definition send_status (p : PeerId) : list NetworkMessage :=
  send_processor_request p (ReqStatus (status_message 0 0 0)).

Definition on_status_request (p : PeerId) (request_id : PeerRequestId) (status : StatusMessage)
  : list NetworkMessage := [MsgStatus p request_id].

Definition on_pooled_user_op_hashes_request (p : PeerId) (request_id : PeerRequestId)
    (r : PooledUserOpHashesRequest) : list NetworkMessage := [MsgHashesRequestS p request_id r].

Definition on_pooled_user_op_hashes_response (p : PeerId) (request_id : AppRequestId)
    (r : PooledUserOpHashes) : list NetworkMessage := [MsgHashesResponseS p request_id r].

Definition on_pooled_user_ops_by_hash_request (p : PeerId) (request_id : PeerRequestId)
    (r : PooledUserOpsByHashRequest) : list NetworkMessage := [MsgOpsByHashRequestS p request_id r].

Definition on_pooled_user_ops_by_hash_response (p : PeerId) (request_id : AppRequestId)
    (r : PooledUserOpsByHash) : list NetworkMessage := [MsgOpsByHashResponseS p request_id r].

Definition on_rpc_error (p : PeerId) (request_id : AppRequestId) : list NetworkMessage := [].

Definition handle_gossip (id : bytes) (p : PeerId) (message : PubsubMessage) (should_process : bool)
  : list NetworkMessage := [].

Definition handle_rpc_request (db : PeerDB) (p : PeerId) (request_id : PeerRequestId) (request : Request)
  : list NetworkMessage :=
  if negb (db_is_connected db p) then []
  else
    match request with
    | ReqStatus status => on_status_request p request_id status
    | ReqPooledUserOpHashes r => on_pooled_user_op_hashes_request p request_id r
    | ReqPooledUserOpsByHash r => on_pooled_user_ops_by_hash_request p request_id r
    end.

Definition handle_rpc_response (p : PeerId) (request_id : AppRequestId) (response : Response)
  : outcome (list NetworkMessage) :=
  match response with
  | RespStatus _ => Ret []
  | RespPooledUserOpHashes r =>
      r <-! expect r "called `Option::unwrap()` on a `None` value";
      Ret (on_pooled_user_op_hashes_response p request_id r)
  | RespPooledUserOpsByHash r =>
      r <-! expect r "called `Option::unwrap()` on a `None` value";
      Ret (on_pooled_user_ops_by_hash_response p request_id r)
  end.

Definition handle_message (db : PeerDB) (message : RouterMessage) : outcome (list NetworkMessage) :=
  match message with
  | RtStatusPeer _ => Ret []
  | RtPeerDisconnected _ => Ret []
  | RtRPCRequestReceived p id request => Ret (handle_rpc_request db p id request)
  | RtRPCResponseReceived p request_id response => handle_rpc_response p request_id response
  | RtRPCFailed p request_id => Ret (on_rpc_error p request_id)
  | RtPubsubMessage id p gossip should_process => Ret (handle_gossip id p gossip should_process)
  | RtHashesRequest id p request => Ret (router_send_request id p (ReqPooledUserOpHashes request))
  | RtOpsByHashRequest id p request => Ret (router_send_request id p (ReqPooledUserOpsByHash request))
  end.

(** A response the router can handle: it carries a value. *)
Definition response_full (r : Response) : bool :=
  match r with
  | RespStatus _ => true
  | RespPooledUserOpHashes r => bool_decide (is_Some r)
  | RespPooledUserOpsByHash r => bool_decide (is_Some r)
  end.
Definition router_message_ok (m : RouterMessage) : bool :=
  match m with RtRPCResponseReceived _ _ r => response_full r | _ => true end.

Lemma handle_message_ret db m : router_message_ok m = true <-> exists out, handle_message db m = Ret out.
Proof.
  split.
  - destruct m as [ | |p id [s|[r|]|[r|] ]| | | | |]; cbn; eauto; done.
  - intros [out Ho]. destruct m as [ | |p id [s|[r|]|[r|] ]| | | | |]; done.
Qed.
End router.
