(* ===== verification/TaskExecutor.v ===== *)
(** * The task executor

    Models [p2p_network/task_executor/src/lib.rs] and the gauges of [lighthouse_metrics] it counts tasks with:
    tasks are spawned on a runtime under a name, counted while they run, cancelled by a signal,
    and monitored, so that a panic becomes a request to shut down. An [ExEvent] is a
    call of the executor or a step of the runtime: a task is polled, a monitor runs, the
    signal fires, the runtime goes away. What a task does when it is polled is an argument. *)

From S2P Require Import Prelude Metrics.

Section executor.
Context `{Prometheus}.

(** ** Gauges with one label *)

Definition gauge_value (g : MetricVec Z) (name : string) : Z := default 0 (get_int_gauge g [name]).
Definition add_gauge (d : Z) (g : MetricVec Z) (name : string) : MetricVec Z := update_metric (fun n => n + d) g [name].
Definition has_gauge (g : MetricVec Z) (name : string) : bool := match get_int_gauge g [name] with Some _ => true | None => false end.

(** ** State *)

Inductive ShutdownReason : Type := ShutdownSuccess (msg : string) | ShutdownFailure (msg : string).
Definition shutdown_message (r : ShutdownReason) : string :=
  match r with ShutdownSuccess msg | ShutdownFailure msg => msg end.

(** [spawn_handle], [spawn_without_exit] and [spawn_blocking_handle]. *)
Inductive TaskKind : Type := AsyncTask | PlainTask | BlockingTask.
Record Task : Type := mkTask { task_name : string; task_kind : TaskKind; task_monitored : bool }.

(** How a task ended: with a value, by the exit signal, by a panic. *)
Inductive TaskEnd : Type := Finished | Cancelled | TaskPanic.

(** [runtime] is whether the provider has a handle, [exit] whether the signal fired. [awaited] are the ended tasks whose
    join handle nobody has looked at; [receiver] is the receiving end of the channel for shutdown requests, with
    those delivered. *)
Record TaskExecutor : Type := mkTaskExecutor {
  runtime : bool;
  exit : bool;
  ASYNC_TASKS_COUNT : MetricVec Z;
  BLOCKING_TASKS_COUNT : MetricVec Z;
  BLOCK_ON_TASKS_COUNT : MetricVec Z;
  running : gmap nat Task;
  awaited : gmap nat (Task * TaskEnd);
  next_task : nat;
  receiver : option (list ShutdownReason);
}.

Definition with_async (g : MetricVec Z) (x : TaskExecutor) : TaskExecutor :=
  let 'mkTaskExecutor r e a b o t w n c := x in mkTaskExecutor r e g b o t w n c.
Definition with_blocking (g : MetricVec Z) (x : TaskExecutor) : TaskExecutor :=
  let 'mkTaskExecutor r e a b o t w n c := x in mkTaskExecutor r e a g o t w n c.
Definition with_block_on (g : MetricVec Z) (x : TaskExecutor) : TaskExecutor :=
  let 'mkTaskExecutor r e a b o t w n c := x in mkTaskExecutor r e a b g t w n c.
Definition with_running (ts : gmap nat Task) (x : TaskExecutor) : TaskExecutor :=
  let 'mkTaskExecutor r e a b o t w n c := x in mkTaskExecutor r e a b o ts w n c.
Definition with_awaited (ws : gmap nat (Task * TaskEnd)) (x : TaskExecutor) : TaskExecutor :=
  let 'mkTaskExecutor r e a b o t w n c := x in mkTaskExecutor r e a b o t ws n c.
Definition with_receiver (rc : option (list ShutdownReason)) (x : TaskExecutor) : TaskExecutor :=
  let 'mkTaskExecutor r e a b o t w n c := x in mkTaskExecutor r e a b o t w n rc.

(** [TaskExecutor::new] on a live runtime. *)
Definition TaskExecutor_new (receiver : option (list ShutdownReason)) : TaskExecutor :=
  mkTaskExecutor true false (Ok (family_new ["async_task_count"] 0)) (Ok (family_new ["blocking_task_count"] 0))
    (Ok (family_new ["name"] 0)) ∅ ∅ 0 receiver.

(** [Handle::spawn]. *)
Definition start_task (t : Task) (x : TaskExecutor) : TaskExecutor :=
  let 'mkTaskExecutor r e a b o ts w n c := x in mkTaskExecutor r e a b o (<[n := t]> ts) w (S n) c.

(** ** Spawning *)

Definition spawn_handle (monitored : bool) (name : string) (x : TaskExecutor) : TaskExecutor :=
  if has_gauge (ASYNC_TASKS_COUNT x) name then
    let x := with_async (inc_gauge_vec (ASYNC_TASKS_COUNT x) [name]) x in
    if runtime x then start_task (mkTask name AsyncTask monitored) x else x
  else x.
(** [spawn] and [spawn_ignoring_error]. *)
Definition spawn (name : string) : TaskExecutor -> TaskExecutor := spawn_handle true name.

Definition spawn_without_exit (name : string) (x : TaskExecutor) : TaskExecutor :=
  if has_gauge (ASYNC_TASKS_COUNT x) name then
    let x := with_async (inc_gauge_vec (ASYNC_TASKS_COUNT x) [name]) x in
    if runtime x then start_task (mkTask name PlainTask false) x else x
  else x.

Definition spawn_blocking_handle (monitored : bool) (name : string) (x : TaskExecutor) : TaskExecutor :=
  let x := with_blocking (inc_gauge_vec (BLOCKING_TASKS_COUNT x) [name]) x in
  if runtime x then start_task (mkTask name BlockingTask monitored) x else x.
Definition spawn_blocking (name : string) : TaskExecutor -> TaskExecutor := spawn_blocking_handle true name.

(** How a future to block on ends: [block_on_dangerous] selects between it and the exit signal. *)
Definition block_on_dangerous (name : string) (ended : TaskEnd) (x : TaskExecutor) : TaskExecutor * option bool :=
  let x := with_block_on (inc_gauge_vec (BLOCK_ON_TASKS_COUNT x) [name]) x in
  if runtime x then
    match ended with
    | TaskPanic => (x, None)
    | Finished => (with_block_on (dec_gauge_vec (BLOCK_ON_TASKS_COUNT x) [name]) x, Some true)
    | Cancelled => (with_block_on (dec_gauge_vec (BLOCK_ON_TASKS_COUNT x) [name]) x, Some false)
    end
  else (x, Some false).

(** ** Steps of the runtime *)

Inductive TaskPoll : Type := TaskReady | TaskPending | TaskPanics.

(** A task that ended; its join handle can be awaited unless it is a plain one. *)
Definition end_task (id : nat) (t : Task) (e : TaskEnd) (x : TaskExecutor) : TaskExecutor :=
  let x := with_running (delete id (running x)) x in
  match task_kind t with
  | PlainTask => x
  | _ => with_awaited (<[id := (t, e)]> (awaited x)) x
  end.

Definition poll_task (id : nat) (r : TaskPoll) (x : TaskExecutor) : TaskExecutor :=
  match running x !! id with
  | None => x
  | Some t =>
      let dec x := with_async (dec_gauge_vec (ASYNC_TASKS_COUNT x) [task_name t]) x in
      match task_kind t, r with
      | _, TaskPanics => end_task id t TaskPanic x
      | BlockingTask, TaskReady => end_task id t Finished x
      | _, TaskReady => dec (end_task id t Finished x)
      | AsyncTask, TaskPending => if exit x then dec (end_task id t Cancelled x) else x
      | _, TaskPending => x
      end
  end.

(** [try_send] on a clone of the sender of its own; [room] is whether the channel takes the message. *)
Definition try_send (room : bool) (reason : ShutdownReason) (x : TaskExecutor) : TaskExecutor :=
  match receiver x with
  | Some sent => if room then with_receiver (Some (sent ++ [reason])) x else x
  | None => x
  end.

(** The end of a task is looked at: the rest of [spawn_blocking_handle] and [spawn_monitor]. *)
Definition await_task (id : nat) (room : bool) (x : TaskExecutor) : TaskExecutor :=
  match awaited x !! id with
  | None => x
  | Some (t, e) =>
      let x := with_awaited (delete id (awaited x)) x in
      let x := match task_kind t with
               | BlockingTask => with_blocking (dec_gauge_vec (BLOCKING_TASKS_COUNT x) [task_name t]) x
               | _ => x
               end in
      match e with
      | TaskPanic => if task_monitored t then try_send room (ShutdownFailure "Panic (fatal error)") x else x
      | _ => x
      end
  end.

Definition fire_exit (x : TaskExecutor) : TaskExecutor :=
  let 'mkTaskExecutor r e a b o t w n c := x in mkTaskExecutor r true a b o t w n c.
(** The runtime is dropped with its tasks and monitors. *)
Definition drop_runtime (x : TaskExecutor) : TaskExecutor :=
  let 'mkTaskExecutor r e a b o t w n c := x in mkTaskExecutor false e a b o ∅ ∅ n c.

Inductive ExEvent : Type :=
| EvSpawn (name : string) | EvSpawnHandle (name : string) | EvSpawnWithoutExit (name : string)
| EvSpawnBlocking (name : string) | EvSpawnBlockingHandle (name : string) | EvBlockOn (name : string) (ended : TaskEnd)
| EvPoll (id : nat) (r : TaskPoll) | EvAwait (id : nat) (room : bool) | EvExit | EvDropRuntime.

Definition ex_step (x : TaskExecutor) (ev : ExEvent) : TaskExecutor :=
  match ev with
  | EvSpawn name => spawn name x
  | EvSpawnHandle name => spawn_handle false name x
  | EvSpawnWithoutExit name => spawn_without_exit name x
  | EvSpawnBlocking name => spawn_blocking name x
  | EvSpawnBlockingHandle name => spawn_blocking_handle false name x
  | EvBlockOn name ended => fst (block_on_dangerous name ended x)
  | EvPoll id r => poll_task id r x
  | EvAwait id room => await_task id room x
  | EvExit => fire_exit x
  | EvDropRuntime => drop_runtime x
  end.

Definition ex_run (x : TaskExecutor) (evs : list ExEvent) : TaskExecutor := fold_left ex_step evs x.

(** ** Counting *)

Definition counts_async (name : string) (t : Task) : bool :=
  String.eqb (task_name t) name && match task_kind t with BlockingTask => false | _ => true end.
Definition counts_blocking (name : string) (t : Task) : bool :=
  String.eqb (task_name t) name && match task_kind t with BlockingTask => true | _ => false end.

(** Tasks that are to be counted; a blocking task is until its end was looked at. *)
Definition live_async (name : string) (x : TaskExecutor) : Z := map_count (counts_async name) (running x).
Definition live_blocking (name : string) (x : TaskExecutor) : Z :=
  map_count (counts_blocking name) (running x) + map_count (fun w => counts_blocking name w.1) (awaited x).

(** What an event adds to the gauges for good. *)
Definition named (name name' : string) : Z := if String.eqb name' name then 1 else 0.
Definition leak_async (name : string) (x : TaskExecutor) (ev : ExEvent) : Z :=
  match ev with
  | EvSpawn n | EvSpawnHandle n | EvSpawnWithoutExit n => if runtime x then 0 else named name n
  | EvPoll id TaskPanics =>
      match running x !! id with Some t => if counts_async name t then 1 else 0 | None => 0 end
  | EvDropRuntime => live_async name x
  | _ => 0
  end.
Definition leak_blocking (name : string) (x : TaskExecutor) (ev : ExEvent) : Z :=
  match ev with
  | EvSpawnBlocking n | EvSpawnBlockingHandle n => if runtime x then 0 else named name n
  | EvDropRuntime => live_blocking name x
  | _ => 0
  end.
Fixpoint leaks (leak : TaskExecutor -> ExEvent -> Z) (x : TaskExecutor) (evs : list ExEvent) : Z :=
  match evs with [] => 0 | ev :: evs => leak x ev + leaks leak (ex_step x ev) evs end.

(** Task numbers are not used twice, and the gauges exist. *)
Record executor_ok (x : TaskExecutor) : Prop := {
  ok_running : forall id t, running x !! id = Some t -> (id < next_task x)%nat;
  ok_awaited : forall id w, awaited x !! id = Some w -> (id < next_task x)%nat /\ running x !! id = None;
  ok_plain : forall id w, awaited x !! id = Some w -> task_kind w.1 <> PlainTask;
  ok_async : forall n, has_gauge (ASYNC_TASKS_COUNT x) n = true;
  ok_blocking : forall n, has_gauge (BLOCKING_TASKS_COUNT x) n = true;
}.

Lemma gauge_add d g name n : (forall n, has_gauge g n = true) ->
  gauge_value (add_gauge d g n) name = gauge_value g name + d * named name n.
Proof.
  intros Hg. specialize (Hg n). unfold has_gauge, gauge_value, add_gauge, get_int_gauge, named in *. rewrite get_update.
  destruct (String.eqb_spec n name) as [->|Hne].
  - rewrite decide_True by done. destruct (get_metric g [name]); cbn; [lia|done].
  - rewrite decide_False by congruence. lia.
Qed.
Lemma gauge_add_some d g n : (forall n, has_gauge g n = true) -> forall m, has_gauge (add_gauge d g n) m = true.
Proof.
  intros Hg m. pose proof (Hg n) as Hn. specialize (Hg m). unfold has_gauge, add_gauge, get_int_gauge in *. rewrite get_update.
  case_decide; [by destruct (get_metric g [n])|done].
Qed.

Lemma task_count_insert {V} (f : V -> bool) (m : gmap nat V) id v : m !! id = None ->
  map_count f (<[id := v]> m) = map_count f m + (if f v then 1 else 0).
Proof. intros Hn. unfold map_count. rewrite map_sum_insert_new by done. lia. Qed.
Lemma task_count_delete {V} (f : V -> bool) (m : gmap nat V) id v : m !! id = Some v ->
  map_count f (delete id m) = map_count f m - (if f v then 1 else 0).
Proof. intros Hs. unfold map_count. rewrite (map_sum_delete _ m id v Hs). lia. Qed.
Lemma count_empty {V} (f : V -> bool) : map_count f (∅ : gmap nat V) = 0.
Proof. apply map_sum_empty. Qed.

Lemma start_task_ok t x : executor_ok x -> executor_ok (start_task t x) /\
  (forall name, live_async name (start_task t x) = live_async name x + (if counts_async name t then 1 else 0)) /\
  (forall name, live_blocking name (start_task t x) = live_blocking name x + (if counts_blocking name t then 1 else 0)).
Proof.
  intros [Hr Hw Hp Ha Hb]. assert (running x !! next_task x = None) as Hn.
  { destruct (running x !! next_task x) eqn:E; [|done]. apply Hr in E. lia. }
  destruct x as [r e a b o ts w n c]. cbn in *. split_and!.
  - split; cbn; [|intros id w' Hid|done..].
    + intros id t' [ [<- _]|[_ ?%Hr] ]%lookup_insert_Some; lia.
    + destruct (Hw _ _ Hid) as [? ?]. split; [lia|]. rewrite lookup_insert_ne by lia. done.
  - intros name. unfold live_async. cbn. by apply task_count_insert.
  - intros name. unfold live_blocking. cbn. rewrite task_count_insert by done. lia.
Qed.

Lemma end_task_ok id t e x : executor_ok x -> running x !! id = Some t -> executor_ok (end_task id t e x) /\
  (forall name, live_async name (end_task id t e x) = live_async name x - (if counts_async name t then 1 else 0)) /\
  (forall name, live_blocking name (end_task id t e x) = live_blocking name x).
Proof.
  intros [Hr Hw Hp Ha Hb] Ht. assert (awaited x !! id = None) as Hn.
  { destruct (awaited x !! id) eqn:E; [|done]. apply Hw in E as [_ ?]. congruence. }
  destruct x as [r e' a b o ts w n c]. unfold end_task, live_async, live_blocking. cbn in *.
  assert (forall id' t', delete id ts !! id' = Some t' -> (id' < n)%nat) as Hr'.
  { intros id' t' [_ ?]%lookup_delete_Some. eauto. }
  destruct (task_kind t) eqn:Ek; (split; [|split; intros name; cbn; rewrite ?(task_count_delete _ _ id t) by done; rewrite ?task_count_insert by done;
    unfold counts_async, counts_blocking; rewrite ?Ek; cbn; rewrite ?Ek, ?andb_false_r; try lia; destruct (_ && _); lia]).
  all: split; cbn; try done.
  all: intros id' w' Hid; first [apply lookup_insert_Some in Hid as [ [<- <-]|[Hne Hid] ]|idtac]; cbn.
  all: first [by rewrite Ek | by split; [eapply Hr|apply lookup_delete_eq] | eauto].
  all: destruct (Hw _ _ Hid) as [? ?]; split; [done|]; apply lookup_delete_None; auto.
Qed.

(** Gauges less the tasks to be counted. *)
Definition async_excess (name : string) (x : TaskExecutor) : Z := gauge_value (ASYNC_TASKS_COUNT x) name - live_async name x.
Definition blocking_excess (name : string) (x : TaskExecutor) : Z := gauge_value (BLOCKING_TASKS_COUNT x) name - live_blocking name x.

(** A change of the gauges alone. *)
Lemma with_async_ok d n x : executor_ok x -> executor_ok (with_async (add_gauge d (ASYNC_TASKS_COUNT x) n) x) /\
  forall name, async_excess name (with_async (add_gauge d (ASYNC_TASKS_COUNT x) n) x) = async_excess name x + d * named name n /\
    blocking_excess name (with_async (add_gauge d (ASYNC_TASKS_COUNT x) n) x) = blocking_excess name x.
Proof.
  intros [Hr Hw Hp Ha Hb]. destruct x. cbn in *. split; [split; cbn; eauto using gauge_add_some|]. intros name. split; [|done].
  unfold async_excess, live_async. cbn. rewrite gauge_add by done. lia.
Qed.
Lemma with_blocking_ok d n x : executor_ok x -> executor_ok (with_blocking (add_gauge d (BLOCKING_TASKS_COUNT x) n) x) /\
  forall name, async_excess name (with_blocking (add_gauge d (BLOCKING_TASKS_COUNT x) n) x) = async_excess name x /\
    blocking_excess name (with_blocking (add_gauge d (BLOCKING_TASKS_COUNT x) n) x) = blocking_excess name x + d * named name n.
Proof.
  intros [Hr Hw Hp Ha Hb]. destruct x. cbn in *. split; [split; cbn; eauto using gauge_add_some|]. intros name. split; [done|].
  unfold blocking_excess, live_blocking. cbn. rewrite gauge_add by done. lia.
Qed.

Lemma end_task_excess id t e x : executor_ok x -> running x !! id = Some t -> executor_ok (end_task id t e x) /\
  forall name, async_excess name (end_task id t e x) = async_excess name x + (if counts_async name t then 1 else 0) /\
    blocking_excess name (end_task id t e x) = blocking_excess name x.
Proof.
  intros Hx Ht. destruct (end_task_ok id t e x Hx Ht) as (Hok & Ha & Hb). split; [done|]. intros name.
  unfold async_excess, blocking_excess. rewrite Ha, Hb.
  assert (ASYNC_TASKS_COUNT (end_task id t e x) = ASYNC_TASKS_COUNT x /\ BLOCKING_TASKS_COUNT (end_task id t e x) = BLOCKING_TASKS_COUNT x)
    as [-> ->] by (destruct x; unfold end_task; by destruct (task_kind t)). lia.
Qed.

Lemma start_task_excess t x : executor_ok x -> executor_ok (start_task t x) /\
  forall name, async_excess name (start_task t x) = async_excess name x - (if counts_async name t then 1 else 0) /\
    blocking_excess name (start_task t x) = blocking_excess name x - (if counts_blocking name t then 1 else 0).
Proof.
  intros Hx. destruct (start_task_ok t x Hx) as (Hok & Ha & Hb). split; [done|]. intros name.
  unfold async_excess, blocking_excess. rewrite Ha, Hb. destruct x; cbn. lia.
Qed.

(** Both excesses after a step. *)
Definition step_spec (x x' : TaskExecutor) (da db : string -> Z) : Prop :=
  executor_ok x' /\ forall name, async_excess name x' = async_excess name x + da name /\ blocking_excess name x' = blocking_excess name x + db name.

Lemma spawn_async_spec kind monitored n x : kind <> BlockingTask -> executor_ok x ->
  step_spec x (if has_gauge (ASYNC_TASKS_COUNT x) n then
      let x := with_async (inc_gauge_vec (ASYNC_TASKS_COUNT x) [n]) x in if runtime x then start_task (mkTask n kind monitored) x else x
    else x) (fun name => if runtime x then 0 else named name n) (fun _ => 0).
Proof.
  intros Hk Hx. assert (has_gauge (ASYNC_TASKS_COUNT x) n = true) as -> by (by apply ok_async).
  destruct (with_async_ok 1 n x Hx) as [Hok He]. change (inc_gauge_vec ?g [n]) with (add_gauge 1 g n). cbn zeta.
  assert (runtime (with_async (add_gauge 1 (ASYNC_TASKS_COUNT x) n) x) = runtime x) as -> by (by destruct x).
  destruct (runtime x).
  - destruct (start_task_excess (mkTask n kind monitored) _ Hok) as [Hok' He']. split; [exact Hok'|]. intros name.
    destruct (He' name) as [-> ->], (He name) as [-> ->]. unfold counts_async, counts_blocking, named. cbn.
    destruct kind, (String.eqb n name); cbn; (lia || done).
  - split; [exact Hok|]. intros name. destruct (He name) as [-> ->]. lia.
Qed.

Lemma spawn_blocking_spec monitored n x : executor_ok x ->
  step_spec x (spawn_blocking_handle monitored n x) (fun _ => 0) (fun name => if runtime x then 0 else named name n).
Proof.
  intros Hx. unfold spawn_blocking_handle. destruct (with_blocking_ok 1 n x Hx) as [Hok He]. change (inc_gauge_vec ?g [n]) with (add_gauge 1 g n). cbn zeta.
  assert (runtime (with_blocking (add_gauge 1 (BLOCKING_TASKS_COUNT x) n) x) = runtime x) as -> by (by destruct x).
  destruct (runtime x).
  - destruct (start_task_excess (mkTask n BlockingTask monitored) _ Hok) as [Hok' He']. split; [exact Hok'|]. intros name.
    destruct (He' name) as [-> ->], (He name) as [-> ->]. unfold counts_async, counts_blocking, named. cbn.
    destruct (String.eqb n name); cbn; lia.
  - split; [exact Hok|]. intros name. destruct (He name) as [-> ->]. lia.
Qed.

Lemma poll_task_spec id r x : executor_ok x ->
  step_spec x (poll_task id r x) (fun name => leak_async name x (EvPoll id r)) (fun _ => 0).
Proof.
  intros Hx. unfold poll_task, leak_async. destruct (running x !! id) as [t|] eqn:Ht.
  2: { split; [done|]. intros name. destruct r; lia. }
  assert (forall e, task_kind t <> BlockingTask -> step_spec x (with_async (dec_gauge_vec (ASYNC_TASKS_COUNT (end_task id t e x)) [task_name t]) (end_task id t e x))
    (fun _ => 0) (fun _ => 0)) as Hdec.
  { intros e Hk. destruct (end_task_excess id t e x Hx Ht) as [Hok He]. destruct (with_async_ok (-1) (task_name t) _ Hok) as [Hok' He'].
    split; [exact Hok'|]. intros name. change (dec_gauge_vec ?g [task_name t]) with (add_gauge (-1) g (task_name t)). destruct (He' name) as [-> ->], (He name) as [-> ->]. unfold counts_async, named.
    destruct (task_kind t), (String.eqb (task_name t) name); cbn; (lia || done). }
  assert (step_spec x x (fun _ => 0) (fun _ => 0)) as Hid by (split; [done|intros; lia]).
  destruct r.
  - destruct (task_kind t) eqn:Ek; [by apply Hdec|by apply Hdec|]. destruct (end_task_excess id t Finished x Hx Ht) as [Hok He].
    split; [exact Hok|]. intros name. destruct (He name) as [-> ->]. unfold counts_async. rewrite Ek, andb_false_r. lia.
  - destruct (task_kind t) eqn:Ek; [|done..]. destruct (exit x); [by apply Hdec|done].
  - destruct (end_task_excess id t TaskPanic x Hx Ht) as [Hok He].
    destruct (task_kind t); (split; [exact Hok|]; intros name; destruct (He name) as [-> ->]; lia).
Qed.

Lemma await_task_spec id room x : executor_ok x -> step_spec x (await_task id room x) (fun _ => 0) (fun _ => 0).
Proof.
  intros Hx. unfold await_task. destruct (awaited x !! id) as [ [t e]|] eqn:Ew; [|split; [done|intros; lia] ].
  assert (forall y, step_spec x y (fun _ => 0) (fun _ => 0) -> step_spec x match e with TaskPanic =>
    if task_monitored t then try_send room (ShutdownFailure "Panic (fatal error)") y else y | _ => y end (fun _ => 0) (fun _ => 0)) as Hsend.
  { intros y [ [Hr Hw Hp Ha Hb] He]. destruct e; [done..|]. destruct (task_monitored t); [|done].
    unfold try_send. destruct (receiver y), room; [|done..]. split; [|by destruct y]. destruct y; cbn in *. by split. }
  apply Hsend. clear Hsend. set (x1 := with_awaited (delete id (awaited x)) x).
  assert (executor_ok x1 /\ forall name, async_excess name x1 = async_excess name x /\
    blocking_excess name x1 = blocking_excess name x + (if counts_blocking name t then 1 else 0)) as [Hok He].
  { destruct x as [r e' a b o ts w n c]. destruct Hx as [Hr Hw Hp Ha Hb]. cbn in *. split; [split; cbn; try done|].
    - intros id' w' [_ ?]%lookup_delete_Some. eauto.
    - intros id' w' [_ ?]%lookup_delete_Some. eauto.
    - intros name. split; [done|]. unfold blocking_excess, live_blocking. cbn. rewrite (task_count_delete _ _ id (t, e)) by done. cbn. lia. }
  destruct (task_kind t) eqn:Ek.
  3: { destruct (with_blocking_ok (-1) (task_name t) x1 Hok) as [Hok' He']. split; [exact Hok'|]. intros name. change (dec_gauge_vec ?g [task_name t]) with (add_gauge (-1) g (task_name t)).
    destruct (He' name) as [-> ->], (He name) as [-> ->]. unfold counts_blocking, named. rewrite Ek.
    destruct (String.eqb (task_name t) name); cbn; lia. }
  all: split; [exact Hok|]; intros name; destruct (He name) as [-> ->]; unfold counts_blocking; rewrite Ek, andb_false_r; lia.
Qed.

Lemma ex_step_spec x ev : executor_ok x ->
  step_spec x (ex_step x ev) (fun name => leak_async name x ev) (fun name => leak_blocking name x ev).
Proof.
  intros Hx. destruct ev as [n|n|n|n|n|n ended|id r|id room| |].
  - exact (spawn_async_spec AsyncTask true n x ltac:(done) Hx).
  - exact (spawn_async_spec AsyncTask false n x ltac:(done) Hx).
  - exact (spawn_async_spec PlainTask false n x ltac:(done) Hx).
  - exact (spawn_blocking_spec true n x Hx).
  - exact (spawn_blocking_spec false n x Hx).
  - assert (forall g, executor_ok (with_block_on g x)) as Hok by (intros g; destruct x, Hx; cbn in *; by split).
    destruct x. cbn. unfold block_on_dangerous. cbn in *. destruct runtime0, ended; (split; [apply Hok|]; intros name; unfold async_excess, blocking_excess, live_async, live_blocking; cbn; lia).
  - exact (poll_task_spec id r x Hx).
  - exact (await_task_spec id room x Hx).
  - destruct x as [r e a b o ts w n c], Hx as [Hr Hw Hp Ha Hb]. split; [by split|]. intros name. cbn. unfold async_excess, blocking_excess, live_async, live_blocking. cbn. lia.
  - destruct x as [r e a b o ts w n c], Hx as [Hr Hw Hp Ha Hb]. cbn in *. split; [by split; cbn|]. intros name. cbn.
    unfold async_excess, blocking_excess, live_async, live_blocking. cbn. rewrite !count_empty. lia.
Qed.

Lemma ex_run_spec evs : forall x, executor_ok x ->
  step_spec x (ex_run x evs) (fun name => leaks (leak_async name) x evs) (fun name => leaks (leak_blocking name) x evs).
Proof.
  induction evs as [|ev evs IH]; intros x Hx; cbn [ex_run fold_left leaks]; [split; [done|intros; lia]|].
  destruct (ex_step_spec x ev Hx) as [Hok He]. destruct (IH _ Hok) as [Hok' He']. split; [exact Hok'|]. intros name.
  unfold ex_run in He'. destruct (He' name) as [-> ->], (He name) as [-> ->]. lia.
Qed.

Lemma new_gauge s name : get_int_gauge (Ok (family_new [s] 0)) [name] = Some 0.
Proof. unfold get_int_gauge, get_metric. by rewrite family_new_get. Qed.
Lemma new_executor_ok rc : executor_ok (TaskExecutor_new rc).
Proof. split; try done; intros n; unfold has_gauge, TaskExecutor_new; cbn [ASYNC_TASKS_COUNT BLOCKING_TASKS_COUNT]; by rewrite new_gauge. Qed.

(** Over every run of the executor the gauge of a name is the number of its tasks that are running, plus what was lost: one for each
    asynchronous task that panicked or was asked for without a runtime, and the tasks dropped with
    the runtime. Blocking tasks are counted until their end was looked at, and
    a panic does not spoil their gauge. *)
Theorem gauges_count_tasks rc evs name :
  let x := ex_run (TaskExecutor_new rc) evs in
  gauge_value (ASYNC_TASKS_COUNT x) name = live_async name x + leaks (leak_async name) (TaskExecutor_new rc) evs /\
  gauge_value (BLOCKING_TASKS_COUNT x) name = live_blocking name x + leaks (leak_blocking name) (TaskExecutor_new rc) evs.
Proof.
  destruct (ex_run_spec evs (TaskExecutor_new rc) (new_executor_ok rc)) as [_ He]. destruct (He name) as [Ha Hb].
  unfold async_excess, blocking_excess in *. change (live_async name (TaskExecutor_new rc)) with 0 in Ha.
  change (live_blocking name (TaskExecutor_new rc)) with (0 + 0) in Hb.
  assert (gauge_value (ASYNC_TASKS_COUNT (TaskExecutor_new rc)) name = 0) as E1 by (unfold gauge_value; cbn -[get_int_gauge]; by rewrite new_gauge).
  assert (gauge_value (BLOCKING_TASKS_COUNT (TaskExecutor_new rc)) name = 0) as E2 by (unfold gauge_value; cbn -[get_int_gauge]; by rewrite new_gauge).
  rewrite E1 in Ha. rewrite E2 in Hb. lia.
Qed.

(** ** Shutdown requests *)

(** A monitored task panics in this step. *)
Definition panics_now (x : TaskExecutor) (ev : ExEvent) : Z :=
  match ev with
  | EvPoll id TaskPanics => match running x !! id with Some t => if task_monitored t then 1 else 0 | None => 0 end
  | _ => 0
  end.
(** Panics the monitor has yet to see. *)
Definition unseen_panic (w : Task * TaskEnd) : bool := task_monitored w.1 && match w.2 with TaskPanic => true | _ => false end.
Definition unseen (x : TaskExecutor) : Z := map_count unseen_panic (awaited x).

(** Plain tasks are not monitored. *)
Definition plain_unmonitored (x : TaskExecutor) : Prop :=
  forall id t, running x !! id = Some t -> task_kind t = PlainTask -> task_monitored t = false.

Definition undisturbed (ev : ExEvent) : bool := match ev with EvDropRuntime | EvAwait _ false => false | _ => true end.

(** The requests delivered are failures. *)
Definition panic_reason : ShutdownReason := ShutdownFailure "Panic (fatal error)".

Lemma start_task_unseen t x : awaited (start_task t x) = awaited x /\ receiver (start_task t x) = receiver x /\
  running (start_task t x) = <[next_task x := t]> (running x).
Proof. by destruct x. Qed.

Lemma end_task_unseen id t e x : executor_ok x -> plain_unmonitored x -> running x !! id = Some t ->
  unseen (end_task id t e x) = unseen x + (if unseen_panic (t, e) then 1 else 0) /\
  receiver (end_task id t e x) = receiver x /\ plain_unmonitored (end_task id t e x).
Proof.
  intros [Hr Hw Hp Ha Hb] Hm Ht. assert (awaited x !! id = None) as Hn.
  { destruct (awaited x !! id) eqn:E; [|done]. apply Hw in E as [_ ?]. congruence. }
  destruct x as [r e' a b o ts w n c]. unfold end_task, unseen, plain_unmonitored in *. cbn in *.
  assert (forall id' t', delete id ts !! id' = Some t' -> task_kind t' = PlainTask -> task_monitored t' = false) as Hd.
  { intros id' t' [_ ?]%lookup_delete_Some. eauto. }
  destruct (task_kind t) eqn:Ek; cbn; rewrite ?task_count_insert by done; (split_and!; [|done|done]); [done| |done].
  unfold unseen_panic. cbn. rewrite (Hm id t Ht Ek). cbn. lia.
Qed.

(** A step from [x] to [y] in which [d] monitored tasks panic: each panic is a request or unseen. *)
Definition requests_step (x y : TaskExecutor) (d : Z) : Prop :=
  plain_unmonitored y /\
  match receiver x with
  | None => receiver y = None
  | Some sent => exists k, receiver y = Some (sent ++ replicate k panic_reason) /\ Z.of_nat k + unseen y = unseen x + d
  end.

Lemma requests_same x y d : plain_unmonitored y -> receiver y = receiver x -> unseen y = unseen x + d -> requests_step x y d.
Proof.
  intros Hm Hr Hd. split; [done|]. rewrite Hr, Hd. destruct (receiver x); [|done]. exists 0%nat. cbn. rewrite app_nil_r. split; [done|lia].
Qed.
Lemma requests_quiet x y : plain_unmonitored x -> awaited y = awaited x -> receiver y = receiver x -> running y = running x -> requests_step x y 0.
Proof. intros Hm H1 H2 H3. apply requests_same; [|done|]; unfold plain_unmonitored, unseen in *; rewrite ?H1, ?H3; [done|lia]. Qed.

Lemma start_requests x y t : plain_unmonitored x -> awaited y = awaited x -> receiver y = receiver x -> running y = running x ->
  (task_kind t = PlainTask -> task_monitored t = false) -> requests_step x (start_task t y) 0.
Proof.
  intros Hm Hy1 Hy2 Hy3 Ht. destruct (start_task_unseen t y) as (H1 & H2 & H3). apply requests_same; [|congruence|unfold unseen; rewrite H1, Hy1; lia].
  unfold plain_unmonitored. rewrite H3, Hy3. intros id t' [ [<- <-]|[_ ?] ]%lookup_insert_Some; [done|]. by eapply Hm.
Qed.

Lemma poll_requests x id r : executor_ok x -> plain_unmonitored x -> requests_step x (poll_task id r x) (panics_now x (EvPoll id r)).
Proof.
  intros Hx Hm. assert (requests_step x x 0) as Hid by (by apply requests_quiet).
  unfold poll_task, panics_now. destruct (running x !! id) as [t|] eqn:Ht; [|by destruct r].
  assert (forall e, unseen_panic (t, e) = false -> requests_step x (end_task id t e x) 0 /\
    requests_step x (with_async (dec_gauge_vec (ASYNC_TASKS_COUNT (end_task id t e x)) [task_name t]) (end_task id t e x)) 0) as ended.
  { intros e He. destruct (end_task_unseen id t e x Hx Hm Ht) as (Hu & Hr & Hp). rewrite He in Hu.
    split; [by apply requests_same|]. destruct (end_task id t e x) eqn:E. by apply requests_same. }
  destruct (ended Finished (andb_false_r _)) as [Hf1 Hf2], (ended Cancelled (andb_false_r _)) as [_ Hc]. destruct r.
  - by destruct (task_kind t).
  - destruct (task_kind t); [|done..]. by destruct (exit x).
  - destruct (end_task_unseen id t TaskPanic x Hx Hm Ht) as (Hu & Hr & Hp). unfold unseen_panic in Hu at 1. cbn in Hu. rewrite andb_true_r in Hu.
    destruct (task_kind t); by apply requests_same.
Qed.

Lemma await_requests x id : plain_unmonitored x -> requests_step x (await_task id true x) 0.
Proof.
  intros Hm. unfold await_task. destruct (awaited x !! id) as [ [t e]|] eqn:Ew; [|by apply requests_quiet].
  assert (map_count unseen_panic (delete id (awaited x)) = unseen x - (if unseen_panic (t, e) then 1 else 0)) as Hd
    by (by apply task_count_delete).
  change (unseen_panic (t, e)) with (task_monitored t && match e with TaskPanic => true | _ => false end) in Hd.
  destruct x as [r e' a b o ts w n c]. unfold requests_step, unseen in *. cbn [awaited with_awaited receiver running] in *.
  destruct (task_kind t), e, (task_monitored t), c as [sent|]; cbn in *; (split; [exact Hm|]); try done.
  all: first [exists 1%nat; split; [done|]; lia | exists 0%nat; rewrite app_nil_r; split; [done|]; lia].
Qed.

Lemma ex_step_requests x ev : executor_ok x -> plain_unmonitored x -> undisturbed ev = true -> requests_step x (ex_step x ev) (panics_now x ev).
Proof.
  intros Hx Hm Hu. destruct ev as [n|n|n|n|n|n ended|id r|id [] | |]; try done; cbn [ex_step].
  1-3: unfold spawn, spawn_handle, spawn_without_exit; destruct (has_gauge _ _); [|by apply requests_quiet].
  1-5: unfold spawn_blocking, spawn_blocking_handle; cbn zeta; match goal with |- context [runtime ?y] => destruct (runtime y) end;
    [apply start_requests; [done|by destruct x..|done]|apply requests_quiet; [done|by destruct x..] ].
  - apply requests_quiet; [done|..]; unfold block_on_dangerous; destruct x as [ [] ], ended; done.
  - by apply poll_requests.
  - by apply await_requests.
  - apply requests_quiet; [done|by destruct x..].
Qed.

Fixpoint panics (x : TaskExecutor) (evs : list ExEvent) : Z :=
  match evs with [] => 0 | ev :: evs => panics_now x ev + panics (ex_step x ev) evs end.

Lemma ex_run_requests evs : forall x, executor_ok x -> plain_unmonitored x -> forallb undisturbed evs = true ->
  requests_step x (ex_run x evs) (panics x evs).
Proof.
  induction evs as [|ev evs IH]; intros x Hx Hm Hu; cbn [ex_run fold_left panics]; [by apply requests_quiet|].
  apply andb_true_iff in Hu as [Hu1 Hu2]. destruct (ex_step_requests x ev Hx Hm Hu1) as [Hm1 H1].
  destruct (ex_step_spec x ev Hx) as [Hx1 _]. destruct (IH _ Hx1 Hm1 Hu2) as [Hm2 H2]. split; [done|]. unfold ex_run in H2.
  destruct (receiver x) as [sent|]; [|by rewrite H1 in H2]. destruct H1 as (k1 & H1 & E1). rewrite H1 in H2. destruct H2 as (k2 & H2 & E2).
  exists (k1 + k2)%nat. rewrite H2, <- app_assoc, <- replicate_add. split; [done|lia].
Qed.

(** C32: While the runtime lives and the channel takes every sender's first message, each panic of a monitored task is either still to
    be seen by its monitor or has become exactly one request to shut down; nothing else makes a request. When the receiving
    end of the channel was dropped, as [main] does when it creates the channel, no request is ever delivered. *)
Theorem panics_request_shutdown rc evs : forallb undisturbed evs = true ->
  let x := ex_run (TaskExecutor_new rc) evs in
  match rc with
  | Some sent => exists k, receiver x = Some (sent ++ replicate k (ShutdownFailure "Panic (fatal error)")) /\
      Z.of_nat k + unseen x = panics (TaskExecutor_new rc) evs
  | None => receiver x = None
  end.
Proof.
  intros Hu. destruct (ex_run_requests evs (TaskExecutor_new rc) (new_executor_ok rc) ltac:(done) Hu) as [_ Hr].
  cbn [receiver TaskExecutor_new] in Hr. destruct rc as [sent|]; [|exact Hr]. destruct Hr as (k & Hr & Hk). exists k. split; [exact Hr|].
  change (unseen (TaskExecutor_new (Some sent))) with 0 in Hk. lia.
Qed.

(** After the exit signal one poll ends a task that is wrapped in it, with a result or without. *)
Fact exit_ends_tasks id t r x : exit x = true -> running x !! id = Some t -> task_kind t = AsyncTask ->
  running (poll_task id r x) !! id = None.
Proof.
  intros He Ht Hk. unfold poll_task, end_task. rewrite Ht, Hk, He. destruct r, x; cbn; apply lookup_delete_eq.
Qed.
End executor.

Section demo.
#[local] Existing Instance demo_prometheus.

(** Two tasks, of which one panics and is seen. *)
Definition demo_events : list ExEvent :=
  [EvSpawn "network"; EvSpawnBlocking "upnp"; EvPoll 0 TaskPending; EvPoll 1 TaskReady; EvPoll 0 TaskPanics; EvAwait 1 true; EvAwait 0 true].
Lemma panics_request_shutdown_witness : let x := ex_run (TaskExecutor_new (Some [])) demo_events in
  exists k, receiver x = Some ([] ++ replicate k (ShutdownFailure "Panic (fatal error)")) /\ Z.of_nat k + unseen x = 1.
Proof. exact (panics_request_shutdown (Some []) demo_events eq_refl). Defined.

(** The gauge of the task that panicked stays at one; nobody hears of the panic if nobody listens. *)
Example demo_leak : (gauge_value (ASYNC_TASKS_COUNT (ex_run (TaskExecutor_new None) demo_events)) "network",
  gauge_value (BLOCKING_TASKS_COUNT (ex_run (TaskExecutor_new None) demo_events)) "upnp",
  receiver (ex_run (TaskExecutor_new None) demo_events)) = (1, 0, None).
Proof. vm_compute. reflexivity. Qed.
End demo.
