(* ===== verification/Manager.v ===== *)
(** * The network manager

    Models [network_manager/src/service.rs]: the task that owns the network of [Service], drives
    it, and connects it with the router and the bundler. Its loop waits for the first of four
    things: a message of the bundler, a message of its channel, an event of the network, a tick of the
    metrics timer. The branch that completes is handled, and the futures of the
    others are dropped; that of [listen_to_main_bundler] has state ([ListenState]) that is lost.

    A [ManagerStep] is one poll of a branch, one message handled by the router, or the report of the
    UPnP task. The two channels are queues of the state; an [Output] is a message with the bytes written to the
    bundler, or a request to shut down. Waiting for an answer of the bundler blocks the task:
    the handlers return [None] while the answer has not arrived. *)

From Stdlib.Init Require Import Byte.
From S2P Require Import Prelude RustStr External Float64 Score RpcTypes Wire LruTimeCache Client PeerInfo PeerDB Topics.
From S2P Require Import PeerManager RateLimiter NetConfig EnrRecords Discovery SelfLimiter DelayQueue GossipCache Handler.
From S2P Require Import RpcBehaviour Service Bundler Nat Router TaskExecutor.

(** [PeerId::to_string] and [PeerId::from_str]. *)
Class PeerIdText `{External} := {
  peer_id_to_string : PeerId -> string;
  peer_id_from_str : string -> result PeerId string;
  peer_id_roundtrip : forall p, peer_id_from_str (peer_id_to_string p) = Ok p;
  peer_id_nonempty : forall p, peer_id_to_string p <> "";
}.

Definition parse_u128 (s : string) : option Z := parse_unsigned (int_max u128) s.

Section manager.
Context `{External} `{!EnrFields} `{!EnrLib} `{!Discv5Lib} `{!LruCacheLib PeerId Enr}
  `{Libm} `{!SetIter Multiaddr} `{!MapIter PeerId PeerInfo} `{!HashSetDelay PeerId}
  `{DelayQueue (GossipTopic * bytes)} `{!MapIter bytes Z} `{!SszTypes} `{!BlockListLib}.
Context `{!ExternFns} `{!GossipsubLib (gossip_message_id sha256 service_gossip_params)}.
Context `{Pickle} `{!PeerIdText}.

(** What the task sends out of the process. *)
Inductive Output : Type :=
| ToBundler (message : BundlerGossibRequest) (written : bytes)
| ShutdownRequest (reason : ShutdownReason).

Record NetworkService : Type := mkNetworkService {
  libp2p : Network (AppReqId := AppRequestId);
  network_recv : list NetworkMessage;
  router_recv : list RouterMessage;
  upnp_mappings : EstablishedUPnPMappings;
  listen_multiaddrs : list Multiaddr;
  metrics_enabled : bool;
  listening_for : ListenState;
}.

(** Field updates. *)
Definition with_libp2p (x : Network) (s : NetworkService) : NetworkService :=
  let 'mkNetworkService l n r u m e f := s in mkNetworkService x n r u m e f.
Definition with_network_recv (x : list NetworkMessage) (s : NetworkService) : NetworkService :=
  let 'mkNetworkService l n r u m e f := s in mkNetworkService l x r u m e f.
Definition with_router_recv (x : list RouterMessage) (s : NetworkService) : NetworkService :=
  let 'mkNetworkService l n r u m e f := s in mkNetworkService l n x u m e f.
Definition with_mappings (x : EstablishedUPnPMappings) (s : NetworkService) : NetworkService :=
  let 'mkNetworkService l n r u m e f := s in mkNetworkService l n r x m e f.
Definition with_multiaddrs (x : list Multiaddr) (s : NetworkService) : NetworkService :=
  let 'mkNetworkService l n r u m e f := s in mkNetworkService l n r u x e f.
Definition with_listening (x : ListenState) (s : NetworkService) : NetworkService :=
  let 'mkNetworkService l n r u m e f := s in mkNetworkService l n r u m e x.

Definition network_send (m : NetworkMessage) (s : NetworkService) : NetworkService :=
  with_network_recv (network_recv s ++ [m]) s.
Definition send_to_router (m : RouterMessage) (s : NetworkService) : NetworkService :=
  with_router_recv (router_recv s ++ [m]) s.

(** ** Messages of the bundler *)

(** The arm of the select loop that handles what [listen_to_main_bundler] returned. *)
Definition on_bundler_message (request : result MessageTypeFromBundler PickleError) (s : NetworkService)
  : outcome NetworkService :=
  match request with
  | Ok (GossibMessageFromBundler m) =>
      let pubsub_message := PubsubVerifiedUserOperation (gm_useroperation m) in
      Ret (network_send (MsgPublish [pubsub_message] (gm_topics m)) s)
  | Ok (PooledUserOpHashesRequestFromBundler m) =>
      if String.eqb (hr_peer_id m) "" then Ret (network_send (MsgHashesRequestToAllPeers (hr_request m)) s)
      else
        id <-! expect (parse_u128 (hr_id m)) "called `Result::unwrap()` on an `Err` value";
        Ret (network_send (MsgHashesRequest id (hr_peer_id m) (hr_request m)) s)
  | Ok (PooledUserOpsByHashRequestFromBundler m) =>
      id <-! expect (parse_u128 (or_id m)) "called `Result::unwrap()` on an `Err` value";
      Ret (network_send (MsgOpsByHashRequest id (or_peer_id m) (or_request m)) s)
  | Err _ => Ret s
  end.

(** ** Events of the network *)

Definition on_libp2p_event (io : BundlerIo) (ev : NetworkEvent (AppReqId := AppRequestId)) (s : NetworkService)
  : outcome (list Output * NetworkService) :=
  match ev with
  | NetPeerConnectedOutgoing p => Ret ([], send_to_router (RtStatusPeer p) s)
  | NetPeerConnectedIncoming _ => Ret ([], s)
  | NetPeerDisconnected p => Ret ([], send_to_router (RtPeerDisconnected p) s)
  | RequestReceived p id request => Ret ([], send_to_router (RtRPCRequestReceived p id request) s)
  | ResponseReceived p id response => Ret ([], send_to_router (RtRPCResponseReceived p id response) s)
  | RPCFailed id p => Ret ([], send_to_router (RtRPCFailed p id) s)
  | StatusPeer p => Ret ([], send_to_router (RtStatusPeer p) s)
  | NetPubsubMessage _ source topic (PubsubVerifiedUserOperation op) =>
      let gossib_message := mkGossibToBundler (peer_id_to_string source) topic op in
      let message_to_send := mkBundlerRequest "p2p_received_gossib" (GossibMessageToBundler gossib_message) in
      w <-! broadcast_to_main_bundler io message_to_send;
      Ret ([ToBundler message_to_send w], s)
  | NewListenAddr a => Ret ([], with_multiaddrs (listen_multiaddrs s ++ [a]) s)
  | ZeroListeners => Ret ([ShutdownRequest (ShutdownFailure "All listeners are closed. Unable to listen")], s)
  | ResponseReceivedFromInternal p response => Ret ([], send_to_router (RtRPCResponseReceived p FromRouter response) s)
  end.

(** ** Messages of the channel *)

(** A question to the bundler whose answer is sent to the peer that asked. *)
Definition ask_bundler {A} (io : BundlerIo) (message_to_send : BundlerGossibRequest)
    (from_slice : bytes -> result A PickleError) (respond : A -> Response) (p : PeerId) (request_id : PeerRequestId)
    (s : NetworkService) : outcome (option (list Output * NetworkService)) :=
  r <-! broadcast_and_listen_for_response_from_main_bundler io message_to_send;
  match snd r with
  | None => Ret None
  | Some response =>
      b <-! unwrap response;
      deserialized_result <-! unwrap (from_slice b);
      Ret (Some ([ToBundler message_to_send (fst r)],
        with_libp2p (send_response p request_id (respond deserialized_result) (libp2p s)) s))
  end.

Definition on_network_msg (now : Instant) (io : BundlerIo) (write : WriteAttempt) (msg : NetworkMessage)
    (s : NetworkService) : outcome (option (list Output * NetworkService)) :=
  let net n := Ret (Some ([], with_libp2p n s)) in
  let tell message_to_send :=
    w <-! broadcast_to_main_bundler io message_to_send; Ret (Some ([ToBundler message_to_send w], s)) in
  match msg with
  | MsgSendRequest p request request_id => net (send_request now p request_id request (libp2p s))
  | MsgSendResponse p response id => net (send_response p id response (libp2p s))
  | MsgSendErrorResponse p error reason id => net (send_error_reponse p id error reason (libp2p s))
  | MsgUPnPMappingEstablished mappings =>
      let s := with_mappings mappings s in
      let d := discovery (libp2p s) in
      let d := match map_tcp_port mappings with
               | Some tcp_port => (update_enr_tcp_port write tcp_port d).2
               | None => d
               end in
      let d := match map_udp_quic_port mappings with
               | Some quic_port => (update_enr_quic_port write quic_port d).2
               | None => d
               end in
      Ret (Some ([], with_libp2p (with_discovery d (libp2p s)) s))
  | MsgValidationResult p message_id validation =>
      net (report_message_validation_result p message_id validation (libp2p s))
  | MsgPublish messages mempool_ids =>
      n <-! publish messages mempool_ids (libp2p s); net n
  | MsgReportPeer p action => n <-! Network_report_peer now p action (libp2p s); net n
  | MsgGoodbyePeer p reason => n <-! Network_goodbye_peer now p reason (libp2p s); net n
  | MsgSubscribeCoreTopics => Ret (Some ([], s))
  | MsgHashesRequestToAllPeers _ => net (send_outbound_pooled_user_op_hashes_request_to_all_peers now (libp2p s))
  | MsgHashesRequest id peer_id r =>
      p <-! unwrap (peer_id_from_str peer_id);
      Ret (Some ([], send_to_router (RtHashesRequest (FromMainBundler id) p r) s))
  | MsgOpsByHashRequest id peer_id r =>
      p <-! unwrap (peer_id_from_str peer_id);
      Ret (Some ([], send_to_router (RtOpsByHashRequest (FromMainBundler id) p r) s))
  | MsgHashesRequestS p request_id r =>
      ask_bundler io (mkBundlerRequest "p2p_pooled_user_op_hashes_received" (PooledUserOpHashesRequestToBundler r))
        pickle_hashes (fun a => RespPooledUserOpHashes (Some a)) p request_id s
  | MsgOpsByHashRequestS p request_id r =>
      ask_bundler io (mkBundlerRequest "p2p_pooled_user_ops_by_hash_received" (PooledUserOpsByHashRequestToBundler r))
        pickle_ops (fun a => RespPooledUserOpsByHash (Some a)) p request_id s
  | MsgHashesResponseS p _ r =>
      tell (mkBundlerRequest "p2p_received_pooled_user_op_hashes_response"
        (PooledUserOpHashesResponseToBundler (mkHashesAndPeerId (peer_id_to_string p) r)))
  | MsgOpsByHashResponseS _ _ r =>
      tell (mkBundlerRequest "p2p_received_pooled_user_ops_by_hash_response" (PooledUserOpsByHashResponseToBundler r))
  | MsgStatus p request_id =>
      ask_bundler io (mkBundlerRequest "p2p_status_received" StatusToBundler) pickle_status RespStatus p request_id s
  end.

(** ** The loop *)

Inductive ManagerStep : Type :=
| StepBundler (env : ListenEnv)
| StepMessage (io : BundlerIo) (write : WriteAttempt)
| StepEvent (turns : list (Instant * SwarmTurn (AppReqId := AppRequestId)))
    (ticks : list (list (PeerId * f64) -> list (PeerId * f64))) (polls : list Expired) (io : BundlerIo)
| StepMetrics
| StepRouter
| StepUPnP (mappings : EstablishedUPnPMappings).

(** The select loop starts over: the other futures are dropped. *)
Definition select_again (s : NetworkService) : NetworkService := with_listening ListenStart s.

Definition manager_step (now : Instant) (step : ManagerStep) (s : NetworkService)
  : outcome (option (list Output * NetworkService)) :=
  match step with
  | StepBundler env =>
      r <-! poll_listen env (listening_for s);
      match fst r with
      | Ready request =>
          s <-! on_bundler_message request s;
          Ret (Some ([], select_again s))
      | Pending => Ret (Some ([], with_listening (snd r) s))
      end
  | StepMessage io write =>
      match network_recv s with
      | [] => Ret (Some ([], s))
      | msg :: rest => on_network_msg now io write msg (select_again (with_network_recv rest s))
      end
  | StepEvent turns ticks polls io =>
      r <-! poll_network now turns ticks polls (libp2p s);
      let s := with_libp2p (snd r) s in
      match fst r with
      | Ready ev => o <-! on_libp2p_event io ev (select_again s); Ret (Some o)
      | Pending => Ret (Some ([], s))
      end
  | StepMetrics => Ret (Some ([], if metrics_enabled s then select_again s else s))
  | StepRouter =>
      match router_recv s with
      | [] => Ret (Some ([], s))
      | m :: rest =>
          out <-! handle_message (pm_peers (peer_manager (libp2p s))) m;
          Ret (Some ([], with_network_recv (network_recv s ++ out) (with_router_recv rest s)))
      end
  | StepUPnP mappings => Ret (Some ([], network_send (MsgUPnPMappingEstablished mappings) s))
  end.

(** [NetworkService::start]: the UPnP configuration the mappings are asked for with, if any, and the
    service. *)
Definition NetworkService_start `{GossipsubBuilder} (config : NetworkConfig) (env : NewEnv)
  : outcome (result (option UPnPConfig * list SwarmCommand * NetworkService) string) :=
  let upnp := match from_config config with
              | Some upnp_config => if upnp_enabled config then Some upnp_config else None
              | None => None
              end in
  r <-! Network_new config env;
  match r with
  | Err e => Ret (Err e)
  | Ok (cmds, n) =>
      Ret (Ok (upnp, cmds, mkNetworkService n [] [] Mappings_default [] (nc_metrics_enabled config) ListenStart))
  end.

(** [Drop]: the port mappings are removed. *)
Definition NetworkService_drop `{IgdLib} (search_gateway : result Gateway string) (s : NetworkService)
  : option Gateway := remove_mappings (upnp_mappings s) search_gateway.
End manager.
