(* ===== verification/ManagerProps.v ===== *)
(** * Theorems about the network manager

    The composition of the network, the router and the loop of the network manager never
    panics as long as the bundler serves it: it listens, and what it sends can be parsed.
    [bundler_serves] says exactly what that means for a message, and the converse holds too: what
    does not satisfy it brings the task down. A request of a peer is handed to the
    bundler and its answer goes back to the substream of the request; a request of the bundler is sent to
    the peer it names. The state of the listening branch is forgotten whenever another
    branch completes. *)

From Stdlib.Init Require Import Byte.
From Stdlib Require Import Ascii.
From S2P Require Import Prelude RustStr External Float64 Score RpcTypes Wire LruTimeCache Client PeerInfo PeerDB Topics.
From S2P Require Import PeerManager PeerManagerInv RateLimiter NetConfig EnrRecords Discovery DiscoveryProps SelfLimiter.
From S2P Require Import DelayQueue GossipCache Handler RpcBehaviour Service ServiceProps Bundler Nat Router Manager.

Section theorems.
Context `{External} `{!EnrFields} `{!EnrLib} `{!Discv5Lib} `{!LruCacheLib PeerId Enr}
  `{Libm} `{!SetIter Multiaddr} `{!MapIter PeerId PeerInfo} `{!HashSetDelay PeerId}
  `{DelayQueue (GossipTopic * bytes)} `{!MapIter bytes Z} `{!SszTypes} `{!BlockListLib}.
Context `{!ExternFns} `{!GossipsubLib (gossip_message_id sha256 service_gossip_params)}.
Context `{Pickle} `{!PeerIdText}.
Implicit Types (s : NetworkService) (n : Network (AppReqId := AppRequestId)) (p : PeerId).

(** ** Responses carry a value *)

Definition event_full (ev : NetworkEvent (AppReqId := AppRequestId)) : bool :=
  match ev with
  | ResponseReceived _ _ r | ResponseReceivedFromInternal _ r => response_full r
  | _ => true
  end.

Lemma rpc_event_full now msg n ev n' : inject_rpc_event now msg n = Ret (Some ev, n') -> event_full ev = true.
Proof.
  unfold inject_rpc_event. destruct (negb _); [done|].
  destruct (msg_event msg) as [ [id req|id resp|id t]|[id proto err|id proto err] ].
  - destruct req; intros [= <- _]; done.
  - destruct resp; intros [= Hev _]; destruct id; cbn in Hev; simplify_eq; done.
  - intros [= Hev _]. destruct id; cbn in Hev; simplify_eq; done.
  - by destruct (handle_rpc_error _ _ _ _ _ _).
  - destruct (handle_rpc_error _ _ _ _ _ _); [|done]. intros [= Hev _]. destruct id; by simplify_eq.
Qed.

Lemma swarm_event_full now e n ev n' : handle_swarm_event now e n = Ret (Some ev, n') -> event_full ev = true.
Proof.
  destruct e as [ge|re|ps|ie|pe|a|l|]; cbn [handle_swarm_event].
  - destruct ge; cbn [inject_gs_event]; repeat case_match; intros [= <- _]; done.
  - apply rpc_event_full.
  - done.
  - by destruct ie.
  - destruct pe; cbn [inject_pm_event]; intros [= <- _]; done.
  - by intros [= <- _].
  - destruct (l =? 0); [|done]. by intros [= <- _].
  - done.
Qed.

Lemma poll_swarm_full turns : forall n ev n', poll_swarm turns n = Ret (Some ev, n') -> event_full ev = true.
Proof.
  induction turns as [|[now turn] turns IH]; intros n ev n'; cbn [poll_swarm]; [done|].
  destruct (swarm_turn now turn n) as [ [ [e|] n1]|]; [|apply IH|done].
  destruct (handle_swarm_event now e n1) as [ [ [e'|] n2]|] eqn:He; [|apply IH|done].
  intros [= <- <-]. by eapply swarm_event_full.
Qed.

Lemma poll_network_full now turns ticks polls n ev n' :
  poll_network now turns ticks polls n = Ret (Ready ev, n') -> event_full ev = true.
Proof.
  unfold poll_network. destruct (poll_swarm turns n) as [ [ [e|] n1]|] eqn:Hp; [| |done].
  - intros [= <- _]. by eapply poll_swarm_full.
  - destruct (update_all_scores _ _ _) as [n2|]; [|done]. by destruct (poll_cache _ _).
Qed.

(** ** What the bundler has to do *)

(** A message of the bundler whose identifier is a number and which names a peer. *)
Definition bundler_message_ok (m : MessageTypeFromBundler) : bool :=
  match m with
  | GossibMessageFromBundler _ => true
  | PooledUserOpHashesRequestFromBundler m =>
      String.eqb (hr_peer_id m) "" || bool_decide (is_Some (parse_u128 (hr_id m)))
  | PooledUserOpsByHashRequestFromBundler m => bool_decide (is_Some (parse_u128 (or_id m)))
  end.

(** The bundler listens and the message can be written. *)
Definition bundler_listens (io : BundlerIo) : bool := is_ok (io_connect io) && is_ok (io_write io).

(** If it answers, the answer can be deserialised. *)
Definition answers_with {A} (io : BundlerIo) (from_slice : bytes -> result A PickleError) (m : BundlerGossibRequest)
  : bool :=
  match broadcast_and_listen_for_response_from_main_bundler io m with
  | Ret (_, Some (Ok b)) => is_ok (from_slice b)
  | _ => true
  end.

(** What handling a message of the channel needs. *)
Definition bundler_serves (io : BundlerIo) (msg : NetworkMessage) : bool :=
  match msg with
  | MsgHashesRequest _ peer_id _ | MsgOpsByHashRequest _ peer_id _ => is_ok (peer_id_from_str peer_id)
  | MsgHashesRequestS _ _ r => bundler_listens io &&
      answers_with io pickle_hashes (mkBundlerRequest "p2p_pooled_user_op_hashes_received" (PooledUserOpHashesRequestToBundler r))
  | MsgOpsByHashRequestS _ _ r => bundler_listens io &&
      answers_with io pickle_ops (mkBundlerRequest "p2p_pooled_user_ops_by_hash_received" (PooledUserOpsByHashRequestToBundler r))
  | MsgStatus _ _ => bundler_listens io && answers_with io pickle_status (mkBundlerRequest "p2p_status_received" StatusToBundler)
  | MsgHashesResponseS _ _ _ | MsgOpsByHashResponseS _ _ _ => bundler_listens io
  | _ => true
  end.

Lemma bundler_message_total m s : bundler_message_ok m = true <-> exists s', on_bundler_message (Ok m) s = Ret s'.
Proof.
  destruct m as [m|m|m]; cbn.
  - split; eauto.
  - destruct (String.eqb (hr_peer_id m) ""); cbn; [split; eauto|].
    destruct (parse_u128 (hr_id m)); cbn; split; eauto; [done|by intros [? ?] ].
  - destruct (parse_u128 (or_id m)); cbn; split; eauto; [done|by intros [? ?] ].
Qed.

(** Handling a message of the bundler only adds to the channel. *)
Lemma bundler_message_effect r s s' : on_bundler_message r s = Ret s' ->
  exists msgs, s' = with_network_recv (network_recv s ++ msgs) s.
Proof.
  destruct r as [ [m|m|m]|e]; cbn.
  - intros [= <-]. by eexists [_].
  - destruct (String.eqb _ _); [intros [= <-]; by eexists [_] |].
    destruct (parse_u128 _); [|done]. intros [= <-]. by eexists [_].
  - destruct (parse_u128 _); [|done]. intros [= <-]. by eexists [_].
  - intros [= <-]. exists []. rewrite app_nil_r. by destruct s.
Qed.

Lemma broadcast_ret io m : bundler_listens io = true <-> exists w, broadcast_to_main_bundler io m = Ret w.
Proof.
  unfold bundler_listens, broadcast_to_main_bundler. pose proof (pickle_total m) as Hp.
  destruct (io_connect io); cbn; [|split; [done|by intros [? ?] ] ].
  destruct (pickle_to_vec m); [|done]. cbn. destruct (io_write io); cbn; split; eauto; [done|by intros [? ?] ].
Qed.

(** Asking the bundler: it is told, and may answer; an answer is never an input or output error. *)
Lemma listen_ok k attempts unread r rest u :
  listen_to_stream k attempts unread = Some (r, rest, u) -> exists b, r = Ok b /\ length b = k.
Proof.
  pose proof (listen_spec k attempts unread) as Hl. destruct (arrivals attempts) as [|a ks]; [by rewrite Hl|].
  destruct Hl as (rest' & _ & ->). intros [= <- _ _]. eexists. split; [done|]. apply length_fill.
  rewrite length_take. lia.
Qed.

Lemma ask_ret io m : bundler_listens io = true <->
  exists w o, broadcast_and_listen_for_response_from_main_bundler io m = Ret (w, o) /\
    (forall r, o = Some r -> exists b, r = Ok b).
Proof.
  unfold bundler_listens, broadcast_and_listen_for_response_from_main_bundler. pose proof (pickle_total m) as Hp.
  destruct (io_connect io); cbn; [|split; [done|naive_solver] ]. destruct (pickle_to_vec m) as [b0|]; [|done]. cbn.
  destruct (io_write io); cbn; [|split; [done|naive_solver] ]. split; [|done]. intros _.
  destruct (listen_to_stream 4 _ _) as [ [ [r rest] u]|] eqn:Hl; [|by eexists _, _].
  apply listen_ok in Hl as (b & -> & Hb). cbn. unfold four_bytes. rewrite Hb. cbn. eexists _, _. split; [done|].
  destruct (listen_to_stream _ rest u) as [ [ [r2 rest2] u2]|] eqn:Hl2; [|done].
  apply listen_ok in Hl2 as (b2 & -> & _). intros ? [= <-]. eauto.
Qed.

Lemma ask_bundler_ret {A} io m (from_slice : bytes -> result A PickleError) respond p id s :
  bundler_listens io && answers_with io from_slice m = true <->
  exists o, ask_bundler io m from_slice respond p id s = Ret o.
Proof.
  unfold answers_with, ask_bundler. rewrite andb_true_iff, (ask_ret io m). split.
  - intros [(w & o & -> & Ho) Ha]. destruct o as [r|]; cbn; [|eauto]. destruct (Ho r eq_refl) as [b ->]. cbn.
    destruct (from_slice b); [|done]. cbn. eauto.
  - intros [o Ho]. destruct (broadcast_and_listen_for_response_from_main_bundler io m) as [ [w a]|] eqn:Hb; [|done].
    assert (bundler_listens io = true) as Hl.
    { unfold bundler_listens. revert Hb. unfold broadcast_and_listen_for_response_from_main_bundler.
      destruct (io_connect io); [|done]. destruct (pickle_to_vec m); [|done]. cbn. by destruct (io_write io). }
    apply (ask_ret io m) in Hl as (w' & o' & Hb' & Ho'). rewrite Hb in Hb'. injection Hb' as <- <-.
    split; [by eexists _, _|]. cbn in Ho. destruct a as [r|]; [|done]. destruct (Ho' r eq_refl) as [b ->]. cbn in Ho.
    by destruct (from_slice b).
Qed.

(** ** The invariant *)

Record man_inv (t : Instant) s : Prop := {
  mi_net : net_inv t (libp2p s);
  mi_router : Forall (fun m => router_message_ok m = true) (router_recv s);
}.

Lemma man_later t t' s : man_inv t s -> t <= t' -> man_inv t' s.
Proof. intros [Hn Hr] Ht. split; [by eapply net_later|done]. Qed.
Lemma man_libp2p t t' n s : man_inv t s -> net_inv t' n -> man_inv t' (with_libp2p n s).
Proof. destruct s. intros [] ?. by split. Qed.
Lemma man_recv t ms s : man_inv t s -> man_inv t (with_network_recv ms s).
Proof. destruct s. by intros []. Qed.
Lemma man_select t s : man_inv t s -> man_inv t (select_again s).
Proof. destruct s. by intros []. Qed.
Lemma man_listening t l s : man_inv t s -> man_inv t (with_listening l s).
Proof. destruct s. by intros []. Qed.
Lemma man_mappings t m s : man_inv t s -> man_inv t (with_mappings m s).
Proof. destruct s. by intros []. Qed.
Lemma man_multiaddrs t l s : man_inv t s -> man_inv t (with_multiaddrs l s).
Proof. destruct s. by intros []. Qed.
Lemma man_router t m s : man_inv t s -> router_message_ok m = true -> man_inv t (send_to_router m s).
Proof. destruct s. intros [Hn Hr] Hm. split; [done|]. apply Forall_app. by auto. Qed.
Hint Resolve man_libp2p man_recv man_select man_listening man_mappings man_multiaddrs man_router : manager.
Hint Resolve mi_net mi_router : manager.

(** ** Messages of the channel *)

(** The messages that are one call of the network. *)
Definition msg_op (msg : NetworkMessage) : option NetOp :=
  match msg with
  | MsgSendRequest p request id => Some (NetSendRequest p id request)
  | MsgSendResponse p response id => Some (NetSendResponse p id response)
  | MsgSendErrorResponse p error reason id => Some (NetSendError p id error reason)
  | MsgValidationResult p id v => Some (NetReportValidation p id v)
  | MsgPublish messages ids => Some (NetPublish messages ids)
  | MsgReportPeer p action => Some (NetReportPeer p action)
  | MsgGoodbyePeer p reason => Some (NetGoodbye p reason)
  | MsgHashesRequestToAllPeers _ => Some NetSendHashesRequests
  | _ => None
  end.

Lemma msg_op_spec now io w msg s op : msg_op msg = Some op ->
  on_network_msg now io w msg s = (r <-! net_do now op (libp2p s); Ret (Some ([], with_libp2p (snd r) s))).
Proof.
  destruct msg; intros [= <-]; cbn [on_network_msg net_do snd]; try done.
  - by destruct (publish _ _ _).
  - by destruct (Network_report_peer _ _ _ _).
  - by destruct (Network_goodbye_peer _ _ _ _).
Qed.

Lemma msg_op_serves io msg op : msg_op msg = Some op -> bundler_serves io msg = true.
Proof. by destruct msg. Qed.

Lemma msg_op_ok ids t msg op : msg_op msg = Some op -> op_ok ids t op t.
Proof. destruct msg; intros [= <-]; cbn; lia. Qed.

(** Handling a message returns exactly when the bundler serves it. *)
Lemma network_msg_total now io w msg s : man_inv now s ->
  bundler_serves io msg = true <-> exists o, on_network_msg now io w msg s = Ret o.
Proof.
  intros [Hn _]. destruct (msg_op msg) as [op|] eqn:Hop.
  { rewrite (msg_op_spec _ _ _ _ _ _ Hop), (msg_op_serves io _ _ Hop). split; [intros _|done].
    destruct (net_do_returns [] now now op (libp2p s) Hn) as (r & n' & -> & _); [by eapply msg_op_ok|]. eauto. }
  destruct msg; simplify_eq; cbn [on_network_msg bundler_serves]; try (split; [intros _; eexists; reflexivity|done]); try apply ask_bundler_ret.
  - destruct (peer_id_from_str peer_id); cbn; split; eauto; [done|by intros []].
  - destruct (peer_id_from_str peer_id); cbn; split; eauto; [done|by intros []].
  - rewrite (broadcast_ret io). split; [by intros [? ->]; eauto|].
    intros [o Ho]. destruct (broadcast_to_main_bundler _ _) eqn:Hb; [|done]. eauto.
  - rewrite (broadcast_ret io). split; [by intros [? ->]; eauto|].
    intros [o Ho]. destruct (broadcast_to_main_bundler _ _) eqn:Hb; [|done]. eauto.
Qed.

Lemma ask_bundler_inv {A} t io m (from_slice : bytes -> result A PickleError) respond p id s out s' :
  man_inv t s -> ask_bundler io m from_slice respond p id s = Ret (Some (out, s')) -> man_inv t s'.
Proof.
  intros Hs. unfold ask_bundler. destruct (broadcast_and_listen_for_response_from_main_bundler io m) as [ [w [r|] ]|]; cbn; try done.
  destruct (unwrap r) as [b|]; [|done]. destruct (unwrap (from_slice b)); [|done]. intros [= _ <-].
  eapply man_libp2p; [done|]. apply net_rpc, Hs.
Qed.

Lemma network_msg_inv now io w msg s out s' : man_inv now s ->
  on_network_msg now io w msg s = Ret (Some (out, s')) -> man_inv now s'.
Proof.
  intros Hs. pose proof (mi_net _ _ Hs) as Hn. destruct (msg_op msg) as [op|] eqn:Hop.
  { rewrite (msg_op_spec _ _ _ _ _ _ Hop).
    destruct (net_do_returns [] now now op (libp2p s) Hn) as (r & n' & -> & Hn'); [by eapply msg_op_ok|].
    intros [= _ <-]. by eapply man_libp2p. }
  destruct msg; simplify_eq; cbn [on_network_msg]; try apply ask_bundler_inv, Hs.
  - by intros [= _ <-].
  - intros [= _ <-]. eapply man_libp2p; [by apply man_mappings|]. apply net_discovery; [by destruct s|].
    replace (discovery (libp2p (with_mappings mappings s))) with (discovery (libp2p s)) by (by destruct s).
    assert (Hd : disc_inv (match map_tcp_port mappings with
      | Some tcp_port => (update_enr_tcp_port w tcp_port (discovery (libp2p s))).2 | None => discovery (libp2p s) end)).
    { destruct (map_tcp_port mappings); [apply inv_port|]; apply Hn. }
    destruct (map_udp_quic_port mappings); [by apply inv_port|done].
  - destruct (unwrap _); [|done]. intros [= _ <-]. by apply man_router.
  - destruct (unwrap _); [|done]. intros [= _ <-]. by apply man_router.
  - destruct (broadcast_to_main_bundler _ _); [|done]. by intros [= _ <-].
  - destruct (broadcast_to_main_bundler _ _); [|done]. by intros [= _ <-].
Qed.

(** ** Events of the network *)

Lemma libp2p_event_total io ev s : bundler_listens io = true -> exists out s', on_libp2p_event io ev s = Ret (out, s').
Proof.
  intros Hb. destruct ev as [ | | | | | | |id p topic [op] | | |]; cbn [on_libp2p_event]; eauto.
  destruct (proj1 (broadcast_ret io (mkBundlerRequest "p2p_received_gossib" (GossibMessageToBundler
    (mkGossibToBundler (peer_id_to_string p) topic op)))) Hb) as [w ->]. eauto.
Qed.

Lemma libp2p_event_inv t io ev s out s' : man_inv t s -> event_full ev = true ->
  on_libp2p_event io ev s = Ret (out, s') -> man_inv t s'.
Proof.
  intros Hs Hf. destruct ev as [ | | | | | | |id p topic [op] | | |]; cbn [on_libp2p_event];
    try (intros [= _ <-]; eauto with manager).
  destruct (broadcast_to_main_bundler _ _); [|done]. by intros [= _ <-].
Qed.

(** ** The loop *)

(** The operating system lets the node listen. *)
Definition os_ok (env : ListenEnv) : bool :=
  is_ok (le_remove env) && is_ok (le_bind env) && match le_accept env with Some (Err _) => false | _ => true end.

Lemma read_length_ret attempts unread : exists r, read_length attempts unread = Ret r.
Proof.
  unfold read_length. destruct (listen_to_stream 4 attempts unread) as [ [ [r rest] u]|] eqn:Hl; [|eauto].
  apply listen_ok in Hl as (b & -> & Hb). cbn. unfold four_bytes. rewrite Hb. cbn.
  unfold read_message. destruct (listen_to_stream _ rest u) as [ [ [r2 rest2] u2]|] eqn:Hl2; [|eauto].
  apply listen_ok in Hl2 as (b2 & -> & _). cbn. eauto.
Qed.

Lemma read_message_ret k attempts unread : exists r, read_message k attempts unread = Ret r.
Proof.
  unfold read_message. destruct (listen_to_stream k attempts unread) as [ [ [r rest] u]|] eqn:Hl; [|eauto].
  apply listen_ok in Hl as (b & -> & Hb). cbn. eauto.
Qed.

Lemma poll_listen_ret env st : os_ok env = true -> exists r, poll_listen env st = Ret r.
Proof.
  unfold os_ok. rewrite !andb_true_iff. intros [ [Hr Hb] Ha].
  assert (exists r, accept env = Ret r) as Hacc.
  { unfold accept. destruct (le_accept env) as [ [u|e]|]; [apply read_length_ret|done|eauto]. }
  destruct st; cbn [poll_listen]; [|done|apply read_length_ret|apply read_message_ret].
  destruct (le_remove env), (le_bind env); try done. by destruct (le_socket_exists env).
Qed.

Definition step_ok (ids : list string) (t : Instant) (step : ManagerStep) (now : Instant) s : Prop :=
  match step with
  | StepBundler env => t <= now /\ os_ok env = true /\
      forall m st, poll_listen env (listening_for s) = Ret (Ready (Ok m), st) -> bundler_message_ok m = true
  | StepMessage io _ => t <= now /\ forall msg rest, network_recv s = msg :: rest -> bundler_serves io msg = true
  | StepEvent turns _ _ io => turns_ok ids t turns now /\ bundler_listens io = true
  | _ => t <= now
  end.

(** A step returns; it gives no new state only when the answer of the bundler is awaited. *)
Lemma manager_step_returns ids t now step s : man_inv t s -> step_ok ids t step now s ->
  exists o, manager_step now step s = Ret o /\
    match o with
    | Some (_, s') => man_inv now s'
    | None => exists io w msg rest, step = StepMessage io w /\ network_recv s = msg :: rest
    end.
Proof.
  intros Hs Ho. destruct step as [env|io w|turns ticks polls io| | |mappings]; cbn [manager_step step_ok] in *.
  - destruct Ho as (Ht & Hos & Hm). apply (man_later _ now) in Hs; [|done].
    destruct (poll_listen_ret env (listening_for s) Hos) as [ [ [ [m|e]|] st] Hp]; rewrite Hp; cbn [fst snd].
    + specialize (Hm m st Hp). apply (bundler_message_total m s) in Hm as [s' Hs']. rewrite Hs'.
      apply bundler_message_effect in Hs' as [msgs ->]. eexists. split; [done|]. cbv iota beta. eauto with manager.
    + eexists. split; [done|]. cbv iota beta. eauto with manager.
    + eexists. split; [done|]. cbv iota beta. eauto with manager.
  - destruct Ho as [Ht Hm]. apply (man_later _ now) in Hs; [|done].
    destruct (network_recv s) as [|msg rest] eqn:Hq; [by eexists|]. specialize (Hm msg rest eq_refl).
    assert (man_inv now (select_again (with_network_recv rest s))) as Hs' by eauto with manager.
    apply (network_msg_total now io w msg _ Hs') in Hm as [o Hmsg]. exists o. split; [done|].
    destruct o as [ [out s'']|]; [by eapply network_msg_inv|]. by eexists _, _, _, _.
  - destruct Ho as [Ht Hb].
    destruct (poll_network_returns ids t now turns ticks polls (libp2p s) (mi_net _ _ Hs) Ht) as (ev & n' & Hp & Hn').
    rewrite Hp. cbn [fst snd]. assert (man_inv now (with_libp2p n' s)) as Hs' by eauto with manager.
    destruct ev as [ev|]; [|by eexists].
    destruct (libp2p_event_total io ev (select_again (with_libp2p n' s)) Hb) as (out & s'' & He). rewrite He.
    eexists. split; [done|]. eapply libp2p_event_inv; [|by eapply poll_network_full|done]. by apply man_select.
  - apply (man_later _ now) in Hs; [|done]. eexists. split; [done|]. cbv iota beta. destruct (metrics_enabled s); eauto with manager.
  - apply (man_later _ now) in Hs; [|done]. destruct (router_recv s) as [|m rest] eqn:Hq; [by eexists|].
    destruct Hs as [Hn Hr]. rewrite Hq in Hr. apply Forall_cons in Hr as [Hm Hr].
    apply (handle_message_ret (pm_peers (peer_manager (libp2p s)))) in Hm as [out ->]. eexists. split; [done|].
    apply man_recv. by destruct s.
  - apply (man_later _ now) in Hs; [|done]. eexists. split; [done|]. unfold network_send. cbv iota beta. eauto with manager.
Qed.

(** The states of the network manager. *)
Inductive man_reachable `{GossipsubBuilder} (config : NetworkConfig) (env : NewEnv)
  : Instant -> NetworkService -> Prop :=
| man_start t upnp cmds s : NetworkService_start config env = Ret (Ok (upnp, cmds, s)) -> man_reachable config env t s
| man_next t now step s out s' : man_reachable config env t s -> step_ok (topics config) t step now s ->
    manager_step now step s = Ret (Some (out, s')) -> man_reachable config env now s'.

Lemma man_reachable_inv `{GossipsubBuilder} config env t s : man_reachable config env t s -> man_inv t s.
Proof.
  induction 1 as [t upnp cmds s Hs|t now step s out s' _ IH Ho Hd].
  - unfold NetworkService_start in Hs. destruct (Network_new config env) as [ [ [cmds' n]|]|] eqn:Hn; [|done..].
    injection Hs as _ _ <-. split; [by eapply network_new_inv|constructor].
  - destruct (manager_step_returns _ t now step s IH Ho) as (o & Hd' & Hi). rewrite Hd in Hd'. by injection Hd' as <-.
Qed.

(** C5: From the start of the network manager on, no step of its loop, of the router and of the
    UPnP task panics, whatever peers, swarm and timers report, provided that the bundler listens, its
    answers and messages can be parsed and the node may listen on its socket. Afterwards the
    connection limit holds, discovery has its invariant, and no response without a
    value waits for the router, which would unwrap it. A step ends unfinished only when it
    waits for an answer of the bundler. *)
Theorem manager_safe `{GossipsubBuilder} config env t now step s :
  man_reachable config env t s -> step_ok (topics config) t step now s ->
  exists o, manager_step now step s = Ret o /\
  match o with
  | Some (_, s') =>
      let m := peer_manager (libp2p s') in
      connected_count (pm_peers m) <= Z.max (max_peers (target_peers m)) (max_outbound_dialing_peers (target_peers m)) /\
      disc_inv (discovery (libp2p s')) /\
      Forall (fun m => exists out, handle_message (pm_peers (peer_manager (libp2p s'))) m = Ret out) (router_recv s')
  | None => exists io w msg rest, step = StepMessage io w /\ network_recv s = msg :: rest
  end.
Proof.
  intros Hr Ho. apply man_reachable_inv in Hr. destruct (manager_step_returns _ t now step s Hr Ho) as (o & Hd & Hi).
  exists o. split; [done|]. destruct o as [ [out s']|]; [|done].
  destruct Hi as [ [ [_ Hl _] Hdi _] Hm]. split_and!; [done..|]. eapply Forall_impl; [exact Hm|].
  intros m. apply handle_message_ret.
Qed.

(** C18: The converse: in every reachable state, handling the next message of the channel
    panics exactly when the bundler does not serve it, that is when the peer a request of the bundler
    names cannot be parsed, when nothing listens on the socket of the bundler or writing fails, or when
    an answer of the bundler cannot be deserialised. *)
Theorem manager_needs_bundler `{GossipsubBuilder} config env t now io w msg rest s :
  man_reachable config env t s -> t <= now -> network_recv s = msg :: rest ->
  (exists o, manager_step now (StepMessage io w) s = Ret o) <-> bundler_serves io msg = true.
Proof.
  intros Hr Ht Hq. apply man_reachable_inv, (man_later _ now) in Hr; [|done]. cbn [manager_step]. rewrite Hq.
  symmetry. apply network_msg_total. eauto with manager.
Qed.

(** ** Requests of peers *)

(** What the bundler is asked for a request, and how its answer is read. *)
Definition question (r : Request) : BundlerGossibRequest :=
  match r with
  | ReqStatus _ => mkBundlerRequest "p2p_status_received" StatusToBundler
  | ReqPooledUserOpHashes r => mkBundlerRequest "p2p_pooled_user_op_hashes_received" (PooledUserOpHashesRequestToBundler r)
  | ReqPooledUserOpsByHash r =>
      mkBundlerRequest "p2p_pooled_user_ops_by_hash_received" (PooledUserOpsByHashRequestToBundler r)
  end.
Definition read_answer (r : Request) (b : bytes) : result RPCResponse PickleError :=
  match r with
  | ReqStatus _ => result_map RStatus (pickle_status b)
  | ReqPooledUserOpHashes _ => result_map RPooledUserOpHashes (pickle_hashes b)
  | ReqPooledUserOpsByHash _ => result_map RPooledUserOpsByHash (pickle_ops b)
  end.

(** C14: A request of a connected peer travels from the event of the network over the router and the
    channel to the bundler, which is asked with the content of the request; its answer, once
    it has arrived, is sent as a success on the connection and the substream on which the request
    came, and nothing else is sent. *)
Theorem peer_request_answered now io0 io w b k1 k2 ks s p conn sub request answer :
  router_recv s = [] -> network_recv s = [] -> db_is_connected (pm_peers (peer_manager (libp2p s))) p = true ->
  bundler_listens io = true -> blen b < 2 ^ 32 -> io_reply io = frame b ->
  arrivals (io_attempts io) = k1 :: k2 :: ks -> (4 <= k1)%nat -> (length b <= k2)%nat ->
  read_answer request b = Ok answer ->
  exists s1 s2 s3 written,
    on_libp2p_event io0 (RequestReceived p (conn, sub) request) s = Ret ([], s1) /\
    manager_step now StepRouter s1 = Ret (Some ([], s2)) /\
    manager_step now (StepMessage io w) s2 = Ret (Some ([ToBundler (question request) written], s3)) /\
    network_recv s3 = [] /\ router_recv s3 = [] /\
    rpc_events (eth2_rpc (libp2p s3)) =
      rpc_events (eth2_rpc (libp2p s)) ++ [ActNotifyHandler p (NotifyOne conn) (SendResponse sub (Success answer))].
Proof.
  intros Hrt Hnq Hc Hl Hb Hr Ha Hk1 Hk2 Hans. destruct s as [n nr rr u m e f]. cbn in Hrt, Hnq, Hc. subst rr nr.
  apply andb_true_iff in Hl as [Hl1 Hl2].
  destruct (io_connect io) as [ []|] eqn:Hcon; [|done]. destruct (io_write io) as [ []|] eqn:Hw; [|done].
  assert (exists v, broadcast_and_listen_for_response_from_main_bundler io (question request) = Ret (v, Some (Ok b))) as [v Hv].
  { pose proof (pickle_total (question request)) as Hp. destruct (pickle_to_vec (question request)) as [v|] eqn:Hv; [|done].
    eexists. by eapply broadcast_answer. }
  destruct request as [st|r|r]; cbn [question read_answer] in *;
    (match goal with H : result_map _ ?x = Ok _ |- _ => destruct x as [a|] eqn:Hd; [|done] end);
    injection Hans as <-; eexists _, _, _, v; (split; [reflexivity|]);
    (split; [cbn; unfold handle_rpc_request; rewrite Hc; reflexivity|]);
    (split; [cbn -[ask_bundler]; unfold ask_bundler; rewrite Hv; cbn;
             rewrite Hd; reflexivity|]); by destruct n.
Qed.

(** ** Requests of the bundler *)

(** The message with which the bundler asks for a request to a peer, and what it is told of the
    response. *)
Definition request_from_bundler (id : Z) p (r : Request) : option MessageTypeFromBundler :=
  match r with
  | ReqStatus _ => None
  | ReqPooledUserOpHashes r => Some (PooledUserOpHashesRequestFromBundler (mkHashesFromBundler (dec id) (peer_id_to_string p) r))
  | ReqPooledUserOpsByHash r => Some (PooledUserOpsByHashRequestFromBundler (mkOpsFromBundler (dec id) (peer_id_to_string p) r))
  end.

(** C15: A request the bundler sends with a number as identifier and the name of a peer goes over the
    channel, the router and the channel again to the RPC behaviour, addressed to that
    peer and under that identifier; nothing is sent to the bundler meanwhile. *)
Theorem bundler_request_sent now env io w s p id request m st :
  router_recv s = [] -> network_recv s = [] -> 0 <= id < 2 ^ 128 -> request_from_bundler id p request = Some m ->
  poll_listen env (listening_for s) = Ret (Ready (Ok m), st) ->
  exists s1 s2 s3 s4,
    manager_step now (StepBundler env) s = Ret (Some ([], s1)) /\
    manager_step now (StepMessage io w) s1 = Ret (Some ([], s2)) /\
    manager_step now StepRouter s2 = Ret (Some ([], s3)) /\
    manager_step now (StepMessage io w) s3 = Ret (Some ([], s4)) /\
    network_recv s4 = [] /\ router_recv s4 = [] /\
    libp2p s4 = send_request now p (FromMainBundler id) request (libp2p s).
Proof.
  intros Hrt Hnq Hid Hm Hp. destruct s as [n nr rr u ma e f]. cbn in Hrt, Hnq, Hp. subst rr nr.
  assert (parse_u128 (dec id) = Some id) as Hparse by (apply parse_dec; cbn; lia).
  assert (String.eqb (peer_id_to_string p) "" = false) as Hne by (apply String.eqb_neq, peer_id_nonempty).
  destruct request as [s0|r|r]; [done|..]; injection Hm as <-;
    (eexists _, _, _, _; split; [cbn [manager_step listening_for]; rewrite Hp; cbn -[String.eqb parse_u128 dec]; rewrite ?Hne, ?Hparse; reflexivity|]);
    cbn; rewrite (peer_id_roundtrip p); (split; [reflexivity|]); by split_and!.
Qed.


(** What the code leaves out of its messages: the cursor of a request to all peers, and the peer and the
    identifier of a response with operations. *)
Lemma request_to_all_ignores_cursor now io w r r' s :
  on_network_msg now io w (MsgHashesRequestToAllPeers r) s = on_network_msg now io w (MsgHashesRequestToAllPeers r') s.
Proof. done. Qed.

Lemma ops_response_anonymous now io w p p' id id' r s :
  on_network_msg now io w (MsgOpsByHashResponseS p id r) s = on_network_msg now io w (MsgOpsByHashResponseS p' id' r) s.
Proof. done. Qed.

(** ** Cancellation *)

(** A step that completes a branch of the loop other than that of the bundler. *)
Definition completes (now : Instant) (step : ManagerStep) s : bool :=
  match step with
  | StepMessage _ _ => match network_recv s with [] => false | _ => true end
  | StepEvent turns ticks polls _ =>
      match poll_network now turns ticks polls (libp2p s) with Ret (Ready _, _) => true | _ => false end
  | StepMetrics => metrics_enabled s
  | _ => false
  end.

Lemma network_msg_listening now io w msg s out s' :
  on_network_msg now io w msg s = Ret (Some (out, s')) -> listening_for s' = listening_for s.
Proof.
  destruct msg; cbn [on_network_msg]; unfold ask_bundler; repeat case_match; intros; simplify_eq; first [done|by destruct s].
Qed.

Lemma libp2p_event_listening io ev s out s' :
  on_libp2p_event io ev s = Ret (out, s') -> listening_for s' = listening_for s.
Proof. destruct ev; cbn [on_libp2p_event]; repeat case_match; intros; simplify_eq; first [done|by destruct s]. Qed.

(** When another branch completes, whatever the listening branch had done is
    forgotten: the outcome does not depend on it, so a connection of the bundler that was accepted but not
    read to the end is lost with its message, and the branch starts from the beginning. *)
Theorem select_forgets now step s l : completes now step s = true ->
  manager_step now step (with_listening l s) = manager_step now step s /\
  forall out s', manager_step now step s = Ret (Some (out, s')) -> listening_for s' = ListenStart.
Proof.
  assert (Hsel : forall x, listening_for (select_again x) = ListenStart) by (by intros []).
  intros Hc. split; [destruct s as [n nr rr u ma e f]|];
    destruct step as [|io w|turns ticks polls io| | |]; try done.
  - cbn in *. by destruct nr.
  - cbn in *. by destruct (poll_network _ _ _ _ _) as [ [ []]|].
  - cbn in *. by rewrite Hc.
  - intros out s'. cbn [manager_step completes] in *. destruct (network_recv s); [done|].
    intros ->%network_msg_listening. apply Hsel.
  - intros out s'. cbn [manager_step completes] in *.
    destruct (poll_network _ _ _ _ _) as [ [ [ev|] n']|]; [|done..]. cbn [fst snd].
    destruct (on_libp2p_event io ev _) as [ [out1 s1]|] eqn:He; [|done]. intros [= _ <-].
    rewrite (libp2p_event_listening _ _ _ _ _ He). apply Hsel.
  - cbn [manager_step completes] in *. rewrite Hc. intros out s' [= _ <-]. apply Hsel.
Qed.
End theorems.

(** ** Witnesses *)

#[local] Existing Instances demo_enr_external demo_enr_fields demo_enr_lib demo_discv5 demo_libm.
#[local] Existing Instances demo_cache demo_addr_iter demo_infos demo_delays demo_expirations demo_msgs.
#[local] Existing Instances demo_gs_builder demo_enr_ssz demo_block_list demo_fns demo_gossipsub.

(** Peers written as the bits of their number. *)
Fixpoint pos_to_string (p : positive) : string :=
  match p with
  | xH => "H"
  | xO p => String "O"%char (pos_to_string p)
  | xI p => String "I"%char (pos_to_string p)
  end.
Fixpoint pos_from_string (s : string) : option positive :=
  match s with
  | String c s =>
      if Ascii.eqb c "O" then option_map xO (pos_from_string s)
      else if Ascii.eqb c "I" then option_map xI (pos_from_string s)
      else if Ascii.eqb c "H" && String.eqb s "" then Some xH else None
  | _ => None
  end.
#[refine, local] Instance demo_peer_text : PeerIdText := {|
  peer_id_to_string := pos_to_string;
  peer_id_from_str := fun s => ok_or (pos_from_string s) "not a peer";
|}.
Proof.
  - intros p. cbn. induction p as [p IH|p IH|]; cbn in *; [| |done];
      by destruct (pos_from_string (pos_to_string p)) as [q|]; simplify_eq/=.
  - by intros [].
Defined.

(** Every answer is the same; the empty string is not pickled. *)
Definition demo_hashes_request : PooledUserOpHashesRequest := mkPooledUserOpHashesRequest (replicate 32 x00).
#[refine, local] Instance demo_pickle : Pickle := {|
  PickleError := unit;
  pickle_to_vec := fun _ => Ok [x01];
  pickle_message := fun b => match b with
    | [] => Err tt
    | _ => Ok (PooledUserOpHashesRequestFromBundler (mkHashesFromBundler (dec 7) (pos_to_string demo_net_peer) demo_hashes_request))
    end;
  pickle_hashes := fun b => match b with [] => Err tt | _ => Ok (mkPooledUserOpHashes [] []) end;
  pickle_ops := fun b => match b with [] => Err tt | _ => Ok (mkPooledUserOpsByHash []) end;
  pickle_status := fun b => match b with [] => Err tt | _ => Ok (mkStatusMessage 1 2 3) end;
|}.
Proof. done. Defined.

(** A bundler that answers one byte, in time; and one that connects to the node, with a spurious
    wake-up before its message. *)
Definition demo_io : BundlerIo := mkBundlerIo (Ok tt) (Ok tt) (frame [x01]) [TryRead 4; TryReadError; TryRead 1].
Definition demo_listen : ListenEnv :=
  mkListenEnv true (Ok tt) (Ok tt) (Some (Ok (frame [x01]))) [NotReadable; TryRead 5; TryRead 1].

Lemma bundler_message_read_witness :
  run_listen [demo_listen; mkListenEnv false (Ok tt) (Ok tt) None [TryRead 1]] (ListenLength (frame [x01; x02; x03])) =
    Ret (Ready (pickle_message [x01; x00; x00]), ListenStart) /\
  fill_buffer 3 (take 1 [x01; x02; x03]) <> [x01; x02; x03].
Proof.
  split; [|done].
  exact (proj1 (bundler_message_read [demo_listen; mkListenEnv false (Ok tt) (Ok tt) None [TryRead 1]]
    [x01; x02; x03] 5 1 [1%nat] ltac:(cbn; lia) eq_refl ltac:(lia))).
Defined.

(** The manager after its start, and with a connected peer. *)
Lemma demo_manager : exists upnp cmds s,
  NetworkService_start (NetworkConfig_in ".") demo_new_env = Ret (Ok (upnp, cmds, s)).
Proof. eexists _, _, _. reflexivity. Qed.

Definition demo_app : Network (AppReqId := AppRequestId) :=
  mkNetwork ∅ ∅ (mkRPC None None [] demo_params) demo_discovery
    (inject_connect_ingoing 1 demo_net_peer (1, 2) None (PeerManager_new Config_default (PeerDB_new [] false)))
    (build GossipCache_builder) (mkMetaData 3 []) ∅.
Definition demo_service : NetworkService := mkNetworkService demo_app [] [] Mappings_default [] false ListenStart.

Lemma manager_safe_witness : exists s o,
  man_reachable (NetworkConfig_in ".") demo_new_env 0 s /\
  manager_step 1 (StepBundler demo_listen) s = Ret o.
Proof.
  destruct demo_manager as (upnp & cmds & s & Hs). pose proof (man_start (NetworkConfig_in ".") demo_new_env 0 upnp cmds s Hs) as Hr.
  assert (step_ok (topics (NetworkConfig_in ".")) 0 (StepBundler demo_listen) 1 s) as Ho.
  { split_and!; [lia|done|]. intros m st Hp. assert (listening_for s = ListenStart) as Hl.
    { unfold NetworkService_start in Hs. destruct (Network_new _ _) as [ [ []|]|]; simplify_eq/=; done. }
    rewrite Hl in Hp. vm_compute in Hp. injection Hp as <- _. vm_compute. reflexivity. }
  destruct (manager_safe (NetworkConfig_in ".") demo_new_env 0 1 (StepBundler demo_listen) s Hr Ho) as (o & Hd & _).
  by exists s, o.
Defined.

(** Without a bundler, the mappings of the UPnP task are handled all the same. *)
Lemma manager_needs_bundler_witness : exists s,
  man_reachable (NetworkConfig_in ".") demo_new_env 1 s /\
  exists o, manager_step 1 (StepMessage (mkBundlerIo (Err UnexpectedEof) (Ok tt) [] []) Written) s = Ret o.
Proof.
  destruct demo_manager as (upnp & cmds & s & Hs). pose proof (man_start (NetworkConfig_in ".") demo_new_env 0 upnp cmds s Hs) as Hr.
  assert (network_recv s = []) as Hq.
  { unfold NetworkService_start in Hs. destruct (Network_new _ _) as [ [ []|]|]; simplify_eq/=; done. }
  set (s1 := network_send (MsgUPnPMappingEstablished Mappings_default) s).
  assert (man_reachable (NetworkConfig_in ".") demo_new_env 1 s1) as Hr1.
  { eapply (man_next _ _ 0 1 (StepUPnP Mappings_default)); [done| |done]. cbn. lia. }
  exists s1. split; [done|].
  apply (manager_needs_bundler (NetworkConfig_in ".") demo_new_env 1 1 _ Written
    (MsgUPnPMappingEstablished Mappings_default) [] s1 Hr1 ltac:(lia)); [|done].
  destruct s; cbn in *. by subst.
Defined.

Lemma peer_request_answered_witness : exists s1 s2 s3 written,
  on_libp2p_event demo_io (RequestReceived demo_net_peer (1, 4) (ReqStatus (mkStatusMessage 0 0 0))) demo_service = Ret ([], s1) /\
  manager_step 2 StepRouter s1 = Ret (Some ([], s2)) /\
  manager_step 2 (StepMessage demo_io Written) s2 =
    Ret (Some ([ToBundler (mkBundlerRequest "p2p_status_received" StatusToBundler) written], s3)) /\
  network_recv s3 = [] /\ router_recv s3 = [] /\
  rpc_events (eth2_rpc (libp2p s3)) =
    [ActNotifyHandler demo_net_peer (NotifyOne 1) (SendResponse 4 (Success (RStatus (mkStatusMessage 1 2 3))))].
Proof.
  exact (peer_request_answered 2 demo_io demo_io Written [x01] 4 1 [] demo_service demo_net_peer 1 4
    (ReqStatus (mkStatusMessage 0 0 0)) (RStatus (mkStatusMessage 1 2 3)) eq_refl eq_refl eq_refl eq_refl ltac:(cbn; lia)
    eq_refl eq_refl ltac:(lia) ltac:(cbn; lia) eq_refl).
Defined.

Lemma bundler_request_sent_witness : exists s1 s2 s3 s4,
  manager_step 2 (StepBundler demo_listen) demo_service = Ret (Some ([], s1)) /\
  manager_step 2 (StepMessage demo_io Written) s1 = Ret (Some ([], s2)) /\
  manager_step 2 StepRouter s2 = Ret (Some ([], s3)) /\
  manager_step 2 (StepMessage demo_io Written) s3 = Ret (Some ([], s4)) /\
  network_recv s4 = [] /\ router_recv s4 = [] /\
  libp2p s4 = send_request 2 demo_net_peer (FromMainBundler 7) (ReqPooledUserOpHashes demo_hashes_request) demo_app.
Proof.
  exact (bundler_request_sent 2 demo_listen demo_io Written demo_service demo_net_peer 7
    (ReqPooledUserOpHashes demo_hashes_request) _ ListenStart eq_refl eq_refl ltac:(lia) eq_refl eq_refl).
Defined.


(** The bundler has connected and its message is still on the way when a message of the channel
    is handled. *)
Lemma select_forgets_witness : let s := network_send MsgSubscribeCoreTopics demo_service in
  manager_step 2 (StepMessage demo_io Written) (with_listening (ListenMessage 1 [x01]) s) =
    manager_step 2 (StepMessage demo_io Written) s /\
  exists out s', manager_step 2 (StepMessage demo_io Written) s = Ret (Some (out, s')) /\ listening_for s' = ListenStart.
Proof.
  destruct (select_forgets 2 (StepMessage demo_io Written) (network_send MsgSubscribeCoreTopics demo_service)
    (ListenMessage 1 [x01]) eq_refl) as [He Hl]. split; [exact He|].
  eexists _, _. split; [reflexivity|]. by eapply Hl.
Defined.

(** A bundler that closes the connection without an answer, and one that names no number: both
    bring the task down. *)
Example demo_no_answer : is_ret (on_network_msg 2 (mkBundlerIo (Ok tt) (Ok tt) [] [TryRead 0; TryRead 0]) Written
  (MsgStatus demo_net_peer (1, 4)) demo_service) = false.
Proof. vm_compute. reflexivity. Qed.
Example demo_bad_id : is_ret (on_bundler_message (Ok (PooledUserOpsByHashRequestFromBundler
  (mkOpsFromBundler "0x7" "H" (mkPooledUserOpsByHashRequest [])))) demo_service) = false.
Proof. vm_compute. reflexivity. Qed.
