(* ===== verification/Cli.v ===== *)
(** * The command line

    Models [src/voltaire_p2p/src/cli_args.rs] and [main.rs]: the arguments, how they become a
    network configuration, and the start of the node. The parser of command lines is
    the crate [clap]; what the program sees of it is [ArgMatches], and [get_matches] states the
    documented relation between the declared arguments, those given and the matches.
    Ports chosen by the operating system come from [UnusedPort]; the functions that
    may ask for them run in [PortM], which keeps the cache of ports. *)

From Stdlib Require Import Ascii String.
From S2P Require Import Prelude RustStr External RpcTypes LruTimeCache RateLimiter RpcConfig NetConfig.
From S2P Require Import Manager IpText UnusedPort.

(** ** Text of numbers and addresses *)

(** [Display] of the [ParseIntError] of an unsigned type: the first character that is no
    digit, or the first digit with which the number is too large. *)
Fixpoint digits_error (max : Z) (s : string) (acc : Z) : string :=
  match s with
  | EmptyString => ""
  | String c s' =>
      match char_digit c with
      | None => "invalid digit found in string"
      | Some d => if acc * 10 + d <=? max then digits_error max s' (acc * 10 + d)
                  else "number too large to fit in target type"
      end
  end.
Definition parse_int_error (max : Z) (s : string) : string :=
  match s with
  | EmptyString => "cannot parse integer from empty string"
  | String "+"%char EmptyString => "invalid digit found in string"
  | String "+"%char s' => digits_error max s' 0
  | _ => digits_error max s 0
  end.
(** [str::parse] for the type [t]. *)
Definition parse_int (t : int_ty) (s : string) : result Z string :=
  ok_or (parse_unsigned (int_max t) s) (parse_int_error (int_max t) s).

Definition hex_digit (d : Z) : ascii := ascii_of_N (Z.to_N (if d <? 10 then 48 + d else 87 + d)).
Fixpoint hex_digits (fuel : nat) (n : Z) (acc : string) : string :=
  match fuel with
  | O => acc
  | S f => let acc := String (hex_digit (n mod 16)) acc in if n / 16 =? 0 then acc else hex_digits f (n / 16) acc
  end.
Definition hex (n : Z) : string := hex_digits 4 n "".

Definition Ipv4Addr_display (a : Z) : string := ipv4_display (octet a 0) (octet a 1) (octet a 2) (octet a 3).

(** The longest run of zero segments, the first of these: where it starts and its length. *)
Fixpoint longest_zeros (i : nat) (current best : nat * nat) (segments : list Z) : nat * nat :=
  match segments with
  | [] => best
  | s :: rest =>
      if s =? 0 then
        let current := if (current.2 =? 0)%nat then (i, 1%nat) else (current.1, S current.2) in
        longest_zeros (S i) current (if (best.2 <? current.2)%nat then current else best) rest
      else longest_zeros (S i) (0%nat, 0%nat) best rest
  end.
Definition fmt_subslice (segments : list Z) : string := join ":"%char (map hex segments).
Definition Ipv6Addr_display (a : Z) : string :=
  if (Z.shiftr a 32 =? 0xffff) then "::ffff:" +:+ Ipv4Addr_display (Z.land a 0xffffffff)
  else
    let segments := map (segment a) [0; 1; 2; 3; 4; 5; 6; 7] in
    let '(start, len) := longest_zeros 0 (0%nat, 0%nat) (0%nat, 0%nat) segments in
    if (1 <? len)%nat then fmt_subslice (take start segments) +:+ "::" +:+ fmt_subslice (drop (start + len) segments)
    else fmt_subslice segments.

(** ** Arguments *)

(** What a declaration of [cli_app] says of an argument. *)
Record Arg : Type := mkArg {
  arg_name : string; arg_takes_value : bool; arg_multiple : bool;
  arg_min_values : option nat; arg_max_values : option nat; arg_default : option string;
}.
Definition flag (name : string) : Arg := mkArg name false false None None None.
Definition opt (name : string) : Arg := mkArg name true false None None None.
Definition opt_default (name d : string) : Arg := mkArg name true false None None (Some d).

Definition cli_app : list Arg :=
  [ opt "network-dir"; flag "zero-ports";
    mkArg "listen-address" true true None (Some 2%nat) (Some "0.0.0.0");
    opt_default "port" "9000"; opt_default "port6" "9090";
    opt "discovery-port"; opt "quic-port"; opt "discovery-port6"; opt "quic-port6";
    opt "target-peers"; opt "boot-nodes"; opt_default "network-load" "3";
    flag "disable-upnp"; flag "private";
    opt "enr-udp-port"; opt "enr-quic-port"; opt "enr-udp6-port"; opt "enr-quic6-port";
    opt "enr-tcp-port"; opt "enr-tcp6-port";
    mkArg "enr-address" true true None (Some 2%nat) None;
    flag "enr-match"; flag "disable-enr-auto-update"; opt "libp2p-addresses";
    flag "disable-discovery"; flag "disable-quic"; flag "disable-peer-scoring"; opt "trusted-peers";
    mkArg "self-limiter" true false (Some 0%nat) None None;
    opt "inbound-rate-limiter";
    mkArg "p2p-mempool-topic-hashes" true true None None None ].

(** [clap::ArgMatches]: the arguments present, with their values. *)
Abbreviation ArgMatches := (gmap string (list string)) (only parsing).
Definition is_present (m : ArgMatches) (name : string) : bool := bool_decide (is_Some (m !! name)).
Definition values_of (m : ArgMatches) (name : string) : option (list string) := m !! name.
Definition value_of (m : ArgMatches) (name : string) : option string :=
  match m !! name with Some (v :: _) => Some v | _ => None end.

(** The values an argument may have. *)
Definition arg_values_ok (a : Arg) (vs : list string) : Prop :=
  if arg_takes_value a then
    (default 1%nat (arg_min_values a) <= length vs)%nat /\
    (forall k, arg_max_values a = Some k -> (length vs <= k)%nat) /\
    (arg_multiple a = false -> arg_min_values a = None -> length vs = 1%nat)
  else vs = [].

(** [App::get_matches] for an accepted command line: only declared arguments are present, with as
    many values as declared; an argument that was not given is present with its default value if it has
    one. *)
Record get_matches (app : list Arg) (given m : ArgMatches) : Prop := {
  gm_declared : forall name vs, given !! name = Some vs ->
    exists a, a ∈ app /\ arg_name a = name /\ arg_values_ok a vs;
  gm_given : forall name vs, given !! name = Some vs -> m !! name = Some vs;
  gm_default : forall a, a ∈ app -> given !! arg_name a = None ->
    m !! arg_name a = option_map (fun d => [d]) (arg_default a);
  gm_undeclared : forall name, (forall a, a ∈ app -> arg_name a <> name) -> m !! name = None;
}.

(** ** Listening addresses *)

(** What the operating system offers to each call for an unused port, and the cache. *)
Record PortSource : Type := mkPortSource { ps_offers : list (list BindAttempt); ps_cache : LRUTimeCache Z }.

(** A computation that may fail, panic, and ask for ports; [None] while the search goes on. *)
Definition PortM (A : Type) : Type := PortSource -> outcome (option (result A string * PortSource)).
Definition pret {A} (a : result A string) : PortM A := fun p => Ret (Some (a, p)).
Definition pbind {A B} (e : PortM A) (k : A -> PortM B) : PortM B := fun p =>
  match e p with
  | Panic msg => Panic msg
  | Ret None => Ret None
  | Ret (Some (Err err, p)) => Ret (Some (Err err, p))
  | Ret (Some (Ok a, p)) => k a p
  end.
Notation "x '<-p' e ';' k" := (pbind e (fun x => k)) (at level 100, e at next level, right associativity) : rust_scope.

(** [use_zero_ports.then(f).transpose()?]. *)
Definition then_port (use_zero_ports : bool) (transport : Transport) (ipv : IpVersion) : PortM (option Z) := fun p =>
  if use_zero_ports then
    let '(attempts, offers) := match ps_offers p with [] => ([], []) | a :: l => (a, l) end in
    r <-! zero_port transport ipv attempts (ps_cache p);
    Ret (match fst r with
         | None => None
         | Some port => Some (result_map Some port, mkPortSource offers (snd r))
         end)
  else Ret (Some (Ok None, p)).

Definition two_addresses (family first second : string) : string :=
  "When setting the --listen-address option twice, use an IpV4 address and an Ipv6 address. Got two "
    +:+ family +:+ " addresses " +:+ first +:+ " and " +:+ second.

(** The loop over the values of [listen-address]. *)
Fixpoint parse_ips (addrs : list string) (maybe_ipv4 maybe_ipv6 : option Z) : result (option Z * option Z) string :=
  match addrs with
  | [] => Ok (maybe_ipv4, maybe_ipv6)
  | addr_str :: addrs =>
      match IpAddr_from_str addr_str with
      | None => Err ("Failed to parse listen-address (" +:+ addr_str +:+ ") as an Ip address: invalid IP address syntax")
      | Some (V4 v4_addr) =>
          match maybe_ipv4 with
          | Some first => Err (two_addresses "IpV4" (Ipv4Addr_display first) (Ipv4Addr_display v4_addr))
          | None => parse_ips addrs (Some v4_addr) maybe_ipv6
          end
      | Some (V6 v6_addr) =>
          match maybe_ipv6 with
          | Some first => Err (two_addresses "IpV6" (Ipv6Addr_display first) (Ipv6Addr_display v6_addr))
          | None => parse_ips addrs maybe_ipv4 (Some v6_addr)
          end
      end
  end.

(** [value_of(name).map(str::parse::<u16>).transpose()], with the message of [flag]. *)
Definition parse_port (m : ArgMatches) (name flag : string) : result (option Z) string :=
  match value_of m name with
  | None => Ok None
  | Some s => result_map Some (result_map_err (fun e => "Failed to parse --" +:+ flag +:+ " as an integer: " +:+ e) (parse_int u16 s))
  end.

Definition add_one (port : Z) : Z := wrap u16 (port + 1).

(** The last step: the ports of each family. *)
Definition choose_ports (use_zero_ports : bool) (ips : option Z * option Z) (port port6 : Z)
    (maybe_disc_port maybe_disc6_port maybe_quic_port maybe_quic6_port : option Z) : PortM ListenAddress :=
  let zero := then_port use_zero_ports in
  match ips with
  | (None, None) => pret (Err "No listening addresses provided")
  | (None, Some ipv6) =>
      tcp <-p zero TransportTcp VersionIpv6; let tcp_port := default port tcp in
      disc <-p zero TransportUdp VersionIpv6; let disc_port := default port (option_or disc maybe_disc_port) in
      quic <-p zero TransportUdp VersionIpv6; let quic_port := default (add_one port) (option_or quic maybe_quic_port) in
      pret (Ok (ListenV6 (mkListenAddr ipv6 disc_port quic_port tcp_port)))
  | (Some ipv4, None) =>
      tcp <-p zero TransportTcp VersionIpv4; let tcp_port := default port tcp in
      disc <-p zero TransportUdp VersionIpv4; let disc_port := default port (option_or disc maybe_disc_port) in
      quic <-p zero TransportUdp VersionIpv4; let quic_port := default (add_one port) (option_or quic maybe_quic_port) in
      pret (Ok (ListenV4 (mkListenAddr ipv4 disc_port quic_port tcp_port)))
  | (Some ipv4, Some ipv6) =>
      tcp <-p zero TransportTcp VersionIpv4; let ipv4_tcp_port := default port tcp in
      disc <-p zero TransportUdp VersionIpv4; let ipv4_disc_port := default ipv4_tcp_port (option_or disc maybe_disc_port) in
      quic <-p zero TransportUdp VersionIpv4; let ipv4_quic_port := default (add_one port) (option_or quic maybe_quic_port) in
      tcp6 <-p zero TransportTcp VersionIpv6; let ipv6_tcp_port := default port6 tcp6 in
      disc6 <-p zero TransportUdp VersionIpv6; let ipv6_disc_port := default ipv6_tcp_port (option_or disc6 maybe_disc6_port) in
      quic6 <-p zero TransportUdp VersionIpv6;
      let ipv6_quic_port := default (add_one ipv6_tcp_port) (option_or quic6 maybe_quic6_port) in
      pret (Ok (DualStack (mkListenAddr ipv4 ipv4_disc_port ipv4_quic_port ipv4_tcp_port)
                          (mkListenAddr ipv6 ipv6_disc_port ipv6_quic_port ipv6_tcp_port)))
  end.

Definition parse_listening_addresses (m : ArgMatches) : PortM ListenAddress := fun p =>
  listen_addresses_str <-! expect (values_of m "listen-address") "--listen_addresses has a default value";
  let use_zero_ports := is_present m "zero-ports" in
  (ips <-p pret (parse_ips listen_addresses_str None None);
   port_str <-p (fun p => s <-! expect (value_of m "port") "--port has a default value"; Ret (Some (Ok s, p)));
   port <-p pret (result_map_err (fun e => "Failed to parse --port as an integer: " +:+ e) (parse_int u16 port_str));
   port6 <-p pret (result_map (default 9090) (parse_port m "port6" "port6"));
   maybe_disc_port <-p pret (parse_port m "discovery-port" "discovery-port");
   maybe_disc6_port <-p pret (parse_port m "discovery-port6" "discovery-port6");
   maybe_quic_port <-p pret (parse_port m "quic-port" "quic-port");
   maybe_quic6_port <-p pret (parse_port m "quic-port6" "quic6-port");
   choose_ports use_zero_ports ips port port6 maybe_disc_port maybe_disc6_port maybe_quic_port maybe_quic6_port) p.

(** ** The configuration *)

(** [str::parse] of node records and multiaddresses, and the name resolution of
    [ToSocketAddrs]. *)
Class AddrText `{External} := {
  enr_from_str : string -> result Enr string;
  multiaddr_from_str : string -> result Multiaddr string;
  to_socket_addrs : string -> result (list SocketAddr) string;
}.

(** [collect::<Result<Vec<_>, _>>]. *)
Fixpoint try_collect {A B E} (f : A -> result B E) (l : list A) : result (list B) E :=
  match l with
  | [] => Ok []
  | a :: l => b <-? f a; bs <-? try_collect f l; Ok (b :: bs)
  end.

Definition parse_optional {T} (from_str : string -> result T string) (m : ArgMatches) (name : string)
  : result (option T) string :=
  match value_of m name with
  | None => Ok None
  | Some val => result_map Some (result_map_err (fun e => "Unable to parse " +:+ name +:+ ": " +:+ e) (from_str val))
  end.

Section cli.
Context `{External} `{!EnrFields} `{!PeerIdText} `{!AddrText}.

(** Field updates. *)
Definition nc_with_network_dir (x : string) (c : NetworkConfig) : NetworkConfig :=
  let 'mkNetworkConfig _ la ea u4 q4 t4 u6 t6 q6 tp lc tf be bm ln tr ds dd dq up sa nl pr to me ob ib eu pf := c in
  mkNetworkConfig x la ea u4 q4 t4 u6 t6 q6 tp lc tf be bm ln tr ds dd dq up sa nl pr to me ob ib eu pf.
Definition nc_with_enr_address (x : option Z * option Z) (c : NetworkConfig) : NetworkConfig :=
  let 'mkNetworkConfig nd la _ u4 q4 t4 u6 t6 q6 tp lc tf be bm ln tr ds dd dq up sa nl pr to me ob ib eu pf := c in
  mkNetworkConfig nd la x u4 q4 t4 u6 t6 q6 tp lc tf be bm ln tr ds dd dq up sa nl pr to me ob ib eu pf.
Definition nc_with_enr_udp4_port (x : option Z) (c : NetworkConfig) : NetworkConfig :=
  let 'mkNetworkConfig nd la ea _ q4 t4 u6 t6 q6 tp lc tf be bm ln tr ds dd dq up sa nl pr to me ob ib eu pf := c in
  mkNetworkConfig nd la ea x q4 t4 u6 t6 q6 tp lc tf be bm ln tr ds dd dq up sa nl pr to me ob ib eu pf.
Definition nc_with_enr_quic4_port (x : option Z) (c : NetworkConfig) : NetworkConfig :=
  let 'mkNetworkConfig nd la ea u4 _ t4 u6 t6 q6 tp lc tf be bm ln tr ds dd dq up sa nl pr to me ob ib eu pf := c in
  mkNetworkConfig nd la ea u4 x t4 u6 t6 q6 tp lc tf be bm ln tr ds dd dq up sa nl pr to me ob ib eu pf.
Definition nc_with_enr_tcp4_port (x : option Z) (c : NetworkConfig) : NetworkConfig :=
  let 'mkNetworkConfig nd la ea u4 q4 _ u6 t6 q6 tp lc tf be bm ln tr ds dd dq up sa nl pr to me ob ib eu pf := c in
  mkNetworkConfig nd la ea u4 q4 x u6 t6 q6 tp lc tf be bm ln tr ds dd dq up sa nl pr to me ob ib eu pf.
Definition nc_with_enr_udp6_port (x : option Z) (c : NetworkConfig) : NetworkConfig :=
  let 'mkNetworkConfig nd la ea u4 q4 t4 _ t6 q6 tp lc tf be bm ln tr ds dd dq up sa nl pr to me ob ib eu pf := c in
  mkNetworkConfig nd la ea u4 q4 t4 x t6 q6 tp lc tf be bm ln tr ds dd dq up sa nl pr to me ob ib eu pf.
Definition nc_with_enr_tcp6_port (x : option Z) (c : NetworkConfig) : NetworkConfig :=
  let 'mkNetworkConfig nd la ea u4 q4 t4 u6 _ q6 tp lc tf be bm ln tr ds dd dq up sa nl pr to me ob ib eu pf := c in
  mkNetworkConfig nd la ea u4 q4 t4 u6 x q6 tp lc tf be bm ln tr ds dd dq up sa nl pr to me ob ib eu pf.
Definition nc_with_enr_quic6_port (x : option Z) (c : NetworkConfig) : NetworkConfig :=
  let 'mkNetworkConfig nd la ea u4 q4 t4 u6 t6 _ tp lc tf be bm ln tr ds dd dq up sa nl pr to me ob ib eu pf := c in
  mkNetworkConfig nd la ea u4 q4 t4 u6 t6 x tp lc tf be bm ln tr ds dd dq up sa nl pr to me ob ib eu pf.
Definition nc_with_target_peers (x : Z) (c : NetworkConfig) : NetworkConfig :=
  let 'mkNetworkConfig nd la ea u4 q4 t4 u6 t6 q6 _ lc tf be bm ln tr ds dd dq up sa nl pr to me ob ib eu pf := c in
  mkNetworkConfig nd la ea u4 q4 t4 u6 t6 q6 x lc tf be bm ln tr ds dd dq up sa nl pr to me ob ib eu pf.
Definition nc_with_table_filter (x : Enr -> bool) (c : NetworkConfig) : NetworkConfig :=
  let 'mkNetworkConfig nd la ea u4 q4 t4 u6 t6 q6 tp lc _ be bm ln tr ds dd dq up sa nl pr to me ob ib eu pf := c in
  mkNetworkConfig nd la ea u4 q4 t4 u6 t6 q6 tp lc x be bm ln tr ds dd dq up sa nl pr to me ob ib eu pf.
Definition nc_with_boot_nodes_enr (x : list Enr) (c : NetworkConfig) : NetworkConfig :=
  let 'mkNetworkConfig nd la ea u4 q4 t4 u6 t6 q6 tp lc tf _ bm ln tr ds dd dq up sa nl pr to me ob ib eu pf := c in
  mkNetworkConfig nd la ea u4 q4 t4 u6 t6 q6 tp lc tf x bm ln tr ds dd dq up sa nl pr to me ob ib eu pf.
Definition nc_with_boot_nodes_multiaddr (x : list Multiaddr) (c : NetworkConfig) : NetworkConfig :=
  let 'mkNetworkConfig nd la ea u4 q4 t4 u6 t6 q6 tp lc tf be _ ln tr ds dd dq up sa nl pr to me ob ib eu pf := c in
  mkNetworkConfig nd la ea u4 q4 t4 u6 t6 q6 tp lc tf be x ln tr ds dd dq up sa nl pr to me ob ib eu pf.
Definition nc_with_libp2p_nodes (x : list Multiaddr) (c : NetworkConfig) : NetworkConfig :=
  let 'mkNetworkConfig nd la ea u4 q4 t4 u6 t6 q6 tp lc tf be bm _ tr ds dd dq up sa nl pr to me ob ib eu pf := c in
  mkNetworkConfig nd la ea u4 q4 t4 u6 t6 q6 tp lc tf be bm x tr ds dd dq up sa nl pr to me ob ib eu pf.
Definition nc_with_trusted_peers (x : list PeerId) (c : NetworkConfig) : NetworkConfig :=
  let 'mkNetworkConfig nd la ea u4 q4 t4 u6 t6 q6 tp lc tf be bm ln _ ds dd dq up sa nl pr to me ob ib eu pf := c in
  mkNetworkConfig nd la ea u4 q4 t4 u6 t6 q6 tp lc tf be bm ln x ds dd dq up sa nl pr to me ob ib eu pf.
Definition nc_with_disable_peer_scoring (x : bool) (c : NetworkConfig) : NetworkConfig :=
  let 'mkNetworkConfig nd la ea u4 q4 t4 u6 t6 q6 tp lc tf be bm ln tr _ dd dq up sa nl pr to me ob ib eu pf := c in
  mkNetworkConfig nd la ea u4 q4 t4 u6 t6 q6 tp lc tf be bm ln tr x dd dq up sa nl pr to me ob ib eu pf.
Definition nc_with_disable_discovery (x : bool) (c : NetworkConfig) : NetworkConfig :=
  let 'mkNetworkConfig nd la ea u4 q4 t4 u6 t6 q6 tp lc tf be bm ln tr ds _ dq up sa nl pr to me ob ib eu pf := c in
  mkNetworkConfig nd la ea u4 q4 t4 u6 t6 q6 tp lc tf be bm ln tr ds x dq up sa nl pr to me ob ib eu pf.
Definition nc_with_disable_quic_support (x : bool) (c : NetworkConfig) : NetworkConfig :=
  let 'mkNetworkConfig nd la ea u4 q4 t4 u6 t6 q6 tp lc tf be bm ln tr ds dd _ up sa nl pr to me ob ib eu pf := c in
  mkNetworkConfig nd la ea u4 q4 t4 u6 t6 q6 tp lc tf be bm ln tr ds dd x up sa nl pr to me ob ib eu pf.
Definition nc_with_upnp_enabled (x : bool) (c : NetworkConfig) : NetworkConfig :=
  let 'mkNetworkConfig nd la ea u4 q4 t4 u6 t6 q6 tp lc tf be bm ln tr ds dd dq _ sa nl pr to me ob ib eu pf := c in
  mkNetworkConfig nd la ea u4 q4 t4 u6 t6 q6 tp lc tf be bm ln tr ds dd dq x sa nl pr to me ob ib eu pf.
Definition nc_with_subscribe_all_subnets (x : bool) (c : NetworkConfig) : NetworkConfig :=
  let 'mkNetworkConfig nd la ea u4 q4 t4 u6 t6 q6 tp lc tf be bm ln tr ds dd dq up _ nl pr to me ob ib eu pf := c in
  mkNetworkConfig nd la ea u4 q4 t4 u6 t6 q6 tp lc tf be bm ln tr ds dd dq up x nl pr to me ob ib eu pf.
Definition nc_with_network_load (x : Z) (c : NetworkConfig) : NetworkConfig :=
  let 'mkNetworkConfig nd la ea u4 q4 t4 u6 t6 q6 tp lc tf be bm ln tr ds dd dq up sa _ pr to me ob ib eu pf := c in
  mkNetworkConfig nd la ea u4 q4 t4 u6 t6 q6 tp lc tf be bm ln tr ds dd dq up sa x pr to me ob ib eu pf.
Definition nc_with_private (x : bool) (c : NetworkConfig) : NetworkConfig :=
  let 'mkNetworkConfig nd la ea u4 q4 t4 u6 t6 q6 tp lc tf be bm ln tr ds dd dq up sa nl _ to me ob ib eu pf := c in
  mkNetworkConfig nd la ea u4 q4 t4 u6 t6 q6 tp lc tf be bm ln tr ds dd dq up sa nl x to me ob ib eu pf.
Definition nc_with_topics (x : list string) (c : NetworkConfig) : NetworkConfig :=
  let 'mkNetworkConfig nd la ea u4 q4 t4 u6 t6 q6 tp lc tf be bm ln tr ds dd dq up sa nl pr _ me ob ib eu pf := c in
  mkNetworkConfig nd la ea u4 q4 t4 u6 t6 q6 tp lc tf be bm ln tr ds dd dq up sa nl pr x me ob ib eu pf.
Definition nc_with_metrics_enabled (x : bool) (c : NetworkConfig) : NetworkConfig :=
  let 'mkNetworkConfig nd la ea u4 q4 t4 u6 t6 q6 tp lc tf be bm ln tr ds dd dq up sa nl pr to _ ob ib eu pf := c in
  mkNetworkConfig nd la ea u4 q4 t4 u6 t6 q6 tp lc tf be bm ln tr ds dd dq up sa nl pr to x ob ib eu pf.
Definition nc_with_outbound_rate_limiter_config (x : option RateLimiterConfig) (c : NetworkConfig) : NetworkConfig :=
  let 'mkNetworkConfig nd la ea u4 q4 t4 u6 t6 q6 tp lc tf be bm ln tr ds dd dq up sa nl pr to me _ ib eu pf := c in
  mkNetworkConfig nd la ea u4 q4 t4 u6 t6 q6 tp lc tf be bm ln tr ds dd dq up sa nl pr to me x ib eu pf.
Definition nc_with_inbound_rate_limiter_config (x : option RateLimiterConfig) (c : NetworkConfig) : NetworkConfig :=
  let 'mkNetworkConfig nd la ea u4 q4 t4 u6 t6 q6 tp lc tf be bm ln tr ds dd dq up sa nl pr to me ob _ eu pf := c in
  mkNetworkConfig nd la ea u4 q4 t4 u6 t6 q6 tp lc tf be bm ln tr ds dd dq up sa nl pr to me ob x eu pf.
Definition nc_with_discv5_enr_update (x : bool) (c : NetworkConfig) : NetworkConfig :=
  let 'mkNetworkConfig nd la ea u4 q4 t4 u6 t6 q6 tp lc tf be bm ln tr ds dd dq up sa nl pr to me ob ib _ pf := c in
  mkNetworkConfig nd la ea u4 q4 t4 u6 t6 q6 tp lc tf be bm ln tr ds dd dq up sa nl pr to me ob ib x pf.
Definition nc_with_discv5_packet_filter (x : bool) (c : NetworkConfig) : NetworkConfig :=
  let 'mkNetworkConfig nd la ea u4 q4 t4 u6 t6 q6 tp lc tf be bm ln tr ds dd dq up sa nl pr to me ob ib eu _ := c in
  mkNetworkConfig nd la ea u4 q4 t4 u6 t6 q6 tp lc tf be bm ln tr ds dd dq up sa nl pr to me ob ib eu x.

(** [PeerIdSerialized::from_str] and its text in a configuration file. *)
Definition PeerIdSerialized_from_str (s : string) : result PeerId string :=
  result_map_err (fun e => "Invalid peer id: " +:+ e) (peer_id_from_str s).
Definition PeerIdSerialized_serialize (p : PeerId) : string := peer_id_to_string p.
Definition PeerIdSerialized_deserialize (s : string) : result PeerId string :=
  result_map_err (fun e => "Failed to deserialise peer id: " +:+ e) (peer_id_from_str s).

(** The statements of [set_network_config], one by one. *)
Definition set_network_dir (current_dir : result string string) (m : ArgMatches) (c : NetworkConfig)
  : outcome NetworkConfig :=
  match value_of m "network-dir" with
  | Some dir => Ret (nc_with_network_dir dir c)
  | None => dir <-! default_network_dir current_dir; Ret (nc_with_network_dir dir c)
  end.

Definition when (b : bool) (f : NetworkConfig -> NetworkConfig) (c : NetworkConfig) : NetworkConfig :=
  if b then f c else c.

Definition set_target_peers (m : ArgMatches) (c : NetworkConfig) : result NetworkConfig string :=
  match value_of m "target-peers" with
  | Some s => n <-? ok_or (parse_unsigned (int_max usize) s) ("Invalid number of target peers: " +:+ s);
              Ok (nc_with_target_peers n c)
  | None => Ok (nc_with_target_peers 16 c)
  end.

Definition set_network_load (m : ArgMatches) (c : NetworkConfig) : result NetworkConfig string :=
  match value_of m "network-load" with
  | Some s => n <-? ok_or (parse_unsigned (int_max u8) s) ("Invalid integer: " +:+ s); Ok (nc_with_network_load n c)
  | None => Ok c
  end.

(** The loop over the boot nodes. *)
Fixpoint parse_boot_nodes (addrs : list string) (enrs : list Enr) (multiaddrs : list Multiaddr)
  : result (list Enr * list Multiaddr) string :=
  match addrs with
  | [] => Ok (enrs, multiaddrs)
  | addr :: addrs =>
      match enr_from_str addr with
      | Ok enr => parse_boot_nodes addrs (enrs ++ [enr]) multiaddrs
      | Err _ =>
          multi <-? result_map_err (fun _ => "Not valid as ENR nor Multiaddr: " +:+ addr) (multiaddr_from_str addr);
          parse_boot_nodes addrs enrs (multiaddrs ++ [multi])
      end
  end.
Definition set_boot_nodes (m : ArgMatches) (c : NetworkConfig) : result NetworkConfig string :=
  match value_of m "boot-nodes" with
  | Some boot_enr_str =>
      r <-? parse_boot_nodes (split "," boot_enr_str) [] [];
      Ok (nc_with_boot_nodes_multiaddr (snd r) (nc_with_boot_nodes_enr (fst r) c))
  | None => Ok c
  end.

Definition set_libp2p_nodes (m : ArgMatches) (c : NetworkConfig) : result NetworkConfig string :=
  match value_of m "libp2p-addresses" with
  | Some s =>
      nodes <-? try_collect (fun multiaddr =>
        result_map_err (fun _ => "Invalid Multiaddr: " +:+ multiaddr) (multiaddr_from_str multiaddr)) (split "," s);
      Ok (nc_with_libp2p_nodes nodes c)
  | None => Ok c
  end.

Definition set_trusted_peers (m : ArgMatches) (c : NetworkConfig) : result NetworkConfig string :=
  match value_of m "trusted-peers" with
  | Some s =>
      peers <-? try_collect (fun peer_id =>
        result_map_err (fun _ => "Invalid trusted peer id: " +:+ peer_id) (PeerIdSerialized_from_str peer_id)) (split "," s);
      Ok (nc_with_trusted_peers peers c)
  | None => Ok c
  end.

(** The six ports of the local record. *)
Definition set_enr_port (name what : string) (set : option Z -> NetworkConfig -> NetworkConfig) (m : ArgMatches)
    (c : NetworkConfig) : result NetworkConfig string :=
  match value_of m name with
  | Some s => n <-? ok_or (parse_unsigned (int_max u16) s) ("Invalid " +:+ what +:+ " port: " +:+ s); Ok (set (Some n) c)
  | None => Ok c
  end.
Definition set_enr_ports (m : ArgMatches) (c : NetworkConfig) : result NetworkConfig string :=
  c <-? set_enr_port "enr-udp-port" "discovery" nc_with_enr_udp4_port m c;
  c <-? set_enr_port "enr-quic-port" "quic" nc_with_enr_quic4_port m c;
  c <-? set_enr_port "enr-tcp-port" "ENR TCP" nc_with_enr_tcp4_port m c;
  c <-? set_enr_port "enr-udp6-port" "discovery" nc_with_enr_udp6_port m c;
  c <-? set_enr_port "enr-quic6-port" "quic" nc_with_enr_quic6_port m c;
  set_enr_port "enr-tcp6-port" "ENR TCP" nc_with_enr_tcp6_port m c.

(** [UNSPECIFIED] becomes [LOCALHOST]. *)
Definition enr_match_address (localhost a : Z) : Z := if a =? 0 then localhost else a.
Definition set_enr_match (c : NetworkConfig) : NetworkConfig :=
  let c := match listen_v4 (listen_addresses c) with
           | Some l => nc_with_enr_udp4_port (Some (disc_port l))
                         (nc_with_enr_address (Some (enr_match_address 0x7f000001 (addr l)), snd (enr_address c)) c)
           | None => c
           end in
  match listen_v6 (listen_addresses c) with
  | Some l => nc_with_enr_udp6_port (Some (disc_port l))
                (nc_with_enr_address (fst (enr_address c), Some (enr_match_address 1 (addr l))) c)
  | None => c
  end.

(** The addresses given and those resolved, each the first of its family. *)
Record EnrIps : Type := mkEnrIps {
  ip4_given : option Z; ip6_given : option Z; ip4_resolved : option Z; ip6_resolved : option Z;
}.

Definition resolution_port (l : ListenAddress) : Z :=
  match l with ListenV4 v4_addr => disc_port v4_addr | ListenV6 v6_addr => disc_port v6_addr | DualStack v4_addr _ => disc_port v4_addr end.

Definition add_resolved (ips : EnrIps) (s : SocketAddr) : EnrIps :=
  let 'mkEnrIps g4 g6 r4 r6 := ips in
  match sock_ip s with
  | V4 a => mkEnrIps g4 g6 (option_or r4 (Some a)) r6
  | V6 a => mkEnrIps g4 g6 r4 (option_or r6 (Some a))
  end.

Fixpoint parse_enr_addresses (l : ListenAddress) (addrs : list string) (ips : EnrIps) : result EnrIps string :=
  match addrs with
  | [] => Ok ips
  | addr :: addrs =>
      let 'mkEnrIps g4 g6 r4 r6 := ips in
      match IpAddr_from_str addr with
      | Some (V4 a) => parse_enr_addresses l addrs (mkEnrIps (option_or g4 (Some a)) g6 r4 r6)
      | Some (V6 a) => parse_enr_addresses l addrs (mkEnrIps g4 (option_or g6 (Some a)) r4 r6)
      | None =>
          match to_socket_addrs (addr +:+ ":" +:+ dec (resolution_port l)) with
          | Err _ => Err ("Failed to parse or resolve address " +:+ addr +:+ ".")
          | Ok resolved => parse_enr_addresses l addrs (fold_left add_resolved resolved ips)
          end
      end
  end.

Definition is_some {A} (o : option A) : bool := match o with Some _ => true | None => false end.

Definition set_enr_address (m : ArgMatches) (c : NetworkConfig) : result NetworkConfig string :=
  match values_of m "enr-address" with
  | None => Ok c
  | Some enr_addresses =>
      ips <-? parse_enr_addresses (listen_addresses c) enr_addresses (mkEnrIps None None None None);
      let used_host_resolution := is_some (ip4_resolved ips) || is_some (ip6_resolved ips) in
      let ip4 := option_or (ip4_given ips) (ip4_resolved ips) in
      let ip6 := option_or (ip6_given ips) (ip6_resolved ips) in
      Ok (when used_host_resolution (nc_with_discv5_enr_update false) (nc_with_enr_address (ip4, ip6) c))
  end.

(** The flags between the addresses and the rate limiters. *)
Definition set_flags (m : ArgMatches) (c : NetworkConfig) : NetworkConfig :=
  let c := when (is_present m "disable-enr-auto-update") (nc_with_discv5_enr_update false) c in
  let c := when (is_present m "disable-packet-filter") (nc_with_discv5_packet_filter false) c in
  let c := when (is_present m "disable-discovery") (nc_with_disable_discovery true) c in
  let c := when (is_present m "disable-quic") (nc_with_disable_quic_support true) c in
  let c := when (is_present m "disable-upnp") (nc_with_upnp_enabled false) c in
  let c := when (is_present m "private") (nc_with_private true) c in
  let c := when (is_present m "metrics") (nc_with_metrics_enabled true) c in
  when (is_present m "enable-private-discovery") (nc_with_table_filter (fun _ => true)) c.

Definition set_rate_limiters (m : ArgMatches) (c : NetworkConfig) : result NetworkConfig string :=
  outbound <-? parse_optional RateLimiterConfig_from_str m "self-limiter";
  let outbound := if is_present m "self-limiter" && negb (is_some outbound) then Some RateLimiterConfig_default else outbound in
  let c := nc_with_outbound_rate_limiter_config outbound c in
  inbound <-? match value_of m "inbound-rate-limiter" with
              | None => Ok (Some RateLimiterConfig_default)
              | Some config_str =>
                  if String.eqb config_str "disabled" then Ok None
                  else result_map Some (RateLimiterConfig_from_str config_str)
              end;
  Ok (nc_with_inbound_rate_limiter_config inbound c).

(** What follows the listening addresses. *)
Definition set_rest (m : ArgMatches) (c : NetworkConfig) : result NetworkConfig string :=
  c <-? set_target_peers m c;
  c <-? set_network_load m c;
  c <-? set_boot_nodes m c;
  c <-? set_libp2p_nodes m c;
  let c := when (is_present m "disable-peer-scoring") (nc_with_disable_peer_scoring true) c in
  c <-? set_trusted_peers m c;
  c <-? set_enr_ports m c;
  let c := when (is_present m "enr-match") set_enr_match c in
  c <-? set_enr_address m c;
  let c := set_flags m c in
  set_rate_limiters m c.

Definition set_network_config (current_dir : result string string) (m : ArgMatches) (c : NetworkConfig)
  : PortM NetworkConfig := fun p =>
  c <-! set_network_dir current_dir m c;
  let c := when (is_present m "subscribe-all-subnets") (nc_with_subscribe_all_subnets true) c in
  (l <-p parse_listening_addresses m;
   pret (set_rest m (set_listening_addr l c))) p.

(** [main], up to the configuration the network service is started with. The current
    directory is asked for by [NetworkConfig::default] and again by [set_network_config]. *)
Definition main_config (default_dir current_dir : result string string) (m : ArgMatches) (p : PortSource)
  : outcome (option (NetworkConfig * PortSource)) :=
  topics_str <-! expect (values_of m "p2p-mempool-topic-hashes")
    "--p2p-mempool-topic-hashes List of topics hashes to initially subscribe to as strings.";
  config <-! NetworkConfig_default default_dir;
  r <-! set_network_config current_dir m config p;
  match r with
  | None => Ret None
  | Some (Err e, _) => Panic e
  | Some (Ok c, p) => Ret (Some (nc_with_topics (topics c ++ topics_str) c, p))
  end.
End cli.
