(* ===== verification/CliProps.v ===== *)
(** * The command line: theorems

    The listening addresses are those of a reference definition written from the help texts, except
    where the port after the last one is asked for; the ports found by the operating system are
    distinct; which command lines start a node; what the flags of the rate limiters and of the
    node's record mean; and which flags the code asks for but nobody can give. *)

From Stdlib Require Import Ascii String.
From S2P Require Import Prelude RustStr External RpcTypes LruTimeCache RateLimiter RpcConfig NetConfig.
From S2P Require Import EnrRecords Manager ManagerProps IpText UnusedPort Cli.

(** ** Numbers *)

Lemma char_digit_range c d : char_digit c = Some d -> 0 <= d.
Proof. unfold char_digit. repeat case_match; intros [= <-]; bool_hyps; lia. Qed.

Lemma parse_digits_range max s : forall acc n, 0 <= acc <= max -> parse_digits max s acc = Some n -> 0 <= n <= max.
Proof.
  induction s as [|c s IH]; intros acc n Ha; cbn; [by intros [= <-]|].
  destruct (char_digit c) as [d|] eqn:Hd; [|done]. apply char_digit_range in Hd.
  destruct (Z.leb_spec (acc * 10 + d) max); [|done]. apply IH. lia.
Qed.

Lemma parse_unsigned_range max s n : 0 <= max -> parse_unsigned max s = Some n -> 0 <= n <= max.
Proof.
  intros Hm. unfold parse_unsigned. assert (0 <= 0 <= max) as H0 by lia.
  repeat case_match; try done; by apply parse_digits_range.
Qed.

Definition is_u16 (port : Z) : Prop := 0 <= port <= 65535.

Lemma parse_u16_range s n : parse_unsigned (int_max u16) s = Some n -> is_u16 n.
Proof. intros Hp. by apply parse_unsigned_range in Hp. Qed.

Lemma add_one_range port : is_u16 (add_one port).
Proof. pose proof (wrap_in_range u16 (port + 1) ltac:(done)) as Hw. by apply in_range_spec in Hw. Qed.
#[local] Hint Resolve add_one_range parse_u16_range : core.

(** ** Ports of the operating system *)

(** Every port offered is a port. *)
Definition offers_typed (offers : list (list BindAttempt)) : Prop :=
  Forall (Forall (fun a => forall port, ba_local_port a = Ok port -> is_u16 port)) offers.

(** The clock goes on from [t] up to [last] through all calls. *)
Fixpoint offers_ok (t : Instant) (offers : list (list BindAttempt)) (last : Instant) : Prop :=
  match offers with
  | [] => t <= last
  | attempts :: offers => exists t', attempts_ok t attempts t' /\ offers_ok t' offers last
  end.

(** A source of ports in the course of a run of at most five minutes that has returned the ports [used]. *)
Definition source_ok (used : list Z) (p : PortSource) : Prop :=
  exists t0 t last, t0 <= t /\ last < t0 + CACHED_PORTS_TTL /\ lru_ttl (ps_cache p) = CACHED_PORTS_TTL /\
    lru_inv t (ps_cache p) /\ kept t0 used (ps_cache p) /\ offers_ok t (ps_offers p) last /\ offers_typed (ps_offers p).

(** A new process. *)
Definition fresh_source (offers : list (list BindAttempt)) : PortSource := mkPortSource offers (lru_new CACHED_PORTS_TTL).

Lemma fresh_source_ok offers t last : offers_ok t offers last -> last < t + CACHED_PORTS_TTL -> offers_typed offers ->
  source_ok [] (fresh_source offers).
Proof.
  intros Ho Hl Ht. exists t, t, last. split_and!; [lia|done|done| |by intros ? ?%not_elem_of_nil|done|done].
  change t with (fst (t, lru_new (Key := Z) CACHED_PORTS_TTL)). apply (lru_reachable_inv CACHED_PORTS_TTL (t, _)).
  by exists t.
Qed.

(** What holds of the result and the source after a computation that starts in a state of [P]; that
    it does not panic is part of it. *)
Definition port_post {A} (P : PortSource -> Prop) (e : PortM A) (Q : A -> PortSource -> Prop) : Prop :=
  forall p, P p -> match e p with Ret (Some (Ok a, p')) => Q a p' | Ret _ => True | Panic _ => False end.

Lemma post_bind {A B} P (e : PortM A) (k : A -> PortM B) R Q :
  port_post P e R -> (forall a, port_post (R a) (k a) Q) -> port_post P (pbind e k) Q.
Proof.
  intros He Hk p Hp. unfold pbind. specialize (He p Hp).
  destruct (e p) as [ [ [ [a|err] p']|]|]; [|done..]. exact (Hk a p' He).
Qed.

Lemma post_ret {A} (P : PortSource -> Prop) (r : result A string) (Q : A -> PortSource -> Prop) :
  (forall a p, r = Ok a -> P p -> Q a p) -> port_post P (pret r) Q.
Proof. intros Hr p Hp. cbn. destruct r as [a|]; [by apply Hr|done]. Qed.

Lemma zero_port_offered transport sock attempts : forall c o c', zero_port_loop transport sock attempts c = Ret (o, c') ->
  Forall (fun a => forall port, ba_local_port a = Ok port -> is_u16 port) attempts ->
  match o with Some (Ok port) => is_u16 port | _ => True end.
Proof.
  induction attempts as [|a attempts IH]; intros c o c'; cbn [zero_port_loop]; [by intros [= <- <-]|].
  intros Hz [Ha Hf]%Forall_cons. destruct (find_unused_port transport sock a) as [port|e] eqn:Ef.
  2: { by injection Hz as <- <-. }
  destruct (lru_contains (ba_contains a) port c) as [c1 cached]. destruct cached; cbn [negb] in Hz; [by eapply IH|].
  destruct (lru_insert (ba_purge a) (ba_insert a) port c1) as [r|]; [|done]. injection Hz as <- <-. apply Ha.
  revert Ef. unfold find_unused_port. destruct transport, (ba_bind a sock), (ba_local_port a); cbn; congruence.
Qed.

Lemma post_then_port zero transport ipv used :
  port_post (source_ok used) (then_port zero transport ipv) (fun o p =>
    if zero then exists port, o = Some port /\ is_u16 port /\ port ∉ used /\ source_ok (port :: used) p
    else o = None /\ source_ok used p).
Proof.
  intros [offers cache] Hp. unfold then_port. destruct zero; [|done]. cbn [ps_offers ps_cache].
  destruct Hp as (t0 & t & last & Ht0 & Hlast & Httl & Hi & Hk & Ho & Hty). cbn in *.
  destruct offers as [|attempts offers]; [done|].
  destruct Ho as (t' & Ha & Ho). apply Forall_cons in Hty as [Hta Hty].
  assert (t' <= last) as Ht'.
  { clear -Ho. revert t' Ho. induction offers as [|x offers IH]; intros t' Ho; [done|].
    destruct Ho as (t2 & ?%attempts_le & ?%IH). lia. }
  unfold zero_port. set (sock := mkSocketAddr _ 0).
  destruct (zero_port_fresh transport sock t0 attempts t t' used cache Hi Hk Ha ltac:(lia) Ht0)
    as (o & c' & Hz & Hi' & Httl' & Hpost). pose proof (zero_port_offered _ _ _ _ _ _ Hz Hta) as Hu.
  rewrite Hz. cbn [fst snd]. destruct o as [ [port|e]|]; [|done..]. destruct Hpost as [Hnew Hk'].
  cbn [result_map]. exists port. split_and!; [done..|]. exists t0, t', last. pose proof (attempts_le _ _ _ Ha).
  split_and!; [lia|lia|cbn; congruence|done|done|done|done].
Qed.

(** ** Listening addresses *)

Definition listen_ports (l : ListenAddress) : list Z :=
  let ports a := [tcp_port a; disc_port a; quic_port a] in
  match l with ListenV4 a | ListenV6 a => ports a | DualStack a b => ports a ++ ports b end.
Definition listen_typed (l : ListenAddress) : Prop :=
  Forall is_u16 (listen_ports l) /\
  match l with
  | ListenV4 a => ip_in_range (V4 (addr a))
  | ListenV6 a => ip_in_range (V6 (addr a))
  | DualStack a b => ip_in_range (V4 (addr a)) /\ ip_in_range (V6 (addr b))
  end.

Definition option_all {A} (P : A -> Prop) (o : option A) : Prop := match o with Some a => P a | None => True end.

Lemma default_u16 d o : is_u16 d -> option_all is_u16 o -> is_u16 (default d o).
Proof. by destruct o. Qed.
Lemma option_or_all {A} (P : A -> Prop) o o' : option_all P o -> option_all P o' -> option_all P (option_or o o').
Proof. by destruct o. Qed.
#[local] Hint Resolve default_u16 option_or_all : core.

Lemma parse_ips_typed addrs : forall a4 a6 r,
  option_all (fun a => ip_in_range (V4 a)) a4 -> option_all (fun a => ip_in_range (V6 a)) a6 ->
  parse_ips addrs a4 a6 = Ok r ->
  option_all (fun a => ip_in_range (V4 a)) (fst r) /\ option_all (fun a => ip_in_range (V6 a)) (snd r).
Proof.
  induction addrs as [|s addrs IH]; intros a4 a6 r H4 H6; cbn; [by intros [= <-]|].
  destruct (IpAddr_from_str s) as [ [a|a]|] eqn:E; [..|done]; apply IpAddr_from_str_range in E.
  - destruct a4; [done|]. by apply IH.
  - destruct a6; [done|]. by apply IH.
Qed.

(** What a run of [choose_ports] promises, with ports of the operating system or without. *)
Definition listen_post (zero : bool) (l : ListenAddress) : Prop :=
  listen_typed l /\ (zero = true -> NoDup (listen_ports l)).

Lemma choose_ports_typed (zero : bool) ips port port6 d d6 q q6 :
  option_all (fun a => ip_in_range (V4 a)) (fst ips) -> option_all (fun a => ip_in_range (V6 a)) (snd ips) ->
  is_u16 port -> is_u16 port6 -> option_all is_u16 d -> option_all is_u16 d6 -> option_all is_u16 q -> option_all is_u16 q6 ->
  port_post (source_ok []) (choose_ports zero ips port port6 d d6 q q6) (fun l _ => listen_post zero l).
Proof.
  intros H4 H6 Hp Hp6 Hd Hd6 Hq Hq6. unfold choose_ports.
  assert (forall B used transport ipv (k : option Z -> PortM B) (Q : B -> PortSource -> Prop),
    (forall o, (if zero then exists port, o = Some port /\ is_u16 port /\ port ∉ used
                else o = None) ->
       port_post (source_ok (option_list o ++ used)) (k o) Q) ->
    port_post (source_ok used) (pbind (then_port zero transport ipv) k) Q) as step.
  { intros B used transport ipv k Q Hk. eapply post_bind; [apply post_then_port|]. intros o p Ho.
    destruct zero.
    - destruct Ho as (x & -> & ? & ? & ?). apply (Hk (Some x)); [eauto|done].
    - destruct Ho as [-> Ho]. by apply (Hk None). }
  destruct ips as [ [a4|] [a6|] ]; cbn in H4, H6; [| | |by apply post_ret].
  all: repeat (apply step; intros ? ?; cbn [option_list app]).
  all: apply post_ret; intros l p [= <-] _; unfold listen_post, listen_typed; cbn [listen_ports addr tcp_port disc_port quic_port app].
  all: destruct zero; destruct_and?; [
    repeat match goal with H : exists _, _ |- _ => destruct H as (? & -> & ? & ?) end; cbn [default option_or option_list app] in *|
    subst; cbn [default option_or] ].
  all: split; [split; [repeat (apply Forall_cons_2; [eauto 6|]); apply Forall_nil_2|done]|].
  all: intros [=]; unfold id; rewrite !NoDup_cons; split_and!; try apply NoDup_nil_2; set_solver.
Qed.

(** ** Matches of the declared arguments *)

Definition declared (name : string) : bool := existsb (fun a => String.eqb (arg_name a) name) cli_app.

Lemma matches_undeclared given m name : get_matches cli_app given m -> declared name = false -> m !! name = None.
Proof.
  intros Hm Hd. apply (gm_undeclared _ _ _ Hm). intros a Ha He.
  assert (declared name = true) as Ht; [|congruence]. unfold declared. apply existsb_exists. exists a.
  split; [by apply list_elem_of_In|]. by apply String.eqb_eq.
Qed.

(** An argument with a default value is present with a value. *)
Lemma matches_default given m a d : get_matches cli_app given m -> a ∈ cli_app -> arg_default a = Some d ->
  arg_takes_value a = true -> arg_min_values a = None -> (forall b, b ∈ cli_app -> arg_name b = arg_name a -> b = a) ->
  exists v vs, m !! arg_name a = Some (v :: vs).
Proof.
  intros Hm Ha Hd Ht Hmin Hu. destruct (given !! arg_name a) as [vs|] eqn:Hg.
  - rewrite (gm_given _ _ _ Hm _ _ Hg). destruct (gm_declared _ _ _ Hm _ _ Hg) as (b & Hb & Hn & Hv).
    rewrite (Hu b Hb Hn) in Hv. unfold arg_values_ok in Hv. rewrite Ht, Hmin in Hv. cbn in Hv.
    destruct vs as [|v vs]; [cbn in Hv; lia|eauto].
  - rewrite (gm_default _ _ _ Hm a Ha Hg), Hd. cbn. eauto.
Qed.

(** No two arguments have one name. *)
Lemma cli_names_unique a b : a ∈ cli_app -> b ∈ cli_app -> arg_name a = arg_name b -> a = b.
Proof.
  intros Ha Hb He.
  assert (NoDup (arg_name <$> cli_app)) as Hnd by (apply (bool_decide_unpack _); vm_compute; done).
  apply list_elem_of_lookup in Ha as [i Hi], Hb as [j Hj].
  assert (i = j) as ->; [|congruence]. eapply NoDup_lookup; [exact Hnd|..]; rewrite list_lookup_fmap, ?Hi, ?Hj; cbn; [done|by rewrite He].
Qed.

(** The two arguments the code cannot do without. *)
Definition required_present (m : gmap string (list string)) : Prop :=
  (exists vs, m !! "listen-address" = Some vs) /\ exists v vs, m !! "port" = Some (v :: vs).

Lemma matches_required given m : get_matches cli_app given m -> required_present m.
Proof.
  intros Hm. split.
  - destruct (matches_default given m (mkArg "listen-address" true true None (Some 2%nat) (Some "0.0.0.0"%string)) "0.0.0.0" Hm)
      as (v & vs & Hv); [|done..| |eauto]; [set_solver|]. intros b Hb He. by apply cli_names_unique; [|set_solver|].
  - destruct (matches_default given m (opt_default "port" "9000") "9000" Hm) as (v & vs & Hv); [|done..| |eauto]; [set_solver|].
    intros b Hb He. by apply cli_names_unique; [|set_solver|].
Qed.

Lemma parse_port_typed m name flag o : parse_port m name flag = Ok o -> option_all is_u16 o.
Proof.
  unfold parse_port, parse_int. destruct (value_of m name) as [s|]; [|by intros [= <-]].
  destruct (parse_unsigned (int_max u16) s) as [n|] eqn:E; cbn [ok_or result_map_err result_map]; [|done].
  intros [= <-]. cbn. eauto.
Qed.

Lemma parse_listening_post m : required_present m ->
  port_post (source_ok []) (parse_listening_addresses m) (fun l _ => listen_post (is_present m "zero-ports") l).
Proof.
  intros [ [addrs Ha] (port_s & vs & Hport)] p Hp. unfold parse_listening_addresses, values_of, value_of. rewrite Ha. cbn [expect].
  revert p Hp. apply (post_bind _ _ _ (fun ips p => source_ok [] p /\ option_all (fun a => ip_in_range (V4 a)) (fst ips) /\
    option_all (fun a => ip_in_range (V6 a)) (snd ips))).
  { apply post_ret. intros ips p Hips Hp. split; [done|]. by apply (parse_ips_typed addrs None None). }
  intros ips p (Hp & H4 & H6). rewrite Hport. cbn [expect]. revert p Hp.
  apply (post_bind _ _ _ (fun s => source_ok [])); [by intros p Hp|]. intros s.
  apply (post_bind _ _ _ (fun n p => source_ok [] p /\ is_u16 n)).
  { apply post_ret. intros n p Hn Hp. split; [done|]. revert Hn. unfold parse_int.
    destruct (parse_unsigned (int_max u16) s) eqn:E; cbn; [|done]. intros [= <-]. eauto. }
  intros port p [Hp Hu]. revert p Hp. apply (post_bind _ _ _ (fun n p => source_ok [] p /\ is_u16 n)).
  { apply post_ret. intros n p Hn Hp. split; [done|]. destruct (parse_port m "port6" "port6") eqn:E; cbn in Hn; [|done].
    injection Hn as <-. apply default_u16; [done|]. by eapply parse_port_typed. }
  intros port6 p [Hp Hu6]. revert p Hp.
  do 4 (eapply post_bind; [apply (post_ret _ _ (fun o p => source_ok [] p /\ option_all is_u16 o));
    intros o p Ho Hp; split; [exact Hp|by eapply parse_port_typed]|]; intros ? p [Hp ?]; revert p Hp).
  by apply choose_ports_typed.
Qed.

(** ** The listening addresses of a command line, from the help texts *)

Definition v4_of (ip : IpAddr) : option Z := match ip with V4 a => Some a | V6 _ => None end.
Definition v6_of (ip : IpAddr) : option Z := match ip with V6 a => Some a | V4 _ => None end.

(** The value of an argument that is a port: nothing if it is malformed. *)
Definition port_flag (m : gmap string (list string)) (name : string) : option (option Z) :=
  match value_of m name with None => Some None | Some s => option_map Some (parse_unsigned (int_max u16) s) end.

(** The TCP port, the discovery port (the TCP port if not given) and the QUIC port (the value of the TCP port + 1 if
    not given). *)
Definition family (port : Z) (disc quic : option Z) (a : Z) : ListenAddr :=
  mkListenAddr a (default port disc) (default (port + 1) quic) port.

(** At most one address of each family; with one address the flags without a 6 are its ports, whatever its family. *)
Definition listen_reference (m : gmap string (list string)) : option ListenAddress :=
  ips ← values_of m "listen-address" ≫= mapM IpAddr_from_str;
  port ← value_of m "port" ≫= parse_unsigned (int_max u16);
  port6 ← port_flag m "port6"; disc ← port_flag m "discovery-port"; disc6 ← port_flag m "discovery-port6";
  quic ← port_flag m "quic-port"; quic6 ← port_flag m "quic-port6";
  match omap v4_of ips, omap v6_of ips with
  | [a], [] => Some (ListenV4 (family port disc quic a))
  | [], [b] => Some (ListenV6 (family port disc quic b))
  | [a], [b] => Some (DualStack (family port disc quic a) (family (default 9090 port6) disc6 quic6 b))
  | _, _ => None
  end.

(** What the code makes of it: the port after 65535 does not exist, and the addition wraps to 0. *)
Definition quic_overflow (a : ListenAddr) : ListenAddr :=
  mkListenAddr (addr a) (disc_port a) (if quic_port a =? 65536 then 0 else quic_port a) (tcp_port a).
Definition listen_overflow (l : ListenAddress) : ListenAddress :=
  match l with
  | ListenV4 a => ListenV4 (quic_overflow a)
  | ListenV6 a => ListenV6 (quic_overflow a)
  | DualStack a b => DualStack (quic_overflow a) (quic_overflow b)
  end.

Lemma listen_overflow_id l : Forall is_u16 (listen_ports l) -> listen_overflow l = l.
Proof.
  assert (forall a, is_u16 (quic_port a) -> quic_overflow a = a) as Hq.
  { intros [] Hp. unfold quic_overflow, is_u16 in *. cbn in *. destruct (Z.eqb_spec quic_port 65536); [lia|done]. }
  destruct l; cbn; rewrite !Forall_cons; intros; destruct_and?; by rewrite !Hq.
Qed.

Lemma add_one_next port : is_u16 port -> add_one port = if port + 1 =? 65536 then 0 else port + 1.
Proof.
  unfold is_u16, add_one. intros Hp. destruct (Z.eqb_spec (port + 1) 65536) as [->|]; [done|].
  apply wrap_id; [done|]. apply in_range_spec. unfold int_min, int_max; cbn [signed bits u16]. lia.
Qed.

Lemma family_overflow port disc quic a : is_u16 port -> option_all is_u16 quic ->
  mkListenAddr a (default port disc) (default (add_one port) quic) port = quic_overflow (family port disc quic a).
Proof.
  intros Hp Hq. unfold quic_overflow, family. cbn [addr disc_port quic_port tcp_port]. f_equal.
  destruct quic as [q|]; cbn [default]; [|by apply add_one_next].
  cbn in Hq. unfold is_u16 in Hq. unfold id. destruct (Z.eqb_spec q 65536); [lia|done].
Qed.

Definition result_ok {A E} (r : result A E) : option A := match r with Ok a => Some a | Err _ => None end.

Lemma parse_ips_spec addrs : forall a4 a6,
  match parse_ips addrs a4 a6, mapM IpAddr_from_str addrs with
  | Ok r, Some ips => option_list (fst r) = option_list a4 ++ omap v4_of ips /\ option_list (snd r) = option_list a6 ++ omap v6_of ips
  | Ok r, None => False
  | Err _, Some ips => (1 < length (option_list a4 ++ omap v4_of ips))%nat \/ (1 < length (option_list a6 ++ omap v6_of ips))%nat
  | Err _, None => True
  end.
Proof.
  induction addrs as [|s addrs IH]; intros a4 a6; cbn; [by rewrite !app_nil_r|].
  destruct (IpAddr_from_str s) as [ [a|a]|]; cbn [mbind option_bind].
  - destruct a4 as [x|].
    + destruct (mapM IpAddr_from_str addrs) as [ips|]; cbn; [left; lia|done].
    + specialize (IH (Some a) a6). by destruct (parse_ips addrs (Some a) a6), (mapM IpAddr_from_str addrs).
  - destruct a6 as [x|].
    + destruct (mapM IpAddr_from_str addrs) as [ips|]; cbn; [right; lia|done].
    + specialize (IH a4 (Some a)). by destruct (parse_ips addrs a4 (Some a)), (mapM IpAddr_from_str addrs).
  - done.
Qed.

Lemma parse_port_flag m name flag : result_ok (parse_port m name flag) = port_flag m name.
Proof.
  unfold parse_port, port_flag, parse_int. destruct (value_of m name) as [s|]; [|done].
  by destruct (parse_unsigned (int_max u16) s).
Qed.

Lemma choose_ports_pure ips port port6 d d6 q q6 p :
  is_u16 port -> is_u16 port6 -> option_all is_u16 q -> option_all is_u16 q6 ->
  choose_ports false ips port port6 d d6 q q6 p = Ret (Some (match ips with
  | (None, None) => Err "No listening addresses provided"%string
  | (None, Some b) => Ok (listen_overflow (ListenV6 (family port d q b)))
  | (Some a, None) => Ok (listen_overflow (ListenV4 (family port d q a)))
  | (Some a, Some b) => Ok (listen_overflow (DualStack (family port d q a) (family port6 d6 q6 b)))
  end, p)).
Proof. intros. destruct ips as [ [a|] [b|] ]; cbn [listen_overflow]; rewrite <- ?family_overflow by done; done. Qed.

Lemma pbind_pret {A B} (r : result A string) (k : A -> PortM B) p :
  pbind (pret r) k p = match r with Ok a => k a p | Err e => Ret (Some (Err e, p)) end.
Proof. by destruct r. Qed.

Lemma option_map_None {A B} (f : A -> B) (o : option A) : o = None -> option_map f o = None.
Proof. by intros ->. Qed.

Lemma bind_None_all {A B} (o : option A) (k : A -> option B) : (forall a, k a = None) -> o ≫= k = None.
Proof. intros Hk. by destruct o; cbn. Qed.

Lemma parse_listening_reference given m p :
  get_matches cli_app given m -> given !! "zero-ports" = None ->
  exists r, parse_listening_addresses m p = Ret (Some (r, p)) /\
    result_ok r = option_map listen_overflow (listen_reference m).
Proof.
  intros Hm Hz. destruct (matches_required given m Hm) as [ [addrs Ha] (port_s & vs & Hport)].
  assert (is_present m "zero-ports" = false) as Hzp.
  { unfold is_present. pose proof (gm_default _ _ _ Hm (flag "zero-ports") ltac:(set_solver) Hz) as Hd. cbn in Hd. by rewrite Hd. }
  assert (value_of m "port" = Some port_s) as Hv by (unfold value_of; by rewrite Hport).
  unfold parse_listening_addresses, listen_reference, values_of. rewrite Ha, Hzp, Hv. cbn [expect mbind option_bind].
  rewrite pbind_pret. pose proof (parse_ips_spec addrs None None) as Hips. cbn [option_list app] in Hips.
  destruct (parse_ips addrs None None) as [ [i4 i6]|e].
  2: { eexists. split; [done|]. destruct (mapM IpAddr_from_str addrs) as [ips|]; [|done].
    cbn [mbind option_bind result_ok]. symmetry. apply option_map_None. do 6 (apply bind_None_all; intros ?).
    destruct (omap v4_of ips) as [|? [|? ?]], (omap v6_of ips) as [|? [|? ?]]; cbn in Hips; (done || lia). }
  destruct (mapM IpAddr_from_str addrs) as [ips|]; [|done]. cbn [mbind option_bind fst snd] in *.
  unfold pbind at 1. rewrite pbind_pret. unfold parse_int at 1.
  destruct (parse_unsigned (int_max u16) port_s) as [port|] eqn:Eport; cbn [ok_or result_map_err mbind option_bind]; [|by eexists].
  rewrite pbind_pret, <- (parse_port_flag m "port6" "port6"). destruct (parse_port m "port6" "port6") as [port6|] eqn:Eport6;
    cbn [result_map result_ok mbind option_bind]; [|by eexists].
  rewrite pbind_pret, <- (parse_port_flag m "discovery-port" "discovery-port"), <- (parse_port_flag m "discovery-port6" "discovery-port6"),
    <- (parse_port_flag m "quic-port" "quic-port"), <- (parse_port_flag m "quic-port6" "quic6-port").
  do 4 (match goal with |- context [parse_port m ?n ?f] => destruct (parse_port m n f) as [?|] eqn:? end;
    cbn [result_ok mbind option_bind]; rewrite ?pbind_pret;
    [|eexists; split; [done|]; cbn [result_ok]; symmetry; apply option_map_None;
      repeat (apply bind_None_all; intros ?); done]).
  rewrite choose_ports_pure; [|by eapply parse_u16_range|apply default_u16; [done|]|..];
    [|by eapply parse_port_typed..]. eexists. split; [done|]. destruct Hips as [H4 H6]. cbn in H4, H6. rewrite <- H4, <- H6. by destruct i4, i6.
Qed.

(** C30: Without [--zero-ports], the listening addresses of every accepted command line are those the help texts
    describe, as long as every port is at most 65535: they exist exactly when every address and port is well
    formed and no family has two addresses, a single address has the ports of the flags without a 6, and two have
    each those of its family, in whichever order they were given; the QUIC port defaults to the TCP port + 1.
    For TCP port 65535 that is no port, and the code uses port 0 instead. No port is asked for. *)
Theorem listening_addresses_reference given m p :
  get_matches cli_app given m -> given !! "zero-ports" = None ->
  exists r, parse_listening_addresses m p = Ret (Some (r, p)) /\
    result_ok r = option_map listen_overflow (listen_reference m) /\
    (forall l, listen_reference m = Some l -> Forall is_u16 (listen_ports l) -> result_ok r = Some l).
Proof.
  intros Hm Hz. destruct (parse_listening_reference given m p Hm Hz) as (r & Hr & Hl). exists r. split_and!; [done..|].
  intros l Href Hp. by rewrite Hl, Href; cbn; rewrite listen_overflow_id.
Qed.

(** ** The configuration *)

Section config.
Context `{External} `{!EnrFields} `{!PeerIdText} `{!AddrText}.

(** A property of configurations that each statement of [set_rest] keeps holds at its end. *)
Lemma set_rest_ind (P : NetworkConfig -> Prop) m c c' : set_rest m c = Ok c' -> P c ->
  (forall c c', set_target_peers m c = Ok c' -> P c -> P c') -> (forall c c', set_network_load m c = Ok c' -> P c -> P c') ->
  (forall c c', set_boot_nodes m c = Ok c' -> P c -> P c') -> (forall c c', set_libp2p_nodes m c = Ok c' -> P c -> P c') ->
  (forall b c, P c -> P (when b (nc_with_disable_peer_scoring true) c)) ->
  (forall c c', set_trusted_peers m c = Ok c' -> P c -> P c') -> (forall c c', set_enr_ports m c = Ok c' -> P c -> P c') ->
  (forall b c, P c -> P (when b set_enr_match c)) -> (forall c c', set_enr_address m c = Ok c' -> P c -> P c') ->
  (forall c, P c -> P (set_flags m c)) -> (forall c c', set_rate_limiters m c = Ok c' -> P c -> P c') -> P c'.
Proof.
  intros Hs Hc ? ? ? ? ? ? ? ? ? ? ?. unfold set_rest in Hs.
  destruct (set_target_peers m c) as [c1|] eqn:E1; [|done]. destruct (set_network_load m c1) as [c2|] eqn:E2; [|done].
  destruct (set_boot_nodes m c2) as [c3|] eqn:E3; [|done]. destruct (set_libp2p_nodes m c3) as [c4|] eqn:E4; [|done].
  destruct (set_trusted_peers m _) as [c5|] eqn:E5; [|done]. destruct (set_enr_ports m c5) as [c6|] eqn:E6; [|done].
  destruct (set_enr_address m _) as [c7|] eqn:E7; [|done]. eauto 20.
Qed.

Lemma when_keep (P : NetworkConfig -> Prop) b f c : (forall c, P c -> P (f c)) -> P c -> P (when b f c).
Proof. destruct b; cbn; auto. Qed.

(** A statement that sets a port of the record. *)
Definition keeps (P : NetworkConfig -> Prop) (set : option Z -> NetworkConfig -> NetworkConfig) : Prop :=
  forall c n, P c -> is_u16 n -> P (set (Some n) c).

Lemma set_enr_port_ind (P : NetworkConfig -> Prop) name what set m c c' : set_enr_port name what set m c = Ok c' ->
  keeps P set -> P c -> P c'.
Proof.
  unfold set_enr_port. destruct (value_of m name) as [s|]; [|by intros [= <-]].
  destruct (parse_unsigned (int_max u16) s) as [n|] eqn:E; cbn; [|done]. intros [= <-] Hk Hc. eapply Hk; eauto.
Qed.

Lemma set_enr_ports_ind (P : NetworkConfig -> Prop) m c c' : set_enr_ports m c = Ok c' ->
  keeps P nc_with_enr_udp4_port -> keeps P nc_with_enr_quic4_port -> keeps P nc_with_enr_tcp4_port ->
  keeps P nc_with_enr_udp6_port -> keeps P nc_with_enr_quic6_port -> keeps P nc_with_enr_tcp6_port -> P c -> P c'.
Proof.
  intros Hs ? ? ? ? ? ? Hc. unfold set_enr_ports in Hs.
  do 5 (match type of Hs with match ?e with _ => _ end = _ => destruct e as [?c|] eqn:?; [|done] end).
  repeat (eapply set_enr_port_ind; [eassumption|assumption|]). done.
Qed.

Lemma set_rate_limiters_shape m c c' : set_rate_limiters m c = Ok c' ->
  exists i o, c' = nc_with_inbound_rate_limiter_config i (nc_with_outbound_rate_limiter_config o c).
Proof.
  unfold set_rate_limiters. destruct (parse_optional RateLimiterConfig_from_str m "self-limiter") as [out|]; [|done].
  destruct (value_of m "inbound-rate-limiter") as [s|]; [destruct (String.eqb s "disabled")|]; [intros [= <-]; eauto| |intros [= <-]; eauto].
  destruct (RateLimiterConfig_from_str s); cbn; [|done]. intros [= <-]. eauto.
Qed.

(** Opens a configuration and runs one statement on it. *)
Ltac statement := let c := fresh "c" in let Hs := fresh "Hs" in intros c c' Hs; destruct c; revert Hs;
  repeat case_match; cbn; intros Hs; simplify_eq/=; try done.

(** The first statement panics exactly if no directory is given and the current one cannot be found out. *)
Lemma set_network_dir_spec dir m c :
  match set_network_dir dir m c with
  | Ret c' => exists d, c' = nc_with_network_dir d c /\ (is_some (value_of m "network-dir") || is_ok dir = true)
  | Panic _ => value_of m "network-dir" = None /\ is_ok dir = false
  end.
Proof. unfold set_network_dir. destruct (value_of m "network-dir"), dir; cbn; eauto. Qed.

(** What the statements after the listening addresses do not touch, the last four unless a flag says so. *)
Definition untouched (m : gmap string (list string)) (c0 c : NetworkConfig) : Prop :=
  listen_addresses c = listen_addresses c0 /\ listen_config c = listen_config c0 /\ topics c = topics c0 /\
  network_dir c = network_dir c0 /\ subscribe_all_subnets c = subscribe_all_subnets c0 /\
  (is_present m "enable-private-discovery" = false -> table_filter c = table_filter c0) /\
  (is_present m "metrics" = false -> nc_metrics_enabled c = nc_metrics_enabled c0) /\
  (is_present m "disable-packet-filter" = false -> discv5_packet_filter c = discv5_packet_filter c0) /\
  (disable_quic_support c0 = true -> disable_quic_support c = true).

Lemma set_rest_untouched m c0 c : set_rest m c0 = Ok c -> untouched m c0 c.
Proof.
  intros Hs. eapply (set_rest_ind (untouched m c0) m c0 c Hs); [done|..]; clear c Hs.
  - unfold set_target_peers. statement.
  - unfold set_network_load. statement.
  - unfold set_boot_nodes. statement.
  - unfold set_libp2p_nodes. statement.
  - by intros [] [].
  - unfold set_trusted_peers. statement.
  - intros c c' Hs. by apply (set_enr_ports_ind (untouched m c0) _ _ _ Hs); intros [] n.
  - intros [] c; [|done]. destruct c as [nd l [e4 e6] ]. by destruct l.
  - unfold set_enr_address. intros c c' Hs. destruct (values_of m "enr-address") as [addrs|]; [|by simplify_eq].
    destruct (parse_enr_addresses _ _ _) as [ips|]; [|done]. injection Hs as <-. destruct c. by destruct (_ || _).
  - intros c Hc. unfold set_flags.
    assert (forall b (f : NetworkConfig -> NetworkConfig) c, (forall c, b = true -> untouched m c0 c -> untouched m c0 (f c)) ->
      untouched m c0 c -> untouched m c0 (when b f c)) as keep by (intros []; cbn; auto).
    repeat (apply keep; [intros [] Hb; unfold untouched; cbn; rewrite ?Hb; intuition congruence|]). done.
  - intros c c' Hs. apply set_rate_limiters_shape in Hs as (i & o & ->). by destruct c.
Qed.

(** C31: With [--zero-ports] a configuration is made without a panic whatever ports the operating system offers (unless
    no network directory is given and the current directory cannot be found out), and if it succeeds all its
    listening ports are different from each other, also between TCP and UDP and between the address
    families. *)
Theorem zero_ports_configured dir given m c p :
  get_matches cli_app given m -> is_Some (given !! "zero-ports") -> source_ok [] p ->
  match set_network_config dir m c p with
  | Ret (Some (Ok c', _)) => NoDup (listen_ports (listen_addresses c'))
  | Ret _ => True
  | Panic _ => value_of m "network-dir" = None /\ is_ok dir = false
  end.
Proof.
  intros Hm [vs Hz] Hp. pose proof (parse_listening_post m (matches_required _ _ Hm) p Hp) as Hl.
  apply (gm_given _ _ _ Hm) in Hz. unfold is_present in Hl. rewrite Hz, bool_decide_eq_true_2 in Hl by eauto.
  pose proof (set_network_dir_spec dir m c) as Hd.
  unfold set_network_config. destruct (set_network_dir dir m c) as [c0|]; [|done]. unfold pbind, pret.
  destruct (parse_listening_addresses m p) as [ [ [ [l|e] p']|]|]; [|done..].
  destruct Hl as [_ Hl]. destruct (set_rest m _) as [c'|e] eqn:Es; [|done].
  apply set_rest_untouched in Es as (-> & _). rewrite (proj1 (proj2 (proj2 (listening_settings "" l _)))). by apply Hl.
Qed.

(** Whatever an accepted command line says, the node never enables QUIC, metrics or the subscription to all subnets,
    never disables the packet filter of discovery, and its discovery settings always fit its listening
    addresses: the code looks for flags that would change the last four, but they are not declared. *)
Theorem flags_without_effect dir d given m p c p' :
  get_matches cli_app given m -> set_network_config dir m (NetworkConfig_in d) p = Ret (Some (Ok c, p')) ->
  disable_quic_support c = true /\ nc_metrics_enabled c = false /\ subscribe_all_subnets c = false /\
  discv5_packet_filter c = true /\ listening_consistent c.
Proof.
  intros Hm Hs. pose proof (set_network_dir_spec dir m (NetworkConfig_in d)) as Hdir. unfold set_network_config in Hs.
  destruct (set_network_dir dir m _) as [c0|]; [|done]. destruct Hdir as (nd & -> & _). unfold pbind, pret in Hs.
  assert (forall name, declared name = false -> is_present m name = false) as Hnone.
  { intros name Hn. unfold is_present. by rewrite (matches_undeclared given m name Hm Hn). }
  rewrite (Hnone "subscribe-all-subnets"%string) in Hs by done. cbn [when] in Hs.
  destruct (parse_listening_addresses m p) as [ [ [ [l|e] p'']|]|]; [|done..]. injection Hs as Es <-.
  set (c0 := nc_with_network_dir nd (NetworkConfig_in d)) in Es.
  pose proof (listening_settings d l c0) as (_ & [Hsock Hfilter] & Hl & _).
  assert (disable_quic_support (set_listening_addr l c0) = true /\ nc_metrics_enabled (set_listening_addr l c0) = false /\
    subscribe_all_subnets (set_listening_addr l c0) = false /\ discv5_packet_filter (set_listening_addr l c0) = true) as (Hq & Hme & Hsub & Hpf).
  { unfold c0. by destruct l as [ []|[]|[] [] ]. }
  apply set_rest_untouched in Es as (Ela & Elc & _ & _ & Esub & Etf & Eme & Epf & Eq).
  rewrite Esub, Eme, Epf by (by apply Hnone). split_and!; [by apply Eq|done..|].
  unfold listening_consistent. rewrite Ela, Elc, Etf by (by apply Hnone). done.
Qed.

(** ** The node's own record *)

(** Literal addresses of the values, and the addresses the names among them resolve to, in order. *)
Definition literals (addrs : list string) : list IpAddr := omap IpAddr_from_str addrs.
Definition names (addrs : list string) : list string := filter (fun s => IpAddr_from_str s = None) addrs.
Definition resolve_all (l : ListenAddress) (addrs : list string) : option (list IpAddr) :=
  option_map (fun r => map sock_ip (concat r))
    (mapM (fun s => result_ok (to_socket_addrs (s +:+ ":" +:+ dec (resolution_port l)))) (names addrs)).

Definition first_of (f : IpAddr -> option Z) (before : option Z) (ips : list IpAddr) : option Z :=
  option_or before (head (omap f ips)).

Lemma first_of_cons f o ip ips : first_of f o (ip :: ips) = first_of f (option_or o (f ip)) ips.
Proof. unfold first_of. destruct o; cbn; [done|]. by destruct (f ip). Qed.

Lemma add_resolved_spec r : forall g4 g6 r4 r6, fold_left add_resolved r (mkEnrIps g4 g6 r4 r6) =
  mkEnrIps g4 g6 (first_of v4_of r4 (map sock_ip r)) (first_of v6_of r6 (map sock_ip r)).
Proof.
  induction r as [|s r IH]; intros g4 g6 r4 r6; cbn [fold_left map].
  { unfold first_of. cbn. by destruct r4, r6. }
  rewrite !first_of_cons. unfold add_resolved at 2. destruct (sock_ip s); rewrite IH; cbn; [by destruct r6|by destruct r4].
Qed.

Lemma first_of_app f o a b : first_of f o (a ++ b) = first_of f (first_of f o a) b.
Proof. unfold first_of. rewrite omap_app. destruct o; cbn; [done|]. by destruct (omap f a). Qed.

Lemma parse_enr_addresses_spec l addrs : forall g4 g6 r4 r6,
  result_ok (parse_enr_addresses l addrs (mkEnrIps g4 g6 r4 r6)) =
  option_map (fun r => mkEnrIps (first_of v4_of g4 (literals addrs)) (first_of v6_of g6 (literals addrs))
    (first_of v4_of r4 r) (first_of v6_of r6 r)) (resolve_all l addrs).
Proof.
  induction addrs as [|s addrs IH]; intros g4 g6 r4 r6; cbn [parse_enr_addresses].
  { cbn. unfold first_of. cbn. by destruct g4, g6, r4, r6. }
  unfold literals, resolve_all, names in *. cbn [omap list_omap]. rewrite filter_cons.
  destruct (IpAddr_from_str s) as [ [a|a]|]; rewrite ?decide_False, ?decide_True by done.
  1,2: rewrite IH; destruct (mapM _ _); cbn [option_map]; [|done]; do 2 f_equal; rewrite first_of_cons; cbn; by destruct g4, g6.
  cbn [mapM]. destruct (to_socket_addrs _) as [r|e]; cbn [result_ok mbind option_bind]; [|done].
  rewrite add_resolved_spec, IH. destruct (mapM _ _) as [rs|]; cbn; [|done]. by rewrite map_app, !first_of_app.
Qed.

(** The addresses given with [--enr-address] become those of the node's record: of each family the first literal address,
    or else the first address a given name resolves to. The record is left to discovery's updates only if
    no name resolved to an address, and the command fails exactly when a name cannot be
    resolved. No other part of the configuration changes. *)
Theorem enr_address_flag m c addrs : values_of m "enr-address" = Some addrs ->
  result_ok (set_enr_address m c) = option_map (fun resolved =>
    let first f := head (omap f (literals addrs ++ resolved)) in
    nc_with_discv5_enr_update (discv5_enr_update c && bool_decide (resolved = []))
      (nc_with_enr_address (first v4_of, first v6_of) c)) (resolve_all (listen_addresses c) addrs).
Proof.
  intros Hv. unfold set_enr_address. rewrite Hv.
  pose proof (parse_enr_addresses_spec (listen_addresses c) addrs None None None None) as Hs.
  destruct (parse_enr_addresses _ _ _) as [ips|e], (resolve_all _ _) as [r|]; simplify_eq/=; [|done].
  unfold first_of. cbn [option_or]. f_equal. rewrite !omap_app.
  assert (forall o p : list Z, option_or (head o) (head p) = head (o ++ p)) as -> by (by intros [] ?).
  assert (forall o p : list Z, option_or (head o) (head p) = head (o ++ p)) as -> by (by intros [] ?).
  destruct c. destruct r as [|[a|a] r]; cbn; rewrite ?andb_true_r, ?andb_false_r, ?orb_true_r; done.
Qed.

(** ** Rate limiters *)

(** The flags of the rate limiters. The inbound limiter has its defaults if the flag is not given, is off for
    [disabled], and otherwise has, for each protocol, the first quota of the string or the default; the limiter of our own
    requests is off if its flag is not given, has its defaults if the flag has no
    value, and otherwise the quotas of its string. A malformed string is an error. *)
Theorem rate_limiter_flags m c :
  match set_rate_limiters m c, value_of m "inbound-rate-limiter", value_of m "self-limiter" with
  | Ok c', i, o =>
      let configured s cfg := exists qs, parse_all (split ";"%char s) = Ok qs /\
        forall p, config_quota p cfg = default (config_quota p RateLimiterConfig_default) (first_quota p qs) in
      match inbound_rate_limiter_config c', i with
      | Some cfg, Some s => s <> "disabled"%string /\ configured s cfg
      | Some cfg, None => cfg = RateLimiterConfig_default
      | None, _ => i = Some "disabled"%string
      end /\
      match outbound_rate_limiter_config c', o with
      | Some cfg, Some s => configured s cfg
      | Some cfg, None => is_present m "self-limiter" = true /\ cfg = RateLimiterConfig_default
      | None, _ => is_present m "self-limiter" = false
      end
  | Err _, i, o => exists s e, (i = Some s \/ o = Some s) /\ parse_all (split ";"%char s) = Err e
  end.
Proof.
  assert (forall s, match RateLimiterConfig_from_str s with
    | Ok cfg => exists qs, parse_all (split ";"%char s) = Ok qs /\
        forall p, config_quota p cfg = default (config_quota p RateLimiterConfig_default) (first_quota p qs)
    | Err e => parse_all (split ";"%char s) = Err e
    end) as Hspec.
  { intros s. pose proof (config_from_str_spec s) as Hc.
    destruct (RateLimiterConfig_from_str s) as [cfg|e], (parse_all (split ";"%char s)) as [qs|e'].
    - exists qs. split; [done|]. intros p. exact (Hc p).
    - destruct (Hc PingProtocol).
    - destruct (Hc PingProtocol).
    - by rewrite (Hc PingProtocol). }
  unfold set_rate_limiters, parse_optional.
  assert (forall s, value_of m "self-limiter" = Some s -> is_present m "self-limiter" = true) as Hp.
  { unfold value_of, is_present. by destruct (m !! "self-limiter"). }
  assert (forall x cfg i, inbound_rate_limiter_config (nc_with_inbound_rate_limiter_config x (nc_with_outbound_rate_limiter_config cfg i)) = x /\
    outbound_rate_limiter_config (nc_with_inbound_rate_limiter_config x (nc_with_outbound_rate_limiter_config cfg i)) = cfg) as Hget.
  { by intros x cfg []. }
  destruct (value_of m "self-limiter") as [so|]; cbn [result_map result_map_err].
  - rewrite (Hp so eq_refl). pose proof (Hspec so) as Ho. destruct (RateLimiterConfig_from_str so) as [co|e]; cbn [result_map result_map_err]; [|eauto].
    cbn [is_some negb andb].
    destruct (value_of m "inbound-rate-limiter") as [si|]; [destruct (String.eqb_spec si "disabled") as [->|Hn]|]; cbn [result_map].
    2: pose proof (Hspec si) as Hi; destruct (RateLimiterConfig_from_str si) as [ci|e]; cbn [result_map]; [|eauto].
    all: rewrite (proj1 (Hget _ _ _)), (proj2 (Hget _ _ _)); done.
  - rewrite andb_true_r.
    destruct (value_of m "inbound-rate-limiter") as [si|]; [destruct (String.eqb_spec si "disabled") as [->|Hn]|]; cbn [result_map].
    2: pose proof (Hspec si) as Hi; destruct (RateLimiterConfig_from_str si) as [ci|e]; cbn [result_map]; [|eauto].
    all: rewrite (proj1 (Hget _ _ _)), (proj2 (Hget _ _ _)); by destruct (is_present m "self-limiter").
Qed.

(** ** Which command lines start a node *)

(** The value of an argument satisfies a test, if it is present. *)
Definition flag_ok (m : gmap string (list string)) (name : string) (f : string -> bool) : bool :=
  match value_of m name with Some s => f s | None => true end.
Definition is_num (max : Z) (s : string) : bool := is_some (parse_unsigned max s).
Definition limiter_ok (s : string) : bool := is_ok (RateLimiterConfig_from_str s).

(** Every value of the command line is well formed, and every name in it resolves. *)
Definition well_formed (m : gmap string (list string)) (l : ListenAddress) : bool :=
  flag_ok m "target-peers" (is_num (int_max usize)) && flag_ok m "network-load" (is_num (int_max u8))
  && flag_ok m "boot-nodes" (fun s => forallb (fun a => is_ok (enr_from_str a) || is_ok (multiaddr_from_str a)) (split "," s))
  && flag_ok m "libp2p-addresses" (fun s => forallb (fun a => is_ok (multiaddr_from_str a)) (split "," s))
  && flag_ok m "trusted-peers" (fun s => forallb (fun a => is_ok (peer_id_from_str a)) (split "," s))
  && forallb (fun name => flag_ok m name (is_num (int_max u16)))
       ["enr-udp-port"; "enr-quic-port"; "enr-tcp-port"; "enr-udp6-port"; "enr-quic6-port"; "enr-tcp6-port"]
  && match values_of m "enr-address" with Some addrs => is_some (resolve_all l addrs) | None => true end
  && flag_ok m "self-limiter" limiter_ok
  && flag_ok m "inbound-rate-limiter" (fun s => String.eqb s "disabled" || limiter_ok s).

(** A statement that succeeds exactly under a condition and leaves the listening addresses alone. *)
Definition succeeds_iff (f : NetworkConfig -> result NetworkConfig string) (ok : bool) : Prop :=
  forall c, is_ok (f c) = ok /\ forall c', f c = Ok c' -> listen_addresses c' = listen_addresses c.

Lemma succeeds_bind (f g : NetworkConfig -> result NetworkConfig string) b1 b2 l c : succeeds_iff f b1 -> listen_addresses c = l ->
  (forall c, listen_addresses c = l -> is_ok (g c) = b2) ->
  is_ok (c <-? f c; g c) = b1 && b2.
Proof.
  intros Hf Hl Hg. destruct (Hf c) as [<- Hc]. destruct (f c) as [c'|e]; cbn; [|done]. apply Hg. rewrite <- Hl. by apply Hc.
Qed.

(** A statement that parses one value and stores the result. *)
Lemma succeeds_flag {T} m name (f : string -> result T string) (store : T -> NetworkConfig -> NetworkConfig) other ok :
  (forall s, is_ok (f s) = ok s) -> (forall x c, listen_addresses (store x c) = listen_addresses c) ->
  (forall c, listen_addresses (other c) = listen_addresses c) ->
  succeeds_iff (fun c => match value_of m name with Some s => x <-? f s; Ok (store x c) | None => Ok (other c) end) (flag_ok m name ok).
Proof.
  intros Hf Hs Ho c. unfold flag_ok. destruct (value_of m name) as [s|].
  - rewrite <- Hf. destruct (f s) as [x|]; cbn; (split; [done|]); [|done]. intros c' [= <-]. apply Hs.
  - split; [done|]. intros c' [= <-]. apply Ho.
Qed.

Lemma try_collect_ok {A B E} (f : A -> result B E) l : is_ok (try_collect f l) = forallb (fun a => is_ok (f a)) l.
Proof. induction l as [|a l IH]; cbn; [done|]. rewrite <- IH. destruct (f a); cbn; [|done]. by destruct (try_collect f l). Qed.

Lemma parse_boot_nodes_ok l : forall enrs mas, is_ok (parse_boot_nodes l enrs mas) =
  forallb (fun a => is_ok (enr_from_str a) || is_ok (multiaddr_from_str a)) l.
Proof.
  induction l as [|a l IH]; intros enrs mas; cbn; [done|]. destruct (enr_from_str a); cbn; [apply IH|].
  destruct (multiaddr_from_str a); cbn; [apply IH|done].
Qed.

Lemma is_ok_ok_or {A E} (o : option A) (e : E) : is_ok (ok_or o e) = is_some o.
Proof. by destruct o. Qed.
Lemma is_ok_map_err {A E F} (f : E -> F) (r : result A E) : is_ok (result_map_err f r) = is_ok r.
Proof. by destruct r. Qed.
Lemma is_ok_map {A B E} (f : A -> B) (r : result A E) : is_ok (result_map f r) = is_ok r.
Proof. by destruct r. Qed.
Lemma forallb_ext' {A} (f g : A -> bool) l : (forall a, f a = g a) -> forallb f l = forallb g l.
Proof. intros Hf. induction l as [|a l IH]; cbn; [done|]. by rewrite Hf, IH. Qed.

Lemma succeeds_enr_port name what set m : (forall x c, listen_addresses (set x c) = listen_addresses c) ->
  succeeds_iff (set_enr_port name what set m) (flag_ok m name (is_num (int_max u16))).
Proof.
  intros Hset. apply (succeeds_flag m name (fun s => ok_or (parse_unsigned (int_max u16) s) _) (fun n => set (Some n)) (fun c => c)); [|done..].
  intros s. apply is_ok_ok_or.
Qed.

Lemma succeeds_enr_ports m : succeeds_iff (set_enr_ports m) (forallb (fun name => flag_ok m name (is_num (int_max u16)))
  ["enr-udp-port"; "enr-quic-port"; "enr-tcp-port"; "enr-udp6-port"; "enr-quic6-port"; "enr-tcp6-port"]).
Proof.
  intros c. split.
  - assert (listen_addresses c = listen_addresses c) as Hl by done. revert Hl. generalize (listen_addresses c) at 2. intros l Hl.
    unfold set_enr_ports. cbn [forallb].
    do 5 (eapply (succeeds_bind (set_enr_port _ _ _ m)); [by apply succeeds_enr_port; intros ? []|exact Hl|]; clear c Hl; intros c Hl).
    rewrite andb_true_r. by apply succeeds_enr_port; intros ? [].
  - intros c' Hs. by apply (set_enr_ports_ind (fun c' => listen_addresses c' = listen_addresses c) _ _ _ Hs); [intros [] n ? ?..|].
Qed.

Lemma succeeds_statements m :
  succeeds_iff (set_target_peers m) (flag_ok m "target-peers" (is_num (int_max usize))) /\
  succeeds_iff (set_network_load m) (flag_ok m "network-load" (is_num (int_max u8))) /\
  succeeds_iff (set_boot_nodes m) (flag_ok m "boot-nodes"
    (fun s => forallb (fun a => is_ok (enr_from_str a) || is_ok (multiaddr_from_str a)) (split "," s))) /\
  succeeds_iff (set_libp2p_nodes m) (flag_ok m "libp2p-addresses" (fun s => forallb (fun a => is_ok (multiaddr_from_str a)) (split "," s))) /\
  succeeds_iff (set_trusted_peers m) (flag_ok m "trusted-peers" (fun s => forallb (fun a => is_ok (peer_id_from_str a)) (split "," s))).
Proof.
  split_and!.
  - apply (succeeds_flag m _ (fun s => ok_or (parse_unsigned (int_max usize) s) _) nc_with_target_peers (nc_with_target_peers 16));
      [intros; apply is_ok_ok_or|by intros ? []|by intros []].
  - apply (succeeds_flag m _ (fun s => ok_or (parse_unsigned (int_max u8) s) _) nc_with_network_load (fun c => c));
      [intros; apply is_ok_ok_or|by intros ? []|done].
  - apply (succeeds_flag m _ (fun s => parse_boot_nodes (split "," s) [] [])
      (fun r c => nc_with_boot_nodes_multiaddr (snd r) (nc_with_boot_nodes_enr (fst r) c)) (fun c => c));
      [intros; apply parse_boot_nodes_ok|by intros ? []|done].
  - apply (succeeds_flag m _ (fun s => try_collect _ (split "," s)) nc_with_libp2p_nodes (fun c => c)); [|by intros ? []|done].
    intros s. rewrite try_collect_ok. apply forallb_ext'. intros a. apply is_ok_map_err.
  - apply (succeeds_flag m _ (fun s => try_collect _ (split "," s)) nc_with_trusted_peers (fun c => c)); [|by intros ? []|done].
    intros s. rewrite try_collect_ok. apply forallb_ext'. intros a. unfold PeerIdSerialized_from_str. by rewrite !is_ok_map_err.
Qed.

Lemma succeeds_enr_address m l c : listen_addresses c = l ->
  is_ok (set_enr_address m c) = match values_of m "enr-address" with Some addrs => is_some (resolve_all l addrs) | None => true end.
Proof.
  intros <-. unfold set_enr_address. destruct (values_of m "enr-address") as [addrs|]; [|done].
  pose proof (parse_enr_addresses_spec (listen_addresses c) addrs None None None None) as Hs.
  by destruct (parse_enr_addresses _ _ _) as [ips|e], (resolve_all _ _) as [r|].
Qed.

Lemma succeeds_rate_limiters m c : is_ok (set_rate_limiters m c) =
  flag_ok m "self-limiter" limiter_ok && flag_ok m "inbound-rate-limiter" (fun s => String.eqb s "disabled" || limiter_ok s).
Proof.
  unfold set_rate_limiters, parse_optional, flag_ok, limiter_ok. destruct (value_of m "self-limiter") as [so|]; cbn [result_map result_map_err].
  - destruct (RateLimiterConfig_from_str so); cbn [result_map result_map_err is_ok andb]; [|done].
    destruct (value_of m "inbound-rate-limiter") as [si|]; [|done]. destruct (String.eqb si "disabled"); [done|].
    by destruct (RateLimiterConfig_from_str si).
  - destruct (value_of m "inbound-rate-limiter") as [si|]; [|done]. destruct (String.eqb si "disabled"); [done|].
    by destruct (RateLimiterConfig_from_str si).
Qed.

Lemma set_rest_ok m l c : listen_addresses c = l -> is_ok (set_rest m c) = well_formed m l.
Proof.
  intros Hl. destruct (succeeds_statements m) as (S1 & S2 & S3 & S4 & S5). unfold set_rest, well_formed. rewrite <- !andb_assoc.
  do 4 (eapply succeeds_bind; [eassumption|exact Hl|]; clear c Hl; intros c Hl).
  eapply succeeds_bind; [exact S5|by destruct (is_present m _), c|]. clear c Hl. intros c Hl.
  eapply succeeds_bind; [apply succeeds_enr_ports|exact Hl|]. clear c Hl. intros c Hl.
  set (c1 := when _ set_enr_match c). assert (listen_addresses c1 = l) as Hl1.
  { unfold c1. destruct (is_present m "enr-match"); [|done]. destruct c as [nd la [e4 e6] ]. by destruct la. }
  rewrite <- (succeeds_enr_address m l c1 Hl1), <- (succeeds_rate_limiters m c). destruct (set_enr_address m c1); cbn; [|done].
  by rewrite !succeeds_rate_limiters.
Qed.

(** C28: The program gets as far as starting the network service exactly when [--p2p-mempool-topic-hashes] is given, the
    current directory can be found out (once for the defaults and, without [--network-dir], once more), the
    listening addresses can be determined and every other value is well formed, which includes that every name
    in [--enr-address] resolves; it then has the topics of the command line. While the search for an unused port
    ([--zero-ports]) goes on it neither starts nor panics; in any other case, also when no port can be bound, it
    panics. The runtime and the logger, which are created first, are taken to be there. *)
Theorem main_starts default_dir current_dir given m p : get_matches cli_app given m ->
  let listening := parse_listening_addresses m p in
  let dirs_ok := is_ok default_dir && (is_some (value_of m "network-dir") || is_ok current_dir) in
  match main_config default_dir current_dir m p with
  | Ret (Some (c, p')) => given !! "p2p-mempool-topic-hashes" = Some (topics c) /\ dirs_ok = true /\
      listening = Ret (Some (Ok (listen_addresses c), p')) /\ well_formed m (listen_addresses c) = true
  | Ret None => listening = Ret None
  | Panic _ => given !! "p2p-mempool-topic-hashes" = None \/ dirs_ok = false \/
      match listening with
      | Ret (Some (Ok l, _)) => well_formed m l = false
      | Ret None => False
      | _ => True
      end
  end.
Proof.
  intros Hm. cbv zeta. unfold main_config, values_of.
  destruct (given !! "p2p-mempool-topic-hashes") as [ts|] eqn:Ht.
  2: { pose proof (gm_default _ _ _ Hm (mkArg "p2p-mempool-topic-hashes" true true None None None) ltac:(set_solver) Ht) as Hd.
       cbn in Hd. rewrite Hd. cbn. by left. }
  rewrite (gm_given _ _ _ Hm _ _ Ht). cbn [expect]. unfold NetworkConfig_default.
  destruct default_dir as [dir|]; cbn [default_network_dir is_ok andb]; [|by right; left]. set (config := NetworkConfig_in _).
  pose proof (set_network_dir_spec current_dir m config) as Hd. unfold set_network_config.
  destruct (set_network_dir current_dir m config) as [c0|]; [|destruct Hd as [-> ->]; by right; left].
  destruct Hd as (nd & -> & ->). unfold pbind, pret.
  destruct (parse_listening_addresses m p) as [ [ [ [l|e] p']|]|]; [|by auto..].
  set (c0 := when _ _ _). pose proof (set_rest_ok m l (set_listening_addr l c0)) as Hok.
  pose proof (listening_settings "" l c0) as (_ & _ & Hl & _). specialize (Hok Hl).
  destruct (set_rest m (set_listening_addr l c0)) as [c|e] eqn:Es; cbn in Hok; [|by auto].
  apply set_rest_untouched in Es as (Ela & _ & Eto & _). rewrite Hl in Ela.
  assert (topics (set_listening_addr l c0) = []) as Et0.
  { unfold c0. by destruct (is_present m _), l as [ []|[]|[] [] ]. }
  rewrite Et0 in Eto. rewrite Eto. by destruct c; cbn in *; subst.
Qed.
End config.

(** ** Witnesses *)

(** The matches of a command line, computed. *)
Definition arg_values_check (a : Arg) (vs : list string) : bool :=
  if arg_takes_value a then
    (default 1 (arg_min_values a) <=? length vs)%nat
    && match arg_max_values a with Some k => (length vs <=? k)%nat | None => true end
    && (arg_multiple a || is_some (arg_min_values a) || (length vs =? 1)%nat)
  else bool_decide (vs = []).
Definition matches_of (app : list Arg) (given : gmap string (list string)) : gmap string (list string) :=
  fold_right (fun a m => match given !! arg_name a, arg_default a with None, Some d => <[arg_name a := [d]]> m | _, _ => m end) given app.
Definition given_check (app : list Arg) (given : gmap string (list string)) : bool :=
  forallb (fun e => existsb (fun a => String.eqb (arg_name a) e.1 && arg_values_check a e.2) app) (map_to_list given).

Lemma arg_values_check_ok a vs : arg_values_check a vs = true -> arg_values_ok a vs.
Proof.
  unfold arg_values_check, arg_values_ok. destruct (arg_takes_value a); [|by intros Hv%bool_decide_eq_true].
  intros Hv. bool_hyps. split_and!.
  - by apply Nat.leb_le.
  - intros k Hk. rewrite Hk in *. by apply Nat.leb_le.
  - intros Hm Hn. rewrite Hm, Hn in *. by apply Nat.eqb_eq.
Qed.

Lemma matches_of_lookup app given name : NoDup (arg_name <$> app) ->
  matches_of app given !! name =
  match given !! name with
  | Some vs => Some vs
  | None => match list_find (fun a => arg_name a = name) app with Some (_, a) => option_map (fun d => [d]) (arg_default a) | None => None end
  end.
Proof.
  induction app as [|a app IH]; cbn [matches_of fold_right list_find fmap list_fmap]; intros Hnd.
  { by destruct (given !! name). }
  apply NoDup_cons in Hnd as [Hnew Hnd]. specialize (IH Hnd). fold (matches_of app given).
  destruct (decide (arg_name a = name)) as [He|Hne].
  - subst name. destruct (given !! arg_name a) as [vs|] eqn:Hg; [done|]. destruct (arg_default a) as [d|]; [by rewrite lookup_insert_eq|].
    rewrite IH. cbn. destruct (list_find _ app) as [ [i b]|] eqn:Hf; [|done]. apply list_find_Some in Hf as (Hi & Hb & _).
    destruct Hnew. apply list_elem_of_fmap. exists b. split; [done|]. by eapply list_elem_of_lookup_2.
  - assert (match given !! arg_name a with Some _ => matches_of app given | None => match arg_default a with
      Some d => <[arg_name a:=[d]]> (matches_of app given) | None => matches_of app given end end !! name = matches_of app given !! name) as ->.
    { destruct (given !! arg_name a), (arg_default a); rewrite ?lookup_insert_ne by done; done. }
    rewrite IH. destruct (given !! name); [done|]. by destruct (list_find _ app) as [ [i b]|].
Qed.

Lemma matches_of_ok given : given_check cli_app given = true -> get_matches cli_app given (matches_of cli_app given).
Proof.
  intros Hc. assert (NoDup (arg_name <$> cli_app)) as Hnd by (apply (bool_decide_unpack _); vm_compute; done).
  unfold given_check in Hc. rewrite forallb_forall in Hc. split.
  - intros name vs Hg. apply elem_of_map_to_list in Hg. specialize (Hc (name, vs) ltac:(by apply list_elem_of_In)).
    apply existsb_exists in Hc as (a & Ha & Hn). apply andb_true_iff in Hn as [Hn%String.eqb_eq Hv]. exists a.
    split_and!; [by apply list_elem_of_In|done|by apply arg_values_check_ok].
  - intros name vs Hg. by rewrite matches_of_lookup, Hg.
  - intros a Ha Hg. rewrite matches_of_lookup, Hg by done. destruct (list_find _ cli_app) as [ [i b]|] eqn:Hf.
    + apply list_find_Some in Hf as (Hi & Hb & _). by rewrite (cli_names_unique b a ltac:(by eapply list_elem_of_lookup_2) Ha Hb).
    + apply list_find_None in Hf. rewrite Forall_forall in Hf. by destruct (Hf a Ha).
  - intros name Hn. rewrite matches_of_lookup by done. destruct (given !! name) as [vs|] eqn:Hg.
    + apply elem_of_map_to_list in Hg. specialize (Hc (name, vs) ltac:(by apply list_elem_of_In)).
      apply existsb_exists in Hc as (a & Ha & He). apply andb_true_iff in He as [He%String.eqb_eq _].
      destruct (Hn a); [by apply list_elem_of_In|done].
    + destruct (list_find _ cli_app) as [ [i b]|] eqn:Hf; [|done]. apply list_find_Some in Hf as (Hi & Hb & _).
      destruct (Hn b); [by eapply list_elem_of_lookup_2|done].
Qed.

#[local] Existing Instances demo_enr_external demo_enr_fields demo_peer_text.

(** A name service that knows one name. *)
#[local] Instance demo_addr_text : AddrText := {|
  enr_from_str := fun _ => Err "no record"%string;
  multiaddr_from_str := fun _ => Err "no address"%string;
  to_socket_addrs := fun s => if String.prefix "localhost:" s
    then Ok [mkSocketAddr (V6 1) 9000; mkSocketAddr (V4 0x7f000001) 9000] else Err "unknown"%string;
|}.

(** Two addresses, IPv6 first, a trusted peer and quotas; and the same with ports of the operating system. *)
Definition demo_given : gmap string (list string) :=
  <["listen-address" := ["::1"; "127.0.0.1"]%string]> (<["p2p-mempool-topic-hashes" := ["T1"; "T2"]%string]>
  (<["enr-address" := ["localhost"; "1.2.3.4"]%string]> (<["trusted-peers" := ["OH,H"]%string]>
  (<["quic-port6" := ["65535"]%string]> (<["inbound-rate-limiter" := ["ping:8/10"]%string]> ∅))))).
Definition demo_zero : gmap string (list string) := <["zero-ports" := []]> demo_given.
Definition demo_matches (given : gmap string (list string)) := matches_of cli_app given.
Definition demo_dir : result string string := Ok "/home"%string.
Definition demo_source : PortSource := fresh_source (imap (fun i port => [demo_offer port (Z.of_nat i)]) [40000; 40001; 40002; 40003; 40004; 40005]).

Lemma demo_matches_ok : get_matches cli_app demo_given (demo_matches demo_given).
Proof. apply matches_of_ok. vm_compute. reflexivity. Qed.
Lemma demo_zero_ok : get_matches cli_app demo_zero (demo_matches demo_zero).
Proof. apply matches_of_ok. vm_compute. reflexivity. Qed.
Lemma demo_source_ok : source_ok [] demo_source.
Proof.
  apply (fresh_source_ok _ 0 5); [|vm_compute; reflexivity|].
  - cbn. exists 0; split; [lia|]. exists 1; split; [lia|]. exists 2; split; [lia|]. exists 3; split; [lia|].
    exists 4; split; [lia|]. exists 5; split; [lia|]. lia.
  - cbn. repeat first [apply Forall_nil_2 | apply Forall_cons_2]; intros port [= <-]; unfold is_u16; lia.
Qed.

Lemma listening_addresses_reference_witness : exists r,
  parse_listening_addresses (demo_matches demo_given) demo_source = Ret (Some (r, demo_source)) /\
  result_ok r = Some (DualStack (mkListenAddr 0x7f000001 9000 9001 9000) (mkListenAddr 1 9090 65535 9090)).
Proof.
  destruct (listening_addresses_reference demo_given (demo_matches demo_given) demo_source demo_matches_ok eq_refl) as (r & Hr & Hl & _).
  exists r. split; [exact Hr|]. rewrite Hl. vm_compute. reflexivity.
Defined.

Lemma zero_ports_configured_witness :
  match set_network_config demo_dir (demo_matches demo_zero) (NetworkConfig_in "/home/cache") demo_source with
  | Ret (Some (Ok c, _)) => NoDup (listen_ports (listen_addresses c))
  | Ret _ => True
  | Panic _ => value_of (demo_matches demo_zero) "network-dir" = None /\ is_ok demo_dir = false
  end.
Proof.
  assert (is_Some (demo_zero !! "zero-ports")) as Hz by (vm_compute; eauto).
  pose proof (zero_ports_configured demo_dir demo_zero (demo_matches demo_zero) (NetworkConfig_in "/home/cache") demo_source
    demo_zero_ok Hz demo_source_ok) as Hw. exact Hw.
Defined.

(** The configuration of the second command line. *)
Abbreviation demo_result := (set_network_config demo_dir (demo_matches demo_zero) (NetworkConfig_in "/home/cache") demo_source).
Definition ok_config {A B} (r : outcome (option (result A string * B))) : option A :=
  match r with Ret (Some (Ok c, _)) => Some c | _ => None end.
Lemma ok_config_some {A B} (r : outcome (option (result A string * B))) :
  is_some (ok_config r) = true -> exists c p, r = Ret (Some (Ok c, p)).
Proof. destruct r as [ [ [ [c|] p]|]|]; [eauto|done..]. Qed.

Example demo_zero_ports : option_map (fun c => (listen_ports (listen_addresses c), enr_address c, nc_trusted_peers c, discv5_enr_update c))
  (ok_config demo_result) = Some ([40000; 40001; 40002; 40003; 40004; 40005], (Some 0x01020304, Some 1), [2; 1]%positive, false).
Proof. vm_compute. reflexivity. Qed.

Lemma demo_result_ok : exists c p, demo_result = Ret (Some (Ok c, p)).
Proof. apply ok_config_some. vm_compute. reflexivity. Qed.

Lemma flags_without_effect_witness : exists c p, demo_result = Ret (Some (Ok c, p)) /\
  disable_quic_support c = true /\ nc_metrics_enabled c = false /\ subscribe_all_subnets c = false /\
  discv5_packet_filter c = true /\ listening_consistent c.
Proof.
  destruct demo_result_ok as (c & p & E). exists c, p. split; [exact E|].
  exact (flags_without_effect demo_dir "/home/cache" demo_zero (demo_matches demo_zero) demo_source c p demo_zero_ok E).
Defined.

Lemma enr_address_flag_witness :
  option_map enr_address (result_ok (set_enr_address (demo_matches demo_given) (NetworkConfig_in "/home/cache"))) =
  Some (Some 0x01020304, Some 1).
Proof.
  rewrite (enr_address_flag (demo_matches demo_given) (NetworkConfig_in "/home/cache") ["localhost"; "1.2.3.4"]%string);
    [vm_compute; reflexivity|vm_compute; reflexivity].
Defined.

Lemma demo_starts : exists c p', main_config demo_dir demo_dir (demo_matches demo_given) demo_source = Ret (Some (c, p')).
Proof.
  assert (match main_config demo_dir demo_dir (demo_matches demo_given) demo_source with Ret (Some _) => true | _ => false end = true)
    as Hr by (vm_compute; reflexivity).
  destruct (main_config _ _ _ _) as [ [ [c p']|]|]; [eauto|done..].
Qed.

Lemma main_starts_witness : exists c p',
  main_config demo_dir demo_dir (demo_matches demo_given) demo_source = Ret (Some (c, p')) /\
  demo_given !! "p2p-mempool-topic-hashes" = Some (topics c) /\
  parse_listening_addresses (demo_matches demo_given) demo_source = Ret (Some (Ok (listen_addresses c), p')) /\
  well_formed (demo_matches demo_given) (listen_addresses c) = true.
Proof.
  destruct demo_starts as (c & p' & E). exists c, p'.
  pose proof (main_starts demo_dir demo_dir demo_given (demo_matches demo_given) demo_source demo_matches_ok) as Hw.
  cbv zeta in Hw. rewrite E in Hw. destruct Hw as (Ht & _ & Hl & Hw). exact (conj E (conj Ht (conj Hl Hw))).
Defined.

(** Without a current directory it panics, also with [--network-dir]; so it does with [--zero-ports] if no port can be bound. *)
Example demo_no_current_dir :
  is_ret (main_config (Err "deleted"%string) (Err "deleted"%string)
    (demo_matches (<["network-dir" := ["/data"]%string]> demo_given)) demo_source) = false.
Proof. vm_compute. reflexivity. Qed.
Example demo_no_port :
  is_ret (main_config demo_dir demo_dir (demo_matches demo_zero)
    (fresh_source [ [mkBindAttempt (fun _ => Err "in use"%string) (Err "in use"%string) 0 0 0] ])) = false.
Proof. vm_compute. reflexivity. Qed.
(** Nothing but the name of the program: it panics. *)
Example demo_no_topics : main_config demo_dir demo_dir (demo_matches ∅) demo_source =
  Panic "--p2p-mempool-topic-hashes List of topics hashes to initially subscribe to as strings.".
Proof. vm_compute. reflexivity. Qed.
(** The port after the last one is 0. *)
Example demo_port_overflow : result_ok (match parse_listening_addresses (demo_matches {["port" := ["65535"]%string]}) demo_source with
  | Ret (Some (r, _)) => r | _ => Err ""%string end) = Some (ListenV4 (mkListenAddr 0 65535 0 65535)).
Proof. vm_compute. reflexivity. Qed.
