(* ===== verification/Labels.v ===== *)
(** * Labels of metrics and the texts of logs

    Models the texts the program gives its values: the labels of [score.rs], [protocol.rs] and
    [methods.rs] under which reports and RPC errors are counted, with the operations of the peer manager
    that count them ([report_peer], [goodbye_peer], [handle_rpc_error]); the [Serialize] of a connection status in
    [peer_info.rs]; the entries that the [slog::KV] of listening addresses, RPC messages and status messages
    emit; and [ClearDialError] of [lib.rs]. *)

From Stdlib Require Import Ascii String.
From S2P Require Import Prelude RustStr Float64 Score External RpcTypes LruTimeCache RateLimiter RpcConfig Client PeerInfo PeerDB.
From S2P Require Import PeerDBInv PeerDBProps PeerManager PeerManagerInv Metrics Topics NetConfig Discovery Display Service IpText Manager Cli.

(** ** Labels *)

(** [From<ReportSource> for &str]. *)
Definition ReportSource_into (source : ReportSource) : string :=
  match source with
  | SrcGossipsub => "gossipsub" | SrcRPC => "rpc_error" | SrcProcessor => "processor"
  | SrcSyncService => "sync" | SrcPeerManager => "peer_manager"
  end.
(** The derived [as_ref], in snake case, and the [Display]. *)
Definition PeerAction_as_ref (a : PeerAction) : string :=
  match a with
  | Fatal => "fatal" | LowToleranceError => "low_tolerance_error"
  | MidToleranceError => "mid_tolerance_error" | HighToleranceError => "high_tolerance_error"
  end.
Definition PeerAction_display (a : PeerAction) : string :=
  match a with
  | Fatal => "Fatal" | LowToleranceError => "Low Tolerance Error"
  | MidToleranceError => "Mid Tolerance Error" | HighToleranceError => "High Tolerance Error"
  end.
Definition ScoreState_display (s : ScoreState) : string :=
  match s with StHealthy => "Healthy" | StBanned => "Banned" | StDisconnected => "Disconnected" end.
Definition ConnectionDirection_as_ref (d : ConnectionDirection) : string :=
  match d with Incoming => "incoming" | Outgoing => "outgoing" end.
Definition RPCResponseErrorCode_into (c : RPCResponseErrorCode) : string :=
  match c with
  | RateLimited => "rate_limited" | InvalidRequest => "invalid_request" | ServerError => "server_error"
  | ResourceUnavailable => "resource_unavailable" | UnknownCode => "unknown"
  end.

Section labels.
Context `{External}.

(** The derived [From<&RPCError> for &str]. *)
Definition RPCError_into (e : RPCError) : string :=
  match e with
  | SSZDecodeError _ => "decode_error" | IoError _ => "io_error" | ErrorResponse _ _ => "error_response"
  | StreamTimeout => "stream_timeout" | UnsupportedProtocol => "unsupported_protocol"
  | IncompleteStream => "incomplete_stream" | InvalidData _ => "invalid_data" | InternalError _ => "internal_error"
  | NegotiationTimeout => "negotiation_timeout" | HandlerRejected => "handler_rejected" | Disconnected_ => "disconnected"
  end.
Definition as_static_str (e : RPCError) : string :=
  match e with ErrorResponse code _ => RPCResponseErrorCode_into code | e => RPCError_into e end.

(** Two errors of one kind: the same constructor, and the same code when a peer answered with an error. *)
Definition same_kind (e e' : RPCError) : bool :=
  match e, e' with
  | SSZDecodeError _, SSZDecodeError _ | IoError _, IoError _ | StreamTimeout, StreamTimeout
  | UnsupportedProtocol, UnsupportedProtocol | IncompleteStream, IncompleteStream | InvalidData _, InvalidData _
  | InternalError _, InternalError _ | NegotiationTimeout, NegotiationTimeout | HandlerRejected, HandlerRejected
  | Disconnected_, Disconnected_ => true
  | ErrorResponse c _, ErrorResponse c' _ => bool_decide (RPCResponseErrorCode_into c = RPCResponseErrorCode_into c')
  | _, _ => false
  end.

Lemma static_str_kind e e' : as_static_str e = as_static_str e' <-> same_kind e e' = true.
Proof.
  destruct e as [| | [] msg | | | | | | | | ], e' as [| | [] msg' | | | | | | | | ]; cbn;
    try rewrite bool_decide_eq_true; split; congruence.
Qed.
Lemma error_code_label c c' : RPCResponseErrorCode_into c = RPCResponseErrorCode_into c' <-> c = c'.
Proof. split; [by destruct c, c'|by intros ->]. Qed.

End labels.

(** ** Reports, counted *)

Section reports.
Context `{External} `{Libm} `{!SetIter Multiaddr} `{!MapIter PeerId PeerInfo} `{!HashSetDelay PeerId} `{Prometheus}.

Record ReportMetrics : Type := mkReportMetrics {
  REPORT_PEER_MSGS : MetricVec Z;
  PEER_ACTION_EVENTS_PER_CLIENT : MetricVec Z;
  TOTAL_RPC_ERRORS_PER_CLIENT : MetricVec Z;
}.

(** [PeerDB::report_peer] with its counters. *)
Definition report_peer_metered (now : Instant) (p : PeerId) (action : PeerAction) (source : ReportSource) (msg : string)
    (db : PeerDB) (x : ReportMetrics) : ScoreUpdateResult * PeerDB * ReportMetrics :=
  let 'mkReportMetrics msgs events errors := x in
  let msgs := inc_counter_vec msgs [msg] in
  let events := match peers db !! p with
                | Some i => inc_counter_vec events [ClientKind_as_ref (kind (client i)); PeerAction_as_ref action; ReportSource_into source]
                | None => events
                end in
  (report_peer now p action db, mkReportMetrics msgs events errors).

Definition pm_report_peer_metered (now : Instant) (p : PeerId) (action : PeerAction) (source : ReportSource)
    (reason : option GoodbyeReason) (msg : string) (m : PeerManager) (x : ReportMetrics) : outcome (PeerManager * ReportMetrics) :=
  let '(result, db, x) := report_peer_metered now p action source msg (pm_peers m) x in
  m' <-! handle_score_action now p result reason (set_peers db m);
  Ret (m', x).

Definition goodbye_peer_metered (now : Instant) (p : PeerId) (reason : GoodbyeReason) (source : ReportSource)
    (m : PeerManager) (x : ReportMetrics) : outcome (PeerManager * ReportMetrics) :=
  pm_report_peer_metered now p Fatal source (Some reason) "goodbye_peer" m x.

(** [NetworkGlobals::client]. *)
Definition globals_client (db : PeerDB) (p : PeerId) : Client :=
  match peers db !! p with Some i => client i | None => Client_default end.

Definition handle_rpc_error_metered (now : Instant) (p : PeerId) (protocol : Protocol) (err : RPCError)
    (direction : ConnectionDirection) (m : PeerManager) (x : ReportMetrics) : outcome (PeerManager * ReportMetrics) :=
  let 'mkReportMetrics msgs events errors := x in
  let errors := inc_counter_vec errors
    [ClientKind_as_ref (kind (globals_client (pm_peers m) p)); as_static_str err; ConnectionDirection_as_ref direction] in
  let x := mkReportMetrics msgs events errors in
  match rpc_error_action protocol err direction with
  | Some action => pm_report_peer_metered now p action SrcRPC None "handle_rpc_error" m x
  | None => Ret (m, x)
  end.

Definition count (v : MetricVec Z) (labels : list string) : Z := default 0 (get_metric v labels).
(** Families that are registered, with these numbers of labels. *)
Definition counters_ok (n : nat) (v : MetricVec Z) : Prop := forall labels, length labels = n -> is_Some (get_metric v labels).
Definition reports_ok (x : ReportMetrics) : Prop :=
  counters_ok 1 (REPORT_PEER_MSGS x) /\ counters_ok 3 (PEER_ACTION_EVENTS_PER_CLIENT x) /\
  counters_ok 3 (TOTAL_RPC_ERRORS_PER_CLIENT x).
(** [n] more of the metric with labels [l], none of the others. *)
Definition counted (v v' : MetricVec Z) (l : list string) (n : Z) : Prop :=
  forall l', count v' l' = if decide (l = l') then wrap u64 (count v l' + n) else count v l'.

Lemma inc_counter_vec_counted n v l : counters_ok n v -> length l = n -> counted v (inc_counter_vec v l) l 1.
Proof.
  intros Hok Hn l'. unfold count, inc_counter_vec. rewrite get_update. case_decide as E; [|done].
  subst l'. destruct (Hok _ Hn) as (a & Ha). by rewrite Ha.
Qed.
Lemma inc_counter_vec_ok n v l : counters_ok n v -> length l = n -> counters_ok n (inc_counter_vec v l).
Proof.
  intros Hok Hn l' Hl. unfold inc_counter_vec. rewrite get_update. case_decide as E; [|by apply Hok].
  destruct (Hok _ Hn) as (a & Ha). rewrite Ha. by eexists.
Qed.

(** A report counts its message, and the action under the client, the action and the source when the peer
    is known; the peer manager ends as without the counters. *)
Lemma report_counted now p action source reason msg m x : reports_ok x ->
  match pm_report_peer_metered now p action source reason msg m x with
  | Ret (m', x') =>
      pm_report_peer now p action reason m = Ret m' /\ reports_ok x' /\
      counted (REPORT_PEER_MSGS x) (REPORT_PEER_MSGS x') [msg] 1 /\
      match peers (pm_peers m) !! p with
      | Some i => counted (PEER_ACTION_EVENTS_PER_CLIENT x) (PEER_ACTION_EVENTS_PER_CLIENT x')
          [ClientKind_as_ref (kind (client i)); PeerAction_as_ref action; ReportSource_into source] 1
      | None => PEER_ACTION_EVENTS_PER_CLIENT x' = PEER_ACTION_EVENTS_PER_CLIENT x
      end /\
      TOTAL_RPC_ERRORS_PER_CLIENT x' = TOTAL_RPC_ERRORS_PER_CLIENT x
  | Panic s => pm_report_peer now p action reason m = Panic s
  end.
Proof.
  destruct x as [msgs events errors]. intros (H1' & H2' & H3'). cbn in *.
  unfold pm_report_peer_metered, pm_report_peer, report_peer_metered.
  destruct (report_peer now p action (pm_peers m)) as [result db].
  destruct (handle_score_action now p result reason (set_peers db m)) as [m'|]; cbn; [|done].
  repeat split; cbn; try done; try (by apply inc_counter_vec_ok); try (by eapply inc_counter_vec_counted).
  - destruct (peers (pm_peers m) !! p); [by apply inc_counter_vec_ok|done].
  - destruct (peers (pm_peers m) !! p); [by eapply inc_counter_vec_counted|done].
Qed.

(** An RPC error is counted once, under the peer's client, the kind of the error and the direction of the
    request, and under no other labels; errors of different kinds have different labels. A penalty,
    and only a penalty, is counted as a message of [handle_rpc_error] and, when the peer is known, as an action with the source
    [rpc_error]. The peer manager ends as it does without metrics, or panics with it. *)
Theorem rpc_error_accounted now p protocol err direction m x : reports_ok x ->
  (forall err', as_static_str err = as_static_str err' <-> same_kind err err' = true) /\
  match handle_rpc_error_metered now p protocol err direction m x with
  | Ret (m', x') =>
      handle_rpc_error now p protocol err direction m = Ret m' /\ reports_ok x' /\
      counted (TOTAL_RPC_ERRORS_PER_CLIENT x) (TOTAL_RPC_ERRORS_PER_CLIENT x')
        [ClientKind_as_ref (kind (globals_client (pm_peers m) p)); as_static_str err; ConnectionDirection_as_ref direction] 1 /\
      match rpc_error_action protocol err direction, peers (pm_peers m) !! p with
      | Some action, Some i => counted (REPORT_PEER_MSGS x) (REPORT_PEER_MSGS x') ["handle_rpc_error"] 1 /\
          counted (PEER_ACTION_EVENTS_PER_CLIENT x) (PEER_ACTION_EVENTS_PER_CLIENT x')
            [ClientKind_as_ref (kind (client i)); PeerAction_as_ref action; "rpc_error"] 1
      | Some _, None => counted (REPORT_PEER_MSGS x) (REPORT_PEER_MSGS x') ["handle_rpc_error"] 1 /\
          PEER_ACTION_EVENTS_PER_CLIENT x' = PEER_ACTION_EVENTS_PER_CLIENT x
      | None, _ => m' = m /\ REPORT_PEER_MSGS x' = REPORT_PEER_MSGS x /\
          PEER_ACTION_EVENTS_PER_CLIENT x' = PEER_ACTION_EVENTS_PER_CLIENT x
      end
  | Panic s => handle_rpc_error now p protocol err direction m = Panic s
  end.
Proof.
  intros Hx. split; [apply static_str_kind|]. destruct x as [msgs events errors], Hx as (H1' & H2' & H3'). cbn in H1', H2', H3'.
  unfold handle_rpc_error_metered, handle_rpc_error.
  set (labels := [_; as_static_str err; _]).
  assert (reports_ok (mkReportMetrics msgs events (inc_counter_vec errors labels))) as Hx
    by (repeat split; cbn; try done; by apply inc_counter_vec_ok).
  destruct (rpc_error_action protocol err direction) as [action|].
  - pose proof (report_counted now p action SrcRPC None "handle_rpc_error" m _ Hx) as Hr.
    destruct (pm_report_peer_metered _ _ _ _ _ _ _ _) as [ [m' x']|]; [|exact Hr]. destruct Hr as (Hm & Hx' & Hmsg & Hev & Herr).
    split; [done|]. split; [done|]. split; [rewrite Herr; by eapply inc_counter_vec_counted|].
    destruct (peers (pm_peers m) !! p); done.
  - repeat split; try done; try apply Hx. by eapply inc_counter_vec_counted.
Qed.
End reports.

(** ** The status of a connection, serialised *)

Inductive JsonField : Type := FieldStr (s : string) | FieldNum (n : Z) | FieldIps (ips : list IpAddr).
(** [Serialize for PeerConnectionStatus] at the time [now]: the name, the number of fields announced and
    the fields written. *)
Definition PeerConnectionStatus_serialize (now : Instant) (s : PeerConnectionStatus) : string * Z * list (string * JsonField) :=
  let elapsed (since : Instant) := as_secs (Z.max 0 (now - since)) in
  let fields (status : string) (n_in n_out last_seen : Z) :=
    [("status", FieldStr status); ("connections_in", FieldNum n_in); ("connections_out", FieldNum n_out); ("last_seen", FieldNum last_seen)] in
  ("connection_status", 6,
   match s with
   | Connected n_in n_out => fields "connected" n_in n_out 0
   | Disconnecting _ => fields "disconnecting" 0 0 0
   | Disconnected since => fields "disconnected" 0 0 (elapsed since) ++ [("banned_ips", FieldIps [])]
   | Banned since => fields "banned" 0 0 (elapsed since)
   | Dialing since => fields "dialing" 0 0 (elapsed since)
   | Unknown => fields "unknown" 0 0 0
   end).

(** What a reader of the fields can tell: the status with the numbers of connections, or the seconds since. *)
Inductive StatusView : Type :=
| ViewConnected (n_in n_out : Z) | ViewDisconnecting | ViewDisconnected (secs : Z) | ViewBanned (secs : Z) | ViewDialing (secs : Z) | ViewUnknown.
Definition status_view (now : Instant) (s : PeerConnectionStatus) : StatusView :=
  match s with
  | Connected n_in n_out => ViewConnected n_in n_out
  | Disconnecting _ => ViewDisconnecting
  | Disconnected since => ViewDisconnected (as_secs (Z.max 0 (now - since)))
  | Banned since => ViewBanned (as_secs (Z.max 0 (now - since)))
  | Dialing since => ViewDialing (as_secs (Z.max 0 (now - since)))
  | Unknown => ViewUnknown
  end.

(** The fields determine exactly the status, its counts and its age in seconds: neither the
    intention to ban nor a part of a second. Six fields are announced and at most five are written. *)
Theorem status_serialised now s s' :
  (PeerConnectionStatus_serialize now s = PeerConnectionStatus_serialize now s' <-> status_view now s = status_view now s') /\
  let '(_, announced, fields) := PeerConnectionStatus_serialize now s in
  Z.of_nat (length fields) < announced /\
  take 4 (map fst fields) = ["status"; "connections_in"; "connections_out"; "last_seen"].
Proof.
  split; [|by destruct s].
  split.
  - destruct s, s'; unfold PeerConnectionStatus_serialize, status_view; cbn [app]; intros [=]; congruence.
  - destruct s, s'; unfold PeerConnectionStatus_serialize, status_view; intros [=]; cbv zeta; congruence.
Qed.

(** ** Entries of the log *)

(** A value given to a [slog::Serializer]. An [impl slog::KV] is modelled by the entries it emits in order;
    the first that the serializer refuses ends it. *)
Inductive SlogValue : Type := SlogArguments (s : string) | SlogStr (s : string) | SlogU16 (n : Z) | SlogUsize (n : Z).
Definition Entries : Type := list (string * SlogValue).

(** [slog::KV for ListenAddress]. *)
Definition ListenAddress_serialize (l : ListenAddress) : Entries :=
  match listen_v4 l with
  | Some v4_addr => [("ip4_address", SlogArguments (Ipv4Addr_display (addr v4_addr))); ("disc4_port", SlogU16 (disc_port v4_addr));
                     ("quic4_port", SlogU16 (quic_port v4_addr)); ("tcp4_port", SlogU16 (tcp_port v4_addr))]
  | None => []
  end ++
  match listen_v6 l with
  | Some v6_addr => [("ip6_address", SlogArguments (Ipv6Addr_display (addr v6_addr))); ("disc6_port", SlogU16 (disc_port v6_addr));
                     ("quic6_port", SlogU16 (quic_port v6_addr)); ("tcp6_port", SlogU16 (tcp_port v6_addr))]
  | None => []
  end.

Lemma octet_range a i : 0 <= octet a i <= 255.
Proof. unfold octet. change 255 with (Z.ones 8). rewrite Z.land_ones by lia. pose proof (Z.mod_pos_bound (Z.shiftr a (8 * (3 - i))) (2 ^ 8)). change (Z.ones 8) with (2 ^ 8 - 1). lia. Qed.
Lemma octets_value a : 0 <= a < 2 ^ 32 -> ((octet a 0 * 256 + octet a 1) * 256 + octet a 2) * 256 + octet a 3 = a.
Proof.
  intros Ha. unfold octet. change 255 with (Z.ones 8). rewrite !Z.land_ones by lia. rewrite !Z.shiftr_div_pow2 by lia.
  change (2 ^ 8) with 256. change (2 ^ (8 * (3 - 0))) with 16777216. change (2 ^ (8 * (3 - 1))) with 65536.
  change (2 ^ (8 * (3 - 2))) with 256. change (2 ^ (8 * (3 - 3))) with 1. change (2 ^ 32) with 4294967296 in Ha.
  rewrite Z.div_1_r. Z.div_mod_to_equations. lia.
Qed.
Lemma Ipv4Addr_display_inj a b : 0 <= a < 2 ^ 32 -> 0 <= b < 2 ^ 32 -> Ipv4Addr_display a = Ipv4Addr_display b -> a = b.
Proof.
  intros Ha Hb E. pose proof (octet_range a) as Ra. pose proof (octet_range b) as Rb.
  apply (f_equal IpAddr_from_str) in E. unfold Ipv4Addr_display in E. rewrite !ipv4_text_roundtrip in E by done.
  rewrite !octets_value in E by done. congruence.
Qed.

(** The entries tell on which families a node listens, on which ports, and on which IPv4 address. *)
Theorem listening_logged l l' :
  (forall a, listen_v4 l = Some a -> 0 <= addr a < 2 ^ 32) -> (forall a, listen_v4 l' = Some a -> 0 <= addr a < 2 ^ 32) ->
  ListenAddress_serialize l = ListenAddress_serialize l' ->
  listen_v4 l = listen_v4 l' /\
  option_map (fun a => (disc_port a, quic_port a, tcp_port a)) (listen_v6 l) =
  option_map (fun a => (disc_port a, quic_port a, tcp_port a)) (listen_v6 l').
Proof.
  intros Hl Hl'. destruct l as [ [a d q t]| [a6 d6 q6 t6]| [a d q t] [a6 d6 q6 t6] ], l' as [ [b e r u]| [b6 e6 r6 u6]| [b e r u] [b6 e6 r6 u6] ];
    cbn in *; try discriminate; intros [=]; subst; split; try done; do 2 f_equal;
    (apply Ipv4Addr_display_inj; [apply (Hl _ eq_refl)|apply (Hl' _ eq_refl)|done]).
Qed.

Section texts.
Context `{External} `{!PeerIdText} `{!DebugText}.

(** [slog::KV for RPCMessage]. *)
Definition RPCMessage_serialize {Id} (m : RPCMessage Id) : Entries :=
  let '(msg_kind, protocol) :=
    match msg_event m with
    | Ok (RecvRequest _ req) => ("request", SupportedProtocol_protocol (Inbound_versioned_protocol req))
    | Ok (RecvResponse _ res) => ("response", RPCResponse_protocol res)
    | Ok (EndOfStream _ TermPooledUserOpHashes) => ("end_of_stream", PooledUserOpHashesProtocol)
    | Ok (EndOfStream _ TermPooledUserOpsByHash) => ("end_of_stream", PooledUserOpsByHashProtocol)
    | Err (ErrInbound _ proto _) => ("inbound_err", proto)
    | Err (ErrOutbound _ proto _) => ("outbound_err", proto)
    end in
  [("peer_id", SlogArguments (peer_id_to_string (msg_peer_id m))); ("msg_kind", SlogStr msg_kind);
   ("protocol", SlogArguments (Protocol_as_ref protocol))].

(** [slog::KV for StatusMessage], [slog::Value] for a request id, given the [Debug] text of the application's. *)
Definition StatusMessage_serialize (debug_h256 : Z -> string) (s : StatusMessage) : Entries :=
  [("chain_id", SlogArguments (dec (chain_id s))); ("block_hash", SlogArguments (debug_h256 (block_hash s)));
   ("block_number", SlogArguments (dec (block_number s)))].
Definition RequestId_serialize {A} (debug_id : A -> string) (key : string) (id : RequestId A) : Entries :=
  match id with Internal => [(key, SlogStr "Behaviour")] | Application id => [(key, SlogArguments (debug_id id))] end.

Definition PubsubMessage_display (m : PubsubMessage) : string :=
  match m with PubsubVerifiedUserOperation _ => "UserOperations With EntryPoint" end.

(** [Formatter::debug_struct]. *)
Definition debug_struct (name : string) (fields : list (string * string)) : string :=
  let entry '(k, v) := k +:+ ": " +:+ v in
  match map entry fields with
  | [] => name
  | f :: fs => name +:+ " { " +:+ foldl (fun acc g => acc +:+ ", " +:+ g) f fs +:+ " }"
  end.
Definition debug_option (o : option string) : string := match o with Some s => "Some(" +:+ s +:+ ")" | None => "None" end.

(** [Debug for SubnetQuery] at the time [now], given the derived one of [Subnet]. *)
Definition SubnetQuery_debug (debug_subnet : Subnet -> string) (now : Instant) (q : SubnetQuery) : string :=
  let min_ttl_secs := option_map (fun ttl => dec (as_secs (Z.max 0 (ttl - now)))) (sq_min_ttl q) in
  debug_struct "SubnetQuery"
    [("subnet", debug_subnet (sq_subnet q)); ("min_ttl_secs", debug_option min_ttl_secs); ("retries", dec (sq_retries q))].

(** [Debug for RateLimiterConfig]. *)
Definition RateLimiterConfig_debug (c : RateLimiterConfig) : string :=
  let fmt_q q := dec (max_tokens q) +:+ "/" +:+ dec (as_secs (replenish_all_every q)) +:+ "s" in
  debug_struct "RateLimiterConfig"
    [("ping", fmt_q (cfg_ping_quota c)); ("metadata", fmt_q (cfg_meta_data_quota c)); ("status", fmt_q (cfg_status_quota c));
     ("goodbye", fmt_q (cfg_goodbye_quota c)); ("pooled_user_op_hashes", fmt_q (cfg_pooled_user_op_hashes_quota c));
     ("pooled_user_ops_by_hash", fmt_q (cfg_pooled_user_ops_by_hash_quota c))].
End texts.

(** ** Dial errors *)

(** [dyn std::error::Error]: its text, and the source of one that has a source. *)
Inductive StdError : Type := RootError (text : string) | CausedError (text : string) (source : StdError).
Definition error_text (e : StdError) : string := match e with RootError t | CausedError t _ => t end.
Definition error_source (e : StdError) : option StdError := match e with RootError _ => None | CausedError _ s => Some s end.

Inductive TransportError : Type := MultiaddrNotSupported (multiaddr : string) | Other (e : StdError).
(** [libp2p]'s [DialError], with the texts of what the display prints. *)
Inductive LibDialError : Type :=
| DialTransport (errors : list (string * TransportError))
| DialLocalPeerId | DialNoAddresses | DialConditionFalse | DialAborted | DialWrongPeerId | DialDenied (debug_cause : string).

(** The loop of [most_inner_error] over the sources. *)
Fixpoint most_inner_error (err : StdError) : StdError :=
  match err with
  | CausedError _ source => most_inner_error source
  | RootError _ => err
  end.

Definition ClearDialError_display (e : LibDialError) : string :=
  match e with
  | DialTransport errors =>
      foldl (fun acc '(_, transport_error) =>
        acc +:+ match transport_error with
                | MultiaddrNotSupported multiaddr_error => "Multiaddr not supported: " +:+ multiaddr_error
                | Other other_error => "Transport error: " +:+ error_text (most_inner_error other_error)
                end) "" errors
  | DialLocalPeerId => "The peer being dialed is the local peer."
  | DialNoAddresses => "No addresses for the peer to dial."
  | DialConditionFalse => "PeerCondition evaluation failed."
  | DialAborted => "Connection aborted."
  | DialWrongPeerId => "Wrong peer id."
  | DialDenied cause => "Connection denied: " +:+ cause
  end.

(** The chain of sources, as a relation. *)
Inductive caused_by : StdError -> StdError -> Prop :=
| caused_refl e : caused_by e e
| caused_step e s c : error_source e = Some s -> caused_by s c -> caused_by e c.

(** The loop ends at the one error of the chain that has no source. *)
Theorem most_inner_unique err c : caused_by err c /\ error_source c = None <-> c = most_inner_error err.
Proof.
  induction err as [t|t s IH]; cbn.
  - split; [|intros ->; split; [constructor|done] ]. intros [Hc _]. inversion Hc as [|e s' c' Hs Hc']; [done|discriminate Hs].
  - rewrite <- IH. split.
    + intros [Hc Hn]. inversion Hc as [|e s' c' Hs Hc']; subst; [discriminate Hn|]. cbn in Hs. by injection Hs as ->.
    + intros [Hc Hn]. split; [by eapply caused_step|done].
Qed.

Section demo.
#[local] Existing Instance demo_external.
#[local] Existing Instance demo_libm.
#[local] Existing Instance demo_addrs.
#[local] Existing Instance demo_peers.
#[local] Existing Instance demo_prometheus.
#[local] Instance demo_label_timers : HashSetDelay PeerId := demo_delay_set PeerId.

Definition demo_reports : ReportMetrics :=
  mkReportMetrics (Ok (family_new ["msg"] 0)) (Ok (family_new ["client"; "action"; "source"] 0))
    (Ok (family_new ["client"; "rpc_error"; "direction"] 0)).
Definition demo_reported : PeerManager :=
  let m := PeerManager_new (mkConfig false true 50 300 20 15) (PeerDB_new [] false) in
  set_peers (set_peer demo_peer (set_connection_status (Connected 1 0) (PeerInfo_default 0)) (pm_peers m)) m.

Lemma demo_reports_ok : reports_ok demo_reports.
Proof. repeat split; intros labels Hl; vm_compute in Hl |- *; rewrite Hl; by eexists. Qed.

Lemma rpc_error_accounted_witness :
  match handle_rpc_error_metered 5 demo_peer PingProtocol StreamTimeout Outgoing demo_reported demo_reports with
  | Ret (_, x') => count (TOTAL_RPC_ERRORS_PER_CLIENT x') ["Unknown"; "stream_timeout"; "outgoing"] = 1
  | Panic _ => False
  end.
Proof.
  pose proof (rpc_error_accounted 5 demo_peer PingProtocol StreamTimeout Outgoing demo_reported demo_reports demo_reports_ok) as [_ Hr].
  assert (is_ret (handle_rpc_error_metered 5 demo_peer PingProtocol StreamTimeout Outgoing demo_reported demo_reports) = true) as Hret by (vm_compute; reflexivity).
  destruct (handle_rpc_error_metered 5 demo_peer PingProtocol StreamTimeout Outgoing demo_reported demo_reports) as [ [m' x']|]; [|discriminate Hret].
  destruct Hr as (_ & _ & Hc & _). rewrite (Hc ["Unknown"; "stream_timeout"; "outgoing"]). vm_compute. reflexivity.
Defined.
End demo.

Example demo_listening : ListenAddress_serialize (ListenV4 (mkListenAddr 2130706433 9000 9001 9000)) =
  [("ip4_address", SlogArguments "127.0.0.1"); ("disc4_port", SlogU16 9000); ("quic4_port", SlogU16 9001); ("tcp4_port", SlogU16 9000)].
Proof. vm_compute. reflexivity. Qed.
Example demo_config_debug : RateLimiterConfig_debug RateLimiterConfig_default =
  "RateLimiterConfig { ping: 2/10s, metadata: 2/5s, status: 5/15s, goodbye: 1/10s, pooled_user_op_hashes: 1024/10s, pooled_user_ops_by_hash: 128/10s }".
Proof. vm_compute. reflexivity. Qed.
Lemma listening_logged_witness :
  let l := ListenV4 (mkListenAddr 2130706433 9000 9001 9000) in listen_v4 l = listen_v4 l.
Proof. cbv zeta. apply (listening_logged (ListenV4 (mkListenAddr 2130706433 9000 9001 9000)) (ListenV4 (mkListenAddr 2130706433 9000 9001 9000))); [by intros a [= <-]..|reflexivity]. Defined.
